(* ===== verification/_CoqProject ===== *)
-Q . S2P
Prelude.v
F64.v
Str.v
Errors.v
Metrics.v
Geo.v
Domain.v
Auth.v
Configs.v
Registry.v
RegistryRace.v
RegistrySteps.v
Redis.v
World.v
Interleave.v
Stores.v
Lease.v
Refresher.v
Db.v
Nats.v
Telemetry.v
Routing.v
Worker.v
Replay.v
Fanout.v
Ws.v
Session.v
Delivery.v
ConnectionMetrics.v
WorkerApp.v
Retention.v
RetentionTask.v
DeviceService.v
Requests.v
RequestRaces.v
Dispatch.v
Http.v
HttpSpec.v
EndToEnd.v
Loadgen.v
