(* ===== verification/Prelude.v ===== *)
(** * PulseGrid: a verification library for the geo-sharded alert fan-out

    PulseGrid sends emergency alerts to devices by position. Operators post an
    alert (a circle on the map) to the coordinator (crates/api-coordinator). The
    coordinator turns the circle into a set of geohash cells (the shards), stores
    the alert in Postgres and publishes it on one NATS subject per shard. A
    fan-out worker (crates/fanout-worker) owns some shards by a lease in Redis,
    holds the WebSocket connections of the devices in them, and puts an alert
    into the queue of every connection inside the circle. A device that was
    offline gets what it missed by a replay from the durable stream, starting at
    its last acknowledgement.

    ** How the model is built

    Pure Rust functions are Rocq functions on the same data: an [f64] is an IEEE
    double ([F64], on the Standard Library's [spec_float]), a string is its
    bytes, a [u64] or [i64] is a [Z] with its wrap-around written out, a time is
    in nanoseconds, a map is a [gmap]. An asynchronous function that calls Redis,
    Postgres or NATS is a computation on the [World] ([World]: the keyspace, the
    tables, the published messages, the durable stream). Before every external
    call the environment [Env] decides whether it works, fails without effect, or
    fails after its effect; errors are values of [result]. So a theorem about all
    environments is a theorem about all failures. Concurrent parts are steps:
    the scripts of Redis run atomically and any interleaving of clients is a list
    of operations; requests that run at the same time are cut at their calls
    ([Interleave]) and their calls take place in any order; a worker's connections
    are steps of a node ([Session]): the handler's stretches between two awaits,
    the rounds of its tasks, their cancellation, and what the subscriptions do;
    the telemetry feed is a step function. A node takes an operation of the
    connection registry as one step; [RegistryRace] and [RegistrySteps] cut these
    operations into the steps that other threads can see. Each such cut comes with
    a theorem that it computes what the operation in one piece does when nothing
    interferes.

    What is not in the repository is a parameter, a class with the operations
    the code calls, with the documented behaviour the theorems use in a second
    class of laws, and with an instance that satisfies them: [Libm]/[LibmLaws],
    [Geohash], [HashOrder], [UuidCodec], [Wire]/[WireLaws] (serde_json),
    [Jwt]/[JwtLaws], [RedisServer]/[RedisLaws], [JetStream], [PgMath],
    [TableScan], [Unordered] (the completion order of concurrent publishes),
    [MapOrder] (the iteration order of a map), [Broadcast]/[BroadcastLaws]
    (tokio's channel), [HttpLib]/[HttpLibLaws] and [WorkerHttp] (axum, validator,
    tower_governor), [Servers] and [Quantiles] (the load generator's clients and
    histogram). The witnesses run the theorems on these instances.

    The laws promise no more than these libraries do. A double read back from JSON
    need not be the one that was written: [json_f64] and [record_f64] are what
    serde_json makes of it, and the theorems speak of the alert or record as read
    ([reread_alert], [reread_record]). A fetch from the stream may end with the first
    few messages of its batch when it expires; [whole_batch] says that it did not.
    A verifier accepts a token only if the token has the claims it requires. A
    broadcast channel keeps at least the capacity it was asked for.

    ** Files

    Foundations
    - [Prelude]: the [result] type and its notations, the tactics and hint
      databases, generic lemmas on lists, options, maps and integers.
    - [F64], [Str]: IEEE arithmetic; the string functions of Rust's library.
    - [Routing]: requests, headers and routers, shared by both applications.

    Domain (crates/domain)
    - [Errors]: errors.rs and the coordinator's errors.rs.
    - [Geo]: geo.rs: ring search, prune, bounding boxes, distance.
    - [Domain]: device.rs, alert.rs, protocol.rs.
    - [Auth]: auth.rs: tokens, tickets, secrets, operator keys.

    Infrastructure (crates/infra)
    - [Metrics]: metrics.rs and both sets of metrics.
    - [Redis], [Stores]: the server, and redis.rs with its Lua scripts.
    - [World], [Db]: the effects, and db.rs, a function on tables per statement.
    - [Interleave]: computations cut at their calls, and pools of them.
    - [Nats]: nats.rs: publishing and the replay query.

    Worker (crates/fanout-worker)
    - [Configs]: config.rs and rate_limit.rs (and those of the coordinator).
    - [Registry]: connection_registry.rs, an operation at a time; [RegistryRace],
      [RegistrySteps]: the same with the operations of many threads interleaved.
    - [Lease], [Refresher]: lease.rs; the renewals over time among other workers.
    - [Worker]: lib.rs and ops.rs. [Replay]: replay.rs.
    - [Fanout]: subscriber.rs and control.rs. [Ws]: ws.rs, in one piece.
    - [Session]: the life of a connection in ws.rs and of its replay task, step by
      step; [Delivery]: what its writer sends; [ConnectionMetrics]: the gauge and
      the counter of connections.
    - [WorkerApp]: the router of lib.rs and the shutdown of main.rs.

    Coordinator (crates/api-coordinator)
    - [Retention], [DeviceService], [Dispatch], [Telemetry]: the services;
      [RetentionTask]: the retention task over many sweeps.
    - [Requests], [RequestRaces]: the device service and the authorization of
      connections, interleaved.
    - [Http]: handlers, extractors, routes, middleware, lib.rs; [HttpSpec]: its
      theorems.
    - [EndToEnd]: coordinator and worker together.

    Load generator (crates/loadgen)
    - [Loadgen]: main.rs: set-up, posting, receiving and counting.

    ** What the theorems show

    - Delivery. An accepted dispatch is in the durable stream for every shard it
      reports, the owning worker queues it for exactly the devices inside the
      circle that have room, a running writer sends its queue in order and without
      loss, whatever else happens on the worker, and a device that was offline is
      sent the alert on its socket when it reconnects and its replay is not cut
      short ([EndToEnd], [Dispatch], [Fanout], [Delivery]); the routing returns
      exactly the cells in reach, always terminates, and never hits an error exit
      within its bounds ([Geo]); a replay returns the newer readable alerts in
      order, all of them when its batch is whole, and delivers them ([Nats],
      [Replay]); cursors only advance ([Stores]).
    - The registry implements one map from devices to connections ([Registry]).
    - Connections. Every registry entry belongs to a handler that will give it
      back: in both indexes when the operations on a device do not overlap, in the
      device index always ([Session], [RegistrySteps]). Every handler ends, the
      acknowledgements of a client that left are stored, and a silent client is
      dropped in time ([Session]).
    - Exclusion. A shard has one holder, a refused start-up frees what it took, a
      shutdown hands them over, a worker that renews keeps its shards, and those
      of a dead worker become free ([Lease], [Refresher], [WorkerApp]); a ticket
      opens one connection, however the attempts interleave ([Ws], [Requests]).
    - Stores. Rows and location records stay readable and consistent in any
      interleaving of requests ([Requests]).
    - Access. Operator routes and device routes do nothing without a key or a
      live token, and a revoked token stays refused ([HttpSpec]); a connection is
      only accepted when every check succeeded ([Ws]), and never for a device whose
      revocation is in force, whatever runs at the same time ([Requests]); keys, tokens and
      configurations are validated ([Auth], [Configs]).
    - Failures. Registration rolls back, deletion revokes first, dispatch errors
      leave no trace, sweeps delete only stale rows and end, and the retention task
      keeps up with its backlog though sweeps fail ([DeviceService], [Dispatch],
      [Retention], [RetentionTask]).
    - Observation. Each response is counted once and carries a safe identifier
      ([HttpSpec]); the connection metrics are the numbers of connections, up to
      what a scrape does to the gauge ([ConnectionMetrics]); a dashboard misses no
      report silently ([Telemetry]); the numbers of a load test add up ([Loadgen]).
    - Flaws. Theorems exhibit runs in which the code does not do what its comments
      say: overlapping registrations of one device, which also leave an entry behind
      ([RegistryRace]), the clean-up of presence records ([Ws]), a location update
      that fails half-way ([DeviceService]), a heartbeat that writes back the
      location of a deleted or a moved device ([RequestRaces]), a replay whose fetch
      expires and that reports itself complete ([Replay]), and settings without an
      upper bound ([Configs]).

    ** Bounds and fuel

    Recursion is structural nearly everywhere. The ring search runs for the number
    of rings the code computes, at most its limit of rings; the purge loop runs
    for the code's own bound on batches; trimming a string uses its length, since
    every step drops a byte. Nothing else has fuel, and no theorem assumes that
    fuel suffices. Queue capacities, batch sizes, limits and times to live are the
    constants of the source. The theorems on runs of a node hold for fewer than
    2^64 events, so that the connection numbers, a [u64], do not wrap.

    ** Not modelled

    - The printing and the timers of the load generator.
    - Process set-up: logging, TLS provider, sockets, signals, task spawning (both
      main.rs and the corresponding parts of lib.rs; the shutdown order of the
      worker is modelled).
    - migrations/*.sql: the constraints they declare are part of the statements of
      [Db]; the dashboard's browser files are opaque texts.
    - Log lines, and the timers: when a tick, a timeout or a grace period ends is
      an event, and theorems on time assume what they need of the ticks.
    - The order in which a [tokio::join!] or a spawned report interleaves with its
      parent is fixed to program order. Interleavings at every call are modelled
      for the device service, the purge of devices, the authorization of
      connections and the life of a connection; elsewhere (dispatch, sweeps,
      renewals) what the theorems need of other clients in between is a hypothesis
      on what they do. A query of the stream by the replay task is one step.
    - The panics of chrono: sums of times and the lengths of periods are computed
      exactly, also where [Duration::hours] and [Duration::days] panic. The widths of
      the VARCHAR columns. What a layer of a route does before the answer to an
      unknown method. *)

From stdpp Require Export base tactics option list gmap strings sorting.
From Stdlib Require Export ZArith Lia.
From Stdlib Require Ascii.
Export Ascii.AsciiSyntax.

#[export] Set Warnings "-clear-no-such-hyp".

(** ** Results and the question-mark operator

    [result A E] is Rust's [Result<A, E>]; [let? x := c in k] is
    [let x = c?; k]. *)

Inductive result (A E : Type) : Type :=
| Ok (a : A)
| Err (e : E).
Arguments Ok {A E} a.
Arguments Err {A E} e.

Declare Scope rust_scope.
Delimit Scope rust_scope with rust.

Notation "'let?' x ':=' c 'in' k" :=
  (match c with Ok x => k | Err e => Err e end)
  (at level 10, x pattern, c at level 200, k at level 200) : rust_scope.
Open Scope rust_scope.

Definition map_err {A E F} (f : E → F) (r : result A E) : result A F :=
  match r with Ok a => Ok a | Err e => Err (f e) end.

Definition result_map {A B E} (f : A → B) (r : result A E) : result B E :=
  match r with Ok a => Ok (f a) | Err e => Err e end.

(** [Result::ok]. *)
Definition result_ok {A E} (r : result A E) : option A :=
  match r with Ok a => Some a | Err _ => None end.

(** [Result::err]. *)
Definition result_err {A E} (r : result A E) : option E :=
  match r with Ok _ => None | Err e => Some e end.

(** [Option::ok_or]. *)
Definition ok_or {A E} (o : option A) (e : E) : result A E :=
  match o with Some a => Ok a | None => Err e end.

Definition is_ok {A E} (r : result A E) : bool :=
  match r with Ok _ => true | Err _ => false end.

Global Instance result_inhabited {A E} `{Inhabited A} : Inhabited (result A E) :=
  populate (Ok inhabitant).

(** ** Fixed-width integers

    A [u64], [usize], [i64] or [i32] is a [Z]; the casts and the wrapping
    atomics of the source are written out with these. *)

Definition u64_wrap (z : Z) : Z := z `mod` 2 ^ 64.
Definition u64_max : Z := 2 ^ 64 - 1.
Definition usize_max : Z := 2 ^ 64 - 1.
Definition i64_wrap (z : Z) : Z := (z + 2 ^ 63) `mod` 2 ^ 64 - 2 ^ 63.
Definition i32_wrap (z : Z) : Z := (z + 2 ^ 31) `mod` 2 ^ 32 - 2 ^ 31.

(** [a.saturating_sub(b)] on an unsigned type. *)
Definition saturating_sub (a b : Z) : Z := Z.max 0 (a - b).

(** [x.clamp(lo, hi)]. *)
Definition clamp (x lo hi : Z) : Z :=
  if (x <? lo)%Z then lo else if (hi <? x)%Z then hi else x.

Lemma clamp_bounds x lo hi : (lo ≤ hi)%Z → (lo ≤ clamp x lo hi ≤ hi)%Z.
Proof. unfold clamp. intros. repeat case_match; lia. Qed.

Lemma clamp_id x lo hi : (lo ≤ x ≤ hi)%Z → clamp x lo hi = x.
Proof. unfold clamp. intros. repeat case_match; lia. Qed.

Lemma u64_wrap_small z : (0 ≤ z < 2 ^ 64)%Z → u64_wrap z = z.
Proof. apply Z.mod_small. Qed.

Lemma i32_wrap_small z : (- 2 ^ 31 ≤ z < 2 ^ 31)%Z → i32_wrap z = z.
Proof. intros. unfold i32_wrap. rewrite Z.mod_small; lia. Qed.

Lemma i64_wrap_small z : (- 2 ^ 63 ≤ z < 2 ^ 63)%Z → i64_wrap z = z.
Proof. intros. unfold i64_wrap. rewrite Z.mod_small; lia. Qed.

Lemma i32_wrap_range z : (- 2 ^ 31 ≤ i32_wrap z < 2 ^ 31)%Z.
Proof. unfold i32_wrap. pose proof (Z.mod_pos_bound (z + 2 ^ 31) (2 ^ 32)). lia. Qed.

(** ** UUIDs

    A [Uuid] is a 128-bit value. *)

Record Uuid : Type := MkUuid {
  uuid_val : N;
  uuid_range : (uuid_val <? 2 ^ 128)%N = true;
}.

(** The UUID whose 128 bits are [n] (reduced modulo 2^128). *)
Program Definition uuid_of_N (n : N) : Uuid := MkUuid (n `mod` 2 ^ 128)%N _.
Next Obligation. intros n. apply N.ltb_lt, N.mod_lt. discriminate. Qed.

Lemma uuid_eq (a b : Uuid) : uuid_val a = uuid_val b → a = b.
Proof.
  destruct a as [x Hx], b as [y Hy]; simpl. intros ->. f_equal.
  apply (proof_irrel _).
Qed.

Lemma uuid_of_val (u : Uuid) : uuid_of_N (uuid_val u) = u.
Proof.
  apply uuid_eq. simpl. apply N.mod_small, N.ltb_lt, uuid_range.
Qed.

Global Instance uuid_eq_dec : EqDecision Uuid.
Proof.
  refine (λ a b, cast_if (decide (uuid_val a = uuid_val b)));
    [by apply uuid_eq | congruence].
Defined.

Global Instance uuid_countable : Countable Uuid.
Proof. apply (inj_countable' uuid_val uuid_of_N uuid_of_val). Defined.

Global Instance uuid_inhabited : Inhabited Uuid := populate (uuid_of_N 0).

(** ** Texts for concrete codecs

    A value of a countable type written as a text of binary digits and read
    back: the concrete function the witnesses use where the code calls an
    external serializer. *)

Definition ascii_0 : Ascii.ascii := Ascii.ascii_of_nat 48.
Definition ascii_1 : Ascii.ascii := Ascii.ascii_of_nat 49.

Fixpoint pos_to_str (p : positive) : string :=
  match p with
  | xH => EmptyString
  | xO p => String ascii_0 (pos_to_str p)
  | xI p => String ascii_1 (pos_to_str p)
  end.

Fixpoint str_to_pos (s : string) : option positive :=
  match s with
  | EmptyString => Some xH
  | String c s =>
    if decide (c = ascii_0) then xO <$> str_to_pos s
    else if decide (c = ascii_1) then xI <$> str_to_pos s else None
  end.

Lemma str_to_pos_to_str p : str_to_pos (pos_to_str p) = Some p.
Proof. induction p as [p IH|p IH|]; simpl; rewrite ?IH; done. Qed.

Definition code {A} `{Countable A} (a : A) : string := pos_to_str (encode a).
Definition uncode {A} `{Countable A} (s : string) : option A := str_to_pos s ≫= decode.

Lemma uncode_code {A} `{Countable A} (a : A) : uncode (code a) = Some a.
Proof. unfold uncode, code. rewrite str_to_pos_to_str. simpl. apply decode_encode. Qed.

(** ** Updating a map in place *)

Lemma alter_as_insert {K A} `{Countable K} (f : A → A) (m : gmap K A) k x :
  m !! k = Some x → alter f k m = <[k := f x]> m.
Proof.
  intros Hk. apply map_eq. intros j. destruct (decide (j = k)) as [->|].
  - by rewrite lookup_insert_eq, lookup_alter_eq, Hk.
  - by rewrite lookup_insert_ne, lookup_alter_ne.
Qed.

Lemma alter_missing {K A} `{Countable K} (f : A → A) (m : gmap K A) k :
  m !! k = None → alter f k m = m.
Proof.
  intros Hk. apply map_eq. intros j. destruct (decide (j = k)) as [->|].
  - by rewrite lookup_alter_eq, Hk.
  - by rewrite lookup_alter_ne.
Qed.

(** Removing a list of present keys. *)
Lemma size_filter_keys {K A} `{Countable K} (m : gmap K A) (ids : list K) :
  NoDup ids → (∀ k, k ∈ ids → is_Some (m !! k)) →
  (size (filter (λ kv, kv.1 ∉ ids) m) + length ids = size m)%nat.
Proof.
  induction ids as [|k ids IH]; intros Hnd Hin.
  - rewrite map_filter_id; [simpl; lia|]. intros. apply not_elem_of_nil.
  - apply NoDup_cons in Hnd as [Hk Hnd].
    rewrite <- IH by (done || (intros j Hj; apply Hin; by right)).
    set (m' := filter (λ kv, kv.1 ∉ ids) m).
    assert (filter (λ kv, kv.1 ∉ k :: ids) m = delete k m') as ->.
    { apply map_eq. intros j. apply option_eq. intros x. unfold m'.
      rewrite lookup_delete_Some, !map_lookup_filter_Some. simpl.
      rewrite not_elem_of_cons. naive_solver. }
    destruct (Hin k) as [x Hx]; [by left|].
    assert (m' !! k = Some x) as Hm' by (unfold m'; by apply map_lookup_filter_Some).
    assert (size m' ≠ 0%nat) by (intros Hz%map_size_empty_inv; by rewrite Hz, lookup_empty in Hm').
    rewrite map_size_delete, Hm'. simpl. lia.
Qed.

(** ** Counting over maps *)

(** The iteration order of a concurrent hash map, which is left open. *)
Class MapOrder (K A : Type) `{Countable K} : Type := {
  map_iter : gmap K A → list (K * A);
  map_iter_perm m : map_iter m ≡ₚ map_to_list m;
}.

(** The order in which the map happens to be stored. *)
Program Definition stored_order `{Countable K} {A} : MapOrder K A := {| map_iter := map_to_list |}.
Next Obligation. done. Qed.

(** The number of entries whose value satisfies [P]. *)
Definition map_count {K A} `{Countable K} (P : A → bool) (m : gmap K A) : nat :=
  length (filter (λ x, P x = true) (map_to_list m).*2).

Lemma length_filter_fmap {A B} (f : A → B) (P : B → bool) (l : list A) :
  length (filter (λ y, P y = true) (f <$> l)) = length (filter (λ x, P (f x) = true) l).
Proof.
  induction l as [|x l IH]; [done|]. rewrite fmap_cons, !filter_cons.
  destruct (P (f x)) eqn:E.
  - rewrite !decide_True by done. simpl. by rewrite IH.
  - rewrite !decide_False by done. done.
Qed.

Lemma map_count_fmap {K A B} `{Countable K} (f : A → B) (P : B → bool) (m : gmap K A) :
  map_count P (f <$> m) = map_count (P ∘ f) m.
Proof.
  unfold map_count. rewrite map_to_list_fmap.
  replace ((prod_map id f <$> map_to_list m).*2) with (f <$> (map_to_list m).*2)
    by (rewrite <- !list_fmap_compose; apply list_fmap_ext; by intros ? []).
  exact (length_filter_fmap f P _).
Qed.

Lemma map_count_iter {K A} `{Countable K} {O : MapOrder K A} (P : A → bool) (m : gmap K A) :
  length (filter (λ x, P x = true) (map_iter m).*2) = map_count P m.
Proof. unfold map_count. by rewrite map_iter_perm. Qed.

Lemma length_filter_true {A} (l : list A) :
  length (filter (λ _, true = true) l) = length l.
Proof. induction l as [|x l IH]; [done|]. rewrite filter_cons, decide_True by done. simpl. lia. Qed.

Lemma map_count_true {K A} `{Countable K} (m : gmap K A) : map_count (λ _, true) m = size m.
Proof.
  unfold map_count. by rewrite length_filter_true, length_fmap, length_map_to_list.
Qed.

Lemma map_count_insert {K A} `{Countable K} (P : A → bool) (m : gmap K A) i x :
  m !! i = None → map_count P (<[i := x]> m) = ((if P x then 1 else 0) + map_count P m)%nat.
Proof.
  intros Hi. unfold map_count. rewrite map_to_list_insert by done.
  rewrite fmap_cons, filter_cons. simpl.
  destruct (P x); [rewrite decide_True by done|rewrite decide_False by done]; done.
Qed.

Lemma map_count_ext {K A} `{Countable K} (P Q : A → bool) (m : gmap K A) :
  (∀ x, P x = Q x) → map_count P m = map_count Q m.
Proof.
  intros HPQ. induction m as [|i x m Hi IH] using map_ind; [done|].
  rewrite !map_count_insert by done. by rewrite HPQ, IH.
Qed.

Lemma map_count_filter {K A} `{Countable K} (P Q : A → bool) (m : gmap K A) :
  map_count P (filter (λ kv, Q kv.2 = true) m) = map_count (λ x, Q x && P x) m.
Proof.
  induction m as [|i x m Hi IH] using map_ind; [by rewrite map_filter_empty|].
  rewrite (map_count_insert _ m) by done. destruct (Q x) eqn:HQ.
  - rewrite map_filter_insert_True by done.
    rewrite map_count_insert by (rewrite map_lookup_filter_None; auto). by rewrite IH.
  - rewrite map_filter_insert_False by (simpl; congruence).
    rewrite delete_id by done. by rewrite IH.
Qed.

(** ** Automation *)

Create HintDb pulse.
Create Rewrite HintDb pulse.
#[export] Hint Resolve clamp_bounds u64_wrap_small i32_wrap_small i32_wrap_range i64_wrap_small : pulse.
#[export] Hint Rewrite @uncode_code @str_to_pos_to_str : pulse.

(** Case analysis on every [match] of the goal and hypotheses, closing the
    absurd branches. *)
Ltac case_results :=
  repeat (case_match; try done; simplify_eq/=).
