(* ===== verification/F64.v ===== *)
(** * IEEE binary64 arithmetic as the source uses it

    An [f64] is a value of the Standard Library's [spec_float], the bit-exact
    specification of IEEE 754 arithmetic, at precision 53 and maximal exponent
    1024.  Comparisons are the IEEE ones, so every test on a NaN is false, as
    in Rust.  The transcendental functions have no fixed result in Rust (their
    documentation leaves the precision open), so they are the operations of
    the class [Libm], with the few facts the theorems use in [LibmLaws]. *)

From S2P Require Import Prelude.
From Stdlib Require Import SpecFloat.

Abbreviation f64 := spec_float.

Definition prec64 : Z := 53.
Definition emax64 : Z := 1024.

Definition f64_add : f64 → f64 → f64 := SFadd prec64 emax64.
Definition f64_sub : f64 → f64 → f64 := SFsub prec64 emax64.
Definition f64_mul : f64 → f64 → f64 := SFmul prec64 emax64.
Definition f64_div : f64 → f64 → f64 := SFdiv prec64 emax64.
Definition f64_sqrt : f64 → f64 := SFsqrt prec64 emax64.

Declare Scope f64_scope.
Delimit Scope f64_scope with f64.
Infix "+." := f64_add (at level 50, left associativity) : f64_scope.
Infix "-." := f64_sub (at level 50, left associativity) : f64_scope.
Infix "×." := f64_mul (at level 40, left associativity) : f64_scope.
Infix "/." := f64_div (at level 40, left associativity) : f64_scope.
Infix "<=." := SFleb (at level 70) : f64_scope.
Infix "<." := SFltb (at level 70) : f64_scope.
Notation "a >=. b" := (SFleb b a) (at level 70) : f64_scope.
Notation "a >. b" := (SFltb b a) (at level 70) : f64_scope.
Infix "==." := SFeqb (at level 70) : f64_scope.
Open Scope Z_scope.
Open Scope f64_scope.

(** An integer literal such as [500_000.0]; exact below 2^53. *)
Definition f64_of_Z (z : Z) : f64 := binary_normalize prec64 emax64 z 0 false.

(** A decimal literal [num / den]: the division of two exact integers is
    correctly rounded, which is what the literal denotes. *)
Definition f64_lit (num den : Z) : f64 := f64_of_Z num /. f64_of_Z den.

Definition f64_zero : f64 := S754_zero false.

Definition is_nan (x : f64) : bool :=
  match x with S754_nan => true | _ => false end.

(** Neither infinite nor NaN. *)
Definition is_finite (x : f64) : bool :=
  match x with S754_zero _ | S754_finite _ _ _ => true | _ => false end.

(** [f64::max] and [f64::min] return the other operand when one is NaN. *)
Definition f64_max (a b : f64) : f64 :=
  if is_nan a then b else if is_nan b then a else if a <. b then b else a.
Definition f64_min (a b : f64) : f64 :=
  if is_nan a then b else if is_nan b then a else if b <. a then b else a.

Definition f64_abs : f64 → f64 := SFabs.

(** The integer below a finite value. *)
Definition floor_Z (s : bool) (m : positive) (e : Z) : Z :=
  let v := if s then Zneg m else Zpos m in
  if (0 <=? e)%Z then v * 2 ^ e else v `div` 2 ^ (- e).

(** [f64::floor]. *)
Definition f64_floor (x : f64) : f64 :=
  match x with
  | S754_finite s m e => binary_normalize prec64 emax64 (floor_Z s m e) 0 s
  | _ => x
  end.

(** The value of a finite float rounded toward zero. *)
Definition trunc_Z (s : bool) (m : positive) (e : Z) : Z :=
  let a := if (0 <=? e)%Z then Zpos m * 2 ^ e else Zpos m `div` 2 ^ (- e) in
  if s then - a else a.

(** [x as usize] and [x as u64]: truncation that saturates; NaN becomes 0. *)
Definition f64_as_u64 (x : f64) : Z :=
  match x with
  | S754_nan | S754_zero _ => 0
  | S754_infinity s => if s then 0 else u64_max
  | S754_finite s m e => clamp (trunc_Z s m e) 0 u64_max
  end.

(** [std::f64::consts::PI] and [SQRT_2]. *)
Definition f64_pi : f64 := S754_finite false 7074237752028440 (-51).
Definition f64_sqrt2 : f64 := f64_sqrt (f64_of_Z 2).

Definition to_radians (x : f64) : f64 := x ×. (f64_pi /. f64_of_Z 180).
Definition to_degrees (x : f64) : f64 := x ×. (f64_of_Z 180 /. f64_pi).

(** The platform's mathematical functions. *)
Class Libm : Type := {
  f64_sin : f64 → f64;
  f64_cos : f64 → f64;
  f64_asin : f64 → f64;
  f64_powi : f64 → Z → f64;
  f64_hypot : f64 → f64 → f64;
}.

(** What the C standard (Annex F) and IEEE 754 say of those functions at the
    points where they are exact, and that cosines (which lie in [-1, 1]) have a
    finite product. *)
Class LibmLaws (L : Libm) : Prop := {
  sin_zero : f64_sin f64_zero = f64_zero;
  asin_zero : f64_asin f64_zero = f64_zero;
  powi2_zero : f64_powi f64_zero 2 = f64_zero;
  cos_mul_finite x y : is_finite x = true → is_finite y = true →
    is_finite (f64_cos x ×. f64_cos y) = true;
}.

Global Instance f64_eq_dec : EqDecision f64.
Proof. solve_decision. Defined.

(** A code for the values, used by the concrete serializers. *)
Definition f64_code (x : f64) : bool + bool + (unit + bool * positive * Z) :=
  match x with
  | S754_zero s => inl (inl s)
  | S754_infinity s => inl (inr s)
  | S754_nan => inr (inl ())
  | S754_finite s m e => inr (inr (s, m, e))
  end.

Definition f64_uncode (c : bool + bool + (unit + bool * positive * Z)) : f64 :=
  match c with
  | inl (inl s) => S754_zero s
  | inl (inr s) => S754_infinity s
  | inr (inl _) => S754_nan
  | inr (inr (s, m, e)) => S754_finite s m e
  end.

Global Instance f64_countable : Countable f64.
Proof. apply (inj_countable' f64_code f64_uncode). by intros []. Defined.

(** ** Comparisons *)

Lemma SFcompare_swap (a b : f64) :
  SFcompare b a = CompOpp <$> SFcompare a b.
Proof.
  assert (Hm : ∀ m1 m2, Pos.compare_cont Eq m2 m1 = CompOpp (Pos.compare_cont Eq m1 m2)).
  { intros m1 m2. change (Pos.compare m2 m1 = CompOpp (Pos.compare m1 m2)).
    apply Pos.compare_antisym. }
  destruct a as [[]|[]| |[] m1 e1], b as [[]|[]| |[] m2 e2]; simpl; try done;
    rewrite (Z.compare_antisym e1 e2), (Hm m1 m2);
    destruct (Z.compare e1 e2); simpl; try done;
    by rewrite ?CompOpp_involutive.
Qed.

Lemma SFcompare_None (a b : f64) :
  SFcompare a b = None ↔ is_nan a = true ∨ is_nan b = true.
Proof.
  destruct a as [[]|[]| |[] m1 e1], b as [[]|[]| |[] m2 e2]; simpl;
    intuition congruence.
Qed.

Lemma SFcompare_refl (a : f64) : is_nan a = false → SFcompare a a = Some Eq.
Proof.
  destruct a as [[]|[]| |[] m e]; simpl; try done; intros _;
    change (Pos.compare_cont Eq m m) with (Pos.compare m m);
    by rewrite Z.compare_refl, Pos.compare_refl.
Qed.

Lemma f64_not_le (a b : f64) :
  is_nan a = false → is_nan b = false → (a <=. b) = negb (b <. a).
Proof.
  intros Ha Hb. unfold SFleb, SFltb. rewrite (SFcompare_swap a b).
  destruct (SFcompare a b) as [[]|] eqn:E; try done.
  apply SFcompare_None in E. destruct E; congruence.
Qed.

Lemma f64_le_not_nan (a b : f64) :
  (a <=. b) = true → is_nan a = false ∧ is_nan b = false.
Proof. unfold SFleb. destruct a as [[]|[]| |[] m1 e1], b as [[]|[]| |[] m2 e2]; done. Qed.

Lemma f64_lt_not_nan (a b : f64) :
  (a <. b) = true → is_nan a = false ∧ is_nan b = false.
Proof. unfold SFltb. destruct a as [[]|[]| |[] m1 e1], b as [[]|[]| |[] m2 e2]; done. Qed.

Lemma f64_lt_le (a b : f64) : (a <. b) = true → (a <=. b) = true.
Proof. unfold SFltb, SFleb. by destruct (SFcompare a b) as [[]|]. Qed.

Lemma f64_le_nan_r (a : f64) : (a <=. S754_nan) = false.
Proof. unfold SFleb. by destruct a. Qed.

Lemma f64_add_nan_l (a : f64) : S754_nan +. a = S754_nan.
Proof. done. Qed.

Lemma f64_sub_diag (x : f64) : is_finite x = true → x -. x = f64_zero.
Proof.
  destruct x as [[]|[]| |s m e]; simpl; try done. intros _.
  unfold f64_sub, SFsub. by rewrite Z.sub_diag.
Qed.

Lemma f64_mul_zero_r (x : f64) :
  is_finite x = true → x ×. f64_zero = S754_zero (match x with
    | S754_zero s | S754_finite s _ _ => s | _ => false end).
Proof. destruct x as [[]|[]| |[] m e]; done. Qed.

Lemma f64_eqb_refl (a : f64) : is_nan a = false → (a ==. a) = true.
Proof. intros Hn. unfold SFeqb. by rewrite SFcompare_refl. Qed.

Lemma finite_not_nan (a : f64) : is_finite a = true → is_nan a = false.
Proof. by destruct a. Qed.
