(* ===== verification/Str.v ===== *)
(** * Rust strings

    A [&str] or [String] is the [string] of its UTF-8 bytes.  This file holds
    the string functions of Rust's standard library the source calls, written
    on bytes: trimming of Unicode white space (recognised by its encodings),
    splitting, ASCII case mapping, prefix tests and the integer parsers. *)

From S2P Require Import Prelude.
From Stdlib Require Import Ascii.

Open Scope Z_scope.

Definition bytes_of (s : string) : list Z := Z.of_N ∘ N_of_ascii <$> String.list_ascii_of_string s.
Definition of_bytes (l : list Z) : string :=
  String.string_of_list_ascii (ascii_of_N ∘ Z.to_N <$> l).

(** [s.len()]: the number of bytes. *)
Definition str_len (s : string) : Z := Z.of_nat (String.length s).

Definition str_is_empty (s : string) : bool :=
  match s with EmptyString => true | _ => false end.

(** ** White space

    [ws_start l] drops one leading [char::is_whitespace] character:
    U+0009..U+000D, U+0020, U+0085, U+00A0, U+1680, U+2000..U+200A, U+2028,
    U+2029, U+202F, U+205F and U+3000, in UTF-8. *)

Definition ws_ascii (b : Z) : bool := ((9 <=? b) && (b <=? 13)) || (b =? 32).

Definition ws_e2_80 (b : Z) : bool :=
  ((128 <=? b) && (b <=? 138)) || (b =? 168) || (b =? 169) || (b =? 175).

Definition ws3 (a b c : Z) : bool :=
  ((a =? 225) && (b =? 154) && (c =? 128)) ||
  ((a =? 226) && (b =? 128) && ws_e2_80 c) ||
  ((a =? 226) && (b =? 129) && (c =? 159)) ||
  ((a =? 227) && (b =? 128) && (c =? 128)).

Definition ws2 (a b : Z) : bool := (a =? 194) && ((b =? 133) || (b =? 160)).

Definition ws_start (l : list Z) : option (list Z) :=
  match l with
  | [] => None
  | a :: r =>
    if ws_ascii a then Some r
    else match r with
         | [] => None
         | b :: r2 =>
           if ws2 a b then Some r2
           else match r2 with
                | [] => None
                | c :: r3 => if ws3 a b c then Some r3 else None
                end
         end
  end.

(** The same at the end of the string, on the reversed bytes. *)
Definition ws_end (l : list Z) : option (list Z) :=
  match l with
  | [] => None
  | a :: r =>
    if ws_ascii a then Some r
    else match r with
         | [] => None
         | b :: r2 =>
           if ws2 b a then Some r2
           else match r2 with
                | [] => None
                | c :: r3 => if ws3 c b a then Some r3 else None
                end
         end
  end.

Fixpoint strip_ws (f : list Z → option (list Z)) (fuel : nat) (l : list Z) : list Z :=
  match fuel with
  | O => l
  | S n => match f l with Some r => strip_ws f n r | None => l end
  end.

(** [s.trim()]; every step drops a byte, so the length is enough fuel. *)
Definition trim (s : string) : string :=
  let l := bytes_of s in
  let l := strip_ws ws_start (length l) l in
  of_bytes (reverse (strip_ws ws_end (length l) (reverse l))).

(** ** Case, prefixes, splitting *)

Definition ascii_lower (c : ascii) : ascii :=
  let n := N_of_ascii c in
  if ((65 <=? n) && (n <=? 90))%N then ascii_of_N (n + 32) else c.

Fixpoint to_ascii_lowercase (s : string) : string :=
  match s with
  | EmptyString => EmptyString
  | String c r => String (ascii_lower c) (to_ascii_lowercase r)
  end.

Definition starts_with (p s : string) : bool := String.prefix p s.

(** [s.strip_prefix(p)]. *)
Fixpoint strip_prefix (p s : string) : option string :=
  match p, s with
  | EmptyString, _ => Some s
  | String a p', String b s' => if Ascii.eqb a b then strip_prefix p' s' else None
  | _, _ => None
  end.

(** [s.split(c)] for an ASCII character: always at least one piece. *)
Fixpoint split_on (c : ascii) (s : string) : list string :=
  match s with
  | EmptyString => [EmptyString]
  | String a r =>
    if Ascii.eqb a c then EmptyString :: split_on c r
    else match split_on c r with
         | [] => [String a EmptyString]
         | p :: ps => String a p :: ps
         end
  end.

(** [s.split_once(c)]. *)
Fixpoint split_once (c : ascii) (s : string) : option (string * string) :=
  match s with
  | EmptyString => None
  | String a r =>
    if Ascii.eqb a c then Some (EmptyString, r)
    else match split_once c r with
         | Some (x, y) => Some (String a x, y)
         | None => None
         end
  end.

(** [s.trim_end_matches(c)] for an ASCII character. *)
Fixpoint trim_end_matches (c : ascii) (s : string) : string :=
  match s with
  | EmptyString => EmptyString
  | String a r =>
    match trim_end_matches c r with
    | EmptyString => if Ascii.eqb a c then EmptyString else String a EmptyString
    | r' => String a r'
    end
  end.

Fixpoint str_forallb (f : ascii → bool) (s : string) : bool :=
  match s with EmptyString => true | String a r => f a && str_forallb f r end.

Fixpoint str_contains (s : string) (c : ascii) : bool :=
  match s with EmptyString => false | String a r => Ascii.eqb a c || str_contains r c end.

(** [s.chars().take(n).collect()]: a character is a byte that is not a UTF-8
    continuation byte together with the continuation bytes after it. *)
Definition is_continuation (c : ascii) : bool :=
  let n := N_of_ascii c in ((128 <=? n) && (n <? 192))%N.

Fixpoint chars_take (n : nat) (s : string) : string :=
  match s with
  | EmptyString => EmptyString
  | String a r =>
    if is_continuation a then String a (chars_take n r)
    else match n with
         | O => EmptyString
         | S m => String a (chars_take m r)
         end
  end.

(** ** Character classes *)

Definition in_range (lo hi : N) (c : ascii) : bool :=
  let n := N_of_ascii c in ((lo <=? n) && (n <=? hi))%N.

Definition is_ascii_digit : ascii → bool := in_range 48 57.
Definition is_ascii_upper : ascii → bool := in_range 65 90.
Definition is_ascii_lower : ascii → bool := in_range 97 122.
Definition is_ascii_alphabetic (c : ascii) : bool := is_ascii_upper c || is_ascii_lower c.
Definition is_ascii_alphanumeric (c : ascii) : bool := is_ascii_alphabetic c || is_ascii_digit c.
Definition is_ascii_hexdigit (c : ascii) : bool :=
  is_ascii_digit c || in_range 65 70 c || in_range 97 102 c.

(** ** Integer parsing ([str::parse])

    An optional sign, then one or more ASCII digits; the value must fit.  A
    minus sign is only a sign for the signed types. *)

Fixpoint parse_digits (acc : Z) (s : string) : option Z :=
  match s with
  | EmptyString => Some acc
  | String c r =>
    if is_ascii_digit c
    then parse_digits (acc * 10 + Z.of_N (N_of_ascii c - 48)) r
    else None
  end.

Definition parse_nonempty (s : string) : option Z :=
  match s with EmptyString => None | _ => parse_digits 0 s end.

Definition parse_unsigned (max : Z) (s : string) : option Z :=
  let body := match s with String "+" r => r | _ => s end in
  match parse_nonempty body with
  | Some n => if n <=? max then Some n else None
  | None => None
  end.

Definition parse_u16 : string → option Z := parse_unsigned (2 ^ 16 - 1).
Definition parse_u32 : string → option Z := parse_unsigned (2 ^ 32 - 1).
Definition parse_u64 : string → option Z := parse_unsigned u64_max.
Definition parse_usize : string → option Z := parse_unsigned usize_max.

Definition parse_i64 (s : string) : option Z :=
  match s with
  | String "-" r =>
    match parse_nonempty r with
    | Some n => if n <=? 2 ^ 63 then Some (- n) else None
    | None => None
    end
  | _ => parse_unsigned (2 ^ 63 - 1) s
  end.

(** Bounds of the unsigned parsers: a parsed value fits its type. *)
Lemma parse_digits_nonneg s acc n : 0 ≤ acc → parse_digits acc s = Some n → 0 ≤ n.
Proof.
  revert acc; induction s as [|c r IH]; intros acc Hacc; simpl.
  - intros [= <-]. done.
  - case_match; [|done]. apply IH. lia.
Qed.

Lemma parse_unsigned_range max s n : parse_unsigned max s = Some n → 0 ≤ n ≤ max.
Proof.
  unfold parse_unsigned, parse_nonempty. intros H.
  repeat case_match; simplify_eq;
    match goal with H : parse_digits 0 _ = Some _ |- _ => apply parse_digits_nonneg in H end; lia.
Qed.

(** ** Facts about splitting and prefixes *)

Lemma strip_prefix_app p s : strip_prefix p (p +:+ s) = Some s.
Proof. induction p as [|a p IH]; simpl; [done|]. by rewrite Ascii.eqb_refl. Qed.

Lemma strip_prefix_Some p s r : strip_prefix p s = Some r → s = p +:+ r.
Proof.
  revert s; induction p as [|a p IH]; intros s; simpl.
  - by intros [= ->].
  - destruct s as [|b s]; [done|].
    destruct (Ascii.eqb_spec a b) as [->|]; [|done].
    intros H. by rewrite (IH _ H).
Qed.

Lemma split_once_app c x y :
  str_contains x c = false → split_once c (x +:+ String c y) = Some (x, y).
Proof.
  induction x as [|a x IH]; simpl; intros H.
  - by rewrite Ascii.eqb_refl.
  - apply orb_false_iff in H as [-> H]. by rewrite IH.
Qed.

Lemma split_once_None c s : str_contains s c = false → split_once c s = None.
Proof.
  induction s as [|a s IH]; simpl; intros H; [done|].
  apply orb_false_iff in H as [-> H]. by rewrite IH.
Qed.

Lemma str_len_app (a b : string) : str_len (a +:+ b) = str_len a + str_len b.
Proof.
  unfold str_len. induction a as [|c a IH]; simpl; [done|]. lia.
Qed.

Lemma str_app_inj (a b x y : string) :
  str_len a = str_len b → a +:+ x = b +:+ y → a = b ∧ x = y.
Proof.
  unfold str_len. revert b. induction a as [|c a IH]; intros [|d b]; simpl; try lia; [done|].
  intros Hl [= -> H]. destruct (IH b) as [-> ->]; [lia|done|done].
Qed.

(** ** Fixed-width hexadecimal *)

Definition hex_digit (n : N) : ascii :=
  ascii_of_N (if (n <? 10)%N then 48 + n else 87 + n).

Fixpoint hex_digits (k : nat) (n : N) : string :=
  match k with
  | O => EmptyString
  | S k => hex_digits k (n / 16)%N +:+ String (hex_digit (n mod 16)%N) EmptyString
  end.

Lemma hex_digits_len k n : str_len (hex_digits k n) = Z.of_nat k.
Proof.
  revert n. induction k as [|k IH]; intros n; [done|].
  cbn [hex_digits]. rewrite str_len_app, IH. unfold str_len. cbn [String.length]. lia.
Qed.

Lemma str_forallb_app f (a b : string) :
  str_forallb f (a +:+ b) = str_forallb f a && str_forallb f b.
Proof. induction a as [|c a IH]; [done|]. simpl. rewrite IH. by destruct (f c). Qed.

Lemma hex_digits_hex k n : str_forallb is_ascii_hexdigit (hex_digits k n) = true.
Proof.
  revert n. induction k as [|k IH]; intros n; [done|]. cbn [hex_digits].
  rewrite str_forallb_app, IH. simpl. rewrite andb_true_r.
  assert (Hlt : (n `mod` 16 < 16)%N) by (by apply N.mod_lt).
  assert (Hall : ∀ m, (m < 16)%N → is_ascii_hexdigit (hex_digit m) = true).
  { intros m Hm. destruct m as [|m]; [done|].
    do 4 (destruct m as [m|m|]; try done); exfalso; lia. }
  by apply Hall.
Qed.

Lemma hex_digit_inj a b :
  (a < 16)%N → (b < 16)%N → hex_digit a = hex_digit b → a = b.
Proof.
  intros Ha Hb H. apply (f_equal N_of_ascii) in H. unfold hex_digit in H.
  rewrite !N_ascii_embedding in H by (destruct (N.ltb_spec a 10), (N.ltb_spec b 10); lia).
  destruct (N.ltb_spec a 10), (N.ltb_spec b 10); lia.
Qed.

Lemma hex_digits_inj k n m :
  (n < 16 ^ N.of_nat k)%N → (m < 16 ^ N.of_nat k)%N → hex_digits k n = hex_digits k m → n = m.
Proof.
  revert n m. induction k as [|k IH]; intros n m Hn Hm; [simpl in *; lia|].
  rewrite Nat2N.inj_succ, N.pow_succ_r' in Hn, Hm. cbn [hex_digits]. intros H.
  apply str_app_inj in H as [H1 [= H2]]; [|by rewrite !hex_digits_len].
  apply hex_digit_inj in H2; [|apply N.mod_lt; lia..].
  apply IH in H1; [|apply N.Div0.div_lt_upper_bound; lia..].
  rewrite (N.div_mod n 16), (N.div_mod m 16) by lia. by rewrite H1, H2.
Qed.

(** Reading the digits back. *)
Definition hex_val (c : ascii) : N :=
  let n := N_of_ascii c in if (n <? 58)%N then (n - 48)%N else (n - 87)%N.

Fixpoint hex_read (acc : N) (s : string) : N :=
  match s with
  | EmptyString => acc
  | String c s => hex_read (acc * 16 + hex_val c)%N s
  end.

Lemma hex_val_digit n : (n < 16)%N → hex_val (hex_digit n) = n.
Proof.
  intros Hn. unfold hex_val, hex_digit.
  rewrite N_ascii_embedding by (destruct (N.ltb_spec n 10); lia).
  destruct (N.ltb_spec n 10) as [?|?]; [destruct (N.ltb_spec (48 + n) 58)|
    destruct (N.ltb_spec (87 + n) 58)]; lia.
Qed.

Lemma hex_read_app acc a b : hex_read acc (a +:+ b) = hex_read (hex_read acc a) b.
Proof. revert acc. induction a as [|c a IH]; intros acc; simpl; [done|]. apply IH. Qed.

Lemma hex_read_digits k n : (n < 16 ^ N.of_nat k)%N → hex_read 0 (hex_digits k n) = n.
Proof.
  revert n. induction k as [|k IH]; intros n Hn.
  { change (16 ^ N.of_nat 0)%N with 1%N in Hn. simpl. lia. }
  rewrite Nat2N.inj_succ, N.pow_succ_r' in Hn. cbn [hex_digits].
  rewrite hex_read_app, IH by (apply N.Div0.div_lt_upper_bound; lia).
  cbn [hex_read]. rewrite hex_val_digit by (apply N.mod_lt; lia).
  rewrite (N.div_mod n 16) at 3 by lia. lia.
Qed.

(** Byte order of two texts. *)
Definition str_gtb (a b : string) : bool :=
  match String.compare a b with Gt => true | _ => false end.

Lemma compare_app_same_len (a b x y : string) :
  str_len a = str_len b →
  String.compare (a +:+ x) (b +:+ y) =
    match String.compare a b with Eq => String.compare x y | c => c end.
Proof.
  unfold str_len. revert b. induction a as [|c a IH]; intros [|d b]; simpl; try lia; [done|].
  intros Hl. destruct (Ascii.compare c d); [apply IH; lia|done|done].
Qed.

Lemma hex_digit_compare a b :
  (a < 16)%N → (b < 16)%N → Ascii.compare (hex_digit a) (hex_digit b) = (a ?= b)%N.
Proof.
  intros Ha Hb. unfold Ascii.compare, hex_digit.
  rewrite !N_ascii_embedding by (destruct (N.ltb_spec a 10), (N.ltb_spec b 10); lia).
  destruct (N.ltb_spec a 10), (N.ltb_spec b 10), (N.compare_spec a b);
    (apply N.compare_eq_iff || apply N.compare_lt_iff || apply N.compare_gt_iff); lia.
Qed.

(** Equal-width digits sort like the numbers they stand for. *)
Lemma hex_digits_compare k n m :
  (n < 16 ^ N.of_nat k)%N → (m < 16 ^ N.of_nat k)%N →
  String.compare (hex_digits k n) (hex_digits k m) = (n ?= m)%N.
Proof.
  revert n m. induction k as [|k IH]; intros n m Hn Hm.
  { change (16 ^ N.of_nat 0)%N with 1%N in *. simpl. symmetry. apply N.compare_eq_iff. lia. }
  rewrite Nat2N.inj_succ, N.pow_succ_r' in Hn, Hm. cbn [hex_digits].
  rewrite compare_app_same_len by (by rewrite !hex_digits_len).
  rewrite IH by (apply N.Div0.div_lt_upper_bound; lia). cbn [String.compare].
  assert (n `mod` 16 < 16 ∧ m `mod` 16 < 16)%N as [? ?] by (split; apply N.mod_lt; lia).
  rewrite hex_digit_compare by done.
  pose proof (N.div_mod n 16 ltac:(lia)) as En. pose proof (N.div_mod m 16 ltac:(lia)) as Em.
  clear Hn Hm IH.
  generalize dependent (n / 16)%N. generalize dependent (n `mod` 16)%N.
  generalize dependent (m / 16)%N. generalize dependent (m `mod` 16)%N.
  intros mr Hmr mq -> nr Hnr nq ->.
  destruct (N.compare_spec nq mq).
  - destruct (N.compare_spec nr mr); symmetry;
      (apply N.compare_eq_iff || apply N.compare_lt_iff || apply N.compare_gt_iff); lia.
  - symmetry. apply N.compare_lt_iff. lia.
  - symmetry. apply N.compare_gt_iff. lia.
Qed.

Arguments split_on c%_char_scope s%_string_scope.
Arguments split_once c%_char_scope s%_string_scope.
Arguments trim_end_matches c%_char_scope s%_string_scope.
Arguments str_contains s%_string_scope c%_char_scope.

(** ** The order of texts *)

Definition str_le (a b : string) : Prop := str_gtb a b = false.

Global Instance str_le_dec : RelDecision str_le.
Proof. intros a b. unfold str_le. apply _. Defined.

Lemma str_le_cases a b : str_le a b ↔ String.compare a b ≠ Gt.
Proof. unfold str_le, str_gtb. destruct (String.compare a b); naive_solver. Qed.

Global Instance str_le_total : Total str_le.
Proof.
  intros a b. rewrite !str_le_cases, (String.compare_antisym b a).
  destruct (String.compare a b); [by left|by left|by right].
Qed.

Global Instance str_le_antisymm : AntiSymm (=) str_le.
Proof.
  intros a b. rewrite !str_le_cases, (String.compare_antisym b a). intros H1 H2.
  apply String.compare_eq_iff. by destruct (String.compare a b).
Qed.

Global Instance str_le_trans : Transitive str_le.
Proof.
  intros a b c. rewrite !str_le_cases. revert b c.
  induction a as [|x a IH]; intros [|y b] [|z c]; simpl; try done.
  unfold Ascii.compare. specialize (IH b c).
  destruct (N.compare_spec (N_of_ascii x) (N_of_ascii y)), (N.compare_spec (N_of_ascii y) (N_of_ascii z)),
    (N.compare_spec (N_of_ascii x) (N_of_ascii z)); try done; try lia; auto.
Qed.
