(* ===== verification/Errors.v ===== *)
(** * Errors of the domain crate and their HTTP form

    [AppError] (crates/domain/src/errors.rs) with its [Display] text, and the
    coordinator's [ApiError] (crates/api-coordinator/src/errors.rs): the HTTP
    status of an error and the body sent to the client. *)

From S2P Require Import Prelude F64.

(** How [format!] prints floating-point numbers ([{}] and [{:.2}]). *)
Class FloatFmt : Type := {
  fmt_f64 : f64 → string;
  fmt_f64_2 : f64 → string;
}.

Inductive AppError : Type :=
| DeviceNotFound (s : string)
| NotFound (s : string)
| InvalidLocation (lat lon : f64)
| InvalidRadius (r : f64)
| GeohashError (s : string)
| Unauthorized
| Forbidden (s : string)
| Conflict (s : string)
| Validation (s : string)
| Config (s : string)
| ServiceUnavailable (s : string)
| Database (s : string)
| Cache (s : string)
| Messaging (s : string)
| Internal (s : string).

Global Instance AppError_eq_dec : EqDecision AppError.
Proof. solve_decision. Defined.

(** Whether the error is the client's mistake. *)
Definition is_client_error (e : AppError) : bool :=
  match e with
  | DeviceNotFound _ | NotFound _ | InvalidLocation _ _ | InvalidRadius _
  | Unauthorized | Forbidden _ | Conflict _ | Validation _ => true
  | _ => false
  end.

Section Display.
Context {FF : FloatFmt}.

(** The [#[error(...)]] texts. *)
Definition AppError_display (e : AppError) : string :=
  match e with
  | DeviceNotFound s => "device not found: " +:+ s
  | NotFound s => "not found: " +:+ s
  | InvalidLocation lat lon => "invalid location: lat=" +:+ fmt_f64 lat +:+ ", lon=" +:+ fmt_f64 lon
  | InvalidRadius r => "invalid alert radius: " +:+ fmt_f64 r +:+ " meters (must be > 0 and <= 500000)"
  | GeohashError s => "geohash encoding failed: " +:+ s
  | Unauthorized => "unauthorized"
  | Forbidden s => "forbidden: " +:+ s
  | Conflict s => "conflict: " +:+ s
  | Validation s => "validation error: " +:+ s
  | Config s => "configuration error: " +:+ s
  | ServiceUnavailable s => "service unavailable: " +:+ s
  | Database s => "database error: " +:+ s
  | Cache s => "cache error: " +:+ s
  | Messaging s => "messaging error: " +:+ s
  | Internal s => s
  end.

(** [ApiError::status]. *)
Definition ApiError_status (e : AppError) : Z :=
  match e with
  | DeviceNotFound _ | NotFound _ => 404
  | Unauthorized => 401
  | Forbidden _ => 403
  | Conflict _ => 409
  | ServiceUnavailable _ => 503
  | other => if is_client_error other then 400 else 500
  end.

(** [ApiError::into_response]: the status and the ["error"] field. *)
Definition ApiError_into_response (e : AppError) : Z * string :=
  let status := ApiError_status e in
  let message := if (status =? 500)%Z then "internal server error" else AppError_display e in
  (status, message).

(** An error response of the coordinator classifies correctly: a client
    mistake gets a 4xx status, anything else a 5xx status. *)
Theorem ApiError_status_class (e : AppError) :
  (is_client_error e = true ↔ (400 ≤ ApiError_status e < 500)%Z) ∧
  (is_client_error e = false ↔ (500 ≤ ApiError_status e < 600)%Z).
Proof. destruct e; simpl; split; split; intros; (done || lia). Qed.

(** An internal failure never leaks its text: the body of every 500 is the
    fixed sentence, so two failures of the same class are indistinguishable to
    the client whatever their payloads. *)
Theorem ApiError_500_opaque (e : AppError) :
  ApiError_status e = 500%Z →
  ApiError_into_response e = (500%Z, "internal server error").
Proof. intros H. unfold ApiError_into_response. by rewrite H. Qed.

Lemma database_and_cache_are_500 s :
  ApiError_status (Database s) = 500%Z ∧ ApiError_status (Cache s) = 500%Z ∧
  ApiError_status (Messaging s) = 500%Z ∧ ApiError_status (Config s) = 500%Z ∧
  ApiError_status (Internal s) = 500%Z ∧ ApiError_status (GeohashError s) = 500%Z.
Proof. done. Qed.
End Display.

Definition trivial_fmt : FloatFmt := {| fmt_f64 := λ _, "f"; fmt_f64_2 := λ _, "f" |}.

Lemma ApiError_500_opaque_witness :
  @ApiError_into_response trivial_fmt (Database "password=hunter2")
  = (500%Z, "internal server error").
Proof. apply (@ApiError_500_opaque trivial_fmt). reflexivity. Defined.
