(* ===== verification/Metrics.v ===== *)
(** * Prometheus metrics

    crates/infra/src/metrics.rs (counters, gauges, labelled counters, histograms
    and their text rendering) and the two sets of metrics registered at start-up
    (crates/api-coordinator/src/metrics.rs, crates/fanout-worker/src/metrics.rs).

    A metric is shared between the registry and its users; it is updated through
    the registry under its name. A failed [assert!] is [None]. The atomics wrap
    around at their width. *)

From S2P Require Import Prelude F64 Str Errors.
From stdpp Require Import pretty.
From Stdlib Require Import SpecFloat.

Open Scope Z_scope.
Open Scope f64_scope.

(** ** Texts *)

Definition ch_quote : Ascii.ascii := Ascii.ascii_of_N 34.
Definition ch_backslash : Ascii.ascii := Ascii.ascii_of_N 92.
Definition ch_newline : Ascii.ascii := Ascii.ascii_of_N 10.
Definition nl : string := String ch_newline EmptyString.
Definition dq : string := String ch_quote EmptyString.

Definition name_start (c : Ascii.ascii) : bool :=
  is_ascii_alphabetic c || Ascii.eqb c "_" || Ascii.eqb c ":".
Definition name_char (c : Ascii.ascii) : bool :=
  is_ascii_alphanumeric c || Ascii.eqb c "_" || Ascii.eqb c ":".

Definition valid_name (name : string) : bool :=
  match name with
  | EmptyString => false
  | String c rest => name_start c && str_forallb name_char rest
  end.

(** [s.replace(c, with)]. *)
Fixpoint replace_char (c : Ascii.ascii) (w s : string) : string :=
  match s with
  | EmptyString => EmptyString
  | String a r => if Ascii.eqb a c then w +:+ replace_char c w r else String a (replace_char c w r)
  end.

Definition escaped (c : Ascii.ascii) : string := String ch_backslash (String c EmptyString).
Arguments escaped c%_char_scope.

Definition escape_label_value (v : string) : string :=
  replace_char ch_newline (escaped "n")
    (replace_char ch_quote (escaped ch_quote)
       (replace_char ch_backslash (escaped ch_backslash) v)).

Definition escape_help (v : string) : string :=
  replace_char ch_newline (escaped "n") (replace_char ch_backslash (escaped ch_backslash) v).

(** ** Counters and gauges *)

Definition Counter_add (c n : Z) : Z := u64_wrap (c + n).
Definition Counter_inc (c : Z) : Z := Counter_add c 1.

Definition Gauge_set (g v : Z) : Z := v.
Definition Gauge_add (g n : Z) : Z := i64_wrap (g + n).
Definition Gauge_inc (g : Z) : Z := Gauge_add g 1.
Definition Gauge_dec (g : Z) : Z := i64_wrap (g - 1).

Record CounterVec : Type := MkCounterVec { cv_label : string; cv_values : gmap string Z }.

Definition CounterVec_add (v : CounterVec) (label_value : string) (n : Z) : CounterVec :=
  MkCounterVec (cv_label v)
    (<[label_value := Counter_add (default 0 (cv_values v !! label_value)) n]> (cv_values v)).
Definition CounterVec_inc (v : CounterVec) (label_value : string) : CounterVec :=
  CounterVec_add v label_value 1.
Definition CounterVec_get (v : CounterVec) (label_value : string) : Z :=
  default 0 (cv_values v !! label_value).

(** ** Histograms *)

Record Histogram : Type := MkHistogram {
  hi_bounds : list f64; hi_buckets : list Z; hi_count : Z; hi_sum_micros : Z;
}.

(** [LATENCY_BUCKETS_SECONDS], in ten-thousandths of a second. *)
Definition LATENCY_BUCKETS_SECONDS : list f64 :=
  (λ n, f64_lit n 10000) <$> [5; 10; 25; 50; 100; 250; 500; 1000; 2500; 5000; 10000; 25000; 50000].

Definition f64_le_rel (a b : f64) : Prop := (a <=. b) = true.
Global Instance f64_le_rel_dec : RelDecision f64_le_rel.
Proof. intros a b. unfold f64_le_rel. apply _. Defined.

(** [None] is the panic on a NaN bound. *)
Definition Histogram_new (bounds : list f64) : option Histogram :=
  if existsb is_nan bounds then None else
  let sorted := merge_sort f64_le_rel bounds in
  Some (MkHistogram sorted (replicate (S (length sorted)) 0) 0 0).

(** [iter().position(|b| value <= *b).unwrap_or(len)]. *)
Fixpoint bucket_index (value : f64) (bounds : list f64) : nat :=
  match bounds with
  | [] => O
  | b :: bs => if value <=. b then O else S (bucket_index value bs)
  end.

Definition Histogram_observe (h : Histogram) (value : f64) : Histogram :=
  let idx := bucket_index value (hi_bounds h) in
  MkHistogram (hi_bounds h) (alter Counter_inc idx (hi_buckets h))
    (Counter_inc (hi_count h))
    (Counter_add (hi_sum_micros h) (f64_as_u64 (f64_max (value ×. f64_of_Z 1000000) f64_zero))).

Definition Histogram_sum (h : Histogram) : f64 := f64_of_Z (hi_sum_micros h) /. f64_of_Z 1000000.

(** ** The registry *)

Inductive Collector : Type :=
| CCounter (c : Z)
| CGauge (g : Z)
| CVec (v : CounterVec)
| CHistogram (h : Histogram).

Definition collector_kind (c : Collector) : string :=
  match c with
  | CCounter _ | CVec _ => "counter"
  | CGauge _ => "gauge"
  | CHistogram _ => "histogram"
  end.

Record MetricEntry : Type := MkEntry { me_name : string; me_help : string; me_collector : Collector }.

Definition MetricRegistry : Type := list MetricEntry.

Definition MetricRegistry_register (name help : string) (c : Collector) (r : MetricRegistry)
    : option MetricRegistry :=
  if negb (valid_name name) then None
  else if bool_decide (name ∈ me_name <$> r) then None
  else Some (r ++ [MkEntry name help c]).

Definition MetricRegistry_counter (name help : string) := MetricRegistry_register name help (CCounter 0).
Definition MetricRegistry_gauge (name help : string) := MetricRegistry_register name help (CGauge 0).
Definition MetricRegistry_counter_vec (name help label : string) (r : MetricRegistry)
    : option MetricRegistry :=
  if negb (valid_name label) then None
  else MetricRegistry_register name help (CVec (MkCounterVec label ∅)) r.
Definition MetricRegistry_histogram (name help : string) (bounds : list f64) (r : MetricRegistry)
    : option MetricRegistry :=
  h ← Histogram_new bounds; MetricRegistry_register name help (CHistogram h) r.

(** Updates through the shared handles. *)
Definition update_metric (name : string) (f : Collector → Collector) (r : MetricRegistry)
    : MetricRegistry :=
  (λ e, if decide (me_name e = name) then MkEntry (me_name e) (me_help e) (f (me_collector e)) else e)
    <$> r.

Definition counter_add (name : string) (n : Z) : MetricRegistry → MetricRegistry :=
  update_metric name (λ c, match c with CCounter x => CCounter (Counter_add x n) | c => c end).
Definition vec_add (name label_value : string) (n : Z) : MetricRegistry → MetricRegistry :=
  update_metric name (λ c, match c with CVec v => CVec (CounterVec_add v label_value n) | c => c end).
Definition gauge_set (name : string) (n : Z) : MetricRegistry → MetricRegistry :=
  update_metric name (λ c, match c with CGauge _ => CGauge n | c => c end).
Definition gauge_add (name : string) (n : Z) : MetricRegistry → MetricRegistry :=
  update_metric name (λ c, match c with CGauge g => CGauge (Gauge_add g n) | c => c end).
Definition observe (name : string) (value : f64) : MetricRegistry → MetricRegistry :=
  update_metric name (λ c, match c with CHistogram h => CHistogram (Histogram_observe h value) | c => c end).

(** ** Rendering *)

Section Render.
Context {FF : FloatFmt} {MO : MapOrder string Z}.

Definition writeln (s : string) : string := s +:+ nl.

(** [rows.sort()] on (label value, count). *)
Definition row_le (a b : string * Z) : Prop := str_gtb a.1 b.1 = false.
Global Instance row_le_dec : RelDecision row_le.
Proof. intros a b. unfold row_le. apply _. Defined.

Definition render_vec (name : string) (v : CounterVec) : string :=
  String.concat ""
    ((λ row : string * Z, writeln (name +:+ "{" +:+ cv_label v +:+ "=" +:+ dq +:+
        escape_label_value row.1 +:+ dq +:+ "} " +:+ pretty row.2)) <$>
       merge_sort row_le (map_iter (cv_values v))).

(** The cumulative counts, bound by bound. *)
Fixpoint cumulate (acc : Z) (buckets : list Z) : list Z :=
  match buckets with
  | [] => []
  | b :: bs => (acc + b) :: cumulate (acc + b) bs
  end.

Definition render_histogram (name : string) (h : Histogram) : string :=
  let cum := cumulate 0 (hi_buckets h) in
  let line (le : string) (c : Z) :=
    writeln (name +:+ "_bucket{le=" +:+ dq +:+ le +:+ dq +:+ "} " +:+ pretty c) in
  String.concat "" (zip_with (λ b c, line (fmt_f64 b) c) (hi_bounds h) cum)
  +:+ line "+Inf" (default 0 (last cum))
  +:+ writeln (name +:+ "_sum " +:+ fmt_f64 (Histogram_sum h))
  +:+ writeln (name +:+ "_count " +:+ pretty (hi_count h)).

Definition render_collector (name : string) (c : Collector) : string :=
  match c with
  | CCounter x | CGauge x => writeln (name +:+ " " +:+ pretty x)
  | CVec v => render_vec name v
  | CHistogram h => render_histogram name h
  end.

Definition MetricRegistry_render (r : MetricRegistry) : string :=
  String.concat ""
    ((λ e, writeln ("# HELP " +:+ me_name e +:+ " " +:+ escape_help (me_help e))
           +:+ writeln ("# TYPE " +:+ me_name e +:+ " " +:+ collector_kind (me_collector e))
           +:+ render_collector (me_name e) (me_collector e)) <$> r).
End Render.

(** ** The two sets of metrics *)

(** Registration in the order of the source; [None] if any of them panics. *)
Definition register_all (fs : list (MetricRegistry → option MetricRegistry)) : option MetricRegistry :=
  foldl (λ acc f, acc ≫= f) (Some []) fs.

Definition CoordinatorMetrics_new : option MetricRegistry :=
  r ← register_all
    [MetricRegistry_gauge "pulsegrid_coordinator_up" "Coordinator process is running.";
     MetricRegistry_counter_vec "pulsegrid_http_requests_total" "HTTP responses by status class." "status";
     MetricRegistry_histogram "pulsegrid_http_request_duration_seconds"
       "Time to produce an HTTP response." LATENCY_BUCKETS_SECONDS;
     MetricRegistry_counter "pulsegrid_devices_registered_total" "Devices registered.";
     MetricRegistry_counter "pulsegrid_devices_deleted_total"
       "Devices deregistered by their owner or an operator.";
     MetricRegistry_counter "pulsegrid_ws_tickets_issued_total" "One-time WebSocket tickets issued.";
     MetricRegistry_counter "pulsegrid_shard_changes_total"
       "Location updates that moved a device to another shard.";
     MetricRegistry_counter "pulsegrid_alerts_dispatched_total" "Alerts accepted and published.";
     MetricRegistry_counter "pulsegrid_alerts_partial_total"
       "Alerts that failed to publish to at least one shard.";
     MetricRegistry_counter "pulsegrid_alert_shards_published_total"
       "Shard publishes that JetStream acknowledged.";
     MetricRegistry_counter "pulsegrid_alert_shard_failures_total"
       "Shard publishes that failed or timed out.";
     MetricRegistry_histogram "pulsegrid_alert_dispatch_duration_seconds"
       "Time from accepting an alert to publishing it to every shard." LATENCY_BUCKETS_SECONDS;
     MetricRegistry_counter "pulsegrid_admin_revocations_total" "Devices revoked by an operator.";
     MetricRegistry_counter "pulsegrid_retention_devices_deleted_total"
       "Inactive devices removed by the retention sweep.";
     MetricRegistry_counter "pulsegrid_retention_alerts_deleted_total"
       "Old alerts removed by the retention sweep."];
  Some (gauge_set "pulsegrid_coordinator_up" 1 r).

Definition WorkerMetrics_new : option MetricRegistry :=
  register_all
    [MetricRegistry_gauge "pulsegrid_ws_connections_current"
       "WebSocket connections currently held by this worker.";
     MetricRegistry_counter "pulsegrid_ws_connects_total" "WebSocket connections accepted.";
     MetricRegistry_counter_vec "pulsegrid_ws_rejects_total"
       "WebSocket connections refused, by reason." "reason";
     MetricRegistry_counter_vec "pulsegrid_worker_alerts_received_total"
       "Alerts received from NATS, by shard." "shard";
     MetricRegistry_counter_vec "pulsegrid_worker_alerts_delivered_total"
       "Alerts queued to a device socket, by shard." "shard";
     MetricRegistry_counter_vec "pulsegrid_worker_alerts_dropped_total"
       "Alerts skipped because a device's queue was full, by shard." "shard";
     MetricRegistry_counter_vec "pulsegrid_worker_alerts_filtered_out_total"
       "Connected devices skipped because they were outside the alert circle, by shard." "shard";
     MetricRegistry_counter "pulsegrid_worker_alerts_invalid_total"
       "Alert messages that could not be parsed.";
     MetricRegistry_histogram "pulsegrid_worker_broadcast_duration_seconds"
       "Time to fan one alert out to the local sockets of one shard." LATENCY_BUCKETS_SECONDS;
     MetricRegistry_counter_vec "pulsegrid_worker_control_messages_total"
       "Control messages handled, by outcome." "outcome";
     MetricRegistry_gauge "pulsegrid_worker_lease_healthy"
       "1 while this worker holds the lease on every shard it owns.";
     MetricRegistry_gauge "pulsegrid_worker_subscriptions_up"
       "Shard subscriptions currently active."].

(** ** Theorems *)

(** Reading an escaped label value back, as a scraper does. *)
Fixpoint unescape (s : string) : string :=
  match s with
  | EmptyString => EmptyString
  | String c r =>
    if Ascii.eqb c ch_backslash then
      match r with
      | String d r' => String (if Ascii.eqb d "n" then ch_newline else d) (unescape r')
      | EmptyString => EmptyString
      end
    else String c (unescape r)
  end.

(** What the three replacements do to one character. *)
Definition escape_char (c : Ascii.ascii) : string :=
  if Ascii.eqb c ch_backslash then escaped ch_backslash
  else if Ascii.eqb c ch_quote then escaped ch_quote
  else if Ascii.eqb c ch_newline then escaped "n"
  else String c EmptyString.

Lemma escape_label_value_cons c v :
  escape_label_value (String c v) = escape_char c +:+ escape_label_value v.
Proof.
  unfold escape_label_value, escape_char. cbn [replace_char].
  destruct (Ascii.eqb_spec c ch_backslash) as [->|H1]; [done|].
  cbn [replace_char]. destruct (Ascii.eqb_spec c ch_quote) as [->|H2]; [done|].
  cbn [replace_char]. destruct (Ascii.eqb_spec c ch_newline) as [->|H3]; done.
Qed.

#[local] Arguments escape_label_value : simpl never.

(** No character of the text satisfies [f]. *)
Definition free_of (f : Ascii.ascii → bool) (s : string) : bool := str_forallb (λ c, negb (f c)) s.

(** Label values are rendered without ambiguity: the escaped text contains no
    raw line break, so a value can never start a new line of the exposition, and
    un-escaping gives the value back. *)
Theorem escape_label_roundtrip (v : string) :
  unescape (escape_label_value v) = v ∧
  free_of (λ c, Ascii.eqb c ch_newline) (escape_label_value v) = true.
Proof.
  induction v as [|c v [IH1 IH2]]; [done|]. rewrite escape_label_value_cons. unfold escape_char.
  destruct (Ascii.eqb_spec c ch_backslash) as [->|H1]; [by split; [exact (f_equal (String ch_backslash) IH1)|exact IH2]|].
  destruct (Ascii.eqb_spec c ch_quote) as [->|H2];
    [by split; [exact (f_equal (String ch_quote) IH1)|exact IH2]|].
  destruct (Ascii.eqb_spec c ch_newline) as [->|H3];
    [by split; [exact (f_equal (String ch_newline) IH1)|exact IH2]|].
  change (String c "" +:+ escape_label_value v) with (String c (escape_label_value v)).
  unfold free_of in *. cbn [unescape str_forallb].
  destruct (Ascii.eqb_spec c ch_backslash); [done|].
  destruct (Ascii.eqb_spec c ch_newline); [done|]. by rewrite IH1, IH2.
Qed.

(** *** Histograms *)

Definition zsum (l : list Z) : Z := foldr Z.add 0 l.

(** One slot per bound and one more; the slots add up to the count. *)
Definition histogram_ok (h : Histogram) : Prop :=
  length (hi_buckets h) = S (length (hi_bounds h)) ∧ zsum (hi_buckets h) = hi_count h ∧
  Forall (λ b, 0 ≤ b) (hi_buckets h).

Lemma bucket_index_bound v bs : (bucket_index v bs ≤ length bs)%nat.
Proof. induction bs as [|b bs IH]; simpl; [lia|]. case_match; lia. Qed.

Lemma zsum_nonneg l : Forall (λ b, 0 ≤ b) l → 0 ≤ zsum l.
Proof. induction 1; simpl; lia. Qed.

Lemma zsum_alter l i :
  (i < length l)%nat → Forall (λ b, 0 ≤ b) l → zsum l + 1 < 2 ^ 64 →
  zsum (alter Counter_inc i l) = zsum l + 1 ∧ Forall (λ b, 0 ≤ b) (alter Counter_inc i l).
Proof.
  revert i. induction l as [|b l IH]; intros [|i] Hi Hp Hs; simpl in *; try lia;
    apply Forall_cons in Hp as [Hb Hp]; pose proof (zsum_nonneg l Hp).
  - unfold Counter_inc, Counter_add. rewrite u64_wrap_small by lia.
    split; [lia|]. constructor; [lia|done].
  - destruct (IH i) as [H1 H2]; [lia|done|lia|]. change (list_alter Counter_inc i l) with (alter Counter_inc i l).
    rewrite H1. split; [lia|]. by constructor.
Qed.

Lemma observe_ok h v :
  histogram_ok h → hi_count h + 1 < 2 ^ 64 →
  histogram_ok (Histogram_observe h v) ∧ hi_count (Histogram_observe h v) = hi_count h + 1.
Proof.
  intros (Hl & Hs & Hp) Hc. pose proof (bucket_index_bound v (hi_bounds h)).
  destruct (zsum_alter (hi_buckets h) (bucket_index v (hi_bounds h))) as [H1 H2]; [lia|done|lia|].
  assert (Hn : Counter_inc (hi_count h) = hi_count h + 1).
  { unfold Counter_inc, Counter_add. apply u64_wrap_small. pose proof (zsum_nonneg _ Hp). lia. }
  unfold histogram_ok; simpl. rewrite length_alter, H1, Hn. split_and!; lia || done.
Qed.

Lemma last_cumulate acc l : l ≠ [] → last (cumulate acc l) = Some (acc + zsum l).
Proof.
  revert acc. induction l as [|b l IH]; intros acc Hne; [done|]. destruct l as [|b' l].
  - simpl. f_equal. lia.
  - specialize (IH (acc + b) ltac:(done)). cbn [cumulate] in *.
    rewrite last_cons_cons, IH. simpl. f_equal. lia.
Qed.

(** A histogram's rendered buckets are consistent: after any observations
    (fewer than 2^64, NaN and infinite values included) the cumulative counts
    never decrease and the "+Inf" bucket, the total of all slots and the
    reported count are all the number of observations. *)
Theorem histogram_consistent bounds h vs :
  Histogram_new bounds = Some h → Z.of_nat (length vs) < 2 ^ 64 - 1 →
  let h' := foldl Histogram_observe h vs in
  hi_count h' = Z.of_nat (length vs) ∧ zsum (hi_buckets h') = hi_count h' ∧
  last (cumulate 0 (hi_buckets h')) = Some (hi_count h') ∧
  Forall (λ b, 0 ≤ b) (hi_buckets h').
Proof.
  unfold Histogram_new. destruct (existsb is_nan bounds); [done|]. intros [= <-] Hlen. cbv zeta.
  set (h0 := MkHistogram _ _ 0 0).
  assert (H0 : histogram_ok h0).
  { split_and!; simpl; [by rewrite length_replicate| |].
    - by induction (merge_sort f64_le_rel bounds).
    - constructor; [lia|]. apply Forall_replicate. lia. }
  assert (Hgen : ∀ h, histogram_ok h → hi_count h + Z.of_nat (length vs) < 2 ^ 64 - 1 →
    histogram_ok (foldl Histogram_observe h vs) ∧
    hi_count (foldl Histogram_observe h vs) = hi_count h + Z.of_nat (length vs)).
  { clear. induction vs as [|v vs IH]; intros h Hok Hn; simpl in *; [split; [done|lia]|].
    destruct (observe_ok h v Hok) as [Hok' Hc]; [lia|].
    destruct (IH _ Hok') as [H1 H2]; [simpl in *; lia|]. split; [done|]. simpl in *. lia. }
  destruct (Hgen h0 H0) as [(Hl & Hs & Hp) Hc]; [simpl; lia|].
  split_and!; [done|done| |done]. rewrite last_cumulate, Hs; [done|].
  intros Hnil. by rewrite Hnil in Hl.
Qed.

(** *** Start-up *)

Definition collect_names (r : MetricRegistry) : list string := me_name <$> r.

Lemma register_names name help c r r' :
  MetricRegistry_register name help c r = Some r' →
  NoDup (collect_names r) → NoDup (collect_names r') ∧ valid_name name = true.
Proof.
  unfold MetricRegistry_register. destruct (valid_name name) eqn:Hv; [|done]. simpl.
  case_bool_decide as Hin; [done|]. intros [= <-] Hnd. split; [|done].
  unfold collect_names. rewrite fmap_app. apply NoDup_app. split_and!; [done| |].
  - intros x Hx [->|[]%not_elem_of_nil]%elem_of_cons. done.
  - apply NoDup_singleton.
Qed.

(** Neither binary panics while registering its metrics: every name and label
    is valid and no name is used twice, and the coordinator's "up" gauge starts
    at 1. *)
Theorem metrics_registration_succeeds :
  (∃ r, CoordinatorMetrics_new = Some r ∧ NoDup (collect_names r) ∧
     length r = 15%nat ∧ me_collector <$> head r = Some (CGauge 1)) ∧
  ∃ r, WorkerMetrics_new = Some r ∧ NoDup (collect_names r) ∧ length r = 12%nat.
Proof.
  split; (eexists; split; [vm_compute; reflexivity|]);
    (split; [apply (bool_decide_unpack (NoDup (collect_names _))); vm_compute; exact I|]); done.
Qed.

(** *** Reading a metric *)

Fixpoint find_metric (name : string) (r : MetricRegistry) : option Collector :=
  match r with
  | [] => None
  | e :: r => if decide (me_name e = name) then Some (me_collector e) else find_metric name r
  end.

Definition vec_total (name label_value : string) (r : MetricRegistry) : Z :=
  match find_metric name r with Some (CVec v) => CounterVec_get v label_value | _ => 0 end.

Definition counter_total (name : string) (r : MetricRegistry) : Z :=
  match find_metric name r with Some (CCounter x) => x | _ => 0 end.

Lemma find_update_same name f r :
  find_metric name (update_metric name f r) = f <$> find_metric name r.
Proof.
  induction r as [|e r IH]; [done|]. unfold update_metric in *. rewrite fmap_cons. simpl.
  destruct (decide (me_name e = name)) as [Hn|Hn]; simpl.
  - by rewrite decide_True by done.
  - by rewrite decide_False by done.
Qed.

Lemma find_update_other name name' f r :
  name ≠ name' → find_metric name (update_metric name' f r) = find_metric name r.
Proof.
  intros Hne. induction r as [|e r IH]; [done|]. unfold update_metric in *. rewrite fmap_cons. simpl.
  destruct (decide (me_name e = name')) as [Hn'|Hn']; simpl; [|by rewrite IH].
  destruct (decide (me_name e = name)) as [Hn|Hn]; [congruence|done].
Qed.

Lemma vec_total_add name l n r v :
  find_metric name r = Some (CVec v) →
  vec_total name l (vec_add name l n r) = u64_wrap (vec_total name l r + n).
Proof.
  intros Hf. unfold vec_total, vec_add. rewrite find_update_same, Hf. simpl.
  unfold CounterVec_get, CounterVec_add. simpl. by rewrite lookup_insert_eq.
Qed.

Lemma vec_total_add_other name l l' n r :
  l ≠ l' → vec_total name l (vec_add name l' n r) = vec_total name l r.
Proof.
  intros Hne. unfold vec_total, vec_add. rewrite find_update_same.
  destruct (find_metric name r) as [[]|]; simpl; try done.
  unfold CounterVec_get, CounterVec_add. simpl. by rewrite lookup_insert_ne.
Qed.

Lemma counter_total_add name n r x :
  find_metric name r = Some (CCounter x) →
  counter_total name (counter_add name n r) = u64_wrap (counter_total name r + n).
Proof. intros Hf. unfold counter_total, counter_add. by rewrite find_update_same, Hf. Qed.

Lemma histogram_consistent_witness :
  ∃ h, Histogram_new LATENCY_BUCKETS_SECONDS = Some h ∧
    hi_count (foldl Histogram_observe h [f64_zero; S754_nan; f64_of_Z 60]) = 3.
Proof.
  eexists. split; [reflexivity|].
  eapply (histogram_consistent LATENCY_BUCKETS_SECONDS _ [f64_zero; S754_nan; f64_of_Z 60]);
    reflexivity.
Defined.
