(* ===== verification/Geo.v ===== *)
(** * Locations and geohash routing

    [Location] (crates/domain/src/device.rs) and the routing algorithm of
    crates/domain/src/geo.rs: from an alert's centre and radius to the set of
    shard prefixes (4-character geohash cells) the alert is published to, the
    bounding boxes of the SQL pre-filter, and the great-circle distance.

    The [geohash] crate is the class [Geohash]; the iteration order of a
    [HashSet], which Rust leaves open, is the class [HashOrder]. *)

From S2P Require Import Prelude F64 Str Errors.
From stdpp Require Import pretty.
From Stdlib Require Import SpecFloat.

Open Scope Z_scope.
Open Scope f64_scope.

(** ** External parameters *)

Record Coord : Type := MkCoord { coord_x : f64; coord_y : f64 }.

Record Neighbors : Type := MkNeighbors {
  nb_n : string; nb_ne : string; nb_e : string; nb_se : string;
  nb_s : string; nb_sw : string; nb_w : string; nb_nw : string;
}.

(** The crate's [encode], [decode] (centre, longitude error, latitude error)
    and [neighbors]; a failure carries the text of its error. *)
Class Geohash : Type := {
  gh_encode : Coord → nat → result string string;
  gh_decode : string → result (Coord * f64 * f64) string;
  gh_neighbors : string → result Neighbors string;
}.

(** A [HashSet<String>] is a finite set that is iterated in some order. *)
Class HashOrder : Type := {
  hash_iter : gset string → list string;
  hash_iter_perm X : hash_iter X ≡ₚ elements X;
}.

(** ** Constants of geo.rs *)

Definition GEOHASH_PRECISION : nat := 7.
Definition SHARD_PREFIX_LENGTH : nat := 4.
Definition METERS_PER_DEGREE_LAT : f64 := f64_of_Z 111320.
Definition EARTH_RADIUS_M : f64 := f64_of_Z 6371000.
Definition MAX_RING_EXPANSION : Z := 100.

(** ** Locations *)

Record Location : Type := MkLocation { lat : f64; lon : f64 }.

Global Instance Location_eq_dec : EqDecision Location.
Proof. solve_decision. Defined.

(** [(lo..=hi).contains(&x)]. *)
Definition range_contains (lo hi : Z) (x : f64) : bool :=
  (f64_of_Z lo <=. x) && (x <=. f64_of_Z hi).

Definition Location_new (la lo : f64) : result Location AppError :=
  if negb (range_contains (-90) 90 la) || negb (range_contains (-180) 180 lo)
  then Err (InvalidLocation la lo)
  else Ok (MkLocation la lo).

(** The derived [PartialEq]. *)
Definition Location_eqb (a b : Location) : bool :=
  (lat a ==. lat b) && (lon a ==. lon b).

Definition valid_location (l : Location) : bool :=
  range_contains (-90) 90 (lat l) && range_contains (-180) 180 (lon l).

(** ** Distance *)

Section Geo.
Context {L : Libm} {FF : FloatFmt} {G : Geohash} {HO : HashOrder}.

Definition haversine_distance_meters (lat1 lon1 lat2 lon2 : f64) : f64 :=
  let lat1_r := to_radians lat1 in
  let lat2_r := to_radians lat2 in
  let d_lat := to_radians (lat2 -. lat1) in
  let d_lon := to_radians (lon2 -. lon1) in
  let a := f64_powi (f64_sin (d_lat /. f64_of_Z 2)) 2
           +. f64_cos lat1_r ×. f64_cos lat2_r ×. f64_powi (f64_sin (d_lon /. f64_of_Z 2)) 2 in
  let c := f64_of_Z 2 ×. f64_asin (f64_sqrt a) in
  EARTH_RADIUS_M ×. c.

Definition distance_meters (a b : Location) : f64 :=
  haversine_distance_meters (lat a) (lon a) (lat b) (lon b).

(** ** Encoding *)

Definition encode_location (l : Location) : result string AppError :=
  map_err GeohashError (gh_encode (MkCoord (lon l) (lat l)) GEOHASH_PRECISION).

Definition shard_prefix_of (geohash : string) : string :=
  chars_take SHARD_PREFIX_LENGTH geohash.

(** Width and height in meters of a cell at a latitude. *)
Definition cell_dims_meters (hash : string) (la : f64) : result (f64 * f64) AppError :=
  let? (_, lon_err, lat_err) := map_err GeohashError (gh_decode hash) in
  let meters_per_degree_lon := METERS_PER_DEGREE_LAT ×. f64_cos (to_radians la) in
  let width_m := f64_max (f64_of_Z 2 ×. lon_err ×. meters_per_degree_lon) (f64_of_Z 1) in
  let height_m := f64_max (f64_of_Z 2 ×. lat_err ×. METERS_PER_DEGREE_LAT) (f64_of_Z 1) in
  Ok (width_m, height_m).

(** ** Routing an alert circle to shards *)

Definition lat_extent_deg (radius_meters : f64) : f64 :=
  to_degrees (radius_meters /. EARTH_RADIUS_M).

Definition lon_extent_deg (center : Location) (radius_meters : f64) : f64 :=
  let ang := radius_meters /. EARTH_RADIUS_M in
  let lon_ratio := f64_sin ang /. f64_cos (to_radians (lat center)) in
  if lon_ratio >=. f64_of_Z 1 then f64_of_Z 360 else to_degrees (f64_asin lon_ratio).

(** How many rings of cells the circle reaches; the [usize] additions wrap. *)
Definition rings_needed (center : Location) (radius_meters lon_err lat_err : f64) : Z :=
  let cell_lon_deg := f64_of_Z 2 ×. lon_err in
  let cell_lat_deg := f64_of_Z 2 ×. lat_err in
  let whole_cells (extent_deg cell_deg : f64) :=
    u64_wrap (f64_as_u64 (f64_floor (extent_deg /. cell_deg)) + 1) in
  Z.max (Z.max (whole_cells (lat_extent_deg radius_meters) cell_lat_deg)
               (whole_cells (lon_extent_deg center radius_meters) cell_lon_deg))
        1.

(** [visited.insert(candidate)], and on a fresh cell the push onto
    [next_frontier]. *)
Definition visit (st : gset string * list string) (candidate : string)
    : gset string * list string :=
  if decide (candidate ∈ st.1) then st
  else ({[candidate]} ∪ st.1, st.2 ++ [candidate]).

Definition neighbor_list (n : Neighbors) : list string :=
  [nb_n n; nb_ne n; nb_e n; nb_se n; nb_s n; nb_sw n; nb_w n; nb_nw n].

(** The loop over the cells of the current frontier. *)
Fixpoint expand_frontier (frontier : list string) (st : gset string * list string)
    : result (gset string * list string) AppError :=
  match frontier with
  | [] => Ok st
  | hash :: rest =>
    let? n := map_err GeohashError (gh_neighbors hash) in
    expand_frontier rest (foldl visit st (neighbor_list n))
  end.

(** The loop over the rings, with its early exit on an empty frontier. *)
Fixpoint bfs_rings (rings : nat) (visited : gset string) (frontier : list string)
    : result (gset string) AppError :=
  match rings with
  | O => Ok visited
  | S k =>
    let? (visited', next_frontier) := expand_frontier frontier (visited, []) in
    match next_frontier with
    | [] => Ok visited'
    | _ => bfs_rings k visited' next_frontier
    end
  end.

(** The pruning loop: keep the cells whose centre is near enough. *)
Fixpoint prune (center : Location) (max_distance : f64) (hashes : list string)
    : result (list string) AppError :=
  match hashes with
  | [] => Ok []
  | hash :: rest =>
    let? (coord, _, _) := map_err GeohashError (gh_decode hash) in
    let distance :=
      haversine_distance_meters (lat center) (lon center) (coord_y coord) (coord_x coord) in
    let? kept := prune center max_distance rest in
    Ok (if distance <=. max_distance then hash :: kept else kept)
  end.

(** One cell of slack. *)
Definition diagonal_buffer (cell_width_m cell_height_m : f64) : f64 :=
  let cell_size_m := f64_max (f64_min cell_width_m cell_height_m) (f64_of_Z 1) in
  f64_max (cell_size_m ×. f64_sqrt2)
          (f64_lit 1 2 ×. f64_hypot cell_width_m cell_height_m).

Definition radius_out_of_range (radius_meters : f64) : bool :=
  (radius_meters <=. f64_zero) || (radius_meters >. f64_of_Z 500000).

Definition rings_message (center : Location) (radius_meters : f64) (rings : Z) : string :=
  "radius " +:+ fmt_f64 radius_meters +:+ " m needs " +:+ pretty rings +:+
  " geohash rings at latitude " +:+ fmt_f64_2 (lat center) +:+
  " (max 100); use a smaller radius".

Definition shard_prefixes_for_radius (center : Location) (radius_meters : f64)
    : result (list string) AppError :=
  if radius_out_of_range radius_meters then Err (InvalidRadius radius_meters) else
  let? center_hash :=
    map_err GeohashError
      (gh_encode (MkCoord (lon center) (lat center)) SHARD_PREFIX_LENGTH) in
  let? (_, lon_err, lat_err) := map_err GeohashError (gh_decode center_hash) in
  let rings := rings_needed center radius_meters lon_err lat_err in
  if rings >? MAX_RING_EXPANSION then
    Err (Validation (rings_message center radius_meters rings)) else
  let? (_, cell_height_m) := cell_dims_meters center_hash (lat center) in
  let nearest_equator_lat :=
    f64_max (f64_abs (lat center) -. lat_extent_deg radius_meters) f64_zero in
  let? (cell_width_m, _) := cell_dims_meters center_hash nearest_equator_lat in
  let? visited := bfs_rings (Z.to_nat rings) {[center_hash]} [center_hash] in
  let diagonal_buffer_m := diagonal_buffer cell_width_m cell_height_m in
  prune center (radius_meters +. diagonal_buffer_m) (hash_iter visited).

(** ** Rectangles *)

Record BoundingBox : Type := MkBox {
  min_lat : f64; max_lat : f64; min_lon : f64; max_lon : f64;
}.

Definition BoundingBox_contains (b : BoundingBox) (la lo : f64) : bool :=
  (la >=. min_lat b) && (la <=. max_lat b) && (lo >=. min_lon b) && (lo <=. max_lon b).

(** The rectangle of a geohash cell. *)
Definition cell_bounds (geohash : string) : result BoundingBox AppError :=
  let? (c, lon_err, lat_err) := map_err GeohashError (gh_decode geohash) in
  Ok (MkBox (coord_y c -. lat_err) (coord_y c +. lat_err)
            (coord_x c -. lon_err) (coord_x c +. lon_err)).

Definition full_lon (mn mx : f64) : BoundingBox :=
  MkBox (f64_max mn (f64_of_Z (-90))) (f64_min mx (f64_of_Z 90))
        (f64_of_Z (-180)) (f64_of_Z 180).

(** One or two rectangles for the SQL pre-filter. *)
Definition bounding_boxes (center : Location) (radius_meters : f64)
    : result (list BoundingBox) AppError :=
  if radius_out_of_range radius_meters then Err (InvalidRadius radius_meters) else
  let ang := radius_meters /. EARTH_RADIUS_M in
  let dlat := to_degrees ang ×. f64_lit 1001 1000 in
  let mn := lat center -. dlat in
  let mx := lat center +. dlat in
  if (mn <=. f64_of_Z (-90)) || (mx >=. f64_of_Z 90) then Ok [full_lon mn mx] else
  let ratio := f64_sin ang /. f64_cos (to_radians (lat center)) in
  if ratio >=. f64_of_Z 1 then Ok [full_lon mn mx] else
  let dlon := to_degrees (f64_asin ratio) ×. f64_lit 1001 1000 in
  if dlon >=. f64_of_Z 180 then Ok [full_lon mn mx] else
  let lo := lon center -. dlon in
  let hi := lon center +. dlon in
  let boxed := MkBox mn mx in
  if lo <. f64_of_Z (-180) then
    Ok [boxed (lo +. f64_of_Z 360) (f64_of_Z 180); boxed (f64_of_Z (-180)) hi]
  else if hi >. f64_of_Z 180 then
    Ok [boxed lo (f64_of_Z 180); boxed (f64_of_Z (-180)) (hi -. f64_of_Z 360)]
  else Ok [boxed lo hi].

(** ** The abstract routing specification

    [within n a x]: the cell [x] is reached from [a] in at most [n] steps of
    the neighbour relation. *)

Definition nbr (a b : string) : Prop :=
  ∃ n, gh_neighbors a = Ok n ∧ b ∈ neighbor_list n.

Inductive within : nat → string → string → Prop :=
| within_here n a : within n a a
| within_step n a b c : within n a b → nbr b c → within (S n) a c.

(** The cell's centre is at most [max_distance] from the alert's centre. *)
Definition near (center : Location) (max_distance : f64) (hash : string) : Prop :=
  ∃ coord lon_err lat_err, gh_decode hash = Ok (coord, lon_err, lat_err) ∧
    (haversine_distance_meters (lat center) (lon center) (coord_y coord) (coord_x coord)
       <=. max_distance) = true.

Lemma within_mono n m a x : (n ≤ m)%nat → within n a x → within m a x.
Proof.
  intros Hnm Hw. revert m Hnm.
  induction Hw as [n a|n a b c Hw IH Hn]; intros m Hnm; [constructor|].
  destruct m as [|m]; [lia|]. econstructor; [apply IH; lia | done].
Qed.

Lemma within_succ_inv n a x :
  within (S n) a x ↔ within n a x ∨ ∃ b, within n a b ∧ nbr b x.
Proof.
  split.
  - inversion 1; subst; [left; constructor | right; eauto].
  - intros [H|(b & H & Hn)]; [by eapply within_mono; [|done]; lia | by econstructor].
Qed.

Lemma within_zero a x : within 0 a x ↔ x = a.
Proof. split; [by inversion 1 | intros ->; constructor]. Qed.

(** ** The breadth-first search *)

Lemma foldl_visit_spec V nx cs V' nx' :
  foldl visit (V, nx) cs = (V', nx') → (∀ x, x ∈ nx → x ∈ V) →
  (∀ x, x ∈ V' ↔ x ∈ V ∨ x ∈ cs) ∧
  (∀ x, x ∈ nx' ↔ x ∈ nx ∨ x ∈ cs ∧ x ∉ V).
Proof.
  revert V nx. induction cs as [|c cs IH]; intros V nx; simpl.
  - intros [= <- <-]. set_solver.
  - unfold visit at 2; simpl. case_decide as Hc; intros Hf Hsub.
    + destruct (IH _ _ Hf Hsub) as [HV Hn]. split; intros x.
      * rewrite HV. set_solver.
      * rewrite Hn. set_solver.
    + apply IH in Hf; [|set_solver]. destruct Hf as [HV Hn].
      clear IH Hsub. split; intros x.
      * rewrite HV, elem_of_union, elem_of_singleton, elem_of_cons. tauto.
      * rewrite Hn, elem_of_union, elem_of_app, list_elem_of_singleton, elem_of_singleton,
          elem_of_cons.
        destruct (decide (x = c)) as [->|]; tauto.
Qed.

Lemma expand_frontier_spec fr V nx V' nx' :
  expand_frontier fr (V, nx) = Ok (V', nx') → (∀ x, x ∈ nx → x ∈ V) →
  (∀ x, x ∈ V' ↔ x ∈ V ∨ ∃ h, h ∈ fr ∧ nbr h x) ∧
  (∀ x, x ∈ nx' ↔ x ∈ nx ∨ x ∈ V' ∧ x ∉ V) ∧
  (∀ h, h ∈ fr → ∃ n, gh_neighbors h = Ok n).
Proof.
  revert V nx. induction fr as [|h fr IH]; intros V nx; cbn [expand_frontier].
  - intros [= <- <-] ?. set_solver.
  - destruct (gh_neighbors h) as [n|e] eqn:Hh; cbn [map_err]; [|done].
    destruct (foldl visit (V, nx) (neighbor_list n)) as [V1 n1] eqn:Hf.
    intros He Hsub. apply foldl_visit_spec in Hf as [HV1 Hn1]; [|done].
    apply IH in He as (HV & Hn & Hex); [|intros x; rewrite Hn1, HV1; naive_solver].
    assert (Hnb : ∀ x, nbr h x ↔ x ∈ neighbor_list n).
    { intros x. unfold nbr. rewrite Hh. naive_solver. }
    assert (Hfr : ∀ x, (∃ k, k ∈ h :: fr ∧ nbr k x) ↔ nbr h x ∨ ∃ k, k ∈ fr ∧ nbr k x)
      by (clear; set_solver).
    split_and!.
    + intros x. rewrite HV, HV1, <- Hnb, Hfr. tauto.
    + intros x. rewrite Hn, Hn1, HV, HV1.
      destruct (decide (x ∈ neighbor_list n)); tauto.
    + intros k [->|Hk]%elem_of_cons; eauto.
Qed.

(** The loop invariant at the start of a ring: [V] is the ball of radius [k],
    and every visited cell outside the frontier has all its neighbours
    visited. *)
Definition bfs_inv (c : string) (k : nat) (V : gset string) (fr : list string) : Prop :=
  (∀ x, x ∈ V ↔ within k c x) ∧ (∀ x, x ∈ fr → x ∈ V) ∧
  (∀ x y, x ∈ V → x ∉ fr → nbr x y → y ∈ V).

Lemma bfs_inv_init c : bfs_inv c 0 {[c]} [c].
Proof.
  split_and!; [intros x; rewrite within_zero; set_solver | set_solver | set_solver].
Qed.

Lemma bfs_inv_step c k V fr V' nx :
  bfs_inv c k V fr → expand_frontier fr (V, []) = Ok (V', nx) → bfs_inv c (S k) V' nx.
Proof.
  intros (HV & Hfr & Hcl) He.
  apply expand_frontier_spec in He as (HV' & Hnx & _); [|set_solver].
  split_and!.
  - intros x. rewrite HV', within_succ_inv, HV. split.
    + intros [?|(h & Hh & Hn)]; [by left | right; exists h; split; [by apply HV, Hfr | done]].
    + intros [?|(b & Hb & Hn)]; [by left|].
      destruct (decide (b ∈ fr)); [right; eauto | left].
      apply HV in Hb. apply HV. eauto.
  - intros x. rewrite Hnx. set_solver.
  - intros x y Hx Hnin Hxy. rewrite HV'. rewrite Hnx in Hnin.
    destruct (decide (x ∈ V)) as [HxV|]; [|set_solver].
    destruct (decide (x ∈ fr)); [right; eauto | left; eauto].
Qed.

Lemma bfs_closed c k V n x : bfs_inv c k V [] → within n c x → x ∈ V.
Proof.
  intros (HV & _ & Hcl) Hw. remember c as a eqn:Ha. revert Ha.
  induction Hw as [n a|n a b d Hw IH Hn]; intros ->.
  - apply HV. constructor.
  - eapply Hcl; [by apply IH | set_solver | done].
Qed.

Lemma bfs_rings_inv c n k V fr V' :
  bfs_inv c k V fr → bfs_rings n V fr = Ok V' → ∀ x, x ∈ V' ↔ within (k + n) c x.
Proof.
  revert k V fr. induction n as [|n IH]; intros k V fr Hinv; simpl.
  - intros [= <-] x. rewrite Nat.add_0_r. apply Hinv.
  - destruct (expand_frontier fr (V, [])) as [[V1 nx]|e] eqn:He; [|done].
    pose proof (bfs_inv_step _ _ _ _ _ _ Hinv He) as Hinv1.
    destruct nx as [|z nx].
    + intros [= <-] x. split.
      * intros Hx. apply Hinv1 in Hx. eapply within_mono; [|done]. lia.
      * by apply bfs_closed with (k := S k).
    + intros Hb x. rewrite (IH _ _ _ Hinv1 Hb). by replace (S k + n)%nat with (k + S n)%nat by lia.
Qed.

(** The search from a cell visits exactly the ball around it. *)
Lemma bfs_rings_ball c n V :
  bfs_rings n {[c]} [c] = Ok V → ∀ x, x ∈ V ↔ within n c x.
Proof. intros H. apply (bfs_rings_inv c n 0 _ _ _ (bfs_inv_init c) H). Qed.

Lemma expand_frontier_total fr st :
  (∀ h, h ∈ fr → ∃ n, gh_neighbors h = Ok n) → ∃ st', expand_frontier fr st = Ok st'.
Proof.
  revert st. induction fr as [|h fr IH]; intros st H; simpl; [eauto|].
  destruct (H h) as [n Hn]; [set_solver|]. rewrite Hn; simpl. apply IH. set_solver.
Qed.

Lemma bfs_rings_total c n k V fr :
  bfs_inv c k V fr →
  (∀ x, within (k + n) c x → ∃ m, gh_neighbors x = Ok m) → ∃ V', bfs_rings n V fr = Ok V'.
Proof.
  revert k V fr. induction n as [|n IH]; intros k V fr Hinv Hn; simpl; [eauto|].
  destruct (expand_frontier_total fr (V, [])) as [[V1 nx] He].
  { intros h Hh. apply Hn, (within_mono k); [lia|]. by apply Hinv, Hinv. }
  rewrite He. destruct nx as [|z nx]; [eauto|].
  apply (IH (S k)); [by eapply bfs_inv_step|].
  intros x. replace (S k + n)%nat with (k + S n)%nat by lia. apply Hn.
Qed.

(** ** Pruning *)

Lemma prune_spec center d hs ps :
  prune center d hs = Ok ps →
  (∀ x, x ∈ ps ↔ x ∈ hs ∧ near center d x) ∧ (NoDup hs → NoDup ps).
Proof.
  revert ps. induction hs as [|h hs IH]; intros ps; simpl.
  - intros [= <-]. split; [set_solver|]. constructor.
  - destruct (gh_decode h) as [[[co le] la]|e] eqn:Hd; simpl; [|done].
    destruct (prune center d hs) as [kept|e]; [|done].
    specialize (IH _ eq_refl) as [IHm IHn].
    assert (Hnear : near center d h ↔ (haversine_distance_meters (lat center) (lon center)
        (coord_y co) (coord_x co) <=. d) = true).
    { unfold near. rewrite Hd. naive_solver. }
    case_match eqn:Hle; intros [= <-]; (split; [intros x | intros [Hni Hnd]%NoDup_cons]).
    + rewrite !elem_of_cons, IHm. naive_solver.
    + apply NoDup_cons. rewrite IHm. tauto.
    + rewrite elem_of_cons, IHm. naive_solver congruence.
    + auto.
Qed.

Lemma prune_total center d hs :
  (∀ h, h ∈ hs → ∃ r, gh_decode h = Ok r) → ∃ ps, prune center d hs = Ok ps.
Proof.
  induction hs as [|h hs IH]; intros H; simpl; [eauto|].
  destruct (H h) as [[[co le] la] Hd]; [set_solver|]. rewrite Hd; simpl.
  destruct IH as [ps ->]; [set_solver|]. eauto.
Qed.

(** ** The routing function against its specification *)

(** What [shard_prefixes_for_radius] computes before its search: the cell of
    the centre, the number of rings, and the cut-off distance. *)
Definition routing_disc (center : Location) (radius_meters : f64)
    (c : string) (rings : Z) (cutoff : f64) : Prop :=
  ∃ co lon_err lat_err height width h2 w1,
    gh_encode (MkCoord (lon center) (lat center)) SHARD_PREFIX_LENGTH = Ok c ∧
    gh_decode c = Ok (co, lon_err, lat_err) ∧
    rings = rings_needed center radius_meters lon_err lat_err ∧
    cell_dims_meters c (lat center) = Ok (w1, height) ∧
    cell_dims_meters c (f64_max (f64_abs (lat center) -. lat_extent_deg radius_meters) f64_zero)
      = Ok (width, h2) ∧
    cutoff = radius_meters +. diagonal_buffer width height.

Lemma rings_needed_pos center r le la : (1 ≤ rings_needed center r le la)%Z.
Proof. unfold rings_needed. lia. Qed.

Lemma shard_prefixes_for_radius_inv center r ps :
  shard_prefixes_for_radius center r = Ok ps →
  radius_out_of_range r = false ∧
  ∃ c rings cutoff V, routing_disc center r c rings cutoff ∧ (1 ≤ rings ≤ MAX_RING_EXPANSION)%Z ∧
    bfs_rings (Z.to_nat rings) {[c]} [c] = Ok V ∧ prune center cutoff (hash_iter V) = Ok ps.
Proof.
  unfold shard_prefixes_for_radius.
  destruct (radius_out_of_range r); [done|].
  destruct (gh_encode _ _) as [c|] eqn:He; cbn [map_err]; [|done].
  destruct (gh_decode c) as [[[co le] la]|] eqn:Hd; cbn [map_err]; [|done].
  destruct (Z.gtb_spec (rings_needed center r le la) MAX_RING_EXPANSION) as [|Hle]; [done|].
  destruct (cell_dims_meters c (lat center)) as [[w1 h]|] eqn:H1; [|done].
  destruct (cell_dims_meters c (f64_max _ _)) as [[w h2]|] eqn:H2; [|done].
  destruct (bfs_rings _ _ _) as [V|] eqn:Hb; [|done]. intros Hp. split; [done|].
  exists c, (rings_needed center r le la), (r +. diagonal_buffer w h), V.
  split_and!; [|apply rings_needed_pos|exact Hle|exact Hb|exact Hp].
  exists co, le, la, h, w, h2, w1. done.
Qed.

Lemma hash_iter_spec (X : gset string) :
  NoDup (hash_iter X) ∧ ∀ x, x ∈ hash_iter X ↔ x ∈ X.
Proof.
  split; [rewrite hash_iter_perm; apply NoDup_elements|].
  intros x. by rewrite hash_iter_perm, elem_of_elements.
Qed.

(** C3: The routing algorithm refines its specification. Whenever
    [shard_prefixes_for_radius] succeeds, the prefixes it returns are, without
    duplicates, exactly the cells reached from the centre's cell in at most
    [rings] neighbour steps whose own centre is within the cut-off distance;
    between 1 and 100 rings are searched. *)
Theorem shard_prefixes_for_radius_refines center r ps :
  shard_prefixes_for_radius center r = Ok ps →
  ∃ c rings cutoff, routing_disc center r c rings cutoff ∧ (1 ≤ rings ≤ 100)%Z ∧ NoDup ps ∧
    ∀ x, x ∈ ps ↔ within (Z.to_nat rings) c x ∧ near center cutoff x.
Proof.
  intros (_ & c & rings & cutoff & V & Hd & Hr & Hb & Hp)%shard_prefixes_for_radius_inv.
  apply prune_spec in Hp as [Hin Hnd]. destruct (hash_iter_spec V) as [HndV HV].
  exists c, rings, cutoff. split_and!; [done| |unfold MAX_RING_EXPANSION in Hr|auto|]; [lia..|].
  intros x. by rewrite Hin, HV, (bfs_rings_ball _ _ _ Hb).
Qed.

(** C26: The routing algorithm is total on its domain. If the radius is in
    range, the ring count stays within the cap, and the geohash crate answers
    on the cells of the searched ball, a set of prefixes is returned: the
    search terminates and none of its error exits is taken. *)
Theorem shard_prefixes_for_radius_total center r c co le la :
  radius_out_of_range r = false →
  gh_encode (MkCoord (lon center) (lat center)) SHARD_PREFIX_LENGTH = Ok c →
  gh_decode c = Ok (co, le, la) →
  (rings_needed center r le la ≤ MAX_RING_EXPANSION)%Z →
  (∀ x, within (Z.to_nat (rings_needed center r le la)) c x →
     (∃ n, gh_neighbors x = Ok n) ∧ ∃ d, gh_decode x = Ok d) →
  ∃ ps, shard_prefixes_for_radius center r = Ok ps.
Proof.
  intros Hr He Hd Hle Hball. unfold shard_prefixes_for_radius, cell_dims_meters.
  rewrite Hr, He. cbn [map_err]. rewrite Hd. cbn [map_err].
  destruct (Z.gtb_spec (rings_needed center r le la) MAX_RING_EXPANSION) as [|_]; [lia|].
  destruct (bfs_rings_total c (Z.to_nat (rings_needed center r le la)) 0 {[c]} [c]) as [V HV].
  { apply bfs_inv_init. } { intros x Hx. by apply Hball. }
  rewrite HV. apply prune_total. intros h Hh. apply hash_iter_spec in Hh.
  by apply Hball, (bfs_rings_ball _ _ _ HV).
Qed.

(** Every request with a radius outside (0, 500000] is refused with
    [InvalidRadius], and one that needs more than 100 rings with a validation
    error; both before any cell is searched. The bounding boxes refuse the same
    radii. *)
Theorem routing_rejections center r :
  (radius_out_of_range r = true →
    shard_prefixes_for_radius center r = Err (InvalidRadius r) ∧
    bounding_boxes center r = Err (InvalidRadius r)) ∧
  (∀ c co le la, radius_out_of_range r = false →
    gh_encode (MkCoord (lon center) (lat center)) SHARD_PREFIX_LENGTH = Ok c →
    gh_decode c = Ok (co, le, la) → (MAX_RING_EXPANSION < rings_needed center r le la)%Z →
    ∃ msg, shard_prefixes_for_radius center r = Err (Validation msg)).
Proof.
  unfold shard_prefixes_for_radius, bounding_boxes. split; [by intros ->|].
  intros c co le la -> He Hd Hlt. rewrite He. cbn [map_err]. rewrite Hd. cbn [map_err].
  destruct (Z.gtb_spec (rings_needed center r le la) MAX_RING_EXPANSION); [eauto|lia].
Qed.

(** A radius that is not a number passes the range check (both comparisons
    are false), and the alert is then routed to no shard at all. *)
Theorem nan_radius_routes_nowhere center r ps :
  is_nan r = true →
  radius_out_of_range r = false ∧ (shard_prefixes_for_radius center r = Ok ps → ps = []).
Proof.
  intros Hn. assert (r = S754_nan) as -> by by destruct r.
  split; [done|]. intros Hps. apply shard_prefixes_for_radius_inv in Hps as (_ & c & rings & cutoff & V & Hd & _ & _ & Hp).
  destruct Hd as (? & ? & ? & h & w & ? & ? & _ & _ & _ & _ & _ & ->).
  rewrite f64_add_nan_l in Hp. apply prune_spec in Hp as [Hin _].
  destruct ps as [|p0 ps]; [done|]. destruct (Hin p0) as [H _].
  destruct H as (_ & ? & ? & ? & _ & Hf); [by left|].
  by rewrite f64_le_nan_r in Hf.
Qed.

(** A successful pre-filter is one rectangle, or two rectangles that meet at
    the antimeridian and share their latitude band; there is always a first
    one, so the [boxes[0]] of the SQL layer cannot panic. *)
Theorem bounding_boxes_shape center r bs :
  bounding_boxes center r = Ok bs →
  (∃ b, bs = [b]) ∨
  ∃ b1 b2, bs = [b1; b2] ∧ max_lon b1 = f64_of_Z 180 ∧ min_lon b2 = f64_of_Z (-180) ∧
    min_lat b1 = min_lat b2 ∧ max_lat b1 = max_lat b2.
Proof.
  unfold bounding_boxes. destruct (radius_out_of_range r); [done|].
  repeat (case_match; [intros [= <-]; eauto 10|]). intros [= <-]; eauto.
Qed.
End Geo.

(** ** Locations *)

(** [Location::new] accepts exactly the coordinates in range, keeps them, and
    so never builds a location with a coordinate that is NaN or infinite. *)
Theorem Location_new_spec la lo :
  (valid_location (MkLocation la lo) = true ∧ Location_new la lo = Ok (MkLocation la lo) ∧
     is_finite la = true ∧ is_finite lo = true) ∨
  (valid_location (MkLocation la lo) = false ∧ Location_new la lo = Err (InvalidLocation la lo)).
Proof.
  unfold Location_new, valid_location; cbn [lat lon].
  rewrite <- negb_andb.
  destruct (range_contains (-90) 90 la && range_contains (-180) 180 lo) eqn:H; [left|by right].
  apply andb_prop in H as [Ha Ho]. split_and!; [done..| |].
  - unfold range_contains in Ha. apply andb_prop in Ha as [H1 H2].
    destruct la as [[]|[]| |]; done.
  - unfold range_contains in Ho. apply andb_prop in Ho as [H1 H2].
    destruct lo as [[]|[]| |]; done.
Qed.

(** The distance of a location from itself is zero. *)
Lemma distance_self {L : Libm} {LL : LibmLaws L} (l : Location) :
  is_finite (lat l) = true → is_finite (lon l) = true →
  is_finite (to_radians (lat l)) = true → distance_meters l l = f64_zero.
Proof.
  intros Hla Hlo Hr. unfold distance_meters, haversine_distance_meters.
  rewrite !f64_sub_diag by done.
  change (to_radians f64_zero /. f64_of_Z 2) with f64_zero.
  rewrite sin_zero, powi2_zero, f64_mul_zero_r by (by apply cos_mul_finite).
  set (z := match _ with S754_zero s | S754_finite s _ _ => s | _ => false end).
  assert (f64_zero +. S754_zero z = f64_zero) as -> by by destruct z.
  change (f64_sqrt f64_zero) with f64_zero. by rewrite asin_zero.
Qed.

(** ** A concrete instance

    A few cells and first-order mathematical functions: enough to evaluate
    the definitions of this file. *)

Definition toy_libm : Libm := {|
  f64_sin := λ x, x; f64_cos := λ _, f64_of_Z 1; f64_asin := λ x, x;
  f64_powi := λ x _, x ×. x; f64_hypot := λ a b, f64_max a b;
|}.

Lemma toy_libm_laws : LibmLaws toy_libm.
Proof. split; try done. Qed.

Definition toy_neighbors (c : string) : Neighbors := MkNeighbors c c c c c c c c.

Definition toy_geohash : Geohash := {|
  gh_encode := λ c n, Ok (if coord_x c ==. f64_zero then "tiny"
                          else if (n =? 4)%nat then "u4pr" else "u4pruyd");
  gh_decode := λ h,
    if decide (h = "tiny") then Ok (MkCoord f64_zero f64_zero, f64_lit 1 1000, f64_lit 1 1000)
    else if decide (h = "u4px") then Ok (MkCoord (f64_lit 1035 100) (f64_of_Z 10), f64_lit 17 100, f64_lit 8 100)
    else Ok (MkCoord (f64_of_Z 10) (f64_of_Z 10), f64_lit 17 100, f64_lit 8 100);
  gh_neighbors := λ h,
    if decide (h = "u4px") then Ok (toy_neighbors "u4pr") else Ok (toy_neighbors "u4px");
|}.

Program Definition toy_order : HashOrder := {| hash_iter := elements |}.
Next Obligation. done. Qed.

Definition toy_center : Location := MkLocation (f64_of_Z 10) (f64_of_Z 10).

Lemma shard_prefixes_for_radius_refines_witness :
  ∃ c rings cutoff,
    @routing_disc toy_libm toy_geohash toy_center (f64_of_Z 40000) c rings cutoff ∧
    (1 ≤ rings ≤ 100)%Z ∧ NoDup ["u4pr"; "u4px"] ∧
    ∀ x, x ∈ ["u4pr"; "u4px"] ↔
      @within toy_geohash (Z.to_nat rings) c x ∧ @near toy_libm toy_geohash toy_center cutoff x.
Proof.
  apply (@shard_prefixes_for_radius_refines toy_libm trivial_fmt toy_geohash toy_order).
  vm_compute. reflexivity.
Defined.

Lemma shard_prefixes_for_radius_total_witness :
  ∃ ps, @shard_prefixes_for_radius toy_libm trivial_fmt toy_geohash toy_order
          toy_center (f64_of_Z 40000) = Ok ps.
Proof.
  eapply (@shard_prefixes_for_radius_total toy_libm trivial_fmt toy_geohash toy_order).
  - reflexivity.
  - reflexivity.
  - reflexivity.
  - vm_compute. discriminate.
  - intros x _. simpl. destruct (decide (x = "u4px")), (decide (x = "tiny")); eauto.
Defined.

Lemma routing_rejections_witness :
  @shard_prefixes_for_radius toy_libm trivial_fmt toy_geohash toy_order toy_center f64_zero
    = Err (InvalidRadius f64_zero) ∧
  ∃ msg, @shard_prefixes_for_radius toy_libm trivial_fmt toy_geohash toy_order
    (MkLocation f64_zero f64_zero) (f64_of_Z 400000) = Err (Validation msg).
Proof.
  split.
  - apply (@routing_rejections toy_libm trivial_fmt toy_geohash toy_order toy_center f64_zero).
    reflexivity.
  - eapply (@routing_rejections toy_libm trivial_fmt toy_geohash toy_order
      (MkLocation f64_zero f64_zero) (f64_of_Z 400000)); try reflexivity.
Defined.

Lemma nan_radius_routes_nowhere_witness :
  radius_out_of_range S754_nan = false ∧
  (@shard_prefixes_for_radius toy_libm trivial_fmt toy_geohash toy_order toy_center S754_nan
     = Ok [] → @nil string = []).
Proof.
  apply (@nan_radius_routes_nowhere toy_libm trivial_fmt toy_geohash toy_order). reflexivity.
Defined.

Lemma bounding_boxes_shape_witness :
  ∃ bs, @bounding_boxes toy_libm (MkLocation (f64_of_Z 10) (f64_lit (-1799) 10)) (f64_of_Z 40000)
          = Ok bs ∧ length bs = 2%nat ∧
  ((∃ b, bs = [b]) ∨
  ∃ b1 b2, bs = [b1; b2] ∧ max_lon b1 = f64_of_Z 180 ∧ min_lon b2 = f64_of_Z (-180) ∧
    min_lat b1 = min_lat b2 ∧ max_lat b1 = max_lat b2).
Proof.
  eexists. split; [vm_compute; reflexivity|]. split; [reflexivity|].
  eapply (@bounding_boxes_shape toy_libm (MkLocation (f64_of_Z 10) (f64_lit (-1799) 10))
    (f64_of_Z 40000)).
  vm_compute. reflexivity.
Defined.
