(* ===== verification/Domain.v ===== *)
(** * Devices, alerts and the wire contracts

    crates/domain/src/device.rs, alert.rs and protocol.rs: the two entities of
    the system with their constructors, the subjects they travel on, and the
    messages exchanged between coordinator, worker and device.

    Times are nanoseconds since the epoch. [Utc::now()] and [Uuid::new_v4()]
    are arguments of the constructors that call them. The text forms of the
    [uuid] and [serde_json] crates are the classes [UuidCodec] and [Wire]; what a
    double becomes when it is written as JSON and read again is [json_f64]. *)

From S2P Require Import Prelude F64 Str Errors Geo.
From Stdlib Require Import SpecFloat.

Open Scope Z_scope.
Open Scope f64_scope.

Definition DateTime : Type := Z.

(** ** UUID texts *)

(** [Uuid]'s [Display] and [Uuid::parse_str]. *)
Class UuidCodec : Type := {
  uuid_to_string : Uuid → string;
  uuid_parse_str : string → option Uuid;
}.

(** A printed UUID parses back to itself and is one subject token. *)
Class UuidCodecLaws (C : UuidCodec) : Prop := {
  uuid_parse_to_string u : uuid_parse_str (uuid_to_string u) = Some u;
}.

(** ** Devices (device.rs) *)

(** [DeviceId] is a newtype over [Uuid]. *)
Abbreviation DeviceId := Uuid.

Record Device : Type := MkDevice {
  dev_id : DeviceId;
  dev_location : Location;
  dev_geohash : string;
  dev_shard_prefix : string;
  dev_registered_at : DateTime;
  dev_last_seen : DateTime;
}.

Section Device.
Context {G : Geohash}.

Definition Device_register (id : DeviceId) (now : DateTime) (location : Location)
    : result Device AppError :=
  let? geohash := encode_location location in
  let shard_prefix := shard_prefix_of geohash in
  Ok (MkDevice id location geohash shard_prefix now now).

(** [&mut self]: the device after the call and the returned flag. *)
Definition Device_update_location (now : DateTime) (self : Device) (location : Location)
    : result (Device * bool) AppError :=
  let? new_geohash := encode_location location in
  let new_shard_prefix := shard_prefix_of new_geohash in
  let shard_changed := bool_decide (new_shard_prefix ≠ dev_shard_prefix self) in
  Ok (MkDevice (dev_id self) location new_geohash new_shard_prefix
               (dev_registered_at self) now, shard_changed).

(** The geohash and the shard of a device are those of its location. *)
Definition device_wf (d : Device) : Prop :=
  encode_location (dev_location d) = Ok (dev_geohash d) ∧
  dev_shard_prefix d = shard_prefix_of (dev_geohash d).
End Device.

(** ** Alerts (alert.rs) *)

Abbreviation AlertId := Uuid.

Inductive AlertSeverity : Type := Info | Warning | Critical.

Global Instance AlertSeverity_eq_dec : EqDecision AlertSeverity.
Proof. solve_decision. Defined.

Definition AlertSeverity_as_str (s : AlertSeverity) : string :=
  match s with Info => "info" | Warning => "warning" | Critical => "critical" end.

Definition AlertSeverity_parse (s : string) : option AlertSeverity :=
  if decide (s = "info") then Some Info
  else if decide (s = "warning") then Some Warning
  else if decide (s = "critical") then Some Critical
  else None.

Record Alert : Type := MkAlert {
  al_id : AlertId;
  al_center : Location;
  al_radius_meters : f64;
  al_severity : AlertSeverity;
  al_title : string;
  al_message : string;
  al_created_at : DateTime;
}.

Definition Alert_new (id : AlertId) (now : DateTime) (center : Location) (radius_meters : f64)
    (severity : AlertSeverity) (title message : string) : result Alert AppError :=
  if (radius_meters <=. f64_zero) || (radius_meters >. f64_of_Z 500000)
  then Err (InvalidRadius radius_meters)
  else if str_is_empty (trim title)
  then Err (Validation "alert title cannot be empty")
  else Ok (MkAlert id center radius_meters severity title message now).

Section Alert.
Context {L : Libm} {FF : FloatFmt} {G : Geohash} {HO : HashOrder}.

Definition Alert_target_shard_prefixes (self : Alert) : result (list string) AppError :=
  shard_prefixes_for_radius (al_center self) (al_radius_meters self).

Definition Alert_contains (self : Alert) (point : Location) : bool :=
  distance_meters (al_center self) point <=. al_radius_meters self.
End Alert.

(** ** Subjects and messages (protocol.rs) *)

Definition ALERT_STREAM_NAME : string := "ALERTS".
Definition ALERT_SUBJECT_PREFIX : string := "alerts.geo.".
Definition ALERT_SUBJECT_WILDCARD : string := "alerts.geo.>".
Definition CONTROL_SUBJECT_PREFIX : string := "control.device.".
Definition CONTROL_SUBJECT_WILDCARD : string := "control.device.*".
Definition TELEMETRY_DELIVERY_SUBJECT : string := "telemetry.delivery".

Definition alert_subject (shard_prefix : string) : string :=
  ALERT_SUBJECT_PREFIX +:+ shard_prefix.

Definition nats_subject_for_prefix (prefix : string) : string := alert_subject prefix.

Definition control_subject `{UuidCodec} (device_id : Uuid) : string :=
  CONTROL_SUBJECT_PREFIX +:+ uuid_to_string device_id.

Definition device_id_from_control_subject `{UuidCodec} (subject : string) : option Uuid :=
  strip_prefix CONTROL_SUBJECT_PREFIX subject ≫= uuid_parse_str.

Inductive ServerMessage : Type :=
| ShardChanged (shard_prefix : string) (ws_url : option string)
| Revoked
| LocationUpdated (la lo : f64)
| ReplayComplete (replayed : Z).

Inductive ClientMessage : Type :=
| Ack (alert_id : Uuid) (created_at : DateTime).

Record DeliveryTelemetry : Type := MkTelemetry {
  tm_alert_id : Uuid;
  tm_shard_prefix : string;
  tm_delivered : Z;
  tm_dropped : Z;
  tm_filtered_out : Z;
  tm_broadcast_duration_us : Z;
  tm_worker_id : string;
  tm_at : DateTime;
}.

Global Instance ServerMessage_eq_dec : EqDecision ServerMessage.
Proof. solve_decision. Defined.
Global Instance Alert_eq_dec : EqDecision Alert.
Proof. solve_decision. Defined.
Global Instance DeliveryTelemetry_eq_dec : EqDecision DeliveryTelemetry.
Proof. solve_decision. Defined.

(** What [serde_json] derives for these types. *)
Class Wire : Type := {
  server_message_json : ServerMessage → string;
  parse_server_message : string → option ServerMessage;
  client_message_json : ClientMessage → string;
  parse_client_message : string → option ClientMessage;
  alert_json : Alert → string;
  parse_alert : string → option Alert;
  telemetry_json : DeliveryTelemetry → string;
  parse_telemetry : string → option DeliveryTelemetry;
  (** what is read where a double was written *)
  json_f64 : f64 → option f64;
}.

Definition finite_location (l : Location) : bool := is_finite (lat l) && is_finite (lon l).

(** A value that went through JSON. Without its feature [float_roundtrip]
    serde_json reads a double with best-effort precision: [json_f64] may be a
    neighbour of the double that was written, and is nothing for a NaN or an
    infinity, which are written as null. Everything else comes back as it was. *)
Section Reread.
Context {W : Wire}.

Definition reread_location (l : Location) : option Location :=
  la ← json_f64 (lat l); lo ← json_f64 (lon l); Some (MkLocation la lo).

Definition reread_alert (a : Alert) : option Alert :=
  center ← reread_location (al_center a);
  radius ← json_f64 (al_radius_meters a);
  Some (MkAlert (al_id a) center radius (al_severity a) (al_title a) (al_message a) (al_created_at a)).

Definition reread_message (m : ServerMessage) : option ServerMessage :=
  match m with
  | LocationUpdated la lo => la' ← json_f64 la; lo' ← json_f64 lo; Some (LocationUpdated la' lo')
  | _ => Some m
  end.

(** The identifier, the texts and the time of an alert are exact. *)
Lemma reread_alert_same a a' :
  reread_alert a = Some a' →
  al_id a' = al_id a ∧ al_severity a' = al_severity a ∧ al_title a' = al_title a ∧
  al_message a' = al_message a ∧ al_created_at a' = al_created_at a.
Proof.
  unfold reread_alert. destruct (reread_location _); [|done]. cbn.
  destruct (json_f64 _); [|done]. by intros [= <-].
Qed.
End Reread.

Class WireLaws (W : Wire) : Prop := {
  parse_server_message_json m : parse_server_message (server_message_json m) = reread_message m;
  parse_client_message_json m : parse_client_message (client_message_json m) = Some m;
  parse_alert_json a : parse_alert (alert_json a) = reread_alert a;
  parse_telemetry_json t : parse_telemetry (telemetry_json t) = Some t;
}.

(** ** Theorems *)

(** Severity names round trip: every severity is read back from its own
    name, and no other text is accepted. *)
Theorem severity_roundtrip (s : AlertSeverity) (t : string) :
  AlertSeverity_parse t = Some s ↔ t = AlertSeverity_as_str s.
Proof.
  unfold AlertSeverity_parse. split.
  - repeat case_decide; intros [= <-]; done.
  - intros ->. by destruct s.
Qed.

Lemma device_id_of_control_subject `{UC : UuidCodec, !UuidCodecLaws UC} (u : Uuid) :
  device_id_from_control_subject (control_subject u) = Some u.
Proof.
  unfold device_id_from_control_subject, control_subject.
  rewrite strip_prefix_app. simpl. apply uuid_parse_to_string.
Qed.

(** The device addressed by a control subject is recovered from it, two
    devices never share a subject, and no alert subject is taken for a control
    subject. *)
Theorem control_subject_roundtrip `{UC : UuidCodec, !UuidCodecLaws UC} (u : Uuid) (p : string) :
  device_id_from_control_subject (control_subject u) = Some u ∧
  (∀ v, control_subject u = control_subject v → u = v) ∧
  device_id_from_control_subject (alert_subject p) = None.
Proof.
  split_and!; [apply device_id_of_control_subject| |done].
  intros v E. pose proof (device_id_of_control_subject u) as Hu.
  rewrite E, device_id_of_control_subject in Hu. by injection Hu.
Qed.

Section DeviceTheorems.
Context {G : Geohash}.

Lemma Device_register_wf id now loc d :
  Device_register id now loc = Ok d →
  device_wf d ∧ dev_id d = id ∧ dev_location d = loc ∧ dev_registered_at d = now ∧
  dev_last_seen d = now.
Proof.
  unfold Device_register, device_wf. destruct (encode_location loc) as [g|] eqn:E; [|done].
  intros [= <-]. done.
Qed.

Lemma Device_update_location_wf now d loc d' b :
  Device_update_location now d loc = Ok (d', b) →
  device_wf d' ∧ dev_id d' = dev_id d ∧ dev_location d' = loc ∧
  dev_registered_at d' = dev_registered_at d ∧ dev_last_seen d' = now ∧
  (b = true ↔ dev_shard_prefix d' ≠ dev_shard_prefix d).
Proof.
  unfold Device_update_location, device_wf.
  destruct (encode_location loc) as [g|] eqn:E; [|done].
  intros [= <- <-]. simpl. rewrite bool_decide_eq_true. done.
Qed.

(** A device and the locations it was moved to. *)
Fixpoint Device_moves (d : Device) (ms : list (DateTime * Location)) : result Device AppError :=
  match ms with
  | [] => Ok d
  | (now, loc) :: ms =>
    let? (d', _) := Device_update_location now d loc in Device_moves d' ms
  end.

(** A device's geohash and shard always match its location: through
    registration and any sequence of successful moves, and the flag of a move
    says exactly whether the shard changed. *)
Theorem device_shard_tracks_location id now loc d ms d' :
  Device_register id now loc = Ok d → Device_moves d ms = Ok d' →
  device_wf d' ∧ dev_id d' = id ∧ dev_registered_at d' = now ∧
  ∀ t l d'' b, Device_update_location t d' l = Ok (d'', b) →
    (b = true ↔ dev_shard_prefix d'' ≠ dev_shard_prefix d') ∧
    dev_shard_prefix d'' = shard_prefix_of (dev_geohash d'').
Proof.
  intros (Hwf & Hid & _ & Hreg & _)%Device_register_wf Hm.
  assert (device_wf d' ∧ dev_id d' = id ∧ dev_registered_at d' = now) as (?&?&?).
  { revert d Hwf Hid Hreg Hm.
    induction ms as [|[t l] ms IH]; simpl; intros d Hwf Hid Hreg; [by intros [= <-]|].
    destruct (Device_update_location t d l) as [[d1 b]|] eqn:E; [|done].
    apply Device_update_location_wf in E as (?&?&_&?&_). apply IH; congruence || done. }
  split_and!; [done..|].
  intros t l d'' b ([_ ?]&_&_&_&_&?)%Device_update_location_wf. done.
Qed.
End DeviceTheorems.

Lemma Alert_new_Ok id now center r sev title msg a :
  Alert_new id now center r sev title msg = Ok a →
  a = MkAlert id center r sev title msg now ∧ radius_out_of_range r = false ∧
  str_is_empty (trim title) = false.
Proof.
  unfold Alert_new, radius_out_of_range.
  destruct (_ || _); [done|]. destruct (str_is_empty _); [done|]. by intros [= <-].
Qed.

(** An accepted alert has a non-blank title and a radius the router accepts;
    unless the radius is NaN it lies in (0, 500000]. *)
Theorem Alert_new_valid id now center r sev title msg a :
  Alert_new id now center r sev title msg = Ok a →
  al_id a = id ∧ al_created_at a = now ∧ al_title a = title ∧
  str_is_empty (trim (al_title a)) = false ∧ radius_out_of_range (al_radius_meters a) = false ∧
  (is_nan r = false →
    (al_radius_meters a >. f64_zero) = true ∧ (al_radius_meters a <=. f64_of_Z 500000) = true).
Proof.
  intros (-> & Hr & Ht)%Alert_new_Ok. cbn [al_id al_created_at al_title al_radius_meters]. split_and!; [done..|]. intros Hn.
  apply orb_false_elim in Hr as [H1 H2]. rewrite f64_not_le in H1 by done.
  apply negb_false_iff in H1. split; [done|]. rewrite f64_not_le by done. by rewrite H2.
Qed.

(** An alert whose centre is a valid location reaches its own centre: the
    circle is never empty. *)
Theorem alert_contains_center {L : Libm} {LL : LibmLaws L} (a : Alert) :
  finite_location (al_center a) = true →
  is_finite (to_radians (lat (al_center a))) = true →
  (al_radius_meters a >. f64_zero) = true →
  Alert_contains a (al_center a) = true.
Proof.
  intros [H1 H2]%andb_prop Hr Hpos. unfold Alert_contains.
  rewrite distance_self by done. by apply f64_lt_le.
Qed.

(** ** Concrete codecs *)

Definition binary_uuids : UuidCodec := {|
  uuid_to_string := λ u, code (uuid_val u);
  uuid_parse_str := λ s, uuid_of_N <$> uncode s;
|}.

Lemma binary_uuids_laws : UuidCodecLaws binary_uuids.
Proof. split. intros u. simpl. rewrite uncode_code. simpl. by rewrite uuid_of_val. Qed.

Lemma control_subject_roundtrip_witness :
  @device_id_from_control_subject binary_uuids (@control_subject binary_uuids (uuid_of_N 7))
    = Some (uuid_of_N 7).
Proof. apply (@control_subject_roundtrip binary_uuids binary_uuids_laws (uuid_of_N 7) "tkrt"). Defined.

Lemma device_shard_tracks_location_witness :
  @device_wf toy_geohash (MkDevice (uuid_of_N 1) toy_center "u4pruyd" "u4pr" 5 9).
Proof.
  eapply (@device_shard_tracks_location toy_geohash (uuid_of_N 1) 5 toy_center
    (MkDevice (uuid_of_N 1) toy_center "u4pruyd" "u4pr" 5 5) [(9, toy_center)]);
    reflexivity.
Defined.

Lemma Alert_new_valid_witness :
  (al_radius_meters (MkAlert (uuid_of_N 1) toy_center (f64_of_Z 1000) Info "flood" "" 5)
     >. f64_zero) = true.
Proof.
  eapply (Alert_new_valid (uuid_of_N 1) 5 toy_center (f64_of_Z 1000) Info "flood" "");
    reflexivity.
Defined.

Lemma alert_contains_center_witness :
  @Alert_contains toy_libm
    (MkAlert (uuid_of_N 1) toy_center (f64_of_Z 1000) Info "flood" "" 5) toy_center = true.
Proof.
  apply (@alert_contains_center toy_libm toy_libm_laws
    (MkAlert (uuid_of_N 1) toy_center (f64_of_Z 1000) Info "flood" "" 5)); reflexivity.
Defined.

(** A serializer for the messages: every value has its own text. *)

Global Instance AlertSeverity_countable : Countable AlertSeverity.
Proof.
  by apply (inj_countable AlertSeverity_as_str AlertSeverity_parse); intros [].
Defined.
Global Instance Location_countable : Countable Location.
Proof. by apply (inj_countable' (λ l, (lat l, lon l)) (λ '(a, b), MkLocation a b)); intros []. Defined.
Global Instance Alert_countable : Countable Alert.
Proof.
  by apply (inj_countable'
    (λ a, (al_id a, al_center a, al_radius_meters a, al_severity a, al_title a, al_message a,
           al_created_at a))
    (λ '(i, c, r, s, t, m, n), MkAlert i c r s t m n)); intros [].
Defined.
Global Instance ServerMessage_countable : Countable ServerMessage.
Proof.
  by apply (inj_countable'
    (λ m, match m with
          | ShardChanged p u => inl (inl (p, u))
          | Revoked => inl (inr ())
          | LocationUpdated a o => inr (inl (a, o))
          | ReplayComplete n => inr (inr n)
          end)
    (λ x, match x with
          | inl (inl (p, u)) => ShardChanged p u
          | inl (inr _) => Revoked
          | inr (inl (a, o)) => LocationUpdated a o
          | inr (inr n) => ReplayComplete n
          end)); intros [].
Defined.
Global Instance ClientMessage_eq_dec : EqDecision ClientMessage.
Proof. solve_decision. Defined.
Global Instance ClientMessage_countable : Countable ClientMessage.
Proof.
  by apply (inj_countable' (λ '(Ack i t), (i, t)) (λ '(i, t), Ack i t)); intros [].
Defined.
Global Instance DeliveryTelemetry_countable : Countable DeliveryTelemetry.
Proof.
  by apply (inj_countable'
    (λ t, (tm_alert_id t, tm_shard_prefix t, tm_delivered t, tm_dropped t, tm_filtered_out t,
           tm_broadcast_duration_us t, tm_worker_id t, tm_at t))
    (λ '(i, p, d, dr, f, us, wk, at_), MkTelemetry i p d dr f us wk at_)); intros [].
Defined.

(** Here a double comes back as it was, unless it is no number. *)
Definition finite_only (x : f64) : option f64 := if is_finite x then Some x else None.

Definition uncode_alert (s : string) : option Alert :=
  a ← uncode s;
  center ← (la ← finite_only (lat (al_center a)); lo ← finite_only (lon (al_center a)); Some (MkLocation la lo));
  radius ← finite_only (al_radius_meters a);
  Some (MkAlert (al_id a) center radius (al_severity a) (al_title a) (al_message a) (al_created_at a)).

Definition uncode_message (s : string) : option ServerMessage :=
  m ← uncode s;
  match m with
  | LocationUpdated la lo => la' ← finite_only la; lo' ← finite_only lo; Some (LocationUpdated la' lo')
  | _ => Some m
  end.

Definition plain_wire : Wire := {|
  server_message_json := code; parse_server_message := uncode_message;
  client_message_json := code; parse_client_message := uncode;
  alert_json := code; parse_alert := uncode_alert;
  telemetry_json := code; parse_telemetry := uncode;
  json_f64 := finite_only;
|}.

Lemma plain_wire_laws : WireLaws plain_wire.
Proof.
  split; intros; cbn [parse_server_message server_message_json parse_client_message client_message_json
    parse_alert alert_json parse_telemetry telemetry_json plain_wire]; try apply uncode_code;
    unfold uncode_alert, uncode_message; by rewrite uncode_code.
Qed.
