(* ===== verification/Auth.v ===== *)
(** * Authentication

    crates/domain/src/auth.rs: device tokens (JWT), single-use WebSocket
    tickets, secret strength rules and the operator API keys.

    The [jsonwebtoken] crate is the class [Jwt] and the documented behaviour the
    theorems need is [JwtLaws]. The clock reading of a call is its argument
    [now], in nanoseconds; [now + Duration::hours(ttl)] is computed exactly, and the
    theorem on lifetimes is for expiries that are [representable] for chrono, which
    panics on others. [JwtLaws] lets a verifier accept a token only when the claims
    it requires are among the claims the program signs ([claim_names]). *)

From S2P Require Import Prelude F64 Str Errors Geo Domain.
From stdpp Require Import pretty.

Open Scope Z_scope.

Definition DEFAULT_TOKEN_TTL_HOURS : Z := 24 * 30.
Definition MIN_PRODUCTION_SECRET_LEN : Z := 32.

Record Claims : Type := MkClaims { cl_sub : string; cl_exp : Z; cl_iat : Z }.

(** ** The JWT library *)

Inductive Algorithm : Type := HS256 | EdDSA.

Global Instance Algorithm_eq_dec : EqDecision Algorithm.
Proof. solve_decision. Defined.

(** [Validation]: the accepted algorithm and the claims a token must carry.
    [Validation::new] also turns expiry checking on, with 60 seconds of
    leeway. *)
Record JwtValidation : Type := MkValidation {
  va_algorithm : Algorithm;
  va_required_spec_claims : list string;
}.

Definition JWT_LEEWAY : Z := 60.

Class Jwt : Type := {
  EncodingKey : Type;
  DecodingKey : Type;
  EncodingKey_from_secret : string → EncodingKey;
  DecodingKey_from_secret : string → DecodingKey;
  EncodingKey_from_ed_pem : string → result EncodingKey string;
  DecodingKey_from_ed_pem : string → result DecodingKey string;
  jwt_encode : Algorithm → Claims → EncodingKey → result string string;
  (** the time of the check, in seconds, comes first *)
  jwt_decode : Z → string → DecodingKey → JwtValidation → result Claims string;
  (** the algorithm named in a token's header *)
  jwt_alg : string → option Algorithm;
}.

(** The claims a token carries: the fields of [Claims], none of them optional. A
    token without a claim that the validation requires is refused. *)
Definition claim_names : list string := ["sub"; "exp"; "iat"].

(** [key_pair a ek dk]: a signature made with [ek] checks with [dk]. *)
Class JwtLaws (J : Jwt) (key_pair : Algorithm → EncodingKey → DecodingKey → Prop) : Prop := {
  key_pair_secret s : key_pair HS256 (EncodingKey_from_secret s) (DecodingKey_from_secret s);
  jwt_decode_encode a c ek dk t now req :
    key_pair a ek dk → jwt_encode a c ek = Ok t → now - JWT_LEEWAY ≤ cl_exp c →
    req ⊆ claim_names → jwt_decode now t dk (MkValidation a req) = Ok c;
  jwt_decode_fresh now t dk v c :
    jwt_decode now t dk v = Ok c → now - JWT_LEEWAY ≤ cl_exp c;
  jwt_decode_alg now t dk v c :
    jwt_decode now t dk v = Ok c → jwt_alg t = Some (va_algorithm v);
  jwt_decode_claims a c ek dk t now v c' :
    key_pair a ek dk → jwt_encode a c ek = Ok t → jwt_decode now t dk v = Ok c' → c' = c;
}.

(** [DateTime::timestamp]: whole seconds since the epoch. *)
Definition timestamp (t : DateTime) : Z := t `div` 10 ^ 9.
Definition hours (h : Z) : Z := h * 3600 * 10 ^ 9.

(** The times a [DateTime<Utc>] can hold; a sum outside them panics. *)
Definition representable (t : DateTime) : bool :=
  (-8334601228800 <=? timestamp t) && (timestamp t <=? 8210266876799).

Section Auth.
Context {J : Jwt} {UC : UuidCodec}.

(** ** Signing *)

Record TokenSigner : Type := MkSigner {
  ts_algorithm : Algorithm;
  ts_key : EncodingKey;
  ts_ttl_hours : Z;
}.

Definition TokenSigner_hs256 (secret : string) (ttl_hours : Z) : TokenSigner :=
  MkSigner HS256 (EncodingKey_from_secret secret) ttl_hours.

Definition TokenSigner_eddsa_from_pem (private_pem : string) (ttl_hours : Z)
    : result TokenSigner AppError :=
  let? key := map_err (λ e, Config ("invalid Ed25519 private key PEM: " +:+ e))
                (EncodingKey_from_ed_pem private_pem) in
  Ok (MkSigner EdDSA key ttl_hours).

Definition TokenSigner_claims (self : TokenSigner) (now : DateTime) (device_id : Uuid) : Claims :=
  MkClaims (uuid_to_string device_id)
           (Z.max (timestamp (now + hours (ts_ttl_hours self))) 0)
           (Z.max (timestamp now) 0).

Definition TokenSigner_issue (self : TokenSigner) (now : DateTime) (device_id : Uuid)
    : result string AppError :=
  map_err Internal
    (jwt_encode (ts_algorithm self) (TokenSigner_claims self now device_id) (ts_key self)).

(** ** Verification *)

Record TokenVerifier : Type := MkVerifier {
  tv_key : DecodingKey;
  tv_validation : JwtValidation;
}.

Definition TokenVerifier_build (algorithm : Algorithm) (key : DecodingKey) : TokenVerifier :=
  MkVerifier key (MkValidation algorithm ["exp"; "sub"]).

Definition TokenVerifier_hs256 (secret : string) : TokenVerifier :=
  TokenVerifier_build HS256 (DecodingKey_from_secret secret).

Definition TokenVerifier_eddsa_from_pem (public_pem : string) : result TokenVerifier AppError :=
  let? key := map_err (λ e, Config ("invalid Ed25519 public key PEM: " +:+ e))
                (DecodingKey_from_ed_pem public_pem) in
  Ok (TokenVerifier_build EdDSA key).

Definition TokenVerifier_verify (self : TokenVerifier) (now : DateTime) (token : string)
    : result Uuid AppError :=
  let? claims := map_err (λ _, Unauthorized)
                   (jwt_decode (timestamp now) token (tv_key self) (tv_validation self)) in
  ok_or (uuid_parse_str (cl_sub claims)) Unauthorized.

Definition issue_token (now : DateTime) (device_id : Uuid) (secret : string)
    : result string AppError :=
  TokenSigner_issue (TokenSigner_hs256 secret DEFAULT_TOKEN_TTL_HOURS) now device_id.

Definition verify_token (now : DateTime) (token secret : string) : result Uuid AppError :=
  TokenVerifier_verify (TokenVerifier_hs256 secret) now token.
End Auth.

(** ** Tickets *)

(** [Uuid::simple]: 32 lowercase hexadecimal digits, most significant first. *)
Definition uuid_simple (u : Uuid) : string := hex_digits 32 (uuid_val u).

(** The two random UUIDs are the arguments. *)
Definition new_ws_ticket (u1 u2 : Uuid) : string := uuid_simple u1 +:+ uuid_simple u2.

(** ** Secrets *)

Definition is_placeholder_secret (value : string) : bool :=
  let v := trim value in
  str_is_empty v || starts_with "change-me" (to_ascii_lowercase v).

Definition validate_secret_strength (name value : string) (production : bool)
    : result unit AppError :=
  if str_is_empty (trim value) then Err (Config (name +:+ " must not be empty")) else
  if production then
    if is_placeholder_secret value then
      Err (Config (name +:+ " is still a placeholder; run scripts/gen-secrets.ps1"))
    else if str_len value <? MIN_PRODUCTION_SECRET_LEN then
      Err (Config (name +:+ " must be at least 32 characters in production"))
    else Ok ()
  else Ok ().

(** ** Operator API keys *)

Definition ApiKeys : Type := list string.

Fixpoint ApiKeys_collect (entries : list string) (production : bool)
    : result ApiKeys AppError :=
  match entries with
  | [] => Ok []
  | raw :: rest =>
    let key := trim raw in
    if str_is_empty key then ApiKeys_collect rest production else
    let? _ := validate_secret_strength "OPERATOR_API_KEYS entry" key production in
    let? keys := ApiKeys_collect rest production in
    Ok (key :: keys)
  end.

Definition ApiKeys_from_csv (csv : string) (production : bool) : result ApiKeys AppError :=
  let? keys := ApiKeys_collect (split_on "," csv) production in
  if production && bool_decide (keys = []) then
    Err (Config "OPERATOR_API_KEYS must contain at least one key in production")
  else Ok keys.

Definition ApiKeys_is_empty (self : ApiKeys) : bool := bool_decide (self = []).

(** [ct_eq(..).unwrap_u8()]. *)
Definition ct_eq (a b : string) : Z := if decide (a = b) then 1 else 0.

(** No early exit: the comparison with every key is or-ed in. *)
Definition ApiKeys_verify (self : ApiKeys) (presented : string) : bool :=
  foldl (λ matched key, Z.lor matched (ct_eq key presented)) 0 self =? 1.

Definition ApiKeys_debug (self : ApiKeys) : string :=
  "ApiKeys(" +:+ pretty (Z.of_nat (length self)) +:+ " configured)".

(** ** Tokens *)

Section TokenTheorems.
Context {J : Jwt} {UC : UuidCodec} {UL : UuidCodecLaws UC}.
Context {key_pair : Algorithm → EncodingKey → DecodingKey → Prop} {JL : JwtLaws J key_pair}.

Lemma token_verify (s : TokenSigner) dk now id token later :
  key_pair (ts_algorithm s) (ts_key s) dk →
  TokenSigner_issue s now id = Ok token →
  TokenVerifier_verify (TokenVerifier_build (ts_algorithm s) dk) later token =
    if decide (timestamp later ≤ Z.max (timestamp (now + hours (ts_ttl_hours s))) 0 + 60)
    then Ok id else Err Unauthorized.
Proof.
  intros Hk Hi. unfold TokenSigner_issue in Hi.
  destruct (jwt_encode _ _ _) as [t|] eqn:He; [|done]. injection Hi as ->.
  unfold TokenVerifier_verify, TokenVerifier_build; cbn [tv_key tv_validation].
  case_decide as Hd.
  - rewrite (jwt_decode_encode _ _ _ _ _ _ _ Hk He)
      by (unfold JWT_LEEWAY, TokenSigner_claims, claim_names; cbn [cl_exp]; lia || set_solver).
    cbn [map_err TokenSigner_claims cl_sub]. by rewrite uuid_parse_to_string.
  - destruct (jwt_decode _ _ _ _) as [c|] eqn:Hc; [|done]. exfalso. apply Hd.
    pose proof (jwt_decode_claims _ _ _ _ _ _ _ _ Hk He Hc) as ->.
    apply jwt_decode_fresh in Hc. unfold JWT_LEEWAY, TokenSigner_claims in Hc.
    cbn [cl_exp] in Hc. lia.
Qed.

(** C38: A device token round trips for its whole lifetime and not much longer.
    Verified with the matching key by the verifier the code builds, which requires
    claims that every token has, the token issued at [now] gives back the device id
    at any time up to its expiry (60 seconds of leeway included) and is refused as
    unauthorized after that. (For expiries chrono can represent; any other panics
    before there is a token.) *)
Theorem token_lifetime (s : TokenSigner) dk now id token later :
  representable (now + hours (ts_ttl_hours s)) = true →
  key_pair (ts_algorithm s) (ts_key s) dk →
  TokenSigner_issue s now id = Ok token →
  TokenVerifier_verify (TokenVerifier_build (ts_algorithm s) dk) later token =
    if decide (timestamp later ≤ Z.max (timestamp (now + hours (ts_ttl_hours s))) 0 + 60)
    then Ok id else Err Unauthorized.
Proof. intros _. apply token_verify. Qed.

(** The algorithm of a verifier is fixed: an HS256 verifier accepts no token
    whose header names another algorithm and an EdDSA verifier none that names
    HS256; and whatever is wrong with a token the answer is [Unauthorized]. *)
Theorem token_algorithm_pinned a dk now token :
  (∀ id, TokenVerifier_verify (TokenVerifier_build a dk) now token = Ok id →
     jwt_alg token = Some a) ∧
  (∀ e, TokenVerifier_verify (TokenVerifier_build a dk) now token = Err e → e = Unauthorized).
Proof.
  unfold TokenVerifier_verify. cbn [TokenVerifier_build tv_key tv_validation].
  destruct (jwt_decode _ _ _ _) as [c|] eqn:Hc; cbn [map_err]; [|naive_solver].
  apply jwt_decode_alg in Hc. destruct (uuid_parse_str _); naive_solver.
Qed.
End TokenTheorems.

(** ** Tickets *)

(** A WebSocket ticket is 64 characters and determined by its two random
    UUIDs: distinct draws never give the same ticket. *)
Theorem new_ws_ticket_injective u1 u2 v1 v2 :
  str_len (new_ws_ticket u1 u2) = 64 ∧
  (new_ws_ticket u1 u2 = new_ws_ticket v1 v2 → u1 = v1 ∧ u2 = v2).
Proof.
  unfold new_ws_ticket, uuid_simple. split; [by rewrite str_len_app, !hex_digits_len|].
  intros [H1 H2]%str_app_inj; [|by rewrite !hex_digits_len].
  assert (∀ u, (uuid_val u < 16 ^ N.of_nat 32)%N) by (intros u; apply N.ltb_lt, uuid_range).
  split; apply uuid_eq; by apply (hex_digits_inj 32).
Qed.

(** ** Secrets and operator keys *)

Lemma validate_secret_strength_Ok name v production :
  validate_secret_strength name v production = Ok () ↔
  str_is_empty (trim v) = false ∧
  (production = true → is_placeholder_secret v = false ∧ 32 ≤ str_len v).
Proof.
  unfold validate_secret_strength, MIN_PRODUCTION_SECRET_LEN.
  destruct (str_is_empty _); [naive_solver|]. destruct production; [|naive_solver].
  destruct (is_placeholder_secret v); [naive_solver|].
  destruct (Z.ltb_spec (str_len v) 32); naive_solver lia.
Qed.

Lemma ApiKeys_collect_spec entries production keys :
  ApiKeys_collect entries production = Ok keys →
  keys = filter (λ k, str_is_empty k = false) (trim <$> entries) ∧
  ∀ k, k ∈ keys → validate_secret_strength "OPERATOR_API_KEYS entry" k production = Ok ().
Proof.
  revert keys. induction entries as [|raw rest IH]; intros keys; simpl.
  - intros [= <-]. split; [done|]. set_solver.
  - rewrite filter_cons. destruct (str_is_empty (trim raw)) eqn:E.
    + rewrite decide_False by done. apply IH.
    + rewrite decide_True by done.
      destruct (validate_secret_strength _ _ _) as [[]|] eqn:V; [|done].
      destruct (ApiKeys_collect rest production) as [ks|]; [|done]. intros [= <-].
      destruct (IH ks eq_refl) as [-> Hk]. split; [done|].
      intros k [->|Hin]%elem_of_cons; auto.
Qed.

Lemma ct_eq_fold (keys : list string) p (m : bool) :
  foldl (λ matched key, Z.lor matched (ct_eq key p)) (if m then 1 else 0) keys
  = if m || bool_decide (p ∈ keys) then 1 else 0.
Proof.
  revert m. induction keys as [|k keys IH]; intros m; cbn [foldl].
  - rewrite (bool_decide_eq_false_2 (p ∈ [])) by set_solver. by rewrite orb_false_r.
  - replace (Z.lor (if m then 1 else 0) (ct_eq k p))
      with (if m || bool_decide (k = p) then 1 else 0)
      by (unfold ct_eq; destruct (decide (k = p));
        rewrite ?bool_decide_eq_true_2, ?bool_decide_eq_false_2 by done; by destruct m).
    rewrite IH, <- orb_assoc.
    replace (bool_decide (k = p) || bool_decide (p ∈ keys)) with (bool_decide (p ∈ k :: keys));
      [done|].
    apply eq_true_iff_eq. rewrite orb_true_iff, !bool_decide_eq_true. set_solver.
Qed.

Lemma ApiKeys_verify_spec keys p : ApiKeys_verify keys p = bool_decide (p ∈ keys).
Proof. unfold ApiKeys_verify. rewrite (ct_eq_fold keys p false). by destruct (bool_decide _). Qed.

(** Operator keys fail closed. A parsed key set accepts exactly the trimmed,
    non-blank entries of the configured list; it never accepts the empty key;
    and in production it is not empty and each key it accepts is at least 32
    bytes long and not a placeholder. *)
Theorem ApiKeys_fail_closed csv production keys p :
  ApiKeys_from_csv csv production = Ok keys →
  (ApiKeys_verify keys p = true ↔
     p ∈ (trim <$> split_on "," csv) ∧ str_is_empty p = false) ∧
  (production = true →
     keys ≠ [] ∧ (ApiKeys_verify keys p = true → 32 ≤ str_len p ∧ is_placeholder_secret p = false)).
Proof.
  unfold ApiKeys_from_csv.
  destruct (ApiKeys_collect _ _) as [ks|] eqn:E; [|done].
  case_match eqn:Hp; [done|]. intros [= ->].
  apply ApiKeys_collect_spec in E as [Hks Hv].
  rewrite ApiKeys_verify_spec, bool_decide_eq_true. split.
  - rewrite Hks, list_elem_of_filter. tauto.
  - intros ->. split; [by case_bool_decide|].
    intros Hin. apply Hv, validate_secret_strength_Ok in Hin. naive_solver.
Qed.

(** ** Concrete instances *)

(** Tokens that spell out their algorithm, key and claims. *)
Definition plain_claims (c : Claims) : string * Z * Z := (cl_sub c, cl_exp c, cl_iat c).
Definition claims_of (t : string * Z * Z) : Claims := MkClaims t.1.1 t.1.2 t.2.

Definition plain_decode (now : Z) (t dk : string) (v : JwtValidation) : result Claims string :=
  match uncode (A := bool * string * (string * Z * Z)) t with
  | Some (a, k, c) =>
    if decide ((if a then HS256 else EdDSA) = va_algorithm v ∧ k = dk ∧
               now - JWT_LEEWAY ≤ cl_exp (claims_of c) ∧
               Forall (λ x, x ∈ claim_names) (va_required_spec_claims v))
    then Ok (claims_of c) else Err "invalid"
  | None => Err "malformed"
  end.

Definition plain_jwt : Jwt := {|
  EncodingKey := string; DecodingKey := string;
  EncodingKey_from_secret := id; DecodingKey_from_secret := id;
  EncodingKey_from_ed_pem := Ok; DecodingKey_from_ed_pem := Ok;
  jwt_encode := λ a c k, Ok (code (bool_decide (a = HS256), k, plain_claims c));
  jwt_decode := plain_decode;
  jwt_alg := λ t, match uncode (A := bool * string * (string * Z * Z)) t with
                  | Some (a, _, _) => Some (if a then HS256 else EdDSA) | None => None end;
|}.

Definition plain_pair (a : Algorithm) (ek dk : string) : Prop := ek = dk.

Lemma plain_jwt_laws : JwtLaws plain_jwt plain_pair.
Proof.
  split.
  - done.
  - intros a c ek dk t now req -> [= <-] Hle Hreq. simpl. unfold plain_decode.
    rewrite uncode_code, decide_True; [by destruct c|]. split_and!; [by destruct a|done|done|].
    apply Forall_forall. intros x Hx. by apply Hreq.
  - intros now t dk v c. simpl. unfold plain_decode.
    destruct (uncode t) as [[[a k] c0]|]; [|done]. case_decide as Hd; [|done].
    intros [= <-]. apply Hd.
  - intros now t dk v c. simpl. unfold plain_decode.
    destruct (uncode t) as [[[a k] c0]|]; [|done]. case_decide as Hd; [|done].
    intros _. f_equal. apply Hd.
  - intros a c ek dk t now v c' -> [= <-]. simpl. unfold plain_decode. rewrite uncode_code.
    case_decide; [|done]. intros [= <-]. by destruct c.
Qed.

Definition plain_signer : @TokenSigner plain_jwt := @MkSigner plain_jwt HS256 "k" 1.

Lemma token_lifetime_witness :
  ∃ token, @TokenSigner_issue plain_jwt binary_uuids plain_signer 0 (uuid_of_N 9) = Ok token ∧
  @TokenVerifier_verify plain_jwt binary_uuids
    (@TokenVerifier_build plain_jwt HS256 "k") (3660 * 10 ^ 9) token = Ok (uuid_of_N 9) ∧
  @TokenVerifier_verify plain_jwt binary_uuids
    (@TokenVerifier_build plain_jwt HS256 "k") (3661 * 10 ^ 9) token = Err Unauthorized.
Proof.
  eexists. split; [reflexivity|]. split.
  - apply (@token_lifetime plain_jwt binary_uuids binary_uuids_laws plain_pair plain_jwt_laws
      plain_signer "k" 0 (uuid_of_N 9) _ (3660 * 10 ^ 9)); reflexivity.
  - apply (@token_lifetime plain_jwt binary_uuids binary_uuids_laws plain_pair plain_jwt_laws
      plain_signer "k" 0 (uuid_of_N 9) _ (3661 * 10 ^ 9)); reflexivity.
Defined.

Lemma token_algorithm_pinned_witness :
  ∀ e, @TokenVerifier_verify plain_jwt binary_uuids (@TokenVerifier_build plain_jwt HS256 "k") 5 "2"
         = Err e → e = Unauthorized.
Proof.
  apply (@token_algorithm_pinned plain_jwt binary_uuids plain_pair plain_jwt_laws HS256 "k" 5 "2").
Defined.

Lemma new_ws_ticket_injective_witness :
  str_len (new_ws_ticket (uuid_of_N 1) (uuid_of_N 2)) = 64.
Proof.
  apply (new_ws_ticket_injective (uuid_of_N 1) (uuid_of_N 2) (uuid_of_N 1) (uuid_of_N 2)).
Defined.

Lemma ApiKeys_fail_closed_witness :
  (ApiKeys_verify ["k1"; "k2"] "k2" = true ↔
     "k2" ∈ (trim <$> split_on "," " k1,, k2 ") ∧ str_is_empty "k2" = false).
Proof. apply (ApiKeys_fail_closed " k1,, k2 " false ["k1"; "k2"] "k2"). reflexivity. Defined.
