(* ===== verification/Configs.v ===== *)
(** * Reading the configuration

    crates/fanout-worker/src/config.rs and crates/api-coordinator/src/config.rs,
    with the refill period of the rate limiters. The environment is a lookup
    function. The helpers [cfg_err], [required], [parse_or] and [parse_bool] are
    written identically in the two crates and modelled once. *)

From S2P Require Import Prelude F64 Str Errors Geo Domain Auth.
From stdpp Require Import pretty.

Open Scope Z_scope.

Definition Lookup : Type := string → option string.

Definition cfg_err (msg : string) : AppError := Config msg.

(** [get(name).filter(|v| !v.trim().is_empty())]. *)
Definition get_filled (get : Lookup) (name : string) : option string :=
  match get name with
  | Some v => if str_is_empty (trim v) then None else Some v
  | None => None
  end.

Definition required (get : Lookup) (name : string) : result string AppError :=
  ok_or (get_filled get name) (cfg_err (name +:+ " not set")).

(** [T::from_str] is the argument [parse]. *)
Definition parse_or {T} (parse : string → option T) (get : Lookup) (name : string) (dflt : T)
    : result T AppError :=
  match get_filled get name with
  | None => Ok dflt
  | Some raw => ok_or (parse (trim raw)) (cfg_err (name +:+ " has an invalid value: '" +:+ raw +:+ "'"))
  end.

Definition parse_bool (get : Lookup) (name : string) (dflt : bool) : result bool AppError :=
  match get_filled get name with
  | None => Ok dflt
  | Some raw =>
    let v := to_ascii_lowercase (trim raw) in
    if bool_decide (v = "true") || bool_decide (v = "1") || bool_decide (v = "yes") then Ok true
    else if bool_decide (v = "false") || bool_decide (v = "0") || bool_decide (v = "no") then Ok false
    else Err (cfg_err (name +:+ " must be true or false, got '" +:+ raw +:+ "'"))
  end.

(** [get(name).map(|v| v.trim().to_ascii_lowercase())], and the two settings
    read with it. *)
Definition get_word (get : Lookup) (name : string) : option string :=
  to_ascii_lowercase ∘ trim <$> get name.

Definition is_word (o : option string) (ws : list string) : bool :=
  match o with Some v => bool_decide (v ∈ ws) | None => false end.

Definition production_of (get : Lookup) : result bool AppError :=
  let o := get_word get "PULSEGRID_ENV" in
  match o with
  | None => Ok false
  | Some other =>
    if is_word o [""; "dev"; "development"] then Ok false
    else if is_word o ["prod"; "production"] then Ok true
    else Err (cfg_err ("PULSEGRID_ENV must be 'dev' or 'production', got '" +:+ other +:+ "'"))
  end.

Definition log_json_of (get : Lookup) : result bool AppError :=
  let o := get_word get "LOG_FORMAT" in
  match o with
  | None => Ok false
  | Some other =>
    if is_word o [""; "pretty"] then Ok false
    else if is_word o ["json"] then Ok true
    else Err (cfg_err ("LOG_FORMAT must be 'pretty' or 'json', got '" +:+ other +:+ "'"))
  end.

Record Limit : Type := MkLimit { per_sec : Z; burst : Z }.

(** ** Rate limits *)

Definition refill_period_ms (per_sec : Z) : Z := Z.max (1000 / Z.max per_sec 1) 1.

(** What a route's limiter is built from: whether it reads the proxy headers,
    its period in milliseconds and its burst; [None] when limits are off. The
    builder's [finish] refuses a zero period or burst, on which the code
    panics. *)
Record Governor : Type := MkGovernor { gv_smart_ip : bool; gv_period_ms : Z; gv_burst : Z }.

Definition governor_finish (g : Governor) : option Governor :=
  if (gv_period_ms g =? 0) || (gv_burst g =? 0) then None else Some g.

Definition limiter_for (limit : Limit) (disabled trust_proxy_headers : bool) : option Governor :=
  if disabled then None
  else Some (MkGovernor trust_proxy_headers (refill_period_ms (per_sec limit)) (burst limit)).

(** ** The worker *)

Definition GEOHASH_ALPHABET : string := "0123456789bcdefghjkmnpqrstuvwxyz".

Definition valid_prefix (prefix : string) : bool :=
  (str_len prefix =? Z.of_nat SHARD_PREFIX_LENGTH) && str_forallb (str_contains GEOHASH_ALPHABET) prefix.

(** The loop over the items; [out] is what was collected so far. *)
Fixpoint collect_prefixes (items : list string) (out : list string)
    : result (list string) AppError :=
  match items with
  | [] => Ok out
  | item :: items =>
    let prefix := to_ascii_lowercase (trim item) in
    if str_is_empty prefix then collect_prefixes items out
    else if negb (valid_prefix prefix) then
      Err (cfg_err ("'" +:+ item +:+ "' is not a valid shard prefix: expected 4 geohash characters (0-9 and b-z without a, i, l, o)"))
    else if bool_decide (prefix ∈ out) then collect_prefixes items out
    else collect_prefixes items (out ++ [prefix])
  end.

Definition parse_prefixes (raw : string) : result (list string) AppError :=
  let? out := collect_prefixes (split_on "," raw) [] in
  if bool_decide (out = []) then
    Err (cfg_err "FANOUT_WORKER_SHARD_PREFIXES must list at least one prefix")
  else Ok out.

Record WorkerConfig : Type := MkWorkerConfig {
  wc_production : bool;
  wc_redis_url : string;
  wc_nats_url : string;
  wc_port : Z;
  wc_owned_prefixes : list string;
  wc_public_url : string;
  wc_lease_ttl_secs : Z;
  wc_connect_limit : Limit;
  wc_rate_limit_disabled : bool;
  wc_trust_proxy_headers : bool;
  wc_operator_keys : ApiKeys;
  wc_log_json : bool;
  wc_alert_stream_max_age_secs : Z;
  wc_replay_max_alerts : Z;
  wc_instance_id : string;
}.

Definition public_url_of (get : Lookup) (port : Z) : string :=
  let raw := default ("ws://localhost:" +:+ pretty port) (get_filled get "WORKER_PUBLIC_URL") in
  trim_end_matches "/" (trim raw).

(** [instance] is the fresh UUID. *)
Definition WorkerConfig_from_lookup `{UuidCodec} (instance : Uuid) (get : Lookup)
    : result WorkerConfig AppError :=
  let? production := production_of get in
  let? port := parse_or parse_u16 get "FANOUT_WORKER_PORT" 8081 in
  let? raw_prefixes := required get "FANOUT_WORKER_SHARD_PREFIXES" in
  let? owned_prefixes := parse_prefixes raw_prefixes in
  let public_url := public_url_of get port in
  if negb (starts_with "ws://" public_url || starts_with "wss://" public_url) then
    Err (cfg_err ("WORKER_PUBLIC_URL must start with ws:// or wss://, got '" +:+ public_url +:+ "'"))
  else
  let? lease_ttl_secs := parse_or parse_u64 get "SHARD_LEASE_TTL_SECS" 30 in
  if lease_ttl_secs <? 3 then Err (cfg_err "SHARD_LEASE_TTL_SECS must be at least 3") else
  let? per_sec := parse_or parse_u32 get "WS_CONNECT_RATE_PER_SEC" 50 in
  let? burst := parse_or parse_u32 get "WS_CONNECT_BURST" 100 in
  if negb ((1 <=? per_sec) && (per_sec <=? 10000)) || (burst =? 0) then
    Err (cfg_err "WS_CONNECT_RATE_PER_SEC must be 1-10000 and WS_CONNECT_BURST at least 1")
  else
  let? operator_keys := ApiKeys_from_csv (default "" (get "OPERATOR_API_KEYS")) production in
  let? log_json := log_json_of get in
  let? max_age := parse_or parse_u64 get "ALERT_STREAM_MAX_AGE_SECS" 3600 in
  if max_age =? 0 then Err (cfg_err "ALERT_STREAM_MAX_AGE_SECS must be at least 1") else
  let? replay_max := parse_or parse_usize get "REPLAY_MAX_ALERTS" 50 in
  if negb ((1 <=? replay_max) && (replay_max <=? 500)) then
    Err (cfg_err "REPLAY_MAX_ALERTS must be between 1 and 500")
  else
  let? redis_url := required get "REDIS_URL" in
  let? nats_url := required get "NATS_URL" in
  let? disabled := parse_bool get "RATE_LIMIT_DISABLED" false in
  let? trust := parse_bool get "TRUST_PROXY_HEADERS" false in
  Ok (MkWorkerConfig production redis_url nats_url port owned_prefixes public_url lease_ttl_secs
        (MkLimit per_sec burst) disabled trust operator_keys log_json max_age replay_max
        (uuid_to_string instance)).

Definition with_connect_limit (config : WorkerConfig) : option Governor :=
  limiter_for (wc_connect_limit config) (wc_rate_limit_disabled config)
    (wc_trust_proxy_headers config).

(** ** The coordinator *)

Inductive Environment : Type := Development | Production.

Definition is_production (e : Environment) : bool :=
  match e with Production => true | Development => false end.

Inductive JwtConfig : Type :=
| JwtHs256 (secret : string)
| JwtEdDsa (private_key_path public_key_path : string).

Record RateLimits : Type := MkRateLimits {
  rl_register : Limit; rl_location : Limit; rl_alerts : Limit;
  rl_disabled : bool; rl_trust_proxy_headers : bool;
}.

Record CoordinatorConfig : Type := MkCoordinatorConfig {
  cc_environment : Environment;
  cc_database_url : string;
  cc_redis_url : string;
  cc_nats_url : string;
  cc_jwt : JwtConfig;
  cc_token_ttl_hours : Z;
  cc_ws_ticket_ttl_secs : Z;
  cc_operator_keys : ApiKeys;
  cc_port : Z;
  cc_log_json : bool;
  cc_rate_limits : RateLimits;
  cc_device_retention_days : Z;
  cc_alert_retention_days : Z;
  cc_retention_sweep_interval_minutes : Z;
  cc_alert_stream_max_age_secs : Z;
}.

Definition parse_limit (get : Lookup) (per_sec_name burst_name : string) (dflt : Limit)
    : result Limit AppError :=
  let? ps := parse_or parse_u32 get per_sec_name (per_sec dflt) in
  let? b := parse_or parse_u32 get burst_name (burst dflt) in
  if negb ((1 <=? ps) && (ps <=? 1000)) then
    Err (cfg_err (per_sec_name +:+ " must be between 1 and 1000"))
  else if b =? 0 then Err (cfg_err (burst_name +:+ " must be at least 1"))
  else Ok (MkLimit ps b).

Definition with_limit (limit : Limit) (limits : RateLimits) : option Governor :=
  limiter_for limit (rl_disabled limits) (rl_trust_proxy_headers limits).

Definition jwt_config_of (get : Lookup) (production : bool) : result JwtConfig AppError :=
  match get_filled get "JWT_PRIVATE_KEY_PATH", get_filled get "JWT_PUBLIC_KEY_PATH" with
  | Some private, Some public => Ok (JwtEdDsa (trim private) (trim public))
  | None, None =>
    let? secret := required get "JWT_SECRET" in
    let? _ := validate_secret_strength "JWT_SECRET" secret production in
    Ok (JwtHs256 secret)
  | _, _ => Err (cfg_err "JWT_PRIVATE_KEY_PATH and JWT_PUBLIC_KEY_PATH must be set together")
  end.

Definition rate_limits_of (get : Lookup) : result RateLimits AppError :=
  let? register := parse_limit get "RATE_LIMIT_REGISTER_PER_SEC" "RATE_LIMIT_REGISTER_BURST"
                     (MkLimit 5 10) in
  let? location := parse_limit get "RATE_LIMIT_LOCATION_PER_SEC" "RATE_LIMIT_LOCATION_BURST"
                     (MkLimit 10 20) in
  let? alerts := parse_limit get "RATE_LIMIT_ALERTS_PER_SEC" "RATE_LIMIT_ALERTS_BURST"
                   (MkLimit 2 5) in
  let? disabled := parse_bool get "RATE_LIMIT_DISABLED" false in
  let? trust := parse_bool get "TRUST_PROXY_HEADERS" false in
  Ok (MkRateLimits register location alerts disabled trust).

Definition CoordinatorConfig_from_lookup (get : Lookup) : result CoordinatorConfig AppError :=
  let? prod := production_of get in
  let environment := if prod then Production else Development in
  let production := is_production environment in
  let? database_url := required get "DATABASE_URL" in
  let? redis_url := required get "REDIS_URL" in
  let? nats_url := required get "NATS_URL" in
  let? jwt := jwt_config_of get production in
  let? operator_keys := ApiKeys_from_csv (default "" (get "OPERATOR_API_KEYS")) production in
  let? port := parse_or parse_u16 get "COORDINATOR_PORT" 8080 in
  let? token_ttl_hours := parse_or parse_i64 get "DEVICE_TOKEN_TTL_HOURS" DEFAULT_TOKEN_TTL_HOURS in
  if token_ttl_hours <? 1 then Err (cfg_err "DEVICE_TOKEN_TTL_HOURS must be at least 1") else
  let? ws_ticket_ttl_secs := parse_or parse_u64 get "WS_TICKET_TTL_SECS" 30 in
  if ws_ticket_ttl_secs =? 0 then Err (cfg_err "WS_TICKET_TTL_SECS must be at least 1") else
  let? log_json := log_json_of get in
  let? rate_limits := rate_limits_of get in
  let? device_retention_days := parse_or parse_i64 get "DEVICE_RETENTION_DAYS" 90 in
  let? alert_retention_days := parse_or parse_i64 get "ALERT_RETENTION_DAYS" 365 in
  if (device_retention_days <? 1) || (alert_retention_days <? 1) then
    Err (cfg_err "retention periods must be at least 1 day")
  else
  let? sweep := parse_or parse_u64 get "RETENTION_SWEEP_INTERVAL_MINUTES" 60 in
  if sweep =? 0 then Err (cfg_err "RETENTION_SWEEP_INTERVAL_MINUTES must be at least 1") else
  let? max_age := parse_or parse_u64 get "ALERT_STREAM_MAX_AGE_SECS" 3600 in
  if max_age =? 0 then Err (cfg_err "ALERT_STREAM_MAX_AGE_SECS must be at least 1") else
  Ok (MkCoordinatorConfig environment database_url redis_url nats_url jwt token_ttl_hours
        ws_ticket_ttl_secs operator_keys port log_json rate_limits device_retention_days
        alert_retention_days sweep max_age).

(** ** Lemmas *)

Lemma parse_or_unsigned_range max get name dflt n :
  parse_or (parse_unsigned max) get name dflt = Ok n → 0 ≤ dflt ≤ max → 0 ≤ n ≤ max.
Proof.
  unfold parse_or. intros H Hd. destruct (get_filled get name) as [raw|]; [|by simplify_eq].
  destruct (parse_unsigned max (trim raw)) as [k|] eqn:E; simplify_eq/=.
  by apply parse_unsigned_range in E.
Qed.

Lemma required_filled get name v :
  required get name = Ok v → get name = Some v ∧ str_is_empty (trim v) = false.
Proof.
  unfold required, get_filled. destruct (get name) as [u|]; [|done].
  destruct (str_is_empty (trim u)) eqn:Hu; [done|]. simpl. intros [= ->]. done.
Qed.

Lemma collect_prefixes_spec items out res :
  collect_prefixes items out = Ok res →
  NoDup out → Forall (λ p, valid_prefix p = true) out →
  NoDup res ∧ Forall (λ p, valid_prefix p = true) res ∧
  ∀ p, p ∈ res ↔ p ∈ out ∨ (p ≠ "" ∧ p ∈ (to_ascii_lowercase ∘ trim <$> items)).
Proof.
  revert out. induction items as [|item items IH]; intros out; cbn [collect_prefixes].
  { intros [= <-] Hnd Hv. split_and!; [done..|]. intros p. rewrite elem_of_nil. tauto. }
  set (q := to_ascii_lowercase (trim item)). intros Hc Hnd Hv.
  assert (Hq : str_is_empty q = true ↔ q = "") by (destruct q; done).
  destruct (str_is_empty q) eqn:He.
  { destruct (IH _ Hc Hnd Hv) as (?&?&Hin). split_and!; [done..|]. intros p.
    rewrite Hin, fmap_cons, elem_of_cons. unfold compose at 2. fold q. naive_solver. }
  destruct (valid_prefix q) eqn:Hvq; [|done]. simpl in Hc.
  assert (q ≠ "") by naive_solver.
  destruct (bool_decide_reflect (q ∈ out)) as [Hin|Hnin].
  - destruct (IH _ Hc Hnd Hv) as (?&?&Hp). split_and!; [done..|]. intros p.
    rewrite Hp, fmap_cons, elem_of_cons. unfold compose at 2. fold q. naive_solver.
  - destruct (IH _ Hc) as (?&?&Hp).
    + apply NoDup_app. split_and!; [done| |apply NoDup_singleton].
      intros x Hx ->%list_elem_of_singleton. done.
    + apply Forall_app. split; [done|]. by constructor.
    + split_and!; [done..|]. intros p.
      rewrite Hp, elem_of_app, list_elem_of_singleton, fmap_cons, elem_of_cons.
      unfold compose at 2. fold q. naive_solver.
Qed.

Lemma refill_period_pos n : 1 ≤ refill_period_ms n.
Proof. unfold refill_period_ms. lia. Qed.

Lemma parse_limit_spec get a b dflt l :
  parse_limit get a b dflt = Ok l →
  0 ≤ burst dflt ≤ 2 ^ 32 - 1 → 1 ≤ per_sec l ≤ 1000 ∧ 1 ≤ burst l.
Proof.
  unfold parse_limit. intros Hl Hd.
  destruct (parse_or parse_u32 get a _) as [ps|]; [|done].
  destruct (parse_or parse_u32 get b _) as [bs|] eqn:Hb; [|done].
  apply parse_or_unsigned_range in Hb; [|done].
  destruct ((1 <=? ps) && (ps <=? 1000)) eqn:Hps; [|done]. simpl in Hl.
  destruct (Z.eqb_spec bs 0); [done|]. simplify_eq/=. lia.
Qed.

(** Walks through a chain of [let?] and guards that ends in [Ok], keeping what
    each step says about its value as a fact of arithmetic where it has one. *)
Ltac read_settings :=
  repeat (cbv zeta;
    match goal with
    | |- (match ?c with Ok _ => _ | Err _ => _ end = Ok _) → _ =>
      let H := fresh "Hset" in destruct c as [?|?] eqn:H; [|done];
      try (apply parse_or_unsigned_range in H; [|done])
    | |- ((if ?b then Err _ else _) = Ok _) → _ =>
      let H := fresh "Hguard" in destruct b eqn:H; [done|];
      try (apply orb_false_iff in H as [? ?]);
      try match goal with Hn : negb _ = false |- _ => apply negb_false_iff in Hn end
    end).

Lemma rate_limits_spec get rl :
  rate_limits_of get = Ok rl →
  ∀ l, l ∈ [rl_register rl; rl_location rl; rl_alerts rl] → 1 ≤ per_sec l ≤ 1000 ∧ 1 ≤ burst l.
Proof.
  unfold rate_limits_of. read_settings. intros [= <-] l. simpl.
  rewrite !elem_of_cons, elem_of_nil.
  intros [-> | [-> | [-> | []]]]; eapply parse_limit_spec; done.
Qed.

Lemma jwt_config_strong get j s :
  jwt_config_of get true = Ok j → j = JwtHs256 s →
  32 ≤ str_len s ∧ is_placeholder_secret s = false.
Proof.
  unfold jwt_config_of. destruct (get_filled _ _), (get_filled _ _); try done.
  - intros [= <-]. done.
  - read_settings. intros [= <-] [= ->].
    match goal with H : validate_secret_strength _ _ _ = Ok ?u |- _ =>
      destruct u; apply validate_secret_strength_Ok in H end. naive_solver.
Qed.

Lemma production_keys_strong csv keys :
  ApiKeys_from_csv csv true = Ok keys →
  keys ≠ [] ∧ Forall (λ k, 32 ≤ str_len k ∧ is_placeholder_secret k = false) keys.
Proof.
  unfold ApiKeys_from_csv. destruct (ApiKeys_collect _ _) as [ks|] eqn:E; [|done].
  simpl. destruct (bool_decide_reflect (ks = [])); [done|]. intros [= ->]. split; [done|].
  apply ApiKeys_collect_spec in E as [_ Hv]. apply Forall_forall. intros k Hk.
  apply Hv, validate_secret_strength_Ok in Hk. naive_solver.
Qed.

(** ** Theorems *)

(** The shard list of a worker is validated: the accepted prefixes are
    exactly the non-blank items in lower case, each once, each of four geohash
    characters, and there is at least one. *)
Theorem parse_prefixes_spec raw ps :
  parse_prefixes raw = Ok ps →
  ps ≠ [] ∧ NoDup ps ∧ Forall (λ p, valid_prefix p = true) ps ∧
  ∀ p, p ∈ ps ↔ p ≠ "" ∧ p ∈ (to_ascii_lowercase ∘ trim <$> split_on "," raw).
Proof.
  unfold parse_prefixes. destruct (collect_prefixes _ []) as [out|] eqn:Hc; [|done].
  destruct (bool_decide_reflect (out = [])); [done|]. intros [= <-].
  destruct (collect_prefixes_spec _ _ _ Hc) as (?&?&Hp); [constructor..|].
  split_and!; [done..|]. intros p. rewrite Hp, elem_of_nil. tauto.
Qed.

(** A worker that starts has a usable configuration: its lease lasts at
    least three seconds (so it is renewed before it expires), its replay limit
    is at most what one stream read returns, its public address is a WebSocket
    address, and its limiter can be built. *)
Theorem worker_config_usable `{UuidCodec} instance get c :
  WorkerConfig_from_lookup instance get = Ok c →
  3 ≤ wc_lease_ttl_secs c ∧ 1 ≤ wc_replay_max_alerts c ≤ 500 ∧
  1 ≤ wc_alert_stream_max_age_secs c ∧ 0 ≤ wc_port c < 2 ^ 16 ∧
  (starts_with "ws://" (wc_public_url c) || starts_with "wss://" (wc_public_url c)) = true ∧
  (∃ raw, parse_prefixes raw = Ok (wc_owned_prefixes c)) ∧
  (∀ g, with_connect_limit c = Some g → governor_finish g = Some g).
Proof.
  unfold WorkerConfig_from_lookup. read_settings. intros [= <-].
  cbn [wc_lease_ttl_secs wc_replay_max_alerts wc_alert_stream_max_age_secs wc_port wc_public_url
       wc_owned_prefixes].
  split_and!; try (done || lia); [by eexists|].
  intros g. unfold with_connect_limit, limiter_for, governor_finish. simpl.
  case_match; [done|]. intros [= <-]. simpl.
  match goal with |- context [refill_period_ms ?r] => pose proof (refill_period_pos r) end.
  case_match; [lia|done].
Qed.

(** C40: A coordinator that starts has safe settings: every lifetime, retention
    period and interval is at least one unit, every limiter can be built, and in
    production a shared token secret is at least 32 characters and no
    placeholder, and so is every operator key, of which there is one. (Lifetimes,
    periods and intervals are not bounded from above:
    [coordinator_config_unbounded].) *)
Theorem coordinator_config_safe get c :
  CoordinatorConfig_from_lookup get = Ok c →
  1 ≤ cc_token_ttl_hours c ∧ 1 ≤ cc_ws_ticket_ttl_secs c ∧
  1 ≤ cc_device_retention_days c ∧ 1 ≤ cc_alert_retention_days c ∧
  1 ≤ cc_retention_sweep_interval_minutes c ∧ 1 ≤ cc_alert_stream_max_age_secs c ∧
  (∀ l g, l ∈ [rl_register (cc_rate_limits c); rl_location (cc_rate_limits c);
               rl_alerts (cc_rate_limits c)] →
     with_limit l (cc_rate_limits c) = Some g → governor_finish g = Some g) ∧
  (cc_environment c = Production →
     (∀ s, cc_jwt c = JwtHs256 s → 32 ≤ str_len s ∧ is_placeholder_secret s = false) ∧
     cc_operator_keys c ≠ [] ∧
     Forall (λ k, 32 ≤ str_len k ∧ is_placeholder_secret k = false) (cc_operator_keys c)).
Proof.
  unfold CoordinatorConfig_from_lookup. read_settings. intros [= <-].
  cbn [cc_token_ttl_hours cc_ws_ticket_ttl_secs cc_device_retention_days cc_alert_retention_days
       cc_retention_sweep_interval_minutes cc_alert_stream_max_age_secs cc_rate_limits
       cc_environment cc_jwt cc_operator_keys].
  split_and!; try lia.
  - intros l g Hl. unfold with_limit, limiter_for, governor_finish.
    match goal with H : rate_limits_of get = Ok ?r |- _ => destruct (rate_limits_spec _ _ H l Hl) end.
    destruct (rl_disabled _); [done|]. intros [= <-]. simpl. pose proof (refill_period_pos (per_sec l)).
    destruct (_ || _) eqn:Hz; [lia|done].
  - intros Hprod.
    match goal with H : jwt_config_of _ (is_production ?e) = _ |- _ =>
      assert (is_production e = true) as Hp by (by rewrite Hprod); rewrite Hp in * end.
    split; [intros s; by eapply jwt_config_strong|].
    by apply (production_keys_strong (default "" (get "OPERATOR_API_KEYS"))).
Qed.

(** The limiters refill at the configured rate up to 1000 requests per
    second: the period is the longest whole number of milliseconds that allows
    the rate. Above that, which the worker's setting accepts up to 10000, the
    period stays one millisecond and the limiter allows 1000 only. *)
Theorem refill_rate n :
  1 ≤ n →
  (n ≤ 1000 → n * refill_period_ms n ≤ 1000 < n * (refill_period_ms n + 1)) ∧
  (1000 < n → refill_period_ms n = 1 ∧ 1000 < n * refill_period_ms n).
Proof.
  intros Hn. unfold refill_period_ms. rewrite (Z.max_l n 1) by lia.
  pose proof (Z.div_mod 1000 n). pose proof (Z.mod_pos_bound 1000 n). split; intros Hle.
  - rewrite Z.max_l by (apply Z.div_le_lower_bound; lia). lia.
  - rewrite (Z.div_small 1000 n) by lia. lia.
Qed.

(** ** Concrete environments *)

Fixpoint env_of (l : list (string * string)) : Lookup := λ k,
  match l with
  | [] => None
  | (k', v) :: l => if decide (k' = k) then Some v else env_of l k
  end.

Definition worker_env : Lookup := env_of
  [("FANOUT_WORKER_SHARD_PREFIXES", "tkrt, TKRW,tkrt"); ("REDIS_URL", "redis://h");
   ("NATS_URL", "nats://h"); ("WORKER_PUBLIC_URL", "wss://a/")].

Definition coordinator_env : Lookup := env_of
  [("PULSEGRID_ENV", "Production"); ("DATABASE_URL", "postgres://h/db"); ("REDIS_URL", "redis://h");
   ("NATS_URL", "nats://h"); ("JWT_SECRET", "0123456789abcdef0123456789abcdef");
   ("OPERATOR_API_KEYS", "fedcba9876543210fedcba9876543210")].

Lemma parse_prefixes_spec_witness :
  parse_prefixes "tkrt, TKRW,tkrt" = Ok ["tkrt"; "tkrw"] ∧ NoDup ["tkrt"; "tkrw"].
Proof.
  split; [reflexivity|].
  apply (parse_prefixes_spec "tkrt, TKRW,tkrt" ["tkrt"; "tkrw"]). reflexivity.
Defined.

Definition sample_worker_config : WorkerConfig :=
  MkWorkerConfig false "redis://h" "nats://h" 8081 ["tkrt"; "tkrw"] "wss://a" 30 (MkLimit 50 100)
    false false [] false 3600 50 (@uuid_to_string binary_uuids (uuid_of_N 1)).

Lemma worker_config_usable_witness :
  @WorkerConfig_from_lookup binary_uuids (uuid_of_N 1) worker_env = Ok sample_worker_config ∧
  3 ≤ wc_lease_ttl_secs sample_worker_config.
Proof.
  assert (H : @WorkerConfig_from_lookup binary_uuids (uuid_of_N 1) worker_env
              = Ok sample_worker_config) by (vm_compute; reflexivity).
  split; [exact H|].
  apply (@worker_config_usable binary_uuids (uuid_of_N 1) worker_env sample_worker_config H).
Defined.

Definition sample_coordinator_config : CoordinatorConfig :=
  MkCoordinatorConfig Production "postgres://h/db" "redis://h" "nats://h"
    (JwtHs256 "0123456789abcdef0123456789abcdef") 720 30 ["fedcba9876543210fedcba9876543210"] 8080
    false (MkRateLimits (MkLimit 5 10) (MkLimit 10 20) (MkLimit 2 5) false false) 90 365 60 3600.

Lemma coordinator_config_safe_witness :
  CoordinatorConfig_from_lookup coordinator_env = Ok sample_coordinator_config ∧
  1 ≤ cc_ws_ticket_ttl_secs sample_coordinator_config.
Proof.
  assert (H : CoordinatorConfig_from_lookup coordinator_env = Ok sample_coordinator_config)
    by (vm_compute; reflexivity).
  split; [exact H|].
  apply (coordinator_config_safe coordinator_env sample_coordinator_config H).
Defined.

(** Nothing bounds a lifetime from above: the largest number of hours an [i64] can
    hold is accepted, though no token can be issued with it. *)
Definition huge_ttl_env (name : string) : option string :=
  if String.eqb name "DEVICE_TOKEN_TTL_HOURS" then Some "9223372036854775807" else coordinator_env name.

Theorem coordinator_config_unbounded :
  ∃ c, CoordinatorConfig_from_lookup huge_ttl_env = Ok c ∧ cc_token_ttl_hours c = 2 ^ 63 - 1.
Proof. eexists. split; vm_compute; reflexivity. Qed.

Lemma refill_rate_witness : 3 * refill_period_ms 3 ≤ 1000.
Proof. apply (refill_rate 3); lia. Defined.
