(* ===== verification/Registry.v ===== *)
(** * The worker's connection registry

    crates/fanout-worker/src/connection_registry.rs: every WebSocket connection
    a worker holds, indexed by device and by shard, with a bounded queue per
    connection.

    A [Connection] is shared through [Arc] by the two indexes, so it lives in a
    heap and the indexes hold pointers. Its [mpsc] channel is the queue of
    messages not yet received and whether the receiver is still there. *)

From S2P Require Import Prelude F64 Str Errors Geo Domain.

Open Scope Z_scope.

Definition Bytes : Type := string.

Definition CONNECTION_CHANNEL_CAPACITY : Z := 64.

Inductive Outbound : Type :=
| OAlert (payload : Bytes)
| OControl (text : string) (close : bool)
| OClose.

Global Instance Outbound_eq_dec : EqDecision Outbound.
Proof. solve_decision. Defined.

Record BroadcastResult : Type := MkBroadcast {
  br_delivered : Z;
  br_dropped : Z;
  br_filtered_out : Z;
}.

Definition BroadcastResult_default : BroadcastResult := MkBroadcast 0 0 0.

Record Connection : Type := MkConn {
  c_id : Z;
  c_shard : string;
  c_location : Location;
  c_queue : list Outbound;
  c_rx_open : bool;
}.

Global Instance Connection_inhabited : Inhabited Connection :=
  populate (MkConn 0 "" (MkLocation f64_zero f64_zero) [] false).

Inductive TrySendError : Type := TSFull | TSClosed.

(** [sender.try_send(m)]. *)
Definition try_send (c : Connection) (m : Outbound) : Connection * result unit TrySendError :=
  if negb (c_rx_open c) then (c, Err TSClosed)
  else if CONNECTION_CHANNEL_CAPACITY <=? Z.of_nat (length (c_queue c)) then (c, Err TSFull)
  else (MkConn (c_id c) (c_shard c) (c_location c) (c_queue c ++ [m]) (c_rx_open c), Ok ()).

Definition set_location (l : Location) (c : Connection) : Connection :=
  MkConn (c_id c) (c_shard c) l (c_queue c) (c_rx_open c).

Definition Connection_location (c : Connection) : Location := c_location c.

(** What [register] hands to the writer task; the receiver is the pointer of
    its connection. *)
Record Registered : Type := MkRegistered { rg_conn_id : Z; rg_receiver : nat }.

Record ConnectionRegistry : Type := MkRegistry {
  heap : gmap nat Connection;
  by_device : gmap Uuid nat;
  by_shard : gmap string (gmap Uuid nat);
  next_id : Z;
}.

Definition ConnectionRegistry_new : ConnectionRegistry := MkRegistry ∅ ∅ ∅ 0.

Definition set_heap (h : gmap nat Connection) (reg : ConnectionRegistry) : ConnectionRegistry :=
  MkRegistry h (by_device reg) (by_shard reg) (next_id reg).
Definition set_by_device (m : gmap Uuid nat) (reg : ConnectionRegistry) : ConnectionRegistry :=
  MkRegistry (heap reg) m (by_shard reg) (next_id reg).
Definition set_by_shard (m : gmap string (gmap Uuid nat)) (reg : ConnectionRegistry)
    : ConnectionRegistry :=
  MkRegistry (heap reg) (by_device reg) m (next_id reg).

(** A send through a pointer. *)
Definition send_to (reg : ConnectionRegistry) (p : nat) (m : Outbound)
    : ConnectionRegistry * result unit TrySendError :=
  match heap reg !! p with
  | None => (reg, Err TSClosed)
  | Some c => let '(c', r) := try_send c m in (set_heap (<[p := c']> (heap reg)) reg, r)
  end.

(** [map.remove_if(&device_id, |_, c| c.id == id)]: the removed pointer. *)
Definition remove_if (h : gmap nat Connection) (m : gmap Uuid nat) (d : Uuid) (id : Z)
    : gmap Uuid nat * option nat :=
  match m !! d with
  | Some p =>
    match heap_id ← c_id <$> h !! p; Some (heap_id =? id) with
    | Some true => (delete d m, Some p)
    | _ => (m, None)
    end
  | None => (m, None)
  end.

(** [if let Some(shard) = by_shard.get(s) { shard.remove_if(..) }]. *)
Definition shard_remove_if (reg : ConnectionRegistry) (s : string) (d : Uuid) (id : Z)
    : ConnectionRegistry :=
  match by_shard reg !! s with
  | Some m => set_by_shard (<[s := (remove_if (heap reg) m d id).1]> (by_shard reg)) reg
  | None => reg
  end.

Definition ConnectionRegistry_register (reg : ConnectionRegistry) (device_id : Uuid)
    (shard_prefix : string) (location : Location) : ConnectionRegistry * Registered :=
  let conn_id := u64_wrap (next_id reg + 1) in
  let conn := MkConn conn_id shard_prefix location [] true in
  let p := fresh (dom (heap reg)) in
  let reg1 := MkRegistry (<[p := conn]> (heap reg)) (<[device_id := p]> (by_device reg))
                (by_shard reg) (u64_wrap (next_id reg + 1)) in
  let reg2 :=
    match by_device reg !! device_id with
    | Some previous =>
      let reg' := (send_to reg1 previous OClose).1 in
      match heap reg' !! previous with
      | Some pc => shard_remove_if reg' (c_shard pc) device_id (c_id pc)
      | None => reg'
      end
    | None => reg1
    end in
  let shard := default ∅ (by_shard reg2 !! shard_prefix) in
  (set_by_shard (<[shard_prefix := <[device_id := p]> shard]> (by_shard reg2)) reg2,
   MkRegistered conn_id p).

Definition ConnectionRegistry_deregister (reg : ConnectionRegistry) (device_id : Uuid)
    (conn_id : Z) : ConnectionRegistry * bool :=
  let '(m, removed) := remove_if (heap reg) (by_device reg) device_id conn_id in
  match removed with
  | Some p =>
    let reg1 := set_by_device m reg in
    match heap reg !! p with
    | Some conn => (shard_remove_if reg1 (c_shard conn) device_id conn_id, true)
    | None => (reg1, true)
    end
  | None => (reg, false)
  end.

Section Broadcast.
Context {L : Libm} {MO : MapOrder Uuid nat}.

(** The loop body of [broadcast_to_shard]. *)
Definition broadcast_one (alert : Alert) (payload : Bytes)
    (st : gmap nat Connection * BroadcastResult) (p : nat)
    : gmap nat Connection * BroadcastResult :=
  let '(h, r) := st in
  match h !! p with
  | None => (h, r)
  | Some conn =>
    if negb (Alert_contains alert (Connection_location conn)) then
      (h, MkBroadcast (br_delivered r) (br_dropped r) (br_filtered_out r + 1))
    else
      match try_send conn (OAlert payload) with
      | (conn', Ok _) =>
        (<[p := conn']> h, MkBroadcast (br_delivered r + 1) (br_dropped r) (br_filtered_out r))
      | (conn', Err _) =>
        (<[p := conn']> h, MkBroadcast (br_delivered r) (br_dropped r + 1) (br_filtered_out r))
      end
  end.

Definition ConnectionRegistry_broadcast_to_shard (reg : ConnectionRegistry)
    (shard_prefix : string) (alert : Alert) (payload : Bytes)
    : ConnectionRegistry * BroadcastResult :=
  match by_shard reg !! shard_prefix with
  | None => (reg, BroadcastResult_default)
  | Some shard =>
    let '(h, r) := foldl (broadcast_one alert payload) (heap reg, BroadcastResult_default)
                     (map_iter shard).*2 in
    (set_heap h reg, r)
  end.

Definition ConnectionRegistry_update_location (reg : ConnectionRegistry) (device_id : Uuid)
    (location : Location) : ConnectionRegistry * bool :=
  match by_device reg !! device_id with
  | Some p => (set_heap (alter (set_location location) p (heap reg)) reg, true)
  | None => (reg, false)
  end.

Definition ConnectionRegistry_send_control (reg : ConnectionRegistry) (device_id : Uuid)
    (text : string) (close : bool) : ConnectionRegistry * bool :=
  match by_device reg !! device_id with
  | None => (reg, false)
  | Some p =>
    let '(reg1, sent) := send_to reg p (OControl text close) in
    if negb (is_ok sent) && close then
      match heap reg !! p with
      | Some conn => ((ConnectionRegistry_deregister reg1 device_id (c_id conn)).1, true)
      | None => (reg1, true)
      end
    else (reg1, true)
  end.

(** The sender is the pointer of its connection. *)
Definition ConnectionRegistry_sender_for (reg : ConnectionRegistry) (device_id : Uuid)
    (conn_id : Z) : option nat :=
  p ← by_device reg !! device_id;
  c ← heap reg !! p;
  if c_id c =? conn_id then Some p else None.

Definition ConnectionRegistry_close_all (reg : ConnectionRegistry) : ConnectionRegistry :=
  let reg1 := foldl (λ r p, (send_to r p OClose).1) reg (map_iter (by_device reg)).*2 in
  set_by_shard ∅ (set_by_device ∅ reg1).
End Broadcast.

Definition ConnectionRegistry_connection_count (reg : ConnectionRegistry) : nat :=
  size (by_device reg).

Definition ConnectionRegistry_shard_connection_count (reg : ConnectionRegistry)
    (shard_prefix : string) : nat :=
  match by_shard reg !! shard_prefix with Some s => size s | None => 0%nat end.

(** The writer task's side of the channel: take the next message, and drop the
    receiver when the task ends. *)
Definition recv (reg : ConnectionRegistry) (p : nat) : ConnectionRegistry * option Outbound :=
  match heap reg !! p with
  | Some c =>
    match c_queue c with
    | m :: q =>
      (set_heap (<[p := MkConn (c_id c) (c_shard c) (c_location c) q (c_rx_open c)]> (heap reg)) reg,
       Some m)
    | [] => (reg, None)
    end
  | None => (reg, None)
  end.

Definition drop_receiver (reg : ConnectionRegistry) (p : nat) : ConnectionRegistry :=
  set_heap (alter (λ c, MkConn (c_id c) (c_shard c) (c_location c) [] false) p (heap reg)) reg.

(** ** The coherence invariant *)

Definition in_shard (reg : ConnectionRegistry) (s : string) (d : Uuid) : option nat :=
  by_shard reg !! s ≫= (.!! d).

(** The parts of a connection that never change. *)
Definition meta (c : Connection) : Z * string := (c_id c, c_shard c).

Definition meta_at (reg : ConnectionRegistry) (p : nat) : option (Z * string) :=
  meta <$> heap reg !! p.

(** The two indexes describe the same connections, each device has one, each
    connection its own identifier, and no queue exceeds its capacity. *)
Record coherent (reg : ConnectionRegistry) : Prop := MkCoherent {
  coh_dev d p : by_device reg !! d = Some p →
    ∃ i s, meta_at reg p = Some (i, s) ∧ in_shard reg s d = Some p;
  coh_shard s d p : in_shard reg s d = Some p →
    by_device reg !! d = Some p ∧ ∃ i, meta_at reg p = Some (i, s);
  coh_inj d1 d2 p : by_device reg !! d1 = Some p → by_device reg !! d2 = Some p → d1 = d2;
  coh_ids p q i s t : meta_at reg p = Some (i, s) → meta_at reg q = Some (i, t) → p = q;
  coh_bound p i s : meta_at reg p = Some (i, s) → 1 ≤ i ≤ next_id reg;
  coh_queue p c : heap reg !! p = Some c → Z.of_nat (length (c_queue c)) ≤ 64;
  coh_next : 0 ≤ next_id reg;
}.

Lemma coherent_new : coherent ConnectionRegistry_new.
Proof.
  split; unfold meta_at, in_shard; simpl; intros *; rewrite ?lookup_empty; done || lia.
Qed.

(** A change that keeps every connection's identity keeps coherence. *)
Lemma coherent_heap_update reg h' :
  coherent reg → (∀ p, meta <$> h' !! p = meta_at reg p) →
  (∀ p c, h' !! p = Some c → Z.of_nat (length (c_queue c)) ≤ 64) →
  coherent (set_heap h' reg).
Proof.
  intros [Hd Hs Hi Hids Hb Hq Hn] Hm Hq'.
  split; unfold meta_at, in_shard in *; simpl; intros *; rewrite ?Hm; eauto.
Qed.

Lemma meta_insert_same (h : gmap nat Connection) p c c' q :
  h !! p = Some c → meta c' = meta c → meta <$> <[p := c']> h !! q = meta <$> h !! q.
Proof.
  intros Hp Hm. destruct (decide (q = p)) as [->|Hne].
  - rewrite lookup_insert_eq, Hp. simpl. by rewrite Hm.
  - by rewrite lookup_insert_ne by done.
Qed.

Lemma try_send_meta c m : meta (try_send c m).1 = meta c.
Proof. unfold try_send. by repeat case_match. Qed.

Lemma try_send_queue c m :
  Z.of_nat (length (c_queue c)) ≤ 64 → Z.of_nat (length (c_queue (try_send c m).1)) ≤ 64.
Proof.
  unfold try_send, CONNECTION_CHANNEL_CAPACITY.
  destruct (c_rx_open c); simpl; [|done].
  destruct (Z.leb_spec 64 (Z.of_nat (length (c_queue c)))); simpl; [done|].
  rewrite length_app. simpl. lia.
Qed.

(** Replacing one connection by an update that keeps its identity. *)
Lemma coherent_update_one reg p c c' :
  coherent reg → heap reg !! p = Some c → meta c' = meta c →
  Z.of_nat (length (c_queue c')) ≤ 64 → coherent (set_heap (<[p := c']> (heap reg)) reg).
Proof.
  intros Hc Hp Hm Hq. apply coherent_heap_update; [done| |].
  - intros q. by apply (meta_insert_same _ _ c).
  - intros q x [[-> ->]|[_ Hx]]%lookup_insert_Some; [done|]. by apply (coh_queue _ Hc q).
Qed.

Lemma send_to_coherent reg p m : coherent reg → coherent (send_to reg p m).1.
Proof.
  intros Hc. unfold send_to. destruct (heap reg !! p) as [c|] eqn:E; [|done].
  destruct (try_send c m) as [c' r] eqn:T. simpl.
  replace c' with (try_send c m).1 by (by rewrite T).
  apply (coherent_update_one _ _ c); [done|done|apply try_send_meta|].
  apply try_send_queue. by apply (coh_queue _ Hc p).
Qed.

(** ** Lookups after a conditional removal *)

Lemma remove_if_lookup h m d id d' :
  (remove_if h m d id).1 !! d' =
  if decide (d' = d ∧ (m !! d ≫= λ p, c_id <$> h !! p) = Some id) then None else m !! d'.
Proof.
  unfold remove_if. destruct (m !! d) as [p|] eqn:Hm; simpl.
  2:{ by rewrite decide_False by naive_solver. }
  destruct (h !! p) as [c|]; simpl; [|by rewrite decide_False by naive_solver].
  destruct (Z.eqb_spec (c_id c) id) as [<-|Hne]; simpl.
  - destruct (decide (d' = d)) as [->|].
    + by rewrite decide_True, lookup_delete_eq.
    + by rewrite decide_False, lookup_delete_ne by naive_solver.
  - by rewrite decide_False by naive_solver.
Qed.

Lemma in_shard_remove_if reg s d id s' d' :
  in_shard (shard_remove_if reg s d id) s' d' =
  if decide (s' = s ∧ d' = d ∧ (in_shard reg s d ≫= λ p, c_id <$> heap reg !! p) = Some id)
  then None else in_shard reg s' d'.
Proof.
  unfold shard_remove_if, in_shard.
  destruct (by_shard reg !! s) as [m|] eqn:Hm; simpl.
  2:{ by rewrite decide_False by naive_solver. }
  destruct (decide (s' = s)) as [->|].
  - rewrite lookup_insert_eq, Hm. simpl. rewrite remove_if_lookup.
    repeat case_decide; naive_solver.
  - rewrite lookup_insert_ne, decide_False by naive_solver. done.
Qed.

Lemma shard_remove_if_frame reg s d id :
  heap (shard_remove_if reg s d id) = heap reg ∧
  by_device (shard_remove_if reg s d id) = by_device reg ∧
  next_id (shard_remove_if reg s d id) = next_id reg.
Proof. unfold shard_remove_if. by case_match. Qed.

Lemma coh_not_in_shard reg s d :
  coherent reg → by_device reg !! d = None → in_shard reg s d = None.
Proof.
  intros Hc Hd. destruct (in_shard reg s d) eqn:E; [|done].
  apply (coh_shard _ Hc) in E as [? _]. congruence.
Qed.

(** Removing a device's own connection from its shard clears the device from
    every shard. *)
Lemma in_shard_remove_own reg reg' d q i s s' d' :
  coherent reg → by_device reg !! d = Some q → meta_at reg q = Some (i, s) →
  (∀ t e, in_shard reg' t e = in_shard reg t e) → meta_at reg' q = Some (i, s) →
  in_shard (shard_remove_if reg' s d i) s' d' = if decide (d' = d) then None else in_shard reg s' d'.
Proof.
  intros Hc Hd Hm Hin Hm'. rewrite in_shard_remove_if, !Hin.
  destruct (coh_dev _ Hc _ _ Hd) as (i0 & s0 & Hm0 & Hs).
  rewrite Hm in Hm0. injection Hm0 as <- <-.
  rewrite Hs. simpl. assert (c_id <$> heap reg' !! q = Some i) as ->.
  { unfold meta_at in Hm'. destruct (heap reg' !! q) as [c|]; [|done].
    injection Hm' as <- _. done. }
  destruct (decide (d' = d)) as [->|]; [|by rewrite decide_False by naive_solver].
  destruct (decide (s' = s)) as [->|]; [by rewrite decide_True|].
  rewrite decide_False by naive_solver.
  destruct (in_shard reg s' d) as [r|] eqn:E; [|done].
  apply (coh_shard _ Hc) in E as (? & j & ?). congruence.
Qed.

(** ** Registering *)

(** The heap after the replaced connection, if any, was told to close. *)
Definition close_previous (reg : ConnectionRegistry) (d : Uuid) : gmap nat Connection :=
  match by_device reg !! d with
  | Some q => alter (λ c, (try_send c OClose).1) q (heap reg)
  | None => heap reg
  end.

Lemma close_previous_meta reg d p : meta <$> close_previous reg d !! p = meta_at reg p.
Proof.
  unfold close_previous, meta_at. destruct (by_device reg !! d) as [q|]; [|done].
  destruct (decide (p = q)) as [->|]; [|by rewrite lookup_alter_ne].
  rewrite lookup_alter_eq. destruct (heap reg !! q) as [c|]; simpl; [|done].
  by rewrite try_send_meta.
Qed.

Lemma close_previous_queue reg d p c :
  coherent reg → close_previous reg d !! p = Some c → Z.of_nat (length (c_queue c)) ≤ 64.
Proof.
  intros Hc. unfold close_previous.
  destruct (by_device reg !! d) as [q|]; [|by apply (coh_queue _ Hc)].
  destruct (decide (p = q)) as [->|].
  - rewrite lookup_alter_eq. destruct (heap reg !! q) as [x|] eqn:E; [|done].
    intros [= <-]. apply try_send_queue. by apply (coh_queue _ Hc q).
  - rewrite lookup_alter_ne by done. by apply (coh_queue _ Hc).
Qed.

(** The complete effect of [register] on a coherent registry. *)
Lemma register_effect reg d s loc reg' rg :
  coherent reg → ConnectionRegistry_register reg d s loc = (reg', rg) →
  let p := fresh (dom (heap reg)) in
  let id := u64_wrap (next_id reg + 1) in
  rg = MkRegistered id p ∧
  by_device reg' = <[d := p]> (by_device reg) ∧
  heap reg' = <[p := MkConn id s loc [] true]> (close_previous reg d) ∧
  next_id reg' = id ∧
  (∀ s' d', in_shard reg' s' d' =
     if decide (d' = d) then (if decide (s' = s) then Some p else None) else in_shard reg s' d').
Proof.
  intros Hc. unfold ConnectionRegistry_register. cbn zeta.
  set (p := fresh (dom (heap reg))). set (id := u64_wrap (next_id reg + 1)).
  set (conn := MkConn id s loc [] true).
  set (reg1 := MkRegistry _ _ (by_shard reg) id).
  set (reg2 := match by_device reg !! d with Some _ => _ | None => _ end).
  intros [= <- <-].
  assert (heap reg2 = <[p := conn]> (close_previous reg d) ∧ by_device reg2 = by_device reg1 ∧
    next_id reg2 = id ∧
    ∀ s' d', in_shard reg2 s' d' = if decide (d' = d) then None else in_shard reg s' d')
    as (Hh & Hb & Hn & Hi).
  { unfold reg2, close_previous. destruct (by_device reg !! d) as [q|] eqn:Hd.
    - destruct (coh_dev _ Hc _ _ Hd) as (i & t & Hm & Hs).
      unfold meta_at in Hm. destruct (heap reg !! q) as [qc|] eqn:Hq; [|done].
      assert (q ≠ p) as Hne.
      { intros ->. apply (is_fresh (dom (heap reg))). by apply elem_of_dom. }
      unfold send_to. cbn [heap reg1]. rewrite lookup_insert_ne, Hq by done.
      pose proof (try_send_meta qc OClose) as Htm.
      destruct (try_send qc OClose) as [qc' r] eqn:T. cbn [fst] in *.
      set (reg3 := set_heap (<[q := qc']> _) reg1).
      assert (heap reg3 = <[q := qc']> (<[p := conn]> (heap reg))) as Hh3 by done.
      rewrite Hh3, lookup_insert_eq.
      destruct (shard_remove_if_frame reg3 (c_shard qc') d (c_id qc')) as (-> & -> & ->).
      split_and!; [| done | done |].
      + rewrite Hh3, insert_insert_ne by done. f_equal.
        rewrite (alter_as_insert _ _ _ _ Hq). by rewrite T.
      + intros s' d'. injection Hm as <- <-. injection Htm as Hid Hsh. rewrite Hid, Hsh.
        apply (in_shard_remove_own reg reg3 d q); [done|done| |done|].
        * unfold meta_at. by rewrite Hq.
        * unfold meta_at. rewrite Hh3, lookup_insert_eq. simpl.
          unfold meta. by rewrite Hid, Hsh.
    - split_and!; [done..|]. intros s' d'. case_decide as E; [subst d'|done].
      by apply (coh_not_in_shard reg). }
  split_and!; [done|done|done|done|].
  intros s' d'. unfold in_shard in *. cbn [by_shard set_by_shard].
  destruct (decide (s' = s)) as [->|].
  - rewrite lookup_insert_eq. simpl. destruct (decide (d' = d)) as [->|].
    + by rewrite lookup_insert_eq.
    + rewrite lookup_insert_ne by done. specialize (Hi s d').
      rewrite decide_False in Hi by done. rewrite <- Hi. by destruct (by_shard reg2 !! s).
  - rewrite lookup_insert_ne by done. rewrite Hi. done.
Qed.

Lemma fresh_not_in_heap reg : meta_at reg (fresh (dom (heap reg))) = None.
Proof.
  unfold meta_at. destruct (heap reg !! _) eqn:E; [|done].
  exfalso. apply (is_fresh (dom (heap reg))). by apply elem_of_dom.
Qed.

Lemma register_coherent reg d s loc :
  coherent reg → next_id reg + 1 < 2 ^ 64 →
  coherent (ConnectionRegistry_register reg d s loc).1.
Proof.
  intros Hc Hlt. destruct (ConnectionRegistry_register reg d s loc) as [reg' rg] eqn:E. simpl.
  apply register_effect in E as (_ & Hb & Hh & Hn & Hi); [|done].
  pose proof (coh_next _ Hc) as H0. rewrite u64_wrap_small in * by lia.
  set (p := fresh (dom (heap reg))) in *.
  assert (Hm : ∀ q, meta_at reg' q = if decide (q = p) then Some (next_id reg + 1, s)
                                     else meta_at reg q).
  { intros q. unfold meta_at at 1. rewrite Hh. destruct (decide (q = p)) as [->|].
    - by rewrite lookup_insert_eq.
    - rewrite lookup_insert_ne by done. apply close_previous_meta. }
  pose proof (fresh_not_in_heap reg) as Hf. fold p in Hf.
  assert (Hnp : ∀ e, by_device reg !! e ≠ Some p).
  { intros e He. apply (coh_dev _ Hc) in He as (? & ? & ? & _). congruence. }
  split.
  - intros e q. rewrite Hb. intros [[<- <-]|[Hne He]]%lookup_insert_Some.
    + exists (next_id reg + 1), s. rewrite Hm, Hi, !decide_True by done. done.
    + destruct (coh_dev _ Hc _ _ He) as (i & t & ? & ?). exists i, t.
      rewrite Hm, Hi, !decide_False by (by congruence). done.
  - intros t e q. rewrite Hi. destruct (decide (e = d)) as [->|].
    + case_decide; [|done]. subst t. intros [= <-]. rewrite Hb, lookup_insert_eq, Hm, decide_True by done.
      eauto.
    + intros (He & i & Hi')%(coh_shard _ Hc). rewrite Hb, lookup_insert_ne by done.
      split; [done|]. exists i. rewrite Hm, decide_False by congruence. done.
  - intros d1 d2 q. rewrite Hb, !lookup_insert_Some.
    intros [[<- <-]|[? H1]] [[<- H2]|[? H2]]; try done; try (by exfalso; eapply Hnp; eauto).
    + exfalso. subst q. by eapply Hnp.
    + by eapply (coh_inj _ Hc).
  - intros q r i t u. rewrite !Hm. do 2 case_decide; subst; try done.
    + intros [= <- <-] Hr. apply (coh_bound _ Hc) in Hr. lia.
    + intros Hr [= <- <-]. apply (coh_bound _ Hc) in Hr. lia.
    + apply (coh_ids _ Hc).
  - intros q i t. rewrite Hm, Hn. case_decide; [intros [= <- <-]; lia|].
    intros Hr%(coh_bound _ Hc). lia.
  - intros q c. rewrite Hh. intros [[<- <-]|[_ Hx]]%lookup_insert_Some; [simpl; lia|].
    by eapply close_previous_queue.
  - lia.
Qed.

(** ** Deregistering *)

Lemma deregister_effect reg d id reg' b :
  coherent reg → ConnectionRegistry_deregister reg d id = (reg', b) →
  (b = true ∧ (∃ p s, by_device reg !! d = Some p ∧ meta_at reg p = Some (id, s)) ∧
     by_device reg' = delete d (by_device reg) ∧ heap reg' = heap reg ∧
     next_id reg' = next_id reg ∧
     ∀ s' d', in_shard reg' s' d' = if decide (d' = d) then None else in_shard reg s' d') ∨
  (b = false ∧ reg' = reg ∧
     ∀ p s, by_device reg !! d = Some p → meta_at reg p ≠ Some (id, s)).
Proof.
  intros Hc. unfold ConnectionRegistry_deregister, remove_if.
  destruct (by_device reg !! d) as [p|] eqn:Hd; [|intros [= <- <-]; right; naive_solver].
  destruct (coh_dev _ Hc _ _ Hd) as (i & s & Hm & Hs).
  pose proof Hm as Hm0. unfold meta_at in Hm.
  destruct (heap reg !! p) as [c|] eqn:Hp; [|done]. injection Hm as <- <-. simpl.
  destruct (Z.eqb_spec (c_id c) id) as [<-|Hne].
  - rewrite Hp. intros [= <- <-]. left.
    destruct (shard_remove_if_frame (set_by_device (delete d (by_device reg)) reg)
      (c_shard c) d (c_id c)) as (-> & -> & ->).
    split_and!; [done|by eauto|done|done|done|].
    intros s' d'. by apply (in_shard_remove_own reg _ d p).
  - intros [= <- <-]. right. split_and!; [done|done|]. intros q s [= <-]. rewrite Hm0. congruence.
Qed.

Lemma coherent_delete reg reg' d :
  coherent reg → by_device reg' = delete d (by_device reg) → heap reg' = heap reg →
  next_id reg' = next_id reg →
  (∀ s' d', in_shard reg' s' d' = if decide (d' = d) then None else in_shard reg s' d') →
  coherent reg'.
Proof.
  intros Hc Hb Hh Hn Hi.
  assert (Hm : ∀ q, meta_at reg' q = meta_at reg q) by (intros q; unfold meta_at; by rewrite Hh).
  split.
  - intros e q. rewrite Hb. intros [Hne He]%lookup_delete_Some.
    destruct (coh_dev _ Hc _ _ He) as (i & t & ? & ?). exists i, t.
    by rewrite Hm, Hi, decide_False by done.
  - intros t e q. rewrite Hi. case_decide as E; [done|].
    intros (He & i & ?)%(coh_shard _ Hc).
    rewrite Hb, lookup_delete_ne, Hm by done. eauto.
  - intros d1 d2 q. rewrite Hb, !lookup_delete_Some. intros [_ ?] [_ ?].
    by eapply (coh_inj _ Hc).
  - intros q r i t u. rewrite !Hm. apply (coh_ids _ Hc).
  - intros q i t. rewrite Hm, Hn. apply (coh_bound _ Hc).
  - intros q c. rewrite Hh. apply (coh_queue _ Hc).
  - rewrite Hn. apply (coh_next _ Hc).
Qed.

Lemma deregister_coherent reg d id :
  coherent reg → coherent (ConnectionRegistry_deregister reg d id).1.
Proof.
  intros Hc. destruct (ConnectionRegistry_deregister reg d id) as [reg' b] eqn:E. simpl.
  apply deregister_effect in E as [(_ & _ & ? & ? & ? & ?)|(_ & -> & _)]; [|done|done].
  by eapply coherent_delete.
Qed.

(** ** The other operations *)

Section Operations.
Context {L : Libm} {MO : MapOrder Uuid nat}.

(** What one broadcast does to one connection, and how it is counted. *)
Definition deliver (alert : Alert) (payload : Bytes) (c : Connection) : Connection :=
  if Alert_contains alert (c_location c) then (try_send c (OAlert payload)).1 else c.

Definition accepts (c : Connection) : bool :=
  c_rx_open c && negb (64 <=? Z.of_nat (length (c_queue c))).

Definition is_delivered (alert : Alert) (c : Connection) : bool :=
  Alert_contains alert (c_location c) && accepts c.
Definition is_dropped (alert : Alert) (c : Connection) : bool :=
  Alert_contains alert (c_location c) && negb (accepts c).
Definition is_filtered (alert : Alert) (c : Connection) : bool :=
  negb (Alert_contains alert (c_location c)).

Lemma try_send_accepts c m : is_ok (try_send c m).2 = accepts c.
Proof.
  unfold try_send, accepts, CONNECTION_CHANNEL_CAPACITY.
  destruct (c_rx_open c); simpl; [|done]. by case_match.
Qed.

(** The connections a list of pointers leads to. *)
Fixpoint deref (h : gmap nat Connection) (l : list nat) : list Connection :=
  match l with
  | [] => []
  | p :: l => match h !! p with Some c => c :: deref h l | None => deref h l end
  end.

Definition count_in (P : Connection → bool) (h : gmap nat Connection) (l : list nat) : Z :=
  Z.of_nat (length (filter (λ c, P c = true) (deref h l))).

Lemma count_in_cons P (h : gmap nat Connection) p c l :
  h !! p = Some c → count_in P h (p :: l) = (if P c then 1 else 0) + count_in P h l.
Proof.
  intros Hp. unfold count_in. simpl. rewrite Hp, filter_cons.
  destruct (P c); [rewrite decide_True by done|rewrite decide_False by done]; simpl; lia.
Qed.

Lemma deref_insert_notin (h : gmap nat Connection) p c (l : list nat) :
  p ∉ l → deref (<[p := c]> h) l = deref h l.
Proof.
  induction l as [|q l IH]; [done|]. intros [Hne Hl]%not_elem_of_cons. simpl.
  rewrite lookup_insert_ne, IH by done. done.
Qed.

Lemma broadcast_one_eq alert payload h r p c :
  h !! p = Some c →
  broadcast_one alert payload (h, r) p =
  (<[p := deliver alert payload c]> h,
   MkBroadcast (br_delivered r + if is_delivered alert c then 1 else 0)
               (br_dropped r + if is_dropped alert c then 1 else 0)
               (br_filtered_out r + if is_filtered alert c then 1 else 0)).
Proof.
  intros Hp. unfold broadcast_one, deliver, is_delivered, is_dropped, is_filtered,
    Connection_location. rewrite Hp, <- (try_send_accepts c (OAlert payload)).
  destruct (Alert_contains alert (c_location c)); simpl.
  - destruct (try_send c (OAlert payload)) as [c' [[]|e]]; simpl; by rewrite ?Z.add_0_r.
  - by rewrite ?Z.add_0_r, insert_id.
Qed.

(** The broadcast loop over distinct live connections. *)
Lemma broadcast_loop alert payload l h r h' r' :
  NoDup l → (∀ p, p ∈ l → is_Some (h !! p)) →
  foldl (broadcast_one alert payload) (h, r) l = (h', r') →
  (∀ p, h' !! p = if decide (p ∈ l) then deliver alert payload <$> h !! p else h !! p) ∧
  br_delivered r' = br_delivered r + count_in (is_delivered alert) h l ∧
  br_dropped r' = br_dropped r + count_in (is_dropped alert) h l ∧
  br_filtered_out r' = br_filtered_out r + count_in (is_filtered alert) h l.
Proof.
  revert h r. induction l as [|p l IH]; intros h r Hnd Hl; cbn [foldl].
  - intros [= <- <-]. split; [|unfold count_in; simpl; lia]. intros q.
    by rewrite decide_False by set_solver.
  - apply NoDup_cons in Hnd as [Hp Hnd]. destruct (Hl p) as [c Hc]; [set_solver|].
    rewrite (broadcast_one_eq _ _ _ _ _ _ Hc). intros Hf.
    apply IH in Hf as (Hh & H1 & H2 & H3); [|done|].
    2:{ intros q Hq. apply lookup_insert_is_Some'. right. apply Hl. set_solver. }
    rewrite !(count_in_cons _ _ _ c) by done.
    cbn [br_delivered br_dropped br_filtered_out] in *. unfold count_in in *.
    rewrite deref_insert_notin in H1, H2, H3 by done. split_and!; [|lia..].
    intros q. rewrite Hh. destruct (decide (q = p)) as [->|].
    + rewrite decide_False, lookup_insert_eq, decide_True, Hc by set_solver. done.
    + rewrite lookup_insert_ne by done. pose proof (elem_of_cons l q p).
      repeat case_decide; tauto.
Qed.

Lemma deliver_meta alert payload c : meta (deliver alert payload c) = meta c.
Proof. unfold deliver. case_match; [apply try_send_meta|done]. Qed.

Lemma deliver_queue alert payload c :
  Z.of_nat (length (c_queue c)) ≤ 64 →
  Z.of_nat (length (c_queue (deliver alert payload c))) ≤ 64.
Proof. intros H. unfold deliver. case_match; [by apply try_send_queue|done]. Qed.

Lemma shard_ptrs reg s m :
  coherent reg → by_shard reg !! s = Some m →
  NoDup (map_iter m).*2 ∧
  (∀ p, p ∈ (map_iter m).*2 ↔ ∃ d, in_shard reg s d = Some p) ∧
  ∀ p, p ∈ (map_iter m).*2 → is_Some (heap reg !! p).
Proof.
  intros Hc Hm.
  assert (Hin : ∀ p, p ∈ (map_iter m).*2 ↔ ∃ d, in_shard reg s d = Some p).
  { intros p. rewrite map_iter_perm, list_elem_of_fmap. unfold in_shard. rewrite Hm. simpl.
    split.
    - intros ([d q] & -> & H%elem_of_map_to_list). eauto.
    - intros [d H]. exists (d, p). by rewrite elem_of_map_to_list. }
  split_and!; [|done|].
  - rewrite map_iter_perm. apply NoDup_fmap_2_strong; [|apply NoDup_map_to_list].
    intros [d1 p] [d2 q]. rewrite !elem_of_map_to_list. simpl. intros H1 H2 ->.
    f_equal. apply (coh_inj _ Hc d1 d2 q);
      apply (coh_shard _ Hc s); unfold in_shard; by rewrite Hm.
  - intros p (d & Hd)%Hin. apply (coh_shard _ Hc) in Hd as (_ & i & Hi).
    unfold meta_at in Hi. destruct (heap reg !! p); [eauto|done].
Qed.
End Operations.

(** ** The abstract registry

    What the registry promises: one connection per device, and nothing else to
    keep in step. *)

Record SpecRegistry : Type := MkSpec { sp_conns : gmap Uuid Connection; sp_next : Z }.

Inductive RegOp : Type :=
| OpRegister (d : Uuid) (shard : string) (loc : Location)
| OpDeregister (d : Uuid) (conn_id : Z)
| OpBroadcast (shard : string) (alert : Alert) (payload : Bytes)
| OpUpdateLocation (d : Uuid) (loc : Location)
| OpSendControl (d : Uuid) (text : string) (close : bool)
| OpCloseAll.

Inductive RegOut : Type :=
| OutId (id : Z)
| OutBool (b : bool)
| OutBroadcast (r : BroadcastResult)
| OutUnit.

Section Refinement.
Context {L : Libm} {MO : MapOrder Uuid nat}.

Definition apply_op (reg : ConnectionRegistry) (op : RegOp) : ConnectionRegistry * RegOut :=
  match op with
  | OpRegister d s loc =>
    let '(reg', rg) := ConnectionRegistry_register reg d s loc in (reg', OutId (rg_conn_id rg))
  | OpDeregister d id =>
    let '(reg', b) := ConnectionRegistry_deregister reg d id in (reg', OutBool b)
  | OpBroadcast s alert payload =>
    let '(reg', r) := ConnectionRegistry_broadcast_to_shard reg s alert payload in
    (reg', OutBroadcast r)
  | OpUpdateLocation d loc =>
    let '(reg', b) := ConnectionRegistry_update_location reg d loc in (reg', OutBool b)
  | OpSendControl d text close =>
    let '(reg', b) := ConnectionRegistry_send_control reg d text close in (reg', OutBool b)
  | OpCloseAll => (ConnectionRegistry_close_all reg, OutUnit)
  end.

Definition on_shard (s : string) (c : Connection) : bool := bool_decide (c_shard c = s).

Definition spec_op (st : SpecRegistry) (op : RegOp) : SpecRegistry * RegOut :=
  let m := sp_conns st in
  let keep m' := MkSpec m' (sp_next st) in
  match op with
  | OpRegister d s loc =>
    let id := sp_next st + 1 in (MkSpec (<[d := MkConn id s loc [] true]> m) id, OutId id)
  | OpDeregister d id =>
    match m !! d with
    | Some c => if c_id c =? id then (keep (delete d m), OutBool true) else (st, OutBool false)
    | None => (st, OutBool false)
    end
  | OpBroadcast s alert payload =>
    let count P := Z.of_nat (map_count (λ c, on_shard s c && P alert c) m) in
    (keep ((λ c, if on_shard s c then deliver alert payload c else c) <$> m),
     OutBroadcast (MkBroadcast (count is_delivered) (count is_dropped) (count is_filtered)))
  | OpUpdateLocation d loc =>
    (keep (alter (set_location loc) d m), OutBool (bool_decide (is_Some (m !! d))))
  | OpSendControl d text close =>
    match m !! d with
    | None => (st, OutBool false)
    | Some c =>
      if accepts c then (keep (<[d := (try_send c (OControl text close)).1]> m), OutBool true)
      else if close then (keep (delete d m), OutBool true)
      else (st, OutBool true)
    end
  | OpCloseAll => (keep ∅, OutUnit)
  end.

(** The abstraction: each device's connection, read through the heap. *)
Definition abs (reg : ConnectionRegistry) : SpecRegistry :=
  MkSpec ((λ p, heap reg !!! p) <$> by_device reg) (next_id reg).

Lemma spec_ext (a b : SpecRegistry) :
  sp_conns a = sp_conns b → sp_next a = sp_next b → a = b.
Proof. destruct a, b. simpl. by intros -> ->. Qed.

Lemma dev_lookup reg d p :
  coherent reg → by_device reg !! d = Some p →
  ∃ c, heap reg !! p = Some c ∧ sp_conns (abs reg) !! d = Some c ∧
    in_shard reg (c_shard c) d = Some p.
Proof.
  intros Hc Hd. destruct (coh_dev _ Hc _ _ Hd) as (i & s & Hm & Hs). unfold meta_at in Hm.
  destruct (heap reg !! p) as [c|] eqn:Hp; [|done]. injection Hm as <- <-.
  exists c. split_and!; [done| |done]. simpl. rewrite lookup_fmap, Hd. simpl.
  by rewrite lookup_total_alt, Hp.
Qed.

Lemma abs_lookup_None reg d : by_device reg !! d = None → sp_conns (abs reg) !! d = None.
Proof. intros Hd. simpl. by rewrite lookup_fmap, Hd. Qed.

(** A heap change seen through the abstraction. *)
Lemma abs_set_heap reg h' (f : Uuid → Connection → Connection) :
  coherent reg →
  (∀ d p c, by_device reg !! d = Some p → heap reg !! p = Some c → h' !! p = Some (f d c)) →
  ∀ d, sp_conns (abs (set_heap h' reg)) !! d = f d <$> sp_conns (abs reg) !! d.
Proof.
  intros Hc Hf d. simpl. rewrite !lookup_fmap.
  destruct (by_device reg !! d) as [p|] eqn:Hd; [|done]. simpl.
  destruct (dev_lookup _ _ _ Hc Hd) as (c & Hp & _).
  by rewrite !lookup_total_alt, Hp, (Hf d p c).
Qed.

Lemma refines_register reg d s loc :
  coherent reg → next_id reg + 1 < 2 ^ 64 →
  spec_op (abs reg) (OpRegister d s loc) =
    (abs (apply_op reg (OpRegister d s loc)).1, (apply_op reg (OpRegister d s loc)).2).
Proof.
  intros Hc Hlt. cbn [apply_op].
  destruct (ConnectionRegistry_register reg d s loc) as [reg' rg] eqn:E.
  apply register_effect in E as (-> & Hb & Hh & Hn & _); [|done].
  pose proof (coh_next _ Hc). rewrite u64_wrap_small in Hh, Hn |- * by lia.
  simpl. f_equal. unfold abs. rewrite Hn. f_equal. rewrite Hb, Hh, fmap_insert.
  rewrite lookup_total_insert_eq. apply map_eq. intros e.
  destruct (decide (e = d)) as [->|Hne]; [by rewrite !lookup_insert_eq|].
  rewrite !lookup_insert_ne, !lookup_fmap by done.
  destruct (by_device reg !! e) as [q|] eqn:He; [|done]. simpl. f_equal.
  assert (q ≠ fresh (dom (heap reg))).
  { intros ->. destruct (coh_dev _ Hc _ _ He) as (? & ? & Hm & _).
    by rewrite fresh_not_in_heap in Hm. }
  rewrite lookup_total_insert_ne by done. rewrite !lookup_total_alt. unfold close_previous.
  destruct (by_device reg !! d) as [r|] eqn:Hd; [|done].
  rewrite lookup_alter_ne; [done|]. intros ->. apply Hne. by eapply (coh_inj _ Hc).
Qed.

Lemma refines_deregister reg d id :
  coherent reg →
  spec_op (abs reg) (OpDeregister d id) =
    (abs (apply_op reg (OpDeregister d id)).1, (apply_op reg (OpDeregister d id)).2).
Proof.
  intros Hc. cbn [apply_op spec_op].
  destruct (ConnectionRegistry_deregister reg d id) as [reg' b] eqn:E.
  apply deregister_effect in E as [(-> & (p & s & Hd & Hm) & Hb & Hh & Hn & _)|(-> & -> & Hnone)];
    [| |done].
  - destruct (dev_lookup _ _ _ Hc Hd) as (c & Hp & -> & _).
    unfold meta_at in Hm. rewrite Hp in Hm. injection Hm as -> _. rewrite Z.eqb_refl.
    cbn [fst snd]. unfold abs. by rewrite Hb, Hh, Hn, fmap_delete.
  - destruct (by_device reg !! d) as [p|] eqn:Hd; [|by rewrite abs_lookup_None].
    destruct (dev_lookup _ _ _ Hc Hd) as (c & Hp & -> & _).
    destruct (Z.eqb_spec (c_id c) id) as [<-|]; [|done].
    destruct (Hnone p (c_shard c)); [done|]. unfold meta_at. by rewrite Hp.
Qed.

(** The shard's pointers, read through the heap, are the device connections
    on that shard. *)
Lemma shard_conns reg s m :
  coherent reg → by_shard reg !! s = Some m →
  (λ p, heap reg !!! p) <$> m = filter (λ kv, on_shard s kv.2 = true) (sp_conns (abs reg)).
Proof.
  intros Hc Hm. apply map_eq. intros d. apply option_eq. intros c.
  rewrite map_lookup_filter_Some, lookup_fmap. unfold on_shard. rewrite bool_decide_eq_true.
  assert (Hin : m !! d = in_shard reg s d) by (unfold in_shard; by rewrite Hm). rewrite Hin.
  split.
  - intros (p & Hp & ->)%fmap_Some. destruct (coh_shard _ Hc _ _ _ Hp) as (Hd & i & Hi).
    destruct (dev_lookup _ _ _ Hc Hd) as (c & Hh & Ha & _).
    rewrite lookup_total_alt, Hh. simpl. split; [done|].
    unfold meta_at in Hi. rewrite Hh in Hi. by injection Hi.
  - intros [Ha Hs]. destruct (by_device reg !! d) as [p|] eqn:Hd;
      [|by rewrite (abs_lookup_None _ _ Hd) in Ha].
    destruct (dev_lookup _ _ _ Hc Hd) as (c' & Hh & Ha' & Hs'). rewrite Ha in Ha'.
    injection Ha' as <-. subst s. cbn [snd]. rewrite Hs'. simpl. by rewrite lookup_total_alt, Hh.
Qed.

Lemma deref_total (h : gmap nat Connection) (l : list nat) :
  (∀ p, p ∈ l → is_Some (h !! p)) → deref h l = (λ p, h !!! p) <$> l.
Proof.
  induction l as [|p l IH]; intros Hl; [done|]. simpl.
  destruct (Hl p) as [c Hp]; [set_solver|]. rewrite Hp, lookup_total_alt, Hp. simpl. f_equal.
  apply IH. intros q Hq. apply Hl. by right.
Qed.

Lemma count_in_shard reg s m P :
  coherent reg → by_shard reg !! s = Some m →
  count_in P (heap reg) (map_iter m).*2 =
    Z.of_nat (map_count (λ c, on_shard s c && P c) (sp_conns (abs reg))).
Proof.
  intros Hc Hm. destruct (shard_ptrs _ _ _ Hc Hm) as (_ & _ & Hl).
  unfold count_in. rewrite deref_total by done. f_equal.
  rewrite length_filter_fmap. rewrite (map_count_iter (λ p, P (heap reg !!! p)) m).
  rewrite <- (map_count_filter P (on_shard s)), <- (shard_conns _ _ _ Hc Hm).
  by rewrite map_count_fmap.
Qed.

Lemma map_count_none {K A} `{Countable K} (P : A → bool) (m : gmap K A) :
  (∀ k x, m !! k = Some x → P x = false) → map_count P m = 0%nat.
Proof.
  induction m as [|i x m Hi IH] using map_ind; [done|]. intros Hp.
  rewrite map_count_insert, IH by (done || (intros k y Hy; apply (Hp k);
    rewrite lookup_insert_ne; congruence)).
  by rewrite (Hp i x) by (by rewrite lookup_insert_eq).
Qed.

Lemma no_shard_conns reg s :
  coherent reg → by_shard reg !! s = None →
  ∀ d c, sp_conns (abs reg) !! d = Some c → on_shard s c = false.
Proof.
  intros Hc Hs d c Ha. unfold on_shard. apply bool_decide_eq_false. intros <-.
  destruct (by_device reg !! d) as [p|] eqn:Hd; [|by rewrite (abs_lookup_None _ _ Hd) in Ha].
  destruct (dev_lookup _ _ _ Hc Hd) as (c' & _ & Ha' & Hs'). rewrite Ha in Ha'.
  injection Ha' as <-. unfold in_shard in Hs'. by rewrite Hs in Hs'.
Qed.

Lemma refines_broadcast reg s alert payload :
  coherent reg →
  coherent (apply_op reg (OpBroadcast s alert payload)).1 ∧
  spec_op (abs reg) (OpBroadcast s alert payload) =
    (abs (apply_op reg (OpBroadcast s alert payload)).1,
     (apply_op reg (OpBroadcast s alert payload)).2).
Proof.
  intros Hc. cbn [apply_op spec_op]. unfold ConnectionRegistry_broadcast_to_shard.
  destruct (by_shard reg !! s) as [m|] eqn:Hm.
  - destruct (foldl _ _ _) as [h' r] eqn:Hf. destruct (shard_ptrs _ _ _ Hc Hm) as (Hnd & Hin & Hl).
    destruct (broadcast_loop _ _ _ _ _ _ _ Hnd Hl Hf) as (Hh & H1 & H2 & H3).
    rewrite (count_in_shard _ _ _ _ Hc Hm) in H1. rewrite (count_in_shard _ _ _ _ Hc Hm) in H2.
    rewrite (count_in_shard _ _ _ _ Hc Hm) in H3. cbn [fst snd]. split.
    { apply coherent_heap_update; [done| |].
      - intros p. rewrite Hh. unfold meta_at. case_decide; [|done].
        destruct (heap reg !! p); simpl; [|done]. by rewrite deliver_meta.
      - intros p c. rewrite Hh. case_decide; [|apply (coh_queue _ Hc)].
        intros (c0 & Hp & ->)%fmap_Some. by apply deliver_queue, (coh_queue _ Hc p). }
    f_equal; [|rewrite Z.add_0_l in H1, H2, H3; destruct r; simpl in *; congruence].
    apply spec_ext; [|done]. apply map_eq. intros d. cbn [sp_conns]. rewrite lookup_fmap. symmetry.
    apply (abs_set_heap reg h' (λ _ c, if on_shard s c then deliver alert payload c else c) Hc).
    intros e p c Hd Hp. rewrite Hh, Hp. destruct (dev_lookup _ _ _ Hc Hd) as (c' & Hp' & _ & Hs).
    rewrite Hp in Hp'. injection Hp' as <-. unfold on_shard.
    destruct (decide (p ∈ (map_iter m).*2)) as [(e' & He')%Hin|Hnin].
    + destruct (coh_shard _ Hc _ _ _ He') as (_ & i & Hi). unfold meta_at in Hi.
      rewrite Hp in Hi. injection Hi as _ ->. by rewrite bool_decide_eq_true_2.
    + rewrite bool_decide_eq_false_2; [done|]. intros <-. apply Hnin, Hin. eauto.
  - split; [done|]. pose proof (no_shard_conns _ _ Hc Hm) as Hno. cbn [fst snd]. f_equal.
    + apply spec_ext; [|done]. cbn [sp_conns]. rewrite <- (map_fmap_id (sp_conns (abs reg))) at 2.
      apply map_fmap_ext. intros d c Hd. by rewrite (Hno _ _ Hd).
    + unfold BroadcastResult_default. do 2 f_equal;
        rewrite map_count_none; try done; intros d c Hd; by rewrite (Hno _ _ Hd).
Qed.

(** A change to one device's connection, seen through the abstraction. *)
Lemma abs_update_one reg d p c c' :
  coherent reg → by_device reg !! d = Some p → heap reg !! p = Some c →
  abs (set_heap (<[p := c']> (heap reg)) reg) =
    MkSpec (<[d := c']> (sp_conns (abs reg))) (next_id reg).
Proof.
  intros Hc Hd Hp. apply spec_ext; [|done]. apply map_eq. intros e. cbn [sp_conns].
  rewrite (abs_set_heap reg _ (λ x c0, if decide (x = d) then c' else c0) Hc).
  - destruct (decide (e = d)) as [->|].
    + rewrite lookup_insert_eq. destruct (dev_lookup _ _ _ Hc Hd) as (? & _ & -> & _). done.
    + rewrite lookup_insert_ne by done. by destruct (sp_conns (abs reg) !! e).
  - intros x q c0 Hx Hq. destruct (decide (x = d)) as [->|Hne].
    + rewrite Hd in Hx. injection Hx as <-. by rewrite lookup_insert_eq.
    + rewrite lookup_insert_ne; [done|]. intros ->. apply Hne. by eapply (coh_inj _ Hc).
Qed.

Lemma refines_update_location reg d loc :
  coherent reg →
  coherent (apply_op reg (OpUpdateLocation d loc)).1 ∧
  spec_op (abs reg) (OpUpdateLocation d loc) =
    (abs (apply_op reg (OpUpdateLocation d loc)).1, (apply_op reg (OpUpdateLocation d loc)).2).
Proof.
  intros Hc. cbn [apply_op spec_op]. unfold ConnectionRegistry_update_location.
  destruct (by_device reg !! d) as [p|] eqn:Hd; cbn [fst snd].
  - destruct (dev_lookup _ _ _ Hc Hd) as (c & Hp & Ha & _).
    rewrite (alter_as_insert _ _ _ _ Hp). split.
    { apply (coherent_update_one _ _ c); [done..|]. exact (coh_queue _ Hc p c Hp). }
    rewrite (abs_update_one _ d p c) by done. rewrite Ha, bool_decide_eq_true_2 by eauto.
    by rewrite (alter_as_insert _ _ _ _ Ha).
  - split; [done|]. rewrite (abs_lookup_None _ _ Hd), bool_decide_eq_false_2 by (by intros []).
    by rewrite alter_missing by (by apply abs_lookup_None).
Qed.

Lemma try_send_refused c m : accepts c = false → (try_send c m).1 = c.
Proof.
  intros H. unfold try_send, accepts, CONNECTION_CHANNEL_CAPACITY in *.
  destruct (c_rx_open c); simpl in *; [|done]. case_match; [done|].
  by destruct (64 <=? _).
Qed.

Lemma refines_send_control reg d text close :
  coherent reg →
  coherent (apply_op reg (OpSendControl d text close)).1 ∧
  spec_op (abs reg) (OpSendControl d text close) =
    (abs (apply_op reg (OpSendControl d text close)).1,
     (apply_op reg (OpSendControl d text close)).2).
Proof.
  intros Hc. pose proof (refines_deregister reg d) as Hdereg. cbn [apply_op spec_op] in *.
  unfold ConnectionRegistry_send_control.
  destruct (by_device reg !! d) as [p|] eqn:Hd; [|by rewrite (abs_lookup_None _ _ Hd)].
  destruct (dev_lookup _ _ _ Hc Hd) as (c & Hp & Ha & _).
  pose proof (send_to_coherent reg p (OControl text close) Hc) as Hcoh.
  rewrite Ha in *. unfold send_to in *. rewrite Hp in *.
  pose proof (try_send_accepts c (OControl text close)) as Hacc.
  pose proof (try_send_refused c (OControl text close)) as Href.
  pose proof (abs_update_one _ d p c (try_send c (OControl text close)).1 Hc Hd Hp) as Habs.
  destruct (try_send c (OControl text close)) as [c' r]. cbn [fst snd] in *.
  destruct (accepts c); rewrite Hacc; cbn [negb andb fst snd].
  - split; [done|]. by rewrite Habs.
  - rewrite Href in * by done. rewrite insert_id in * by done.
    assert (set_heap (heap reg) reg = reg) as Hreg by by destruct reg.
    rewrite Hreg in *. destruct close; [|done]. cbn [fst snd].
    specialize (Hdereg (c_id c) Hc). rewrite Z.eqb_refl in Hdereg. split.
    + by apply deregister_coherent.
    + destruct (ConnectionRegistry_deregister reg d (c_id c)) as [reg' b]. simpl in *.
      f_equal. exact (f_equal fst Hdereg).
Qed.

Lemma send_to_frame reg p m :
  by_device (send_to reg p m).1 = by_device reg ∧ next_id (send_to reg p m).1 = next_id reg.
Proof. unfold send_to. repeat case_match; done. Qed.

Lemma close_fold_frame reg l :
  coherent reg →
  coherent (foldl (λ r p, (send_to r p OClose).1) reg l) ∧
  next_id (foldl (λ r p, (send_to r p OClose).1) reg l) = next_id reg.
Proof.
  revert reg. induction l as [|p l IH]; intros reg Hc; [done|]. simpl.
  destruct (IH (send_to reg p OClose).1) as [H1 H2]; [by apply send_to_coherent|].
  split; [done|]. rewrite H2. apply send_to_frame.
Qed.

Lemma refines_close_all reg :
  coherent reg →
  coherent (apply_op reg OpCloseAll).1 ∧
  spec_op (abs reg) OpCloseAll = (abs (apply_op reg OpCloseAll).1, (apply_op reg OpCloseAll).2).
Proof.
  intros Hc. cbn [apply_op spec_op fst snd]. unfold ConnectionRegistry_close_all.
  destruct (close_fold_frame reg (map_iter (by_device reg)).*2 Hc) as [Hc' Hn].
  set (reg1 := foldl _ _ _) in *. split.
  - destruct Hc' as [_ _ _ Hids Hb Hq Hnn]. by split.
  - f_equal. apply spec_ext; [|done]. simpl. by rewrite fmap_empty.
Qed.

(** Counting a partition. *)
Lemma map_count_split3 {K} `{Countable K} alert s (m : gmap K Connection) :
  (map_count (λ c, on_shard s c && is_delivered alert c) m
   + map_count (λ c, on_shard s c && is_dropped alert c) m
   + map_count (λ c, on_shard s c && is_filtered alert c) m)%nat = map_count (on_shard s) m.
Proof.
  induction m as [|i c m Hi IH] using map_ind; [done|].
  rewrite !map_count_insert by done. unfold is_delivered, is_dropped, is_filtered in *.
  destruct (on_shard s c), (Alert_contains alert (c_location c)), (accepts c); simpl in *; lia.
Qed.

Lemma shard_count_abs reg s :
  coherent reg →
  ConnectionRegistry_shard_connection_count reg s = map_count (on_shard s) (sp_conns (abs reg)).
Proof.
  intros Hc. unfold ConnectionRegistry_shard_connection_count.
  destruct (by_shard reg !! s) as [m|] eqn:Hm.
  - transitivity (map_count (λ _, true) ((λ p, heap reg !!! p) <$> m)).
    { rewrite map_count_fmap. symmetry. exact (map_count_true m). }
    rewrite (shard_conns _ _ _ Hc Hm), map_count_filter.
    apply map_count_ext. intros c. by rewrite andb_true_r.
  - rewrite map_count_none; [done|]. by apply no_shard_conns.
Qed.

Lemma registry_spec_step reg op :
  coherent reg → next_id reg + 1 < 2 ^ 64 →
  coherent (apply_op reg op).1 ∧
  spec_op (abs reg) op = (abs (apply_op reg op).1, (apply_op reg op).2).
Proof.
  intros Hc Hlt. destruct op.
  - split; [|by apply refines_register]. cbn [apply_op].
    pose proof (register_coherent reg d shard loc Hc Hlt).
    by destruct (ConnectionRegistry_register reg d shard loc).
  - split; [|by apply refines_deregister]. cbn [apply_op].
    pose proof (deregister_coherent reg d conn_id Hc).
    by destruct (ConnectionRegistry_deregister reg d conn_id).
  - by apply refines_broadcast.
  - by apply refines_update_location.
  - by apply refines_send_control.
  - by apply refines_close_all.
Qed.

(** C4: The registry refines its specification. From a coherent registry, every
    operation (register, deregister, broadcast, location update, control
    message, close-all) leaves a coherent registry, has the effect of the
    abstract operation on the abstracted state, and returns the same answer;
    for a broadcast the three counts are exactly the numbers of the shard's
    connections that were delivered to, full or closed, and outside the
    circle. *)
Theorem registry_refines reg op :
  coherent reg → next_id reg + 1 < 2 ^ 64 →
  coherent (apply_op reg op).1 ∧
  spec_op (abs reg) op = (abs (apply_op reg op).1, (apply_op reg op).2).
Proof. apply registry_spec_step. Qed.

(** ** Histories

    An event is an operation, or a step of a writer task on its end of a
    channel. *)

Inductive RegEvent : Type :=
| EvOp (op : RegOp)
| EvRecv (p : nat)
| EvDropReceiver (p : nat).

Definition apply_event (reg : ConnectionRegistry) (e : RegEvent) : ConnectionRegistry :=
  match e with
  | EvOp op => (apply_op reg op).1
  | EvRecv p => (recv reg p).1
  | EvDropReceiver p => drop_receiver reg p
  end.

Lemma recv_coherent reg p : coherent reg → coherent (recv reg p).1.
Proof.
  intros Hc. unfold recv. destruct (heap reg !! p) as [c|] eqn:Hp; [|done].
  destruct (c_queue c) as [|m q] eqn:Hq; [done|]. cbn [fst].
  apply (coherent_update_one _ _ c); [done|done|done|].
  pose proof (coh_queue _ Hc p c Hp) as Hb. rewrite Hq in Hb. simpl in *. lia.
Qed.

Lemma drop_receiver_coherent reg p : coherent reg → coherent (drop_receiver reg p).
Proof.
  intros Hc. unfold drop_receiver. destruct (heap reg !! p) as [c|] eqn:Hp.
  - rewrite (alter_as_insert _ _ _ c) by done.
    apply (coherent_update_one _ _ c); done.
  - rewrite alter_missing by done. by destruct reg.
Qed.

Lemma next_id_event reg e :
  coherent reg → next_id reg + 1 < 2 ^ 64 →
  next_id reg ≤ next_id (apply_event reg e) ≤ next_id reg + 1.
Proof.
  intros Hc Hlt. destruct e as [op|p|p]; cbn [apply_event].
  - destruct (registry_spec_step reg op Hc Hlt) as [_ Hs].
    assert (next_id (apply_op reg op).1 = sp_next (spec_op (abs reg) op).1) as ->
      by (by rewrite Hs).
    destruct op; simpl; repeat case_match; simpl; lia.
  - unfold recv. repeat case_match; simpl; lia.
  - simpl. lia.
Qed.

(** Coherence is an invariant of every history. Starting from the empty
    registry, after any sequence of operations and writer-task steps (fewer
    than 2^64 - 1 of them, so connection identifiers do not wrap), the two
    indexes agree, each device has at most one connection, identifiers are
    unique and no queue holds more than 64 messages. *)
Theorem registry_always_coherent (es : list RegEvent) :
  Z.of_nat (length es) < 2 ^ 64 - 1 →
  coherent (foldl apply_event ConnectionRegistry_new es).
Proof.
  intros Hlen.
  assert (∀ es reg, coherent reg → next_id reg + Z.of_nat (length es) < 2 ^ 64 - 1 →
    coherent (foldl apply_event reg es)) as H.
  { clear. induction es as [|e es IH]; intros reg Hc Hn; [done|]. simpl in Hn |- *.
    pose proof (next_id_event reg e Hc ltac:(lia)).
    apply IH; [|lia]. destruct e as [op|p|p]; simpl.
    - apply registry_spec_step; [done|lia].
    - by apply recv_coherent.
    - by apply drop_receiver_coherent. }
  apply H; [apply coherent_new|simpl; lia].
Qed.

Lemma stale_deregister reg d s1 l1 reg1 rg1 s2 l2 reg2 rg2 :
  coherent reg → next_id reg + 2 < 2 ^ 64 →
  ConnectionRegistry_register reg d s1 l1 = (reg1, rg1) →
  ConnectionRegistry_register reg1 d s2 l2 = (reg2, rg2) →
  ConnectionRegistry_deregister reg2 d (rg_conn_id rg1) = (reg2, false) ∧
  ConnectionRegistry_sender_for reg2 d (rg_conn_id rg1) = None ∧
  ConnectionRegistry_sender_for reg2 d (rg_conn_id rg2) = Some (rg_receiver rg2).
Proof.
  intros Hc Hlt H1 H2. pose proof (coh_next _ Hc) as H0.
  pose proof (register_coherent reg d s1 l1 Hc ltac:(lia)) as Hc1. rewrite H1 in Hc1. simpl in Hc1.
  apply register_effect in H1 as (-> & _ & _ & Hn1 & _); [|done].
  rewrite u64_wrap_small in * by lia.
  pose proof (register_coherent reg1 d s2 l2 Hc1 ltac:(lia)) as Hc2. rewrite H2 in Hc2. simpl in Hc2.
  apply register_effect in H2 as (-> & Hb2 & Hh2 & _ & _); [|done].
  rewrite Hn1, u64_wrap_small in * by lia. cbn [rg_conn_id rg_receiver].
  set (p := fresh (dom (heap reg1))) in *.
  assert (Hd : by_device reg2 !! d = Some p) by (by rewrite Hb2, lookup_insert_eq).
  assert (Hp : heap reg2 !! p = Some (MkConn (next_id reg + 1 + 1) s2 l2 [] true))
    by (by rewrite Hh2, lookup_insert_eq).
  split_and!.
  - destruct (ConnectionRegistry_deregister reg2 d (next_id reg + 1)) as [reg3 b] eqn:E.
    apply deregister_effect in E as [(_ & (q & t & Hq & Hm) & _)|(-> & -> & _)]; [|done|done].
    rewrite Hd in Hq. injection Hq as <-. unfold meta_at in Hm. rewrite Hp in Hm.
    injection Hm. lia.
  - unfold ConnectionRegistry_sender_for. rewrite Hd. simpl. rewrite Hp. simpl.
    case_match; [lia|done].
  - unfold ConnectionRegistry_sender_for. rewrite Hd. simpl. rewrite Hp. simpl.
    by rewrite Z.eqb_refl.
Qed.

(** The clean-up of an old connection never touches a newer one: once a device
    has registered again, deregistering it with the identifier of an earlier
    connection finds nothing to remove and changes nothing. *)
Theorem stale_deregister_is_noop reg d s1 l1 reg1 rg1 s2 l2 reg2 rg2 :
  coherent reg → next_id reg + 2 < 2 ^ 64 →
  ConnectionRegistry_register reg d s1 l1 = (reg1, rg1) →
  ConnectionRegistry_register reg1 d s2 l2 = (reg2, rg2) →
  ConnectionRegistry_deregister reg2 d (rg_conn_id rg1) = (reg2, false) ∧
  ConnectionRegistry_sender_for reg2 d (rg_conn_id rg1) = None ∧
  ConnectionRegistry_sender_for reg2 d (rg_conn_id rg2) = Some (rg_receiver rg2).
Proof. apply stale_deregister. Qed.

(** Broadcast conserves and isolates. Every connection of the shard is
    counted exactly once, as delivered, dropped or filtered out; connections of
    other shards are untouched; and a connection of the shard that is inside
    the circle and has room gets exactly the payload, at the end of its
    queue. *)
Theorem broadcast_conservation reg s alert payload reg' r :
  coherent reg →
  ConnectionRegistry_broadcast_to_shard reg s alert payload = (reg', r) →
  br_delivered r + br_dropped r + br_filtered_out r
    = Z.of_nat (ConnectionRegistry_shard_connection_count reg s) ∧
  ∀ d c, sp_conns (abs reg) !! d = Some c →
    (c_shard c ≠ s → sp_conns (abs reg') !! d = Some c) ∧
    (c_shard c = s → is_delivered alert c = true →
       ∃ c', sp_conns (abs reg') !! d = Some c' ∧ c_queue c' = c_queue c ++ [OAlert payload]) ∧
    (c_shard c = s → is_delivered alert c = false → sp_conns (abs reg') !! d = Some c).
Proof.
  intros Hc Hb. destruct (refines_broadcast reg s alert payload Hc) as [_ Href].
  cbn [apply_op] in Href. rewrite Hb in Href. cbn [fst snd spec_op] in Href.
  pose proof (f_equal snd Href) as Hr. pose proof (f_equal (sp_conns ∘ fst) Href) as Hm.
  cbn [compose fst snd sp_conns] in Hr, Hm. injection Hr as Hr. split.
  - rewrite <- Hr. cbn [br_delivered br_dropped br_filtered_out].
    rewrite <- !(Nat2Z.inj_add). f_equal. rewrite map_count_split3, (shard_count_abs _ _ Hc).
    done.
  - intros d c Hd. assert (sp_conns (abs reg') !! d =
      Some (if on_shard s c then deliver alert payload c else c)) as ->.
    { change ((sp_conns ∘ fst) (abs reg', OutBroadcast r)) with (sp_conns (abs reg')) in Hm.
      rewrite <- Hm. cbn. rewrite lookup_fmap. cbn in Hd. by rewrite Hd. }
    unfold on_shard, deliver, is_delivered. split_and!; intros Hs.
    + by rewrite bool_decide_eq_false_2.
    + rewrite bool_decide_eq_true_2 by done. intros [-> Ha]%andb_prop.
      eexists. split; [done|]. unfold try_send, accepts, CONNECTION_CHANNEL_CAPACITY in *.
      apply andb_prop in Ha as [-> Hf]. simpl. by destruct (64 <=? _).
    + rewrite bool_decide_eq_true_2 by done. intros Hf.
      destruct (Alert_contains _ _); [|done]. by rewrite try_send_refused.
Qed.
End Refinement.

(** ** A concrete registry *)

Program Definition toy_map_order {A} : MapOrder Uuid A := {| map_iter := map_to_list |}.
Next Obligation. done. Qed.

Definition toy_alert : Alert :=
  MkAlert (uuid_of_N 1) toy_center (f64_of_Z 1000) Critical "flood" "move" 7.

(** Two devices on one shard, one on another. *)
Definition toy_reg1 : ConnectionRegistry :=
  (ConnectionRegistry_register ConnectionRegistry_new (uuid_of_N 1) "u4pr" toy_center).1.
Definition toy_reg2 : ConnectionRegistry :=
  (ConnectionRegistry_register toy_reg1 (uuid_of_N 2) "u4pr"
     (MkLocation (f64_of_Z 80) (f64_of_Z 10))).1.
Definition toy_registry : ConnectionRegistry :=
  (ConnectionRegistry_register toy_reg2 (uuid_of_N 3) "u4px" toy_center).1.

Lemma toy_registry_coherent : coherent toy_registry.
Proof.
  repeat (apply register_coherent; [|by vm_compute]). apply coherent_new.
Qed.

Lemma registry_refines_witness :
  @spec_op toy_libm (abs toy_registry) (OpBroadcast "u4pr" toy_alert "p") =
    (abs (@apply_op toy_libm toy_map_order toy_registry (OpBroadcast "u4pr" toy_alert "p")).1,
     OutBroadcast (MkBroadcast 1 0 1)).
Proof.
  destruct (@registry_refines toy_libm toy_map_order toy_registry
    (OpBroadcast "u4pr" toy_alert "p")) as [_ ->].
  - apply toy_registry_coherent.
  - by vm_compute.
  - f_equal.
Defined.

Lemma registry_always_coherent_witness :
  coherent (foldl (@apply_event toy_libm toy_map_order) ConnectionRegistry_new
    [EvOp (OpRegister (uuid_of_N 1) "u4pr" toy_center); EvDropReceiver 0]).
Proof.
  apply (@registry_always_coherent toy_libm toy_map_order). by vm_compute.
Defined.

Lemma stale_deregister_is_noop_witness :
  ∃ reg2, ConnectionRegistry_deregister reg2 (uuid_of_N 1) 4 = (reg2, false) ∧
    ConnectionRegistry_sender_for reg2 (uuid_of_N 1) 5 = Some 4%nat.
Proof.
  set (r1 := ConnectionRegistry_register toy_registry (uuid_of_N 1) "u4pr" toy_center).
  set (r2 := ConnectionRegistry_register r1.1 (uuid_of_N 1) "u4px" toy_center).
  exists r2.1.
  destruct (stale_deregister_is_noop toy_registry (uuid_of_N 1) "u4pr" toy_center
    r1.1 r1.2 "u4px" toy_center r2.1 r2.2) as (H1 & _ & H3);
    [apply toy_registry_coherent|by vm_compute|apply surjective_pairing..|].
  split; [exact H1|exact H3].
Defined.

Lemma broadcast_conservation_witness :
  br_delivered (@ConnectionRegistry_broadcast_to_shard toy_libm toy_map_order toy_registry "u4pr"
    toy_alert "p").2 = 1 ∧
  ∃ r, (@ConnectionRegistry_broadcast_to_shard toy_libm toy_map_order toy_registry "u4pr"
    toy_alert "p").2 = r ∧
    br_delivered r + br_dropped r + br_filtered_out r = 2.
Proof.
  split; [vm_compute; reflexivity|]. eexists. split; [reflexivity|].
  edestruct (@broadcast_conservation toy_libm toy_map_order toy_registry "u4pr" toy_alert "p")
    as [H _]; [apply toy_registry_coherent|apply surjective_pairing|].
  exact H.
Defined.
