(* ===== verification/RegistryRace.v ===== *)
(** * Concurrent registrations

    [ConnectionRegistry::register] (crates/fanout-worker/src/connection_registry.rs)
    is not one atomic step: it updates the device index, then the shard of the
    replaced connection, then its own shard. This file cuts it at those points
    into the micro-steps another thread can run between, shows that an
    undisturbed run of the micro-steps is the operation of [Registry], and
    exhibits an interleaving of two registrations of one device that leaves the
    indexes in disagreement, and an entry behind when both are gone. *)

From S2P Require Import Prelude F64 Str Errors Geo Domain Registry.

Open Scope Z_scope.

(** Where a thread inside [register] is: nothing done; device index updated
    (the connection it replaced, its own); replaced connection removed; done. *)
Inductive RegPc : Type :=
| AtStart
| AtIndexed (previous : option nat) (p : nat)
| AtRemoved (p : nat)
| AtDone (p : nat).

Record RegThread : Type := MkThread {
  th_device : Uuid;
  th_shard : string;
  th_location : Location;
  th_pc : RegPc;
}.

Definition at_pc (t : RegThread) (pc : RegPc) : RegThread :=
  MkThread (th_device t) (th_shard t) (th_location t) pc.

(** One micro-step of a thread. *)
Definition thread_step (reg : ConnectionRegistry) (t : RegThread)
    : ConnectionRegistry * RegThread :=
  match th_pc t with
  | AtStart =>
    let conn_id := u64_wrap (next_id reg + 1) in
    let p := fresh (dom (heap reg)) in
    (MkRegistry (<[p := MkConn conn_id (th_shard t) (th_location t) [] true]> (heap reg))
       (<[th_device t := p]> (by_device reg)) (by_shard reg) conn_id,
     at_pc t (AtIndexed (by_device reg !! th_device t) p))
  | AtIndexed (Some previous) p =>
    let reg1 := (send_to reg previous OClose).1 in
    (match heap reg1 !! previous with
     | Some pc => shard_remove_if reg1 (c_shard pc) (th_device t) (c_id pc)
     | None => reg1
     end, at_pc t (AtRemoved p))
  | AtIndexed None p => (reg, at_pc t (AtRemoved p))
  | AtRemoved p =>
    let shard := default ∅ (by_shard reg !! th_shard t) in
    (set_by_shard (<[th_shard t := <[th_device t := p]> shard]> (by_shard reg)) reg,
     at_pc t (AtDone p))
  | AtDone p => (reg, t)
  end.

(** A pool of threads; any of them may take the next step. *)
Inductive pool_step : ConnectionRegistry * list RegThread → ConnectionRegistry * list RegThread → Prop :=
| pool_step_at reg ts i t reg' t' :
    ts !! i = Some t → thread_step reg t = (reg', t') →
    pool_step (reg, ts) (reg', <[i := t']> ts).

Definition all_done (ts : list RegThread) : Prop :=
  ∀ t, t ∈ ts → ∃ p, th_pc t = AtDone p.

(** A schedule picks the thread of each step. *)
Fixpoint run_schedule (st : ConnectionRegistry * list RegThread) (sched : list nat)
    : ConnectionRegistry * list RegThread :=
  match sched with
  | [] => st
  | i :: sched =>
    match st.2 !! i with
    | Some t => let '(reg', t') := thread_step st.1 t in
                run_schedule (reg', <[i := t']> st.2) sched
    | None => run_schedule st sched
    end
  end.

Lemma run_schedule_steps st sched : rtc pool_step st (run_schedule st sched).
Proof.
  revert st. induction sched as [|i sched IH]; intros [reg ts]; simpl; [done|].
  destruct (ts !! i) as [t|] eqn:Hi; [|apply IH].
  destruct (thread_step reg t) as [reg' t'] eqn:Ht.
  eapply rtc_l; [by eapply pool_step_at|]. apply IH.
Qed.

(** The micro-steps are the operation: a thread that runs its three steps
    undisturbed computes exactly what [ConnectionRegistry::register] computes,
    its pointer included. *)
Theorem undisturbed_register reg d s loc :
  run_schedule (reg, [MkThread d s loc AtStart]) [0; 0; 0]%nat =
    ((ConnectionRegistry_register reg d s loc).1,
     [MkThread d s loc (AtDone (rg_receiver (ConnectionRegistry_register reg d s loc).2))]).
Proof.
  unfold ConnectionRegistry_register. cbn [run_schedule snd fst lookup list_lookup].
  unfold thread_step at 1; cbn [th_pc th_device th_shard th_location at_pc].
  cbn [run_schedule snd fst lookup list_lookup insert list_insert].
  unfold thread_step at 1; cbn [th_pc th_device th_shard th_location at_pc].
  destruct (by_device reg !! d) as [q|]; cbn [run_schedule snd fst lookup list_lookup insert list_insert];
    unfold thread_step; cbn [th_pc th_device th_shard th_location at_pc snd fst];
    reflexivity.
Qed.

(** Two threads registering one device on one shard. The first is overtaken
    after it updated the device index and before it entered its shard. *)
Definition racing_threads (d : Uuid) (s : string) (l1 l2 : Location) : list RegThread :=
  [MkThread d s l1 AtStart; MkThread d s l2 AtStart].

Definition overtaking_schedule : list nat := [0; 0; 1; 1; 1; 0]%nat.

(** A connection that its shard's index does not lead to is out of reach of
    every broadcast to that shard. *)
Lemma broadcast_misses {L : Libm} {MO : MapOrder Uuid nat} reg s alert payload p :
  (∀ d, in_shard reg s d ≠ Some p) →
  heap (ConnectionRegistry_broadcast_to_shard reg s alert payload).1 !! p = heap reg !! p.
Proof.
  intros Hp. unfold ConnectionRegistry_broadcast_to_shard.
  destruct (by_shard reg !! s) as [m|] eqn:Hm; [|done].
  assert (p ∉ (map_iter m).*2) as Hnin.
  { rewrite map_iter_perm, list_elem_of_fmap. intros ([d q] & -> & Hq%elem_of_map_to_list).
    apply (Hp d). unfold in_shard. by rewrite Hm. }
  assert (∀ h r, (foldl (broadcast_one alert payload) (h, r) (map_iter m).*2).1 !! p = h !! p) as H.
  { induction (map_iter m).*2 as [|q l IH]; intros h r; [done|].
    apply not_elem_of_cons in Hnin as [Hne Hl]. cbn [foldl].
    destruct (broadcast_one alert payload (h, r) q) as [h' r'] eqn:E.
    rewrite IH by done. unfold broadcast_one in E.
    repeat case_match; simplify_eq; by rewrite ?lookup_insert_ne by done. }
  specialize (H (heap reg) BroadcastResult_default).
  by destruct (foldl _ _ _) as [h r].
Qed.

(** The state the overtaking schedule ends in. *)
Definition raced_registry (d : Uuid) (s : string) (l1 l2 : Location) : ConnectionRegistry :=
  MkRegistry (<[0%nat := MkConn 1 s l1 [OClose] true]>
                (<[1%nat := MkConn 2 s l2 [] true]> {[0%nat := MkConn 1 s l1 [] true]}))
             (<[d := 1%nat]> {[d := 0%nat]})
             (<[s := <[d := 0%nat]> {[d := 1%nat]}]> {[s := {[d := 1%nat]}]}) 2.

Lemma run_schedule_cons reg ts i sched t reg' t' :
  ts !! i = Some t → thread_step reg t = (reg', t') →
  run_schedule (reg, ts) (i :: sched) = run_schedule (reg', <[i := t']> ts) sched.
Proof. intros Hi Ht. cbn [run_schedule fst snd]. by rewrite Hi, Ht. Qed.

Lemma overtaking_run d s l1 l2 :
  run_schedule (ConnectionRegistry_new, racing_threads d s l1 l2) overtaking_schedule =
    (raced_registry d s l1 l2, [MkThread d s l1 (AtDone 0); MkThread d s l2 (AtDone 1)]).
Proof.
  set (c1 := MkConn 1 s l1 [] true). set (c2 := MkConn 2 s l2 [] true).
  set (dev := <[d := 1%nat]> {[d := 0%nat]} : gmap Uuid nat).
  set (h2 := <[1%nat := c2]> {[0%nat := c1]} : gmap nat Connection).
  set (h3 := <[0%nat := MkConn 1 s l1 [OClose] true]> h2).
  unfold racing_threads, overtaking_schedule.
  rewrite (run_schedule_cons _ _ 0 _ (MkThread d s l1 AtStart)
    (MkRegistry {[0%nat := c1]} {[d := 0%nat]} ∅ 1)
    (MkThread d s l1 (AtIndexed None 0))) by reflexivity.
  rewrite (run_schedule_cons _ _ 0 _ (MkThread d s l1 (AtIndexed None 0))
    (MkRegistry {[0%nat := c1]} {[d := 0%nat]} ∅ 1)
    (MkThread d s l1 (AtRemoved 0))) by reflexivity.
  rewrite (run_schedule_cons _ _ 1 _ (MkThread d s l2 AtStart) (MkRegistry h2 dev ∅ 2)
    (MkThread d s l2 (AtIndexed (Some 0%nat) 1))).
  2: reflexivity.
  2:{ unfold thread_step; cbn [th_pc th_device by_device]. by rewrite lookup_singleton_eq. }
  rewrite (run_schedule_cons _ _ 1 _ (MkThread d s l2 (AtIndexed (Some 0%nat) 1))
    (MkRegistry h3 dev ∅ 2) (MkThread d s l2 (AtRemoved 1))) by reflexivity.
  rewrite (run_schedule_cons _ _ 1 _ (MkThread d s l2 (AtRemoved 1))
    (MkRegistry h3 dev {[s := {[d := 1%nat]}]} 2) (MkThread d s l2 (AtDone 1))) by reflexivity.
  rewrite (run_schedule_cons _ _ 0 _ (MkThread d s l1 (AtRemoved 0)) (raced_registry d s l1 l2)
    (MkThread d s l1 (AtDone 0))).
  - reflexivity.
  - reflexivity.
  - unfold thread_step; cbn [th_pc th_shard th_device by_shard]. by rewrite lookup_singleton_eq.
Qed.

(** C37: Two concurrent registrations of one device can leave the registry
    incoherent. Both threads finish; the device index holds the second
    connection while the shard index holds the first, which was told to close;
    no broadcast to the shard reaches the second connection, and the clean-up
    of the first does not repair it. After the clean-up of the second the device
    index is empty, and the entry of the first stays behind in its shard. *)
Theorem concurrent_register_race d s l1 l2 :
  ∃ reg ts,
    rtc pool_step (ConnectionRegistry_new, racing_threads d s l1 l2) (reg, ts) ∧
    all_done ts ∧ by_device reg !! d = Some 1%nat ∧ in_shard reg s d = Some 0%nat ∧
    ~ coherent reg ∧
    (∀ L MO alert payload,
       heap (@ConnectionRegistry_broadcast_to_shard L MO reg s alert payload).1 !! 1%nat
       = heap reg !! 1%nat) ∧
    ConnectionRegistry_deregister reg d 1 = (reg, false) ∧
    ∃ reg', ConnectionRegistry_deregister reg d 2 = (reg', true) ∧
      by_device reg' = ∅ ∧ in_shard reg' s d = Some 0%nat.
Proof.
  exists (raced_registry d s l1 l2), [MkThread d s l1 (AtDone 0); MkThread d s l2 (AtDone 1)].
  assert (Hd : by_device (raced_registry d s l1 l2) !! d = Some 1%nat)
    by (by simpl; rewrite lookup_insert_eq).
  assert (Hs : in_shard (raced_registry d s l1 l2) s d = Some 0%nat)
    by (by unfold in_shard; simpl; rewrite lookup_insert_eq; simpl; rewrite lookup_insert_eq).
  split_and!.
  - rewrite <- overtaking_run. apply run_schedule_steps.
  - intros t [->|[->|[]%not_elem_of_nil]%elem_of_cons]%elem_of_cons; simpl; eauto.
  - done.
  - done.
  - intros Hc. apply (coh_shard _ Hc) in Hs as [Hs _]. congruence.
  - intros. apply broadcast_misses. intros e. unfold in_shard; simpl. rewrite lookup_insert_eq. simpl.
    destruct (decide (e = d)) as [->|]; [by rewrite lookup_insert_eq|].
    by rewrite lookup_insert_ne, lookup_singleton_ne.
  - unfold ConnectionRegistry_deregister, remove_if. by rewrite Hd.
  - unfold ConnectionRegistry_deregister, remove_if. rewrite Hd. cbn. eexists. split; [done|].
    rewrite (proj1 (proj2 (shard_remove_if_frame _ _ _ _))), in_shard_remove_if. cbn. rewrite insert_singleton_eq, delete_singleton_eq.
    split; [done|]. unfold in_shard in Hs |- *. cbn in *. rewrite Hs. cbn. by rewrite decide_False by naive_solver.
Qed.
