(* ===== verification/RegistrySteps.v ===== *)
(** * The registry under real threads

    [Registry] takes each operation of the connection registry as one step. This
    file runs the operations that move index entries, [register], [deregister] and
    [send_control] (crates/fanout-worker/src/connection_registry.rs), at the grain
    of the concurrent maps: an operation is cut between its accesses to the two
    indexes, and the steps of any number of threads interleave. The undisturbed runs
    are the operations of [Registry]; the theorem says which entries can stay behind.

    Taking a connection's number and telling the replaced connection to close go with
    the access to an index next to them: neither is read by another thread's use of
    the indexes. [close_all], which clears both indexes at shutdown, is not among the
    operations. *)

From S2P Require Import Prelude F64 Str Errors Geo Domain Registry RegistryRace.

Open Scope Z_scope.

(** A thread: a connection's handler, inside [register] or holding its connection
    ([AtDone]); a [deregister] that removed [p] from the device index and has its
    shard ahead; a [send_control], before it looks the device up, holding the
    connection it found, or refused and about to drop it; or nothing left to do. *)
Inductive Thread : Type :=
| Handler (t : RegThread)
| Cleaning (d : Uuid) (p : nat)
| Control (d : Uuid) (text : string) (close : bool)
| Sending (d : Uuid) (p : nat) (text : string) (close : bool)
| Dropping (d : Uuid) (p : nat)
| Over.

(** The first step of [deregister(d, id)], for the connection [p] of that id. *)
Definition deregister_start (reg : ConnectionRegistry) (d : Uuid) (p : nat) : ConnectionRegistry * Thread :=
  match heap reg !! p with
  | Some c =>
    let '(m, removed) := remove_if (heap reg) (by_device reg) d (c_id c) in
    (set_by_device m reg, match removed with Some q => Cleaning d q | None => Over end)
  | None => (reg, Over)
  end.

Definition micro_step (reg : ConnectionRegistry) (T : Thread) : ConnectionRegistry * Thread :=
  match T with
  | Handler t =>
    match th_pc t with
    | AtDone p => deregister_start reg (th_device t) p
    | _ => let '(reg', t') := thread_step reg t in (reg', Handler t')
    end
  | Cleaning d p =>
    (match heap reg !! p with Some c => shard_remove_if reg (c_shard c) d (c_id c) | None => reg end, Over)
  | Control d text close =>
    (reg, match by_device reg !! d with Some p => Sending d p text close | None => Over end)
  | Sending d p text close =>
    let '(reg', sent) := send_to reg p (OControl text close) in
    (reg', if negb (is_ok sent) && close then Dropping d p else Over)
  | Dropping d p => deregister_start reg d p
  | Over => (reg, Over)
  end.

(** Time passes by a step of a thread, or by a broadcast, a writer or a location
    update, which change a connection's queue and position and no index. *)
Inductive Tick : Type :=
| Turn (i : nat)
| Traffic (p : nat) (l : Location) (queue : list Outbound) (rx_open : bool).

Definition State : Type := ConnectionRegistry * list Thread.

Definition tick_step (k : Tick) (st : State) : State :=
  match k with
  | Turn i =>
    match st.2 !! i with
    | Some T => let '(reg', T') := micro_step st.1 T in (reg', <[i := T']> st.2)
    | None => st
    end
  | Traffic p l q o =>
    (set_heap (alter (λ c, MkConn (c_id c) (c_shard c) l q o) p (heap st.1)) st.1, st.2)
  end.

Definition run_ticks (ks : list Tick) (st : State) : State := foldl (λ st k, tick_step k st) st ks.

(** ** Undisturbed operations *)

(** [deregister] alone. *)
Lemma undisturbed_deregister reg t p c :
  th_pc t = AtDone p → heap reg !! p = Some c →
  run_ticks [Turn 0; Turn 0] (reg, [Handler t]) =
    ((ConnectionRegistry_deregister reg (th_device t) (c_id c)).1, [Over]).
Proof.
  intros Hpc Hp. destruct t as [d s l pc]; cbn in Hpc; subst pc. unfold run_ticks. cbn.
  unfold deregister_start, ConnectionRegistry_deregister, remove_if. rewrite Hp.
  destruct reg as [h m bs n]. cbn in *. destruct (m !! d) as [q|] eqn:Hq; [|done].
  destruct (h !! q) as [cq|] eqn:Hhq; cbn; [|done].
  destruct (Z.eqb_spec (c_id cq) (c_id c)) as [He|He]; cbn; [|done]. by rewrite Hhq, He.
Qed.

(** [send_control] alone. *)
Lemma undisturbed_control {L : Libm} {MO : MapOrder Uuid nat} reg d text close :
  coherent reg →
  run_ticks [Turn 0; Turn 0; Turn 0; Turn 0] (reg, [Control d text close]) =
    ((ConnectionRegistry_send_control reg d text close).1, [Over]).
Proof.
  intros Hc. unfold run_ticks, ConnectionRegistry_send_control. cbn.
  destruct (by_device reg !! d) as [p|] eqn:Hd; cbn; [|done].
  destruct (dev_lookup _ _ _ Hc Hd) as (c & Hp & _). destruct (send_to reg p (OControl text close)) as [reg1 sent] eqn:Hs.
  cbn. destruct (negb (is_ok sent) && close) eqn:Hx; cbn; [|done].
  rewrite Hp. apply andb_prop in Hx as [Hx _]. unfold send_to in Hs. rewrite Hp in Hs.
  destruct (try_send c _) as [c' r] eqn:Ht. injection Hs as <- <-.
  assert (c' = c) as ->.
  { unfold try_send in Ht. repeat case_match; by simplify_eq. }
  rewrite insert_id by done. unfold deregister_start, ConnectionRegistry_deregister, remove_if. cbn. rewrite Hp, Hd. cbn.
  rewrite Hp. cbn. rewrite Z.eqb_refl. cbn. by rewrite Hp.
Qed.

(** ** Who owns an entry *)

(** The connection a handler has put into the device index and not yet taken out. *)
Definition owner (T : Thread) : option (Uuid * string * nat) :=
  match T with
  | Handler t =>
    match th_pc t with
    | AtStart => None
    | AtIndexed _ p | AtRemoved p | AtDone p => Some (th_device t, th_shard t, p)
    end
  | _ => None
  end.

(** The handler is inside [register], past the device index. *)
Definition entering (T : Thread) : option (Uuid * nat) :=
  match T with
  | Handler t =>
    match th_pc t with AtIndexed _ p | AtRemoved p => Some (th_device t, p) | _ => None end
  | _ => None
  end.

(** The connection the thread is about to take out of its shard. *)
Definition removes (T : Thread) : option (Uuid * nat) :=
  match T with
  | Handler t => match th_pc t with AtIndexed (Some q) _ => Some (th_device t, q) | _ => None end
  | Cleaning d p => Some (d, p)
  | _ => None
  end.

Definition is_start (T : Thread) : bool :=
  match T with Handler t => match th_pc t with AtStart => true | _ => false end | _ => false end.
Definition starts (ts : list Thread) : nat := length (filter (λ T, is_start T = true) ts).

(** While a thread registers a connection of a device, no other thread registers
    one, or drops the one it found, of the same device. *)
Definition apart (ts : list Thread) : Prop :=
  ∀ i j T U d p q, ts !! i = Some T → ts !! j = Some U → i ≠ j → entering T = Some (d, p) →
    entering U ≠ Some (d, q) ∧ U ≠ Dropping d q.

(** Every entry of the device index belongs to a thread, connections have an owner
    each, and their numbers are unused. *)
Record owned (reg : ConnectionRegistry) (ts : list Thread) : Prop := MkOwned {
  ow_next : 0 ≤ next_id reg ∧ next_id reg + Z.of_nat (starts ts) < 2 ^ 64;
  ow_bound p i s : meta_at reg p = Some (i, s) → 1 ≤ i ≤ next_id reg;
  ow_ids p q i s t : meta_at reg p = Some (i, s) → meta_at reg q = Some (i, t) → p = q;
  ow_dev d p : by_device reg !! d = Some p → ∃ j T s, ts !! j = Some T ∧ owner T = Some (d, s, p);
  ow_live j T d s p : ts !! j = Some T → owner T = Some (d, s, p) → ∃ i, meta_at reg p = Some (i, s);
  ow_own j k T U d s e t p : ts !! j = Some T → ts !! k = Some U →
    owner T = Some (d, s, p) → owner U = Some (e, t, p) → j = k;
  ow_shard s d p : in_shard reg s d = Some p → ∃ i, meta_at reg p = Some (i, s);
}.

Lemma starts_insert ts i T T' :
  ts !! i = Some T →
  (starts (<[i := T']> ts) + (if is_start T then 1 else 0) = starts ts + (if is_start T' then 1 else 0))%nat.
Proof.
  unfold starts. revert i. induction ts as [|U ts IH]; intros [|i]; [done..| |].
  - change (<[0%nat:=T']> (U :: ts)) with (T' :: ts). intros [= ->]. rewrite !filter_cons.
    destruct (is_start T), (is_start T'); repeat case_decide; cbn [length]; done || lia.
  - change (<[S i:=T']> (U :: ts)) with (U :: <[i:=T']> ts). intros Hi. specialize (IH i Hi).
    rewrite !filter_cons. case_decide; cbn [length]; lia.
Qed.

(** A step that adds no connection and gives entries up. *)
Lemma owned_step reg reg' ts i T T' :
  owned reg ts → ts !! i = Some T → next_id reg' = next_id reg → is_start T' = false →
  (∀ p, meta_at reg' p = meta_at reg p) →
  (∀ d p, by_device reg' !! d = Some p → by_device reg !! d = Some p) →
  (∀ s d p, in_shard reg' s d = Some p → in_shard reg s d = Some p ∨ ∃ i, meta_at reg p = Some (i, s)) →
  owner T' = owner T ∨
    (owner T' = None ∧ ∀ d s p e, owner T = Some (d, s, p) → by_device reg' !! e ≠ Some p) →
  owned reg' (<[i := T']> ts).
Proof.
  intros [Hn Hb Hids Hdev Hl Hown Hsh] Hi Hn' Hst Hm Hd Hs Ho. pose proof (starts_insert ts i T T' Hi) as Hc.
  rewrite Hst in Hc.
  assert (Hback : ∀ j U x, <[i := T']> ts !! j = Some U → owner U = Some x →
    ∃ U0, ts !! j = Some U0 ∧ owner U0 = Some x).
  { intros j U x [(<- & <- & _)|[_ HU]]%list_lookup_insert_Some HU'; [|by exists U].
    exists T. destruct Ho as [He|[He _]]; [by rewrite <- He|by rewrite He in HU']. }
  split.
  - rewrite Hn'. lia.
  - intros p j s. rewrite Hm, Hn'. apply Hb.
  - intros p q j s t. rewrite !Hm. apply Hids.
  - intros d p Hp. pose proof (Hd _ _ Hp) as Hp0. destruct (Hdev _ _ Hp0) as (j & U & s & Hj & HU).
    destruct (decide (j = i)) as [->|Hne].
    + rewrite Hi in Hj. injection Hj as <-. destruct Ho as [He|[_ He]]; [|by destruct (He _ _ _ d HU)].
      exists i, T', s. rewrite list_lookup_insert_eq by (by eapply lookup_lt_Some). by rewrite He.
    + exists j, U, s. by rewrite list_lookup_insert_ne.
  - intros j U d s p Hj HU. rewrite Hm. destruct (Hback _ _ _ Hj HU) as (U0 & Hj0 & HU0). by eapply Hl.
  - intros j k U V d s e t p Hj Hk HU HV. destruct (Hback _ _ _ Hj HU) as (U0 & Hj0 & HU0).
    destruct (Hback _ _ _ Hk HV) as (V0 & Hk0 & HV0). by eapply Hown.
  - intros s d p [Hp|Hp]%Hs; rewrite Hm; [by eapply Hsh|done].
Qed.

(** The first step of a registration. *)
Lemma owned_start reg ts i t :
  owned reg ts → ts !! i = Some (Handler t) → th_pc t = AtStart →
  let '(reg', t') := thread_step reg t in owned reg' (<[i := Handler t']> ts).
Proof.
  intros [[Hn0 Hn] Hb Hids Hdev Hl Hown Hsh] Hi Hpc. unfold thread_step. rewrite Hpc.
  set (p := fresh (dom (heap reg))). set (T' := Handler _).
  pose proof (starts_insert ts i _ T' Hi) as Hc. cbn in Hc. rewrite Hpc in Hc.
  rewrite (u64_wrap_small (next_id reg + 1)) by lia. pose proof (fresh_not_in_heap reg) as Hf. fold p in Hf.
  assert (Hm : ∀ (c : Connection) q x, meta_at reg q = Some x → meta <$> <[p := c]> (heap reg) !! q = Some x).
  { intros c q x Hq. rewrite lookup_insert_ne; [done|]. intros <-. by rewrite Hf in Hq. }
  assert (Hm' : ∀ c q j s, meta <$> <[p := c]> (heap reg) !! q = Some (j, s) →
    (q = p ∧ meta c = (j, s)) ∨ (q ≠ p ∧ meta_at reg q = Some (j, s))).
  { intros c q j s. destruct (decide (q = p)) as [->|]; [|rewrite lookup_insert_ne by done; by right].
    rewrite lookup_insert_eq. cbn. intros [= <- <-]. by left. }
  assert (Hold : ∀ j U d s q, <[i := T']> ts !! j = Some U → owner U = Some (d, s, q) →
    (j = i ∧ d = th_device t ∧ s = th_shard t ∧ q = p) ∨ (ts !! j = Some U ∧ q ≠ p)).
  { intros j U d s q [(<- & <- & _)|[_ HU]]%list_lookup_insert_Some HU'; [left; by simplify_eq/=|right].
    split; [done|]. intros ->. destruct (Hl _ _ _ _ _ HU HU') as [k Hk]. by rewrite Hf in Hk. }
  split; cbn [next_id by_device heap]; unfold meta_at; cbn [heap].
  - lia.
  - intros q j s [[-> [= <- <-]]|[_ Hq%Hb]]%Hm'; lia.
  - intros q r j s s' [[-> [= <- <-]]|[_ Hq]]%Hm' [[-> [= He]]|[_ Hr]]%Hm'; [done|..].
    + apply Hb in Hr. lia.
    + subst j. apply Hb in Hq. lia.
    + by eapply Hids.
  - intros d q [[<- <-]|[_ Hq]]%lookup_insert_Some.
    + exists i, T', (th_shard t). by rewrite list_lookup_insert_eq by (by eapply lookup_lt_Some).
    + destruct (Hdev _ _ Hq) as (j & U & s & Hj & HU). exists j, U, s.
      rewrite list_lookup_insert_ne; [done|]. intros <-. rewrite Hi in Hj. injection Hj as <-. cbn in HU.
      by rewrite Hpc in HU.
  - intros j U d s q Hj HU. destruct (Hold _ _ _ _ _ Hj HU) as [(-> & -> & -> & ->)|[Hj0 Hne]].
    + exists (next_id reg + 1). by rewrite lookup_insert_eq.
    + destruct (Hl _ _ _ _ _ Hj0 HU) as [k Hk]. exists k. by apply Hm.
  - intros j k U V d s e s' q Hj Hk HU HV. destruct (Hold _ _ _ _ _ Hj HU) as [(-> & _ & _ & ->)|[Hj0 Hne]];
      destruct (Hold _ _ _ _ _ Hk HV) as [(-> & _ & _ & ?)|[Hk0 Hne']]; [done..|]. by eapply Hown.
  - intros s d q Hq. destruct (Hsh s d q Hq) as [k Hk]. exists k. by apply Hm.
Qed.

(** *** What the steps do to the indexes *)

Lemma send_to_meta_at reg p m q : meta_at (send_to reg p m).1 q = meta_at reg q.
Proof.
  unfold send_to, meta_at. destruct (heap reg !! p) as [c|] eqn:Hp; [|done].
  pose proof (try_send_meta c m) as Hm. destruct (try_send c m) as [c' r]. cbn in *.
  by apply (meta_insert_same _ _ c).
Qed.

Lemma send_to_in_shard reg p m s d : in_shard (send_to reg p m).1 s d = in_shard reg s d.
Proof. unfold send_to, in_shard. by repeat case_match. Qed.

(** Removing a connection from its shard, when its device leads to it there. *)
Definition clean (reg : ConnectionRegistry) (d : Uuid) (p : nat) : ConnectionRegistry :=
  match heap reg !! p with Some c => shard_remove_if reg (c_shard c) d (c_id c) | None => reg end.

Lemma clean_effect reg d p :
  (∀ s e q, in_shard reg s e = Some q → ∃ i, meta_at reg q = Some (i, s)) →
  by_device (clean reg d p) = by_device reg ∧ next_id (clean reg d p) = next_id reg ∧
  heap (clean reg d p) = heap reg ∧
  (∀ s e q, in_shard (clean reg d p) s e = Some q → in_shard reg s e = Some q ∧ (e, q) ≠ (d, p)).
Proof.
  intros Hsh. unfold clean. destruct (heap reg !! p) as [c|] eqn:Hp.
  - destruct (shard_remove_if_frame reg (c_shard c) d (c_id c)) as (-> & -> & ->). split_and!; [done..|].
    intros s e q. rewrite in_shard_remove_if. case_decide as Hx; [done|]. intros Hq. split; [done|].
    intros [= -> ->]. apply Hx. destruct (Hsh _ _ _ Hq) as [i Hm]. unfold meta_at in Hm. rewrite Hp in Hm.
    injection Hm as _ Hs. rewrite Hs, Hq. cbn. by rewrite Hp.
  - split_and!; [done..|]. intros s e q Hq. split; [done|]. intros [= -> ->].
    destruct (Hsh _ _ _ Hq) as [i Hm]. unfold meta_at in Hm. by rewrite Hp in Hm.
Qed.

Lemma deregister_start_effect reg ts d p :
  owned reg ts → let '(reg', T') := deregister_start reg d p in
  heap reg' = heap reg ∧ by_shard reg' = by_shard reg ∧ next_id reg' = next_id reg ∧
  ((by_device reg !! d = Some p ∧ by_device reg' = delete d (by_device reg) ∧ T' = Cleaning d p) ∨
   (by_device reg !! d ≠ Some p ∧ by_device reg' = by_device reg ∧ T' = Over)).
Proof.
  intros Ho.
  assert (Hlive : ∀ e q, by_device reg !! e = Some q → ∃ c, heap reg !! q = Some c).
  { intros e q (j & T & s & Hj & HT)%(ow_dev _ _ Ho). destruct (ow_live _ _ Ho _ _ _ _ _ Hj HT) as [i Hm].
    unfold meta_at in Hm. destruct (heap reg !! q) as [c|]; [by exists c|done]. }
  unfold deregister_start, remove_if. destruct (heap reg !! p) as [c|] eqn:Hp.
  - destruct (by_device reg !! d) as [q|] eqn:Hd; cbn; [|split_and!; [done..|right; done]].
    destruct (Hlive _ _ Hd) as [c' Hq]. rewrite Hq. cbn. destruct (Z.eqb_spec (c_id c') (c_id c)) as [He|He]; cbn.
    + assert (q = p) as ->.
      { apply (ow_ids _ _ Ho q p (c_id c) (c_shard c') (c_shard c)); unfold meta_at; rewrite ?Hq, ?Hp; cbn;
          unfold meta; by rewrite ?He. }
      split_and!; [done..|]. by left.
    + split_and!; [done..|]. right. split_and!; [|done..]. intros [= ->]. rewrite Hp in Hq. by simplify_eq.
  - split_and!; [done..|]. right. split_and!; [|done..]. intros Hd. destruct (Hlive _ _ Hd) as [c Hc]. congruence.
Qed.

Lemma indexed_step reg t q p :
  th_pc t = AtIndexed (Some q) p →
  thread_step reg t = (clean (send_to reg q OClose).1 (th_device t) q, at_pc t (AtRemoved p)).
Proof. intros Hpc. unfold thread_step, clean. by rewrite Hpc. Qed.

Lemma removed_step reg t p :
  th_pc t = AtRemoved p → let '(reg', t') := thread_step reg t in
  t' = at_pc t (AtDone p) ∧ heap reg' = heap reg ∧ by_device reg' = by_device reg ∧ next_id reg' = next_id reg ∧
  (∀ s d, in_shard reg' s d = if decide (s = th_shard t ∧ d = th_device t) then Some p else in_shard reg s d).
Proof.
  intros Hpc. unfold thread_step. rewrite Hpc. split_and!; [done..|]. intros s d. unfold in_shard. cbn.
  destruct (decide (s = th_shard t)) as [->|Hs].
  - rewrite lookup_insert_eq. cbn. destruct (decide (d = th_device t)) as [->|Hd].
    + by rewrite lookup_insert_eq, decide_True.
    + rewrite lookup_insert_ne, decide_False by naive_solver. by destruct (by_shard reg !! th_shard t).
  - by rewrite lookup_insert_ne, decide_False by naive_solver.
Qed.

(** *** Ownership is kept *)

Lemma owned_deregister reg ts i T d p :
  owned reg ts → ts !! i = Some T → owner T = None ∨ (∃ s, owner T = Some (d, s, p)) →
  let '(reg', T') := deregister_start reg d p in owned reg' (<[i := T']> ts).
Proof.
  intros Ho Hi HT. pose proof (deregister_start_effect reg ts d p Ho) as He.
  destruct (deregister_start reg d p) as [reg' T']. destruct He as (Hh & Hs & Hn & Hd).
  assert (Hsub : ∀ e q, by_device reg' !! e = Some q → by_device reg !! e = Some q).
  { intros e q. destruct Hd as [(_ & -> & _)|(_ & -> & _)]; [|done]. by intros [_ ?]%lookup_delete_Some. }
  assert (HT' : owner T' = None ∧ is_start T' = false) by (destruct Hd as [(_ & _ & ->)|(_ & _ & ->)]; done).
  eapply (owned_step reg reg' ts i T T'); [done..|tauto|by unfold meta_at; rewrite Hh|done| |].
  - intros s e q. unfold in_shard. rewrite Hs. by left.
  - right. split; [tauto|]. intros e s q e' HTo Hq. destruct HT as [HT|[s' HT]]; [congruence|].
    rewrite HT in HTo. injection HTo as -> -> ->. pose proof (Hsub _ _ Hq) as Hq0.
    destruct (ow_dev _ _ Ho _ _ Hq0) as (j & U & s0 & Hj & HU).
    assert (j = i) as -> by (by eapply (ow_own _ _ Ho)). rewrite Hi in Hj. injection Hj as <-.
    rewrite HT in HU. injection HU as -> ->.
    destruct Hd as [(_ & Hd & _)|(Hd & _)]; [by rewrite Hd, lookup_delete_eq in Hq|done].
Qed.

Lemma owned_micro reg ts i T :
  owned reg ts → ts !! i = Some T →
  let '(reg', T') := micro_step reg T in owned reg' (<[i := T']> ts).
Proof.
  intros Ho Hi. destruct T as [t|d p|d text close|d p text close|d p|]; cbn [micro_step].
  - destruct (th_pc t) as [|[q|] p|p|p] eqn:Hpc.
    + pose proof (owned_start reg ts i t Ho Hi Hpc) as H. by destruct (thread_step reg t).
    + rewrite (indexed_step reg t q p Hpc). set (reg1 := (send_to reg q OClose).1).
      destruct (send_to_frame reg q OClose) as [Hd1 Hn1]. fold reg1 in Hd1, Hn1.
      destruct (clean_effect reg1 (th_device t) q) as (Hd & Hn & Hh & Hs).
      { intros s e r. unfold reg1. rewrite send_to_in_shard, send_to_meta_at. apply (ow_shard _ _ Ho). }
      eapply owned_step; [exact Ho|exact Hi|congruence|done| | | |].
      * intros r. transitivity (meta_at reg1 r); [unfold meta_at; by rewrite Hh|apply send_to_meta_at].
      * intros e r. by rewrite Hd, Hd1.
      * intros s e r [Hr _]%Hs. left. unfold reg1 in Hr. by rewrite send_to_in_shard in Hr.
      * left. cbn. by rewrite Hpc.
    + unfold thread_step. rewrite Hpc. eapply owned_step; [exact Ho|exact Hi|done..|by left|].
      left. cbn. by rewrite Hpc.
    + pose proof (removed_step reg t p Hpc) as He. destruct (thread_step reg t) as [reg' t'].
      destruct He as (-> & Hh & Hd & Hn & Hs).
      eapply owned_step; [exact Ho|exact Hi|done|done|by unfold meta_at; rewrite Hh|by rewrite Hd| |].
      * intros s e r. rewrite Hs. case_decide as Hx; [|by left]. intros [= <-]. right. destruct Hx as [-> _].
        eapply (ow_live _ _ Ho); [exact Hi|]. cbn. by rewrite Hpc.
      * left. cbn. by rewrite Hpc.
    + apply (owned_deregister reg ts i (Handler t)); [done|done|right]. exists (th_shard t). cbn. by rewrite Hpc.
  - fold (clean reg d p). destruct (clean_effect reg d p (ow_shard _ _ Ho)) as (Hd & Hn & Hh & Hs).
    eapply owned_step; [exact Ho|exact Hi|done|done|by unfold meta_at; rewrite Hh|by rewrite Hd| |by left].
    intros s e r [Hr _]%Hs. by left.
  - eapply owned_step; [exact Ho|exact Hi|done| |done|done|by left|]; destruct (by_device reg !! d); done || by left.
  - pose proof (send_to_frame reg p (OControl text close)) as [Hd Hn].
    pose proof (λ q, send_to_meta_at reg p (OControl text close) q) as Hm.
    pose proof (λ s e, send_to_in_shard reg p (OControl text close) s e) as Hs.
    destruct (send_to reg p (OControl text close)) as [reg' sent]. cbn [fst] in *.
    eapply owned_step; [exact Ho|exact Hi|done| |done|by rewrite Hd|intros s e r; rewrite Hs; by left|];
      destruct (negb (is_ok sent) && close); done || by left.
  - apply (owned_deregister reg ts i (Dropping d p)); [done|done|by left].
  - eapply owned_step; [exact Ho|exact Hi|done|done|done|done|by left|by left].
Qed.

(** *** The indexes agree up to what is under way *)

Record agree (reg : ConnectionRegistry) (ts : list Thread) : Prop := MkAgree {
  ag_shard s d p : in_shard reg s d = Some p →
    by_device reg !! d = Some p ∨ ∃ j T, ts !! j = Some T ∧ removes T = Some (d, p);
  ag_entering j T d p : ts !! j = Some T → entering T = Some (d, p) → by_device reg !! d = Some p;
}.

Lemma agree_step reg reg' ts i T T' :
  agree reg ts → ts !! i = Some T →
  (∀ s d p, in_shard reg' s d = Some p →
     (in_shard reg s d = Some p ∧ removes T ≠ Some (d, p)) ∨ removes T' = Some (d, p) ∨ by_device reg' !! d = Some p) →
  (∀ d p, by_device reg !! d = Some p → by_device reg' !! d = Some p ∨ removes T' = Some (d, p)) →
  (∀ j U d p, j ≠ i → ts !! j = Some U → entering U = Some (d, p) → by_device reg' !! d = by_device reg !! d) →
  (∀ d p, entering T' = Some (d, p) → by_device reg' !! d = Some p) →
  agree reg' (<[i := T']> ts).
Proof.
  intros [Hs He] Hi Hsh Hd Hne HT'. assert (Hii : <[i := T']> ts !! i = Some T')
    by (apply list_lookup_insert_eq; by eapply lookup_lt_Some).
  split.
  - intros s d p [[Hp HT]|[HT|Hp]]%Hsh; [|right; by exists i, T'|by left].
    apply Hs in Hp as [Hp|(j & U & Hj & HU)].
    + apply Hd in Hp as [Hp|Hp]; [by left|right; by exists i, T'].
    + right. exists j, U. split; [|done]. rewrite list_lookup_insert_ne; [done|]. intros <-. by simplify_eq.
  - intros j U d p [(<- & <- & _)|[Hji HU]]%list_lookup_insert_Some HU'; [by apply HT'|].
    rewrite (Hne j U d p) by (done || congruence). by eapply He.
Qed.

Lemma entering_owner T d p : entering T = Some (d, p) → ∃ s, owner T = Some (d, s, p).
Proof. destruct T as [t| | | | |]; cbn; [|done..]. destruct (th_pc t); intros; simplify_eq; eauto. Qed.

(** A [deregister] that takes nothing from a registration under way. *)
Lemma agree_deregister reg ts i T d p :
  owned reg ts → agree reg ts → ts !! i = Some T → removes T = None →
  (∀ j U q, j ≠ i → ts !! j = Some U → entering U = Some (d, q) → q ≠ p) →
  let '(reg', T') := deregister_start reg d p in agree reg' (<[i := T']> ts).
Proof.
  intros Ho Ha Hi HT Hen. pose proof (deregister_start_effect reg ts d p Ho) as He.
  destruct (deregister_start reg d p) as [reg' T']. destruct He as (_ & Hs & _ & Hd).
  eapply (agree_step reg reg' ts i T T'); [done..| | | |].
  - intros s e q Hq. left. unfold in_shard in *. rewrite Hs in Hq. by rewrite HT.
  - intros e q Hq. destruct Hd as [(Hp & -> & ->)|(_ & -> & _)]; [|by left]. destruct (decide (e = d)) as [->|].
    + right. rewrite Hp in Hq. injection Hq as <-. done.
    + left. by rewrite lookup_delete_ne.
  - intros j U e q Hji Hj HU. destruct Hd as [(Hp & -> & _)|(_ & -> & _)]; [|done].
    rewrite lookup_delete_ne; [done|]. intros <-. pose proof (ag_entering _ _ Ha _ _ _ _ Hj HU).
    apply (Hen j U q Hji Hj HU). congruence.
  - by destruct Hd as [(_ & _ & ->)|(_ & _ & ->)].
Qed.

(** The first step of a registration that runs apart. *)
Lemma agree_start reg ts i t :
  agree reg ts → ts !! i = Some (Handler t) → th_pc t = AtStart →
  let '(reg', t') := thread_step reg t in
  apart (<[i := Handler t']> ts) → agree reg' (<[i := Handler t']> ts).
Proof.
  intros Ha Hi Hpc. unfold thread_step. rewrite Hpc. set (p := fresh (dom (heap reg))). set (T' := Handler _).
  assert (Hii : <[i := T']> ts !! i = Some T') by (apply list_lookup_insert_eq; by eapply lookup_lt_Some).
  intros Hap. eapply (agree_step reg _ ts i (Handler t) T'); [done..| | | |].
  - intros s d q Hq. left. split; [exact Hq|]. cbn. by rewrite Hpc.
  - intros d q Hq. cbn [by_device]. destruct (decide (d = th_device t)) as [->|].
    + right. cbn. by rewrite Hq.
    + left. by rewrite lookup_insert_ne.
  - intros j U d q Hji Hj HU. cbn [by_device]. rewrite lookup_insert_ne; [done|]. intros <-.
    assert (HT' : entering T' = Some (th_device t, p)) by done.
    destruct (Hap i j T' U (th_device t) p q Hii) as [Hap1 _]; [by rewrite list_lookup_insert_ne|done|done|done].
  - intros d q. cbn. intros [= <- <-]. by rewrite lookup_insert_eq.
Qed.

Lemma agree_micro reg ts i T :
  owned reg ts → agree reg ts → apart ts → ts !! i = Some T →
  let '(reg', T') := micro_step reg T in apart (<[i := T']> ts) → agree reg' (<[i := T']> ts).
Proof.
  intros Ho Ha Hap Hi. destruct T as [t|d p|d text close|d p text close|d p|]; cbn [micro_step].
  - destruct (th_pc t) as [|[q|] p|p|p] eqn:Hpc.
    + pose proof (agree_start reg ts i t Ha Hi Hpc) as H. by destruct (thread_step reg t).
    + rewrite (indexed_step reg t q p Hpc). set (reg1 := (send_to reg q OClose).1). intros _.
      destruct (send_to_frame reg q OClose) as [Hd1 Hn1]. fold reg1 in Hd1, Hn1.
      destruct (clean_effect reg1 (th_device t) q) as (Hd & _ & _ & Hs).
      { intros s e r. unfold reg1. rewrite send_to_in_shard, send_to_meta_at. apply (ow_shard _ _ Ho). }
      eapply agree_step; [exact Ha|exact Hi| | | |]; rewrite ?Hd, ?Hd1.
      * intros s e r [Hr Hne]%Hs. left. unfold reg1 in Hr. rewrite send_to_in_shard in Hr. split; [done|].
        cbn. rewrite Hpc. congruence.
      * intros e r. by left.
      * done.
      * intros e r Her. eapply (ag_entering _ _ Ha); [exact Hi|]. cbn in *. by rewrite Hpc.
    + unfold thread_step. rewrite Hpc. intros _. eapply agree_step; [exact Ha|exact Hi| |by left|done|].
      * intros s e r Hr. left. split; [done|]. cbn. by rewrite Hpc.
      * intros e r Her. eapply (ag_entering _ _ Ha); [exact Hi|]. cbn in *. by rewrite Hpc.
    + pose proof (removed_step reg t p Hpc) as He. destruct (thread_step reg t) as [reg' t'].
      destruct He as (-> & _ & Hd & _ & Hs). intros _.
      eapply agree_step; [exact Ha|exact Hi| | | |done]; rewrite ?Hd; [|by left|done].
      intros s e r. rewrite Hs. case_decide as Hx.
      * intros [= <-]. destruct Hx as [-> ->]. right. right. eapply (ag_entering _ _ Ha); [exact Hi|]. cbn. by rewrite Hpc.
      * intros Hr. left. split; [done|]. cbn. by rewrite Hpc.
    + pose proof (agree_deregister reg ts i (Handler t) (th_device t) p Ho Ha Hi) as H.
      destruct (deregister_start reg (th_device t) p) as [reg' T']. intros _. apply H; [cbn; by rewrite Hpc|].
      intros j U q Hji Hj HU ->. apply Hji. apply entering_owner in HU as [s HU].
      eapply (ow_own _ _ Ho); [exact Hj|exact Hi|exact HU|]. cbn. by rewrite Hpc.
  - fold (clean reg d p). destruct (clean_effect reg d p (ow_shard _ _ Ho)) as (Hd & _ & _ & Hs). intros _.
    eapply agree_step; [exact Ha|exact Hi| | | |done]; rewrite ?Hd; [|by left|done].
    intros s e r [Hr Hne]%Hs. left. split; [done|]. cbn. congruence.
  - intros _. eapply agree_step; [exact Ha|exact Hi| |by left|done|].
    + intros s e r Hr. by left.
    + by destruct (by_device reg !! d).
  - pose proof (send_to_frame reg p (OControl text close)) as [Hd _].
    pose proof (λ s e, send_to_in_shard reg p (OControl text close) s e) as Hs.
    destruct (send_to reg p (OControl text close)) as [reg' sent]. cbn [fst] in *. intros _.
    eapply agree_step; [exact Ha|exact Hi| | | |]; rewrite ?Hd; [|by left|done|].
    + intros s e r Hr. rewrite Hs in Hr. by left.
    + by destruct (negb (is_ok sent) && close).
  - pose proof (agree_deregister reg ts i (Dropping d p) d p Ho Ha Hi eq_refl) as H.
    destruct (deregister_start reg d p) as [reg' T']. intros _. apply H.
    intros j U q Hji Hj HU ->. by destruct (Hap j i U (Dropping d p) d p p Hj Hi Hji HU).
  - intros _. eapply agree_step; [exact Ha|exact Hi| |by left|done|done]. intros s e r Hr. by left.
Qed.

(** ** Runs *)

Lemma traffic_meta reg p l q o r :
  meta_at (set_heap (alter (λ c, MkConn (c_id c) (c_shard c) l q o) p (heap reg)) reg) r = meta_at reg r.
Proof.
  unfold meta_at. cbn. destruct (decide (r = p)) as [->|]; [|by rewrite lookup_alter_ne].
  rewrite lookup_alter_eq. by destruct (heap reg !! p).
Qed.

Lemma owned_tick k st : owned st.1 st.2 → owned (tick_step k st).1 (tick_step k st).2.
Proof.
  intros Ho. destruct st as [reg ts]. destruct k as [i|p l q o]; cbn in *.
  - destruct (ts !! i) as [T|] eqn:Hi; [|done]. pose proof (owned_micro reg ts i T Ho Hi) as H.
    by destruct (micro_step reg T).
  - destruct Ho as [Hn Hb Hids Hdev Hl Hown Hsh]. split; [done|..]; try setoid_rewrite traffic_meta; done.
Qed.

Lemma agree_tick k st :
  owned st.1 st.2 → agree st.1 st.2 → apart st.2 → apart (tick_step k st).2 →
  agree (tick_step k st).1 (tick_step k st).2.
Proof.
  intros Ho Ha Hap. destruct st as [reg ts]. destruct k as [i|p l q o]; cbn in *; [|by destruct Ha].
  destruct (ts !! i) as [T|] eqn:Hi; [|done]. pose proof (agree_micro reg ts i T Ho Ha Hap Hi) as H.
  by destruct (micro_step reg T).
Qed.

(** The operations of a device stay apart in the whole run. *)
Fixpoint apart_run (ks : list Tick) (st : State) : Prop :=
  apart st.2 ∧ match ks with [] => True | k :: ks => apart_run ks (tick_step k st) end.

Lemma owned_run ks st : owned st.1 st.2 → owned (run_ticks ks st).1 (run_ticks ks st).2.
Proof. revert st. induction ks as [|k ks IH]; intros st Ho; [done|]. by apply IH, owned_tick. Qed.

Lemma agree_run ks st :
  owned st.1 st.2 → agree st.1 st.2 → apart_run ks st → agree (run_ticks ks st).1 (run_ticks ks st).2.
Proof.
  revert st. induction ks as [|k ks IH]; intros st Ho Ha Hap; [done|]. destruct Hap as [Hap Hks].
  apply IH; [by apply owned_tick| |done]. apply agree_tick; [done..|]. by destruct ks, Hks.
Qed.

(** The threads of a run, at its start. *)
Definition newcomer (T : Thread) : bool :=
  is_start T || match T with Control _ _ _ => true | _ => false end.

Lemma newcomers_owned ts :
  forallb newcomer ts = true → Z.of_nat (length ts) < 2 ^ 64 →
  owned ConnectionRegistry_new ts ∧ agree ConnectionRegistry_new ts.
Proof.
  intros Hnew Hlen.
  assert (Hno : ∀ j T, ts !! j = Some T → owner T = None).
  { intros j T Hj%list_elem_of_lookup_2. rewrite forallb_forall in Hnew.
    specialize (Hnew T ltac:(by apply list_elem_of_In)). destruct T as [[d s l []]| | | | |]; try done; cbn in Hnew; done. }
  split.
  - split; unfold meta_at, in_shard; cbn; intros *; rewrite ?lookup_empty; try done.
    + unfold starts. pose proof (length_filter (λ T, is_start T = true) ts). lia.
    + intros Hj HT. by rewrite (Hno _ _ Hj) in HT.
    + intros Hj _ HT. by rewrite (Hno _ _ Hj) in HT.
  - split; unfold in_shard; cbn; intros *; rewrite ?lookup_empty; [done|].
    intros Hj [s HT]%entering_owner. by rewrite (Hno _ _ Hj) in HT.
Qed.

(** C22: Connections do not leak under real threads. Let any number of handlers
    register and deregister their connections and any number of control messages
    be sent, in any interleaving of their steps on the registry's maps and with any
    traffic in between. Every entry of the device index belongs to a handler that
    has not taken it out yet, so when all threads are done the device index is
    empty. If, in addition, no two threads register a connection of the same device
    at the same time, and none drops one then, every entry of the shard index is in
    the device index or about to be removed, so in the end it is empty as well. *)
Theorem connections_never_leak ts0 ks reg ts :
  forallb newcomer ts0 = true → Z.of_nat (length ts0) < 2 ^ 64 →
  run_ticks ks (ConnectionRegistry_new, ts0) = (reg, ts) →
  (∀ d p, by_device reg !! d = Some p → ∃ j T s, ts !! j = Some T ∧ owner T = Some (d, s, p)) ∧
  (Forall (λ T, T = Over) ts → by_device reg = ∅) ∧
  (apart_run ks (ConnectionRegistry_new, ts0) →
   (∀ s d p, in_shard reg s d = Some p →
      by_device reg !! d = Some p ∨ ∃ j T, ts !! j = Some T ∧ removes T = Some (d, p)) ∧
   (Forall (λ T, T = Over) ts → ∀ s d, in_shard reg s d = None)).
Proof.
  intros Hnew Hlen Hrun. destruct (newcomers_owned ts0 Hnew Hlen) as [Ho Ha].
  pose proof (owned_run ks (ConnectionRegistry_new, ts0) Ho) as Ho'. rewrite Hrun in Ho'. cbn [fst snd] in Ho'.
  assert (Hempty : Forall (λ T, T = Over) ts → by_device reg = ∅).
  { intros Hover. apply map_empty. intros d. apply eq_None_not_Some.
    intros [p (j & T & s & Hj & HT)%(ow_dev _ _ Ho')]. by rewrite (Forall_lookup_1 _ _ _ _ Hover Hj) in HT. }
  split; [apply (ow_dev _ _ Ho')|]. split; [done|]. intros Hap.
  pose proof (agree_run ks (ConnectionRegistry_new, ts0) Ho Ha Hap) as Ha'. rewrite Hrun in Ha'. cbn [fst snd] in Ha'.
  split; [apply (ag_shard _ _ Ha')|]. intros Hover s d. apply eq_None_not_Some.
  intros [p [Hp|(j & T & Hj & HT)]%(ag_shard _ _ Ha')]; [by rewrite (Hempty Hover), lookup_empty in Hp|].
  by rewrite (Forall_lookup_1 _ _ _ _ Hover Hj) in HT.
Qed.

(** ** Witness *)

Definition clash (T U : Thread) : bool :=
  match entering T with
  | Some (d, _) =>
    match entering U with
    | Some (e, _) => bool_decide (d = e)
    | None => match U with Dropping e _ => bool_decide (d = e) | _ => false end
    end
  | None => false
  end.

Definition apartb (ts : list Thread) : bool :=
  let idx := seq 0 (length ts) in
  forallb (λ i, forallb (λ j, (i =? j)%nat || match ts !! i, ts !! j with
                                             | Some T, Some U => negb (clash T U)
                                             | _, _ => true
                                             end) idx) idx.

Lemma apartb_true ts : apartb ts = true → apart ts.
Proof.
  unfold apartb. intros H i j T U d p q Hi Hj Hne HT. rewrite forallb_forall in H.
  specialize (H i ltac:(apply in_seq; apply lookup_lt_Some in Hi; lia)). rewrite forallb_forall in H.
  specialize (H j ltac:(apply in_seq; apply lookup_lt_Some in Hj; lia)).
  rewrite Hi, Hj, (proj2 (Nat.eqb_neq i j) Hne) in H. unfold clash in H. rewrite HT in H. cbn in H.
  split; [intros HU|intros ->]; rewrite ?HU in H; cbn in H; by rewrite bool_decide_eq_true_2 in H.
Qed.

Fixpoint apart_runb (ks : list Tick) (st : State) : bool :=
  apartb st.2 && match ks with [] => true | k :: ks => apart_runb ks (tick_step k st) end.

Lemma apart_runb_true ks st : apart_runb ks st = true → apart_run ks st.
Proof.
  revert st. induction ks as [|k ks IH]; intros st [Ha Hks]%andb_prop; split; auto using apartb_true.
Qed.

(** A device connects, reconnects before its first handler gives the connection
    back, and is sent a closing message that its full queue refuses. *)
Definition reconnecting : list Thread :=
  [Handler (MkThread (uuid_of_N 1) "u4pr" (MkLocation f64_zero f64_zero) AtStart);
   Handler (MkThread (uuid_of_N 1) "u4px" (MkLocation f64_zero f64_zero) AtStart);
   Control (uuid_of_N 1) "bye" true].
Definition reconnection : list Tick :=
  [Turn 0; Turn 0; Turn 0; Turn 1; Turn 1; Turn 0; Turn 1; Traffic 1 (MkLocation f64_zero f64_zero) [] false;
   Turn 2; Turn 2; Turn 2; Turn 1; Turn 2; Turn 0; Turn 1].

Definition all_over (ts : list Thread) : bool :=
  forallb (λ T, match T with Over => true | _ => false end) ts.

Lemma all_over_true ts : all_over ts = true → Forall (λ T, T = Over) ts.
Proof.
  unfold all_over. intros H. rewrite forallb_forall in H. apply Forall_forall.
  intros T HT%list_elem_of_In%H. by destruct T.
Qed.

Lemma connections_never_leak_witness :
  ∃ reg ts, run_ticks reconnection (ConnectionRegistry_new, reconnecting) = (reg, ts) ∧ all_over ts = true ∧
    by_device reg = ∅ ∧ ∀ s d, in_shard reg s d = None.
Proof.
  destruct (run_ticks reconnection (ConnectionRegistry_new, reconnecting)) as [reg ts] eqn:Hrun.
  assert (Hover : all_over ts = true).
  { replace ts with (run_ticks reconnection (ConnectionRegistry_new, reconnecting)).2 by (by rewrite Hrun).
    vm_compute. reflexivity. }
  exists reg, ts. split; [reflexivity|]. split; [exact Hover|].
  destruct (connections_never_leak reconnecting reconnection reg ts) as (_ & Hd & Hs).
  - reflexivity.
  - reflexivity.
  - exact Hrun.
  - split; [by apply Hd, all_over_true|]. apply Hs; [|by apply all_over_true].
    apply apart_runb_true. vm_compute. reflexivity.
Defined.
