(* ===== verification/Redis.v ===== *)
(** * The Redis server as the code sees it

    The stores of crates/infra/src/redis.rs are scripts and commands sent to a
    Redis server. The server is not part of the repository: it is the class
    [RedisServer], with the commands the code uses, and [RedisLaws] states their
    documented behaviour through the live keyspace [view]. [map_redis] is a
    server built from a finite map; it satisfies the laws.

    Times are nanoseconds of the server's clock; times to live are seconds. *)

From S2P Require Import Prelude F64 Str Errors Geo Domain.

Open Scope Z_scope.

Inductive RVal : Type :=
| RStr (s : string)
| RHash (fields : gmap string Z).

Class RedisServer : Type := {
  rdb : Type;
  cmd_get : Z → string → rdb → option string;
  (** SET, with EX when a time to live is given *)
  cmd_set : Z → string → string → option Z → rdb → rdb;
  cmd_expire : Z → string → Z → rdb → rdb;
  (** DEL: the number of keys removed *)
  cmd_del : Z → string → rdb → Z * rdb;
  cmd_exists : Z → string → rdb → bool;
  cmd_hincrby : Z → string → string → Z → rdb → rdb;
  cmd_hgetall : Z → string → rdb → gmap string Z;
}.

Definition ttl_ns (ttl : Z) : Z := ttl * 10 ^ 9.

(** An entry with its deadline, if it has one. *)
Definition entry : Type := RVal * option Z.

Definition expired (now : Z) (e : entry) : bool :=
  match e.2 with Some t => t <=? now | None => false end.

(** [view now k db] is the live entry under [k] at time [now]. *)
Class RedisLaws (R : RedisServer) (view : Z → string → rdb → option entry) : Prop := {
  view_live now k db e : view now k db = Some e → expired now e = false;
  view_later now later k db :
    now ≤ later → view later k db =
      match view now k db with
      | Some e => if expired later e then None else Some e
      | None => None
      end;
  get_str now k db s d : view now k db = Some (RStr s, d) → cmd_get now k db = Some s;
  get_none now k db : view now k db = None → cmd_get now k db = None;
  view_set now k v ttl db j :
    (∀ t, ttl = Some t → 0 < t) →
    view now j (cmd_set now k v ttl db) =
      if decide (j = k) then Some (RStr v, (λ t, now + ttl_ns t) <$> ttl) else view now j db;
  view_expire now k ttl db j :
    0 < ttl →
    view now j (cmd_expire now k ttl db) =
      if decide (j = k) then (λ e : entry, (e.1, Some (now + ttl_ns ttl))) <$> view now k db
      else view now j db;
  view_del now k db j :
    view now j (cmd_del now k db).2 = if decide (j = k) then None else view now j db;
  del_count now k db :
    (cmd_del now k db).1 = match view now k db with Some _ => 1 | None => 0 end;
  exists_view now k db : cmd_exists now k db = bool_decide (is_Some (view now k db));
  view_hincrby_new now k f n db j :
    view now k db = None →
    view now j (cmd_hincrby now k f n db) =
      if decide (j = k) then Some (RHash {[f := n]}, None) else view now j db;
  view_hincrby_old now k f n db h d j :
    view now k db = Some (RHash h, d) →
    view now j (cmd_hincrby now k f n db) =
      if decide (j = k) then Some (RHash (<[f := default 0 (h !! f) + n]> h), d) else view now j db;
  hgetall_hash now k db h d : view now k db = Some (RHash h, d) → cmd_hgetall now k db = h;
  hgetall_none now k db : view now k db = None → cmd_hgetall now k db = ∅;
}.

(** ** Observations shared by the stores *)

Section View.
Context {R : RedisServer} {view : Z → string → rdb → option entry} {RL : RedisLaws R view}.

(** The keys the code uses for strings hold strings. *)
Definition str_at (now : Z) (k : string) (db : rdb) : Prop :=
  ∀ e, view now k db = Some e → ∃ s, e.1 = RStr s.

Lemma get_view now k db :
  str_at now k db →
  cmd_get now k db = match view now k db with Some (RStr s, _) => Some s | _ => None end.
Proof.
  intros Hs. destruct (view now k db) as [[[s|h] d]|] eqn:E.
  - by apply (get_str _ _ _ _ d).
  - destruct (Hs _ E) as [s ?]. done.
  - by apply get_none.
Qed.

Lemma get_Some_view now k db s :
  str_at now k db → cmd_get now k db = Some s → ∃ d, view now k db = Some (RStr s, d).
Proof.
  intros Hs. rewrite get_view by done.
  destruct (view now k db) as [[[s'|h] d]|]; intros [= ->]; eauto.
Qed.
End View.

(** ** A server made of a finite map *)

Definition map_view (now : Z) (k : string) (db : gmap string entry) : option entry :=
  match db !! k with
  | Some e => if expired now e then None else Some e
  | None => None
  end.

Definition map_redis : RedisServer := {|
  rdb := gmap string entry;
  cmd_get := λ now k db, match map_view now k db with Some (RStr s, _) => Some s | _ => None end;
  cmd_set := λ now k v ttl db, <[k := (RStr v, (λ t, now + ttl_ns t) <$> ttl)]> db;
  cmd_expire := λ now k ttl db,
    match map_view now k db with
    | Some e => <[k := (e.1, Some (now + ttl_ns ttl))]> db
    | None => db
    end;
  cmd_del := λ now k db,
    (match map_view now k db with Some _ => 1 | None => 0 end, delete k db);
  cmd_exists := λ now k db, bool_decide (is_Some (map_view now k db));
  cmd_hincrby := λ now k f n db,
    match map_view now k db with
    | Some (RHash h, d) => <[k := (RHash (<[f := default 0 (h !! f) + n]> h), d)]> db
    | Some _ => db
    | None => <[k := (RHash {[f := n]}, None)]> db
    end;
  cmd_hgetall := λ now k db, match map_view now k db with Some (RHash h, _) => h | _ => ∅ end;
|}.

Lemma map_view_insert now k e db j :
  map_view now j (<[k := e]> db) =
    if decide (j = k) then (if expired now e then None else Some e) else map_view now j db.
Proof.
  unfold map_view. destruct (decide (j = k)) as [->|].
  - by rewrite lookup_insert_eq.
  - by rewrite lookup_insert_ne.
Qed.

Lemma fresh_deadline now t v : 0 < t → expired now (v, Some (now + ttl_ns t)) = false.
Proof. intros Ht. unfold expired, ttl_ns. simpl. apply Z.leb_gt. lia. Qed.

Lemma map_view_live now k db e : map_view now k db = Some e → expired now e = false.
Proof. unfold map_view. repeat case_match; intros; by simplify_eq. Qed.

Lemma map_redis_laws : RedisLaws map_redis map_view.
Proof.
  split; simpl.
  - apply map_view_live.
  - intros now later k db Hle. unfold map_view. destruct (db !! k) as [e|]; [|done].
    destruct (expired now e) eqn:E; [|done]. unfold expired in *.
    destruct (e.2) as [t|]; [|done]. assert ((t <=? later) = true) as -> by lia. done.
  - intros * ->. done.
  - intros * ->. done.
  - intros * Ht. rewrite map_view_insert. case_decide; [|done].
    destruct ttl as [t|]; simpl; [|done]. by rewrite fresh_deadline by auto.
  - intros * Ht. destruct (map_view now k db) as [e|] eqn:E.
    + rewrite map_view_insert. case_decide; [|done]. simpl. by rewrite fresh_deadline.
    + case_decide; [subst|done]. by rewrite E.
  - intros *. unfold map_view. case_decide as Hjk.
    + subst. by rewrite lookup_delete_eq.
    + by rewrite lookup_delete_ne.
  - done.
  - done.
  - intros * ->. rewrite map_view_insert. done.
  - intros * E. rewrite E, map_view_insert. case_decide; [|done]. apply map_view_live in E.
    unfold expired in *. simpl in *. by rewrite E.
  - intros * ->. done.
  - intros * ->. done.
Qed.
