(* ===== verification/World.v ===== *)
(** * The world the services act on, and their effects

    The services of the two binaries are asynchronous functions that call
    Redis, Postgres and NATS. A computation is a function on the [World]: the
    Redis server, the Postgres tables, the messages published so far and the
    durable stream. The environment [Env] answers each external call: it works,
    it fails without an effect, or it fails after its effect (the reply was
    lost); and it supplies the clock and the random identifiers.

    The calls of one computation run one after the other on this world. Several
    processes on one Redis key are treated in [Stores] and [Lease], where every
    command is one atomic step, and computations that run at the same time in
    [Interleave], where they are cut at their calls. *)

From S2P Require Import Prelude F64 Str Errors Geo Domain Registry Redis.

Open Scope Z_scope.

(** ** Postgres tables (migrations/*.sql) *)

Record DeviceRow : Type := MkDeviceRow {
  dr_id : Uuid; dr_lat : f64; dr_lon : f64; dr_geohash : string; dr_shard_prefix : string;
  dr_registered_at : DateTime; dr_last_seen : DateTime;
}.

Record AlertRow : Type := MkAlertRow {
  ar_id : Uuid; ar_center_lat : f64; ar_center_lon : f64; ar_radius_meters : f64;
  ar_severity : string; ar_title : string; ar_message : string; ar_created_at : DateTime;
}.

Record DeliveryRow : Type := MkDeliveryRow {
  de_shard_prefix : string; de_published_at : DateTime;
  de_devices_in_shard : Z; de_devices_in_radius : Z;
}.

(** [devices] and [alerts] by primary key, [alert_deliveries] by its unique
    index (alert, shard). *)
Record Pg : Type := MkPg {
  t_devices : gmap Uuid DeviceRow;
  t_alerts : gmap Uuid AlertRow;
  t_deliveries : gmap (Uuid * string) DeliveryRow;
}.

(** A TIMESTAMPTZ column keeps microseconds. *)
Definition to_micros (t : DateTime) : DateTime := t / 1000 * 1000.

(** ** NATS *)

Record StreamMsg : Type := MkStreamMsg {
  sm_subject : string; sm_stored_at : DateTime; sm_payload : Bytes;
}.
#[export] Instance StreamMsg_eq_dec : EqDecision StreamMsg.
Proof. solve_decision. Defined.

(** ** The environment *)

Inductive Fault : Type :=
| Works
| FailsBefore (why : string)
| FailsAfter (why : string).

Class Env : Type := {
  env_fault : nat → Fault;
  env_clock : nat → DateTime;
  env_uuid : nat → Uuid;
}.

Section World.
Context {R : RedisServer}.

Record World : Type := MkWorld {
  w_tick : nat;
  w_redis : rdb;
  w_pg : Pg;
  w_published : list (string * Bytes);
  w_stream : list StreamMsg;
}.

Definition set_tick (n : nat) (w : World) : World :=
  MkWorld n (w_redis w) (w_pg w) (w_published w) (w_stream w).
Definition set_redis (r : rdb) (w : World) : World :=
  MkWorld (w_tick w) r (w_pg w) (w_published w) (w_stream w).
Definition set_pg (p : Pg) (w : World) : World :=
  MkWorld (w_tick w) (w_redis w) p (w_published w) (w_stream w).
Definition set_published (l : list (string * Bytes)) (w : World) : World :=
  MkWorld (w_tick w) (w_redis w) (w_pg w) l (w_stream w).
Definition set_stream (l : list StreamMsg) (w : World) : World :=
  MkWorld (w_tick w) (w_redis w) (w_pg w) (w_published w) l.

Definition tick (w : World) : World := set_tick (S (w_tick w)) w.

(** ** The effect monad *)

Definition M (A : Type) : Type := World → A * World.

Definition mret_ {A} (a : A) : M A := λ w, (a, w).
Definition mbind_ {A B} (m : M A) (k : A → M B) : M B := λ w, let '(a, w') := m w in k a w'.

(** A fallible computation: an early return on [Err]. *)
Definition MR (A : Type) : Type := M (result A AppError).
Definition mbind_ok {A B} (m : MR A) (k : A → MR B) : MR B :=
  mbind_ m (λ r, match r with Ok a => k a | Err e => mret_ (Err e) end).

(** [for x in l { f(x).await?; }]. *)
Fixpoint mfor {A} (f : A → MR unit) (l : list A) : MR unit :=
  match l with
  | [] => mret_ (Ok ())
  | x :: l => mbind_ok (f x) (λ _, mfor f l)
  end.

Context {E : Env}.

(** One external call. [f] is its effect when it takes place. *)
Definition call {A} (err : string → AppError) (f : DateTime → World → A * World) : MR A := λ w,
  let now := env_clock (w_tick w) in
  let w1 := tick w in
  match env_fault (w_tick w) with
  | Works => let '(a, w2) := f now w1 in (Ok a, w2)
  | FailsBefore why => (Err (err why), w1)
  | FailsAfter why => let '(_, w2) := f now w1 in (Err (err why), w2)
  end.

(** [Utc::now()] and [Uuid::new_v4()]. *)
Definition utc_now : M DateTime := λ w, (env_clock (w_tick w), tick w).
Definition new_uuid : M Uuid := λ w, (env_uuid (w_tick w), tick w).

(** A command on the Redis server, and one that only reads. *)
Definition redis_call {A} (f : Z → rdb → A * rdb) : MR A :=
  call Cache (λ now w, let '(a, r) := f now (w_redis w) in (a, set_redis r w)).
Definition redis_read {A} (f : Z → rdb → A) : MR A :=
  redis_call (λ now r, (f now r, r)).

(** A statement on the tables. *)
Definition pg_call {A} (f : DateTime → Pg → A * Pg) : MR A :=
  call Database (λ now w, let '(a, p) := f now (w_pg w) in (a, set_pg p w)).
Definition pg_read {A} (f : Pg → A) : MR A := pg_call (λ _ p, (f p, p)).
End World.

Notation "'let!' x ':=' m 'in' k" := (mbind_ m (λ x, k))
  (at level 10, x pattern, m at level 200, k at level 200) : rust_scope.
Notation "'let!?' x ':=' m 'in' k" := (mbind_ok m (λ x, k))
  (at level 10, x pattern, m at level 200, k at level 200) : rust_scope.

(** ** Lemmas of the monad *)

Section Lemmas.
Context {R : RedisServer} {E : Env}.

Lemma mbind_run {A B} (m : M A) (k : A → M B) w :
  mbind_ m k w = k (m w).1 (m w).2.
Proof. unfold mbind_. by destruct (m w). Qed.

Lemma mbind_ok_run {A B} (m : MR A) (k : A → MR B) w :
  mbind_ok m k w = match (m w).1 with Ok a => k a (m w).2 | Err e => (Err e, (m w).2) end.
Proof. unfold mbind_ok, mbind_, mret_. destruct (m w) as [[a|e] w']; done. Qed.

(** The three outcomes of a call. *)
Lemma call_cases {A} err (f : DateTime → World → A * World) w :
  (call err f w = (Ok (f (env_clock (w_tick w)) (tick w)).1,
                   (f (env_clock (w_tick w)) (tick w)).2)) ∨
  (∃ why, call err f w = (Err (err why), tick w)) ∨
  (∃ why, call err f w = (Err (err why), (f (env_clock (w_tick w)) (tick w)).2)).
Proof.
  unfold call. destruct (env_fault (w_tick w)) as [|why|why];
    destruct (f (env_clock (w_tick w)) (tick w)) as [a w2]; simpl; eauto.
Qed.

Lemma call_works {A} err (f : DateTime → World → A * World) w :
  env_fault (w_tick w) = Works →
  call err f w = (Ok (f (env_clock (w_tick w)) (tick w)).1,
                  (f (env_clock (w_tick w)) (tick w)).2).
Proof. intros Hf. unfold call. rewrite Hf. by destruct (f _ _). Qed.

Lemma redis_call_works {A} (f : Z → rdb → A * rdb) w :
  env_fault (w_tick w) = Works →
  redis_call f w = (Ok (f (env_clock (w_tick w)) (w_redis w)).1,
                    set_redis (f (env_clock (w_tick w)) (w_redis w)).2 (tick w)).
Proof.
  intros Hf. unfold redis_call. rewrite call_works by done.
  by destruct (f (env_clock (w_tick w)) (w_redis (tick w))) eqn:E1; simpl in *; rewrite E1.
Qed.

Lemma pg_call_works {A} (f : DateTime → Pg → A * Pg) w :
  env_fault (w_tick w) = Works →
  pg_call f w = (Ok (f (env_clock (w_tick w)) (w_pg w)).1,
                 set_pg (f (env_clock (w_tick w)) (w_pg w)).2 (tick w)).
Proof.
  intros Hf. unfold pg_call. rewrite call_works by done.
  by destruct (f (env_clock (w_tick w)) (w_pg (tick w))) eqn:E1; simpl in *; rewrite E1.
Qed.

Lemma pg_call_cases {A} (f : DateTime → Pg → A * Pg) w :
  let now := env_clock (w_tick w) in
  let '(r, w') := pg_call f w in
  w_redis w' = w_redis w ∧ w_published w' = w_published w ∧ w_stream w' = w_stream w ∧
  w_tick w' = S (w_tick w) ∧
  match r with
  | Ok a => f now (w_pg w) = (a, w_pg w')
  | Err e => (∃ why, e = Database why) ∧
             (w_pg w' = w_pg w ∨ w_pg w' = (f now (w_pg w)).2)
  end.
Proof.
  unfold pg_call, call. simpl.
  destruct (env_fault (w_tick w)); destruct (f (env_clock (w_tick w)) (w_pg w)) eqn:E1;
    simpl; rewrite ?E1; simpl; split_and!; eauto.
Qed.

(** Whatever happens, the server state after a Redis call is the one before it,
    or the one the command produces. *)
Lemma redis_call_cases {A} (f : Z → rdb → A * rdb) w :
  let now := env_clock (w_tick w) in
  let '(r, w') := redis_call f w in
  w_pg w' = w_pg w ∧ w_published w' = w_published w ∧ w_stream w' = w_stream w ∧
  w_tick w' = S (w_tick w) ∧
  match r with
  | Ok a => f now (w_redis w) = (a, w_redis w')
  | Err e => (∃ why, e = Cache why) ∧
             (w_redis w' = w_redis w ∨ w_redis w' = (f now (w_redis w)).2)
  end.
Proof.
  unfold redis_call, call. simpl.
  destruct (env_fault (w_tick w)); destruct (f (env_clock (w_tick w)) (w_redis w)) eqn:E1;
    simpl; rewrite ?E1; simpl; split_and!; eauto.
Qed.

Lemma pg_read_works {A} (f : Pg → A) w :
  env_fault (w_tick w) = Works → pg_read f w = (Ok (f (w_pg w)), tick w).
Proof. intros Hf. unfold pg_read. rewrite pg_call_works by done. by destruct w. Qed.

Lemma redis_call_fails {A} (f : Z → rdb → A * rdb) w why :
  env_fault (w_tick w) = FailsBefore why → redis_call f w = (Err (Cache why), tick w).
Proof. intros Hf. unfold redis_call, call. by rewrite Hf. Qed.

Lemma redis_read_works {A} (f : Z → rdb → A) w :
  env_fault (w_tick w) = Works →
  redis_read f w = (Ok (f (env_clock (w_tick w)) (w_redis w)), tick w).
Proof. intros Hf. unfold redis_read. rewrite redis_call_works by done. by destruct w. Qed.

(** A call does what it does when it works, or reports a failure. *)
Lemma redis_call_runs {A} (f : Z → rdb → A * rdb) w :
  redis_call f w = (Ok (f (env_clock (w_tick w)) (w_redis w)).1,
                    set_redis (f (env_clock (w_tick w)) (w_redis w)).2 (tick w)) ∨
  (env_fault (w_tick w) ≠ Works ∧ ∃ e w', redis_call f w = (Err e, w')).
Proof.
  destruct (env_fault (w_tick w)) eqn:F; [left; by apply redis_call_works|right..];
    (split; [done|]); unfold redis_call, call; rewrite F; repeat case_match; eauto.
Qed.

Lemma pg_call_runs {A} (f : DateTime → Pg → A * Pg) w :
  pg_call f w = (Ok (f (env_clock (w_tick w)) (w_pg w)).1,
                 set_pg (f (env_clock (w_tick w)) (w_pg w)).2 (tick w)) ∨
  (env_fault (w_tick w) ≠ Works ∧ ∃ e w', pg_call f w = (Err e, w')).
Proof.
  destruct (env_fault (w_tick w)) eqn:F; [left; by apply pg_call_works|right..];
    (split; [done|]); unfold pg_call, call; rewrite F; repeat case_match; eauto.
Qed.

Lemma pg_read_runs {A} (f : Pg → A) w :
  pg_read f w = (Ok (f (w_pg w)), tick w) ∨
  (env_fault (w_tick w) ≠ Works ∧ ∃ e w', pg_read f w = (Err e, w')).
Proof. unfold pg_read. destruct (pg_call_runs (λ _ p, (f p, p)) w) as [->|]; [left; by destruct w|by right]. Qed.

(** A read leaves all but the call counter. *)
Lemma redis_read_keeps {A} (f : Z → rdb → A) w : (redis_read f w).2 = tick w.
Proof. unfold redis_read, redis_call, call. destruct w. by destruct (env_fault _). Qed.
End Lemmas.

(** Runs a computation whose calls are known to work, one bind at a time. *)
Ltac run_step :=
  first [ rewrite mbind_ok_run | rewrite mbind_run
        | rewrite pg_read_works by done | rewrite redis_read_works by done
        | rewrite pg_call_works by done | rewrite redis_call_works by done
        | rewrite call_works by done ];
  cbn [fst snd mret_ utc_now new_uuid w_tick w_redis w_pg w_published w_stream
       tick set_tick set_redis set_pg set_published set_stream].

(** The next call: it works, or the goal is left with its failure [Hfault]. *)
Ltac try_call :=
  let go lem := (destruct lem as [Hcall|(Hfault & err & werr & Hcall)]; rewrite Hcall; clear Hcall) in
  match goal with
  | |- context [pg_read ?f ?w] => go (pg_read_runs f w)
  | |- context [pg_call ?f ?w] => go (pg_call_runs f w)
  | |- context [redis_call ?f ?w] => go (redis_call_runs f w)
  end;
  cbn [fst snd mret_ utc_now new_uuid w_tick w_redis w_pg w_published w_stream
       tick set_tick set_redis set_pg set_published set_stream].

(** ** An environment without failures *)

Definition calm_env (clock : nat → DateTime) : Env := {|
  env_fault := λ _, Works; env_clock := clock; env_uuid := λ n, uuid_of_N (N.of_nat n);
|}.
