(* ===== verification/Interleave.v ===== *)
(** * Interleaving computations

    Requests of one process, and the processes of a deployment, run at the same
    time: between two external calls of one computation any number of calls of
    others take place. A [Proc] is a computation cut at its calls. [solo] runs it
    alone, which gives back a computation of [World]; a pool of them runs by
    steps of one call each, in any order. An invariant that every call of every
    member keeps holds in all reachable pools. *)

From S2P Require Import Prelude F64 Str Errors Geo Domain Registry Redis World.
From stdpp Require Import relations.

Section Interleave.
Context {R : RedisServer}.

(** ** Computations cut at their calls *)

Inductive Proc (A : Type) : Type :=
| PRet (a : A)
| PCall {B : Type} (m : M B) (k : B → Proc A).
Arguments PRet {A} a.
Arguments PCall {A B} m k.

Fixpoint pbind {A B} (c : Proc A) (f : A → Proc B) : Proc B :=
  match c with
  | PRet a => f a
  | PCall m k => PCall m (λ b, pbind (k b) f)
  end.

(** One call, and [?] on the result of a fallible one. *)
Definition atom {A} (m : M A) : Proc A := PCall m PRet.
Definition pbind_ok {A B} (m : MR A) (f : A → Proc (result B AppError))
    : Proc (result B AppError) :=
  PCall m (λ r, match r with Ok a => f a | Err e => PRet (Err e) end).

(** Alone, without interference. *)
Fixpoint solo {A} (c : Proc A) : M A :=
  match c with
  | PRet a => mret_ a
  | PCall m k => mbind_ m (λ b, solo (k b))
  end.

Lemma solo_call {A B} (m : M B) (k : B → Proc A) w :
  solo (PCall m k) w = solo (k (m w).1) (m w).2.
Proof. cbn. by rewrite mbind_run. Qed.

Lemma solo_bind {A B} (c : Proc A) (f : A → Proc B) w :
  solo (pbind c f) w = solo (f (solo c w).1) (solo c w).2.
Proof.
  revert w. induction c as [a|C m k IH]; intros w; [done|].
  cbn [pbind]. by rewrite !solo_call, IH.
Qed.

Lemma solo_atom {A} (m : M A) w : solo (atom m) w = m w.
Proof. unfold atom. rewrite solo_call. cbn. by destruct (m w). Qed.

(** A computation and its cut agree call by call. *)
Lemma solo_mbind {A B} (m : M B) (k : B → Proc A) (k' : B → M A) w :
  (∀ b w', solo (k b) w' = k' b w') → solo (PCall m k) w = mbind_ m k' w.
Proof. intros H. rewrite solo_call, mbind_run. apply H. Qed.

Lemma solo_mbind_ok {A B} (m : MR B) (k : B → Proc (result A AppError)) (k' : B → MR A) w :
  (∀ b w', solo (k b) w' = k' b w') → solo (pbind_ok m k) w = mbind_ok m k' w.
Proof. intros H. apply solo_mbind. intros [b|e] w'; [apply H|done]. Qed.

Lemma mbind_assoc {A B C} (m : M A) (f : A → M B) (g : B → M C) w :
  mbind_ (mbind_ m f) g w = mbind_ m (λ a, mbind_ (f a) g) w.
Proof. by rewrite !mbind_run. Qed.

(** ** Pools *)

Definition Pool (A : Type) : Type := list (Proc A) * World.

(** One call of one member; or a new request arrives. *)
Inductive cstep {A} (new : Proc A → Prop) : Pool A → Pool A → Prop :=
| cstep_call i B (m : M B) k l w :
    l !! i = Some (PCall m k) →
    cstep new (l, w) (<[i := k (m w).1]> l, (m w).2)
| cstep_arrive c l w : new c → cstep new (l, w) (l ++ [c], w).

Definition reaches {A} (new : Proc A → Prop) : Pool A → Pool A → Prop := rtc (cstep new).

(** What the members that have finished returned. *)
Definition outcome {A} (c : Proc A) : option A :=
  match c with PRet a => Some a | PCall _ _ => None end.
Definition outcomes {A} (s : Pool A) : list A := omap outcome s.1.

(** An executable run: the schedule says whose turn it is; a member that has
    finished, or does not exist, passes. *)
Definition step_at {A} (i : nat) (s : Pool A) : Pool A :=
  match s.1 !! i with
  | Some (PCall m k) => (<[i := k (m s.2).1]> s.1, (m s.2).2)
  | _ => s
  end.

Definition run_pool {A} (schedule : list nat) (s : Pool A) : Pool A := foldl (λ s i, step_at i s) s schedule.

Lemma run_pool_reaches {A} (new : Proc A → Prop) schedule (s : Pool A) :
  reaches new s (run_pool schedule s).
Proof.
  revert s. induction schedule as [|i rest IH]; intros s; [done|].
  cbn. etrans; [|apply IH]. destruct s as [l w]. unfold step_at. cbn [fst snd].
  destruct (l !! i) as [[a|B m k]|] eqn:Hl; [done| |done].
  apply rtc_once. by apply cstep_call.
Qed.

(** ** Invariants *)

(** Every call of the computation keeps [I], whatever happened in between, and
    what it returns satisfies [Q]. *)
Fixpoint keeps {A} (I : World → Prop) (Q : A → Prop) (c : Proc A) : Prop :=
  match c with
  | PRet a => Q a
  | PCall m k => (∀ w, I w → I (m w).2) ∧ (∀ w, I w → keeps I Q (k (m w).1))
  end.

Lemma keeps_atom {A B} (I : World → Prop) (Q : A → Prop) (m : M B) (k : B → Proc A) :
  (∀ w, I w → I (m w).2) → (∀ w b, I w → (m w).1 = b → keeps I Q (k b)) → keeps I Q (PCall m k).
Proof. intros Hm Hk. split; [done|]. intros w Hw. by apply (Hk w). Qed.

Lemma keeps_ok {A B} (I : World → Prop) Q (m : MR B) (k : B → Proc (result A AppError)) :
  (∀ w, I w → I (m w).2) → (∀ e, Q (Err e)) →
  (∀ w b, I w → (m w).1 = Ok b → keeps I Q (k b)) → keeps I Q (pbind_ok m k).
Proof.
  intros Hm Hq Hk. split; [done|]. intros w Hw.
  destruct (m w).1 as [b|e] eqn:Hr; [by eapply Hk|apply Hq].
Qed.

Lemma keeps_bind_ret {A B} (I : World → Prop) (Q : B → Prop) (c : Proc A) (g : A → B) :
  keeps I (Q ∘ g) c → keeps I Q (pbind c (λ a, PRet (g a))).
Proof.
  induction c as [a|C m k IH]; cbn; [done|]. intros [Hm Hk]. split; [done|].
  intros w Hw. by apply IH, Hk.
Qed.

Lemma pool_invariant {A} (new : Proc A → Prop) (I : World → Prop) Q (s s' : Pool A) :
  reaches new s s' → (∀ c, new c → keeps I Q c) → Forall (keeps I Q) s.1 → I s.2 →
  I s'.2 ∧ Forall (keeps I Q) s'.1.
Proof.
  intros Hr Hnew. induction Hr as [s|s1 s2 s3 Hs _ IH]; [done|]. intros Hl Hw. destruct Hs.
  - cbn in *. assert (Hk : keeps I Q (PCall m k)) by (by eapply Forall_lookup_1).
    destruct Hk as [Hm Hrest]. apply IH; [|by apply Hm].
    apply Forall_insert; [done|by apply Hrest].
  - apply IH; [|done]. cbn in *. apply Forall_app. split; [done|]. constructor; [by apply Hnew|done].
Qed.

Lemma pool_outcomes {A} (new : Proc A → Prop) (I : World → Prop) Q (s s' : Pool A) :
  reaches new s s' → (∀ c, new c → keeps I Q c) → Forall (keeps I Q) s.1 → I s.2 →
  I s'.2 ∧ Forall Q (outcomes s').
Proof.
  intros Hr Hnew Hl Hw. destruct (pool_invariant _ _ _ _ _ Hr Hnew Hl Hw) as [Hi Hk]. split; [done|].
  apply Forall_forall. intros a Ha. unfold outcomes in Ha.
  apply list_elem_of_omap in Ha as ([a'|] & Hin & Hout); [|done]. injection Hout as ->.
  rewrite Forall_forall in Hk. exact (Hk _ Hin).
Qed.

(** ** At most one winner

    [gone] says that a one-time token no longer exists. A [guarded] computation
    returns a winning answer only after one of its calls made the token go away,
    and no call brings it back. Then at most one member of a pool wins. *)

Section Once.
Context {A : Type} (I gone : World → Prop) (won : A → Prop).

Fixpoint spent (c : Proc A) : Prop :=
  match c with
  | PRet _ => True
  | PCall m k => ∀ w, I w → I (m w).2 ∧ (gone w → gone (m w).2) ∧ spent (k (m w).1)
  end.

Fixpoint guarded (c : Proc A) : Prop :=
  match c with
  | PRet a => ¬ won a
  | PCall m k => ∀ w, I w → I (m w).2 ∧
      (((gone w → gone (m w).2) ∧ guarded (k (m w).1)) ∨
       (¬ gone w ∧ gone (m w).2 ∧ spent (k (m w).1)))
  end.

Definition one_spent (s : Pool A) : Prop :=
  I s.2 ∧ (Forall guarded s.1 ∨
           (gone s.2 ∧ ∃ i, ∀ j c, s.1 !! j = Some c → if decide (j = i) then spent c else guarded c)).

Lemma one_spent_step new s s' :
  (∀ c, new c → guarded c) → cstep new s s' → one_spent s → one_spent s'.
Proof.
  intros Hnew Hs [Hi Hinv]. destruct Hs as [i B m k l w Hl|c l w Hc]; unfold one_spent; cbn [fst snd] in *.
  - destruct Hinv as [Hg|(Hgone & i0 & Hall)].
    + assert (Hc : guarded (PCall m k)) by (by eapply Forall_lookup_1).
      destruct (Hc w Hi) as [Hi' [[_ Hk]|(_ & Hg' & Hsp)]]; (split; [done|]).
      * left. by apply Forall_insert.
      * right. split; [done|]. exists i. intros j c. rewrite list_lookup_insert_Some.
        intros [(-> & <- & _)|(Hne & Hj)]; [by rewrite decide_True|].
        rewrite decide_False by done. by eapply Forall_lookup_1.
    + pose proof (Hall i _ Hl) as Hc. case_decide as Hii.
      * subst i0. destruct (Hc w Hi) as (Hi' & Hg' & Hsp). split; [done|]. right.
        split; [by apply Hg'|]. exists i. intros j c. rewrite list_lookup_insert_Some.
        intros [(-> & <- & _)|(Hne & Hj)]; [by rewrite decide_True|].
        pose proof (Hall j c Hj) as Hcj. by rewrite decide_False in Hcj |- * by done.
      * destruct (Hc w Hi) as [Hi' [[Hg' Hk]|(Hn & _)]]; [|done]. split; [done|]. right.
        split; [by apply Hg'|]. exists i0. intros j c. rewrite list_lookup_insert_Some.
        intros [(-> & <- & _)|(Hne & Hj)]; [by rewrite decide_False by done|by apply Hall].
  - split; [done|]. destruct Hinv as [Hg|(Hgone & i0 & Hall)].
    + left. apply Forall_app. auto.
    + right. split; [done|]. destruct (decide (i0 < length l)) as [Hlt|Hge].
      * exists i0. intros j c'. rewrite lookup_app_Some.
        intros [Hj|[Hle Hj]]; [by apply Hall|]. rewrite decide_False by lia.
        apply list_lookup_singleton_Some in Hj as [_ <-]. auto.
      * exists (S (length l)). intros j c'. rewrite lookup_app_Some.
        intros [Hj|[Hle Hj]].
        -- pose proof (lookup_lt_Some _ _ _ Hj). pose proof (Hall j c' Hj) as Hcj.
           rewrite decide_False in Hcj by lia. by rewrite decide_False by lia.
        -- apply list_lookup_singleton_Some in Hj as [Hj <-]. rewrite decide_False by lia. auto.
Qed.

Lemma at_most_one_winner new s s' i j a b :
  (∀ c, new c → guarded c) → Forall guarded s.1 → I s.2 → reaches new s s' →
  s'.1 !! i = Some (PRet a) → s'.1 !! j = Some (PRet b) → won a → won b → i = j.
Proof.
  intros Hnew Hl Hi Hr. assert (Hs : one_spent s) by (split; auto).
  assert (Hs' : one_spent s').
  { clear Hl Hi. induction Hr; [done|]. apply IHHr. by eapply one_spent_step. }
  intros Ha Hb Hwa Hwb. destruct Hs' as [_ [Hg|(_ & i0 & Hall)]].
  - exfalso. eapply Forall_lookup_1 in Hg; [|exact Ha]. by apply Hg.
  - pose proof (Hall _ _ Ha) as H1. pose proof (Hall _ _ Hb) as H2.
    repeat case_decide; try congruence; exfalso; by (apply H1 || apply H2).
Qed.
End Once.
End Interleave.

Arguments Proc {R} A.
Arguments PRet {R A} a.
Arguments PCall {R A B} m k.
Arguments Pool {R} A.

Notation "'do!' x ':=' m 'in' k" := (PCall m (λ x, k))
  (at level 10, x pattern, m at level 200, k at level 200) : rust_scope.
Notation "'do!?' x ':=' m 'in' k" := (pbind_ok m (λ x, k))
  (at level 10, x pattern, m at level 200, k at level 200) : rust_scope.

(** Compares a cut computation with the one it was cut from. *)
Ltac cut :=
  repeat match goal with
  | |- solo (PRet _) _ = _ => reflexivity
  | |- solo (pbind_ok _ _) _ = mbind_ok _ _ _ => apply solo_mbind_ok; intros ??
  | |- solo (PCall _ _) _ = mbind_ (mbind_ _ _) _ _ => rewrite mbind_assoc
  | |- solo (PCall _ _) _ = mbind_ _ _ _ => apply solo_mbind; intros ??; cbn beta
  | |- solo (match ?x with _ => _ end) _ = _ => destruct x
  | |- solo (if ?x then _ else _) _ = _ => destruct x
  end; try done.
