(* ===== verification/Stores.v ===== *)
(** * The Redis-backed stores

    crates/infra/src/redis.rs: presence, shard leases, device locations, one-time
    tickets, revocations, delivery statistics and replay cursors. The Lua scripts
    are functions from the server's clock and state to a reply and a new state;
    the server runs each of them as one atomic step. What a coordinate becomes when
    it is written into a location record and read again is [record_f64]. *)

From S2P Require Import Prelude F64 Str Errors Geo Domain Registry Redis World.

Open Scope Z_scope.

Definition PRESENCE_TTL_SECONDS : Z := 60.

(** [serde_json] on [DeviceLocationRecord]. *)
Record DeviceLocationRecord : Type := MkLocRecord {
  lr_lat : f64; lr_lon : f64; lr_shard_prefix : string;
}.

Class LocRecordCodec : Type := {
  loc_record_json : DeviceLocationRecord → string;
  parse_loc_record : string → result DeviceLocationRecord string;
  (** what is read where a double was written, see [Domain.reread_alert] *)
  record_f64 : f64 → option f64;
}.

(** A record that went through JSON. *)
Definition reread_record `{LocRecordCodec} (r : DeviceLocationRecord) : option DeviceLocationRecord :=
  la ← record_f64 (lr_lat r); lo ← record_f64 (lr_lon r); Some (MkLocRecord la lo (lr_shard_prefix r)).

(** The shard is a text, and exact. *)
Lemma reread_record_shard `{LocRecordCodec} r r' :
  reread_record r = Some r' → lr_shard_prefix r' = lr_shard_prefix r.
Proof.
  unfold reread_record. destruct (record_f64 (lr_lat r)); [|done]. cbn.
  destruct (record_f64 (lr_lon r)); [|done]. cbn. by intros [= <-].
Qed.

Class LocRecordLaws (C : LocRecordCodec) : Prop := {
  parse_loc_record_json r r' :
    parse_loc_record (loc_record_json r) = Ok r' ↔ reread_record r = Some r';
}.

(** chrono's RFC 3339 texts: printing with microseconds, and reading. *)
Class Rfc3339 : Type := {
  to_rfc3339_micros : DateTime → string;
  parse_from_rfc3339 : string → result DateTime string;
}.

(** The texts of the instants in [ok] all have the same width; so they are read
    back up to the microsecond and sort like the instants. *)
Class Rfc3339Laws (F : Rfc3339) (ok : DateTime → Prop) : Prop := {
  rfc3339_parse t : ok t → parse_from_rfc3339 (to_rfc3339_micros t) = Ok (to_micros t);
  rfc3339_order a b : ok a → ok b →
    str_gtb (to_rfc3339_micros a) (to_rfc3339_micros b) = (to_micros b <? to_micros a);
}.

Section Stores.
Context {R : RedisServer} {E : Env} {UC : UuidCodec} {LC : LocRecordCodec} {F : Rfc3339}.

(** ** Presence *)

Definition PresenceRegistry_key (device_id : string) : string := "presence:" +:+ device_id.

Definition PresenceRegistry_register (device_id worker_instance_id : string) : MR unit :=
  redis_call (λ now r, ((), cmd_set now (PresenceRegistry_key device_id) worker_instance_id
                              (Some PRESENCE_TTL_SECONDS) r)).

Definition PresenceRegistry_heartbeat (device_id : string) : MR unit :=
  redis_call (λ now r, ((), cmd_expire now (PresenceRegistry_key device_id)
                              PRESENCE_TTL_SECONDS r)).

Definition PresenceRegistry_lookup (device_id : string) : MR (option string) :=
  redis_read (λ now, cmd_get now (PresenceRegistry_key device_id)).

Definition PresenceRegistry_deregister (device_id : string) : MR unit :=
  redis_call (λ now r, ((), (cmd_del now (PresenceRegistry_key device_id) r).2)).

(** ** Shard leases *)

Definition CLAIM_LUA (key url : string) (ttl : Z) (now : Z) (r : rdb) : Z * rdb :=
  match cmd_get now key r with
  | None => (1, cmd_set now key url (Some ttl) r)
  | Some cur => if decide (cur = url) then (1, cmd_expire now key ttl r) else (0, r)
  end.

Definition RELEASE_LUA (key url : string) (now : Z) (r : rdb) : Z * rdb :=
  if decide (cmd_get now key r = Some url) then cmd_del now key r else (0, r).

Definition ShardRegistry_key (shard_prefix : string) : string := "shard-worker:" +:+ shard_prefix.

Definition ShardRegistry_register_shard (shard_prefix worker_ws_url : string) : MR unit :=
  redis_call (λ now r, ((), cmd_set now (ShardRegistry_key shard_prefix) worker_ws_url None r)).

Definition ShardRegistry_lookup_shard (shard_prefix : string) : MR (option string) :=
  redis_read (λ now, cmd_get now (ShardRegistry_key shard_prefix)).

Definition ShardRegistry_claim_shard (shard_prefix worker_ws_url : string) (ttl_secs : Z) : MR bool :=
  let!? won := redis_call (CLAIM_LUA (ShardRegistry_key shard_prefix) worker_ws_url ttl_secs) in
  mret_ (Ok (won =? 1)).

Definition ShardRegistry_release_shard (shard_prefix worker_ws_url : string) : MR bool :=
  let!? deleted := redis_call (RELEASE_LUA (ShardRegistry_key shard_prefix) worker_ws_url) in
  mret_ (Ok (deleted =? 1)).

(** ** Device locations *)

Definition DeviceLocationRecord_location (self : DeviceLocationRecord) : result Location AppError :=
  Location_new (lr_lat self) (lr_lon self).

Definition DeviceLocationStore_key (device_id : Uuid) : string :=
  "device-loc:" +:+ uuid_to_string device_id.

Definition DeviceLocationStore_set (device_id : Uuid) (record : DeviceLocationRecord)
    (ttl_secs : Z) : MR unit :=
  redis_call (λ now r, ((), cmd_set now (DeviceLocationStore_key device_id)
                              (loc_record_json record) (Some ttl_secs) r)).

Definition DeviceLocationStore_get (device_id : Uuid) : MR (option DeviceLocationRecord) :=
  let!? raw := redis_read (λ now, cmd_get now (DeviceLocationStore_key device_id)) in
  mret_ match raw with
        | None => Ok None
        | Some s => result_map Some (map_err Cache (parse_loc_record s))
        end.

Definition DeviceLocationStore_delete (device_id : Uuid) : MR unit :=
  redis_call (λ now r, ((), (cmd_del now (DeviceLocationStore_key device_id) r).2)).

(** ** Tickets *)

Definition CONSUME_LUA (key : string) (now : Z) (r : rdb) : option string * rdb :=
  match cmd_get now key r with
  | Some v => (Some v, (cmd_del now key r).2)
  | None => (None, r)
  end.

Definition is_ticket_shaped (ticket : string) : bool :=
  (str_len ticket =? 64) && str_forallb is_ascii_hexdigit ticket.

Definition WsTicketStore_key (ticket : string) : string := "ws-ticket:" +:+ ticket.

Definition WsTicketStore_issue (ticket : string) (device_id : Uuid) (ttl_secs : Z) : MR unit :=
  redis_call (λ now r, ((), cmd_set now (WsTicketStore_key ticket) (uuid_to_string device_id)
                              (Some ttl_secs) r)).

Definition WsTicketStore_consume (ticket : string) : MR (option Uuid) :=
  if negb (is_ticket_shaped ticket) then mret_ (Ok None) else
  let!? raw := redis_call (CONSUME_LUA (WsTicketStore_key ticket)) in
  mret_ (Ok (raw ≫= uuid_parse_str)).

(** ** Revocations *)

Definition RevocationStore_key (device_id : Uuid) : string := "revoked:" +:+ uuid_to_string device_id.

Definition RevocationStore_revoke (device_id : Uuid) (ttl_secs : Z) : MR unit :=
  redis_call (λ now r, ((), cmd_set now (RevocationStore_key device_id) "1" (Some ttl_secs) r)).

Definition RevocationStore_is_revoked (device_id : Uuid) : MR bool :=
  redis_read (λ now, cmd_exists now (RevocationStore_key device_id)).

(** ** Delivery statistics *)

Record ShardStats : Type := MkShardStats { ss_delivered : Z; ss_dropped : Z; ss_filtered_out : Z }.

Definition ShardStats_default : ShardStats := MkShardStats 0 0 0.

Record AlertStats : Type := MkAlertStats {
  as_delivered : Z; as_dropped : Z; as_filtered_out : Z;
  as_per_shard : gmap string ShardStats;
}.

Definition AlertStatsStore_key (alert_id : Uuid) : string :=
  "alert-stats:" +:+ uuid_to_string alert_id.

(** The increments of one report, in the order of the pipeline. *)
Definition stats_increments (shard_prefix : string) (delivered dropped filtered_out : Z)
    : list (string * Z) :=
  [("delivered", delivered); ("dropped", dropped); ("filtered_out", filtered_out);
   ("delivered:" +:+ shard_prefix, delivered); ("dropped:" +:+ shard_prefix, dropped);
   ("filtered_out:" +:+ shard_prefix, filtered_out)].

(** The pipeline is atomic. *)
Definition AlertStatsStore_record (alert_id : Uuid) (shard_prefix : string)
    (delivered dropped filtered_out ttl_secs : Z) : MR unit :=
  let key := AlertStatsStore_key alert_id in
  redis_call (λ now r,
    let r1 := foldl (λ r '(field, delta), cmd_hincrby now key field delta r) r
                (stats_increments shard_prefix delivered dropped filtered_out) in
    ((), cmd_expire now key ttl_secs r1)).

(** One field of the hash, read into the per-shard table. *)
Definition stats_field (acc : gmap string ShardStats) (fv : string * Z) : gmap string ShardStats :=
  let '(field, value) := fv in
  match split_once ":" field with
  | Some (kind, shard) =>
    let entry := default ShardStats_default (acc !! shard) in
    let entry' :=
      if decide (kind = "delivered") then MkShardStats value (ss_dropped entry) (ss_filtered_out entry)
      else if decide (kind = "dropped") then MkShardStats (ss_delivered entry) value (ss_filtered_out entry)
      else if decide (kind = "filtered_out") then MkShardStats (ss_delivered entry) (ss_dropped entry) value
      else entry in
    <[shard := entry']> acc
  | None => acc
  end.

Definition read_stats {MO : MapOrder string Z} (fields : gmap string Z) : option AlertStats :=
  if decide (fields = ∅) then None else
  Some (MkAlertStats (default 0 (fields !! "delivered")) (default 0 (fields !! "dropped"))
          (default 0 (fields !! "filtered_out"))
          (foldl stats_field ∅ (map_iter fields))).

Definition AlertStatsStore_get {MO : MapOrder string Z} (alert_id : Uuid) : MR (option AlertStats) :=
  let!? fields := redis_read (λ now, cmd_hgetall now (AlertStatsStore_key alert_id)) in
  mret_ (Ok (read_stats fields)).

(** ** Replay cursors *)

Definition ADVANCE_LUA (key ts : string) (ttl : Z) (now : Z) (r : rdb) : Z * rdb :=
  match cmd_get now key r with
  | None => (1, cmd_set now key ts (Some ttl) r)
  | Some cur =>
    if str_gtb ts cur then (1, cmd_set now key ts (Some ttl) r)
    else (0, cmd_expire now key ttl r)
  end.

Definition format_cursor (ts : DateTime) : string := to_rfc3339_micros ts.

Definition AckCursorStore_key (device_id : Uuid) : string := "last-ack:" +:+ uuid_to_string device_id.

Definition AckCursorStore_advance (device_id : Uuid) (ts : DateTime) (ttl_secs : Z) : MR bool :=
  let!? moved := redis_call (ADVANCE_LUA (AckCursorStore_key device_id) (format_cursor ts) ttl_secs) in
  mret_ (Ok (moved =? 1)).

Definition AckCursorStore_get (device_id : Uuid) : MR (option DateTime) :=
  let!? raw := redis_read (λ now, cmd_get now (AckCursorStore_key device_id)) in
  mret_ match raw with
        | None => Ok None
        | Some s => result_map Some (map_err Cache (parse_from_rfc3339 s))
        end.
End Stores.

(** ** Commands of other clients

    [foreign key now r later r']: between [now] and [later] other clients ran
    any number of commands on other keys, and time passed. *)

Section Foreign.
Context {R : RedisServer} {view : Z → string → rdb → option entry} {RL : RedisLaws R view}.

Inductive foreign (key : string) : Z → rdb → Z → rdb → Prop :=
| foreign_wait now later r : now ≤ later → foreign key now r later r
| foreign_set now j v ttl r :
    j ≠ key → (∀ t, ttl = Some t → 0 < t) → foreign key now r now (cmd_set now j v ttl r)
| foreign_expire now j ttl r :
    j ≠ key → 0 < ttl → foreign key now r now (cmd_expire now j ttl r)
| foreign_del now j r : j ≠ key → foreign key now r now (cmd_del now j r).2
| foreign_seq t1 r1 t2 r2 t3 r3 :
    foreign key t1 r1 t2 r2 → foreign key t2 r2 t3 r3 → foreign key t1 r1 t3 r3.

(** An entry after time has passed. *)
Definition aged (later : Z) (e : option entry) : option entry :=
  match e with Some e => if expired later e then None else Some e | None => None end.

Lemma expired_mono now later e : now ≤ later → expired now e = true → expired later e = true.
Proof. unfold expired. destruct e.2; [|done]. intros. apply Z.leb_le. lia. Qed.

Lemma aged_aged t1 t2 e : t1 ≤ t2 → aged t2 (aged t1 e) = aged t2 e.
Proof.
  intros Hle. destruct e as [e|]; [|done]. simpl.
  destruct (expired t1 e) eqn:H1; [|done]. simpl. by rewrite (expired_mono t1).
Qed.

Lemma view_aged now later k r : now ≤ later → view later k r = aged later (view now k r).
Proof. apply view_later. Qed.

Lemma view_aged_now now k r : aged now (view now k r) = view now k r.
Proof.
  destruct (view now k r) as [e|] eqn:H1; [|done]. simpl. by rewrite (view_live _ _ _ _ H1).
Qed.

Lemma foreign_view key now r later r' :
  foreign key now r later r' → now ≤ later ∧ view later key r' = aged later (view now key r).
Proof.
  induction 1 as [now later r Hle|now j v ttl r Hj Ht|now j ttl r Hj Ht|now j r Hj
                 |t1 r1 t2 r2 t3 r3 _ [H12 IH1] _ [H23 IH2]].
  - split; [done|]. by apply view_aged.
  - split; [lia|]. by rewrite view_set, decide_False, view_aged_now.
  - split; [lia|]. by rewrite view_expire, decide_False, view_aged_now.
  - split; [lia|]. by rewrite view_del, decide_False, view_aged_now.
  - split; [lia|]. by rewrite IH2, IH1, aged_aged.
Qed.

Lemma revoke_foreign {E : Env} {UC : UuidCodec} d ttl w w' later r' :
  0 < ttl → RevocationStore_revoke d ttl w = (Ok (), w') →
  foreign (RevocationStore_key d) (env_clock (w_tick w)) (w_redis w') later r' →
  cmd_exists later (RevocationStore_key d) r' =
    (later <? env_clock (w_tick w) + ttl_ns ttl).
Proof.
  intros Ht Hrev Hf. unfold RevocationStore_revoke in Hrev.
  pose proof (redis_call_cases (λ now r, ((), cmd_set now (RevocationStore_key d) "1" (Some ttl) r)) w)
    as Hc. rewrite Hrev in Hc. destruct Hc as (_ & _ & _ & _ & [= Hr]).
  apply foreign_view in Hf as [Hle Hv]. rewrite exists_view, Hv, <- Hr.
  rewrite view_set, decide_True by (done || naive_solver). simpl. unfold expired; simpl.
  destruct (Z.leb_spec (env_clock (w_tick w) + ttl_ns ttl) later) as [Hx|Hx].
  - rewrite bool_decide_eq_false_2 by (by intros []). symmetry. by apply Z.ltb_ge.
  - rewrite bool_decide_eq_true_2 by eauto. symmetry. by apply Z.ltb_lt.
Qed.

(** A revocation stays in force. Once [revoke] took effect, then whatever
    other clients do on other keys, [is_revoked] answers true until the time to
    live has passed, and false afterwards. *)
Theorem revocation_persists {E : Env} {UC : UuidCodec} d ttl w w' later r' :
  0 < ttl → RevocationStore_revoke d ttl w = (Ok (), w') →
  foreign (RevocationStore_key d) (env_clock (w_tick w)) (w_redis w') later r' →
  cmd_exists later (RevocationStore_key d) r' =
    (later <? env_clock (w_tick w) + ttl_ns ttl).
Proof. apply revoke_foreign. Qed.
End Foreign.

(** ** Tickets *)

Section Tickets.
Context {R : RedisServer} {view : Z → string → rdb → option entry} {RL : RedisLaws R view}.
Context {E : Env} {UC : UuidCodec} {UL : UuidCodecLaws UC}.

(** The clock of the world does not run backwards. *)
Definition clock_monotone : Prop := ∀ n, env_clock n ≤ env_clock (S n).

Lemma clock_le : clock_monotone → ∀ n m, (n ≤ m)%nat → env_clock n ≤ env_clock m.
Proof. intros Hm n m. induction 1 as [|m _ IH]; [done|]. etrans; [exact IH|apply Hm]. Qed.

Definition ticket_ok (r : result (option Uuid) AppError) : Prop :=
  match r with Ok (Some _) => True | _ => False end.

Global Instance ticket_ok_dec r : Decision (ticket_ok r).
Proof. destruct r as [[]|]; apply _. Defined.

(** [n] attempts to use one ticket, one after the other. *)
Fixpoint consume_attempts (ticket : string) (n : nat) : M (list (result (option Uuid) AppError)) :=
  match n with
  | O => mret_ []
  | S n =>
    let! x := WsTicketStore_consume ticket in
    let! xs := consume_attempts ticket n in
    mret_ (x :: xs)
  end.

Lemma CONSUME_LUA_view key now r :
  str_at (view := view) now key r →
  view now key (CONSUME_LUA key now r).2 = None.
Proof.
  intros Hs. unfold CONSUME_LUA. rewrite (get_view (view := view)) by done.
  destruct (view now key r) as [[[s|h] d]|] eqn:Hv; simpl.
  - by rewrite view_del, decide_True.
  - destruct (Hs _ Hv). done.
  - done.
Qed.

Lemma CONSUME_LUA_gone key now r :
  view now key r = None → CONSUME_LUA key now r = (None, r).
Proof. intros Hv. unfold CONSUME_LUA. by rewrite (get_none (view := view)). Qed.

(** A state of the ticket's key between two attempts. *)
Definition ticket_gone (ticket : string) (w : World) : Prop :=
  view (env_clock (w_tick w)) (WsTicketStore_key ticket) (w_redis w) = None.

Lemma consume_cases ticket w :
  clock_monotone → str_at (view := view) (env_clock (w_tick w)) (WsTicketStore_key ticket) (w_redis w) →
  let '(x, w') := WsTicketStore_consume ticket w in
  str_at (view := view) (env_clock (w_tick w')) (WsTicketStore_key ticket) (w_redis w') ∧
  (ticket_ok x → ticket_gone ticket w') ∧
  (ticket_gone ticket w → ¬ ticket_ok x ∧ ticket_gone ticket w').
Proof.
  intros Hmono Hs. unfold WsTicketStore_consume.
  destruct (is_ticket_shaped ticket); cbn [negb]; [|unfold mret_; naive_solver].
  rewrite mbind_ok_run.
  pose proof (redis_call_cases (CONSUME_LUA (WsTicketStore_key ticket)) w) as Hc.
  destruct (redis_call _ w) as [r w']. destruct Hc as (_ & _ & _ & Htick & Hr). cbn [fst snd].
  set (key := WsTicketStore_key ticket) in *. set (now := env_clock (w_tick w)) in *.
  assert (Hle : now ≤ env_clock (w_tick w')) by (rewrite Htick; apply Hmono).
  assert (Hkeep : w_redis w' = w_redis w ∨ w_redis w' = (CONSUME_LUA key now (w_redis w)).2).
  { destruct r; [|by destruct Hr]. right. by rewrite Hr. }
  assert (Hs' : str_at (view := view) (env_clock (w_tick w')) key (w_redis w')).
  { intros e. rewrite (view_later now) by done. destruct Hkeep as [-> | ->].
    - destruct (view now key (w_redis w)) as [e'|] eqn:He; [|done].
      destruct (expired _ e'); [done|]. intros [= ->]. by apply Hs.
    - by rewrite CONSUME_LUA_view. }
  assert (Hgone : ∀ x, view now key x = None → view (env_clock (w_tick w')) key x = None).
  { intros x Hx. by rewrite (view_later now), Hx. }
  unfold ticket_gone. fold key now. destruct r as [v|e]; cbn [mret_].
  - split_and!; [done| |].
    + intros _. apply Hgone. rewrite <- (CONSUME_LUA_view key now (w_redis w)) by done. by rewrite Hr.
    + intros Hg. rewrite CONSUME_LUA_gone in Hr by done. injection Hr as <- <-. simpl. auto.
  - split_and!; [done|done|]. intros Hg. split; [naive_solver|].
    apply Hgone. destruct Hkeep as [-> | ->]; [done|]. by rewrite CONSUME_LUA_gone.
Qed.

Lemma attempts_after_gone ticket n w :
  clock_monotone → str_at (view := view) (env_clock (w_tick w)) (WsTicketStore_key ticket) (w_redis w) →
  ticket_gone ticket w → filter ticket_ok (consume_attempts ticket n w).1 = [].
Proof.
  intros Hmono. revert w. induction n as [|n IH]; intros w Hs Hg; [done|].
  cbn [consume_attempts]. rewrite mbind_run.
  pose proof (consume_cases ticket w Hmono Hs) as Hc.
  destruct (WsTicketStore_consume ticket w) as [x w']. destruct Hc as (Hs' & _ & Hno).
  destruct (Hno Hg) as [Hx Hg']. cbn [fst snd]. rewrite mbind_run. cbn [mret_ fst].
  rewrite filter_cons, decide_False by done. by apply IH.
Qed.

(** A WebSocket ticket is accepted at most once, however many connections
    present it, even when some of the calls to Redis fail before or after
    taking effect. *)
Theorem ticket_single_use ticket n w :
  clock_monotone → str_at (view := view) (env_clock (w_tick w)) (WsTicketStore_key ticket) (w_redis w) →
  (length (filter ticket_ok (consume_attempts ticket n w).1) ≤ 1)%nat.
Proof.
  intros Hmono. revert w. induction n as [|n IH]; intros w Hs; [simpl; lia|].
  cbn [consume_attempts]. rewrite mbind_run.
  pose proof (consume_cases ticket w Hmono Hs) as Hc.
  destruct (WsTicketStore_consume ticket w) as [x w']. destruct Hc as (Hs' & Hgone & _).
  cbn [fst snd]. rewrite mbind_run. cbn [mret_ fst]. rewrite filter_cons. case_decide as Hx.
  - rewrite attempts_after_gone by auto. done.
  - by apply IH.
Qed.

(** A ticket round trips: issued for a device and presented before its time
    to live is over, it is exchanged for that device; a text that is not 64
    hexadecimal digits is refused without a call to Redis. *)
Theorem ticket_roundtrip ticket d ttl w :
  0 < ttl → env_fault (w_tick w) = Works → env_fault (S (w_tick w)) = Works →
  env_clock (w_tick w) ≤ env_clock (S (w_tick w)) < env_clock (w_tick w) + ttl_ns ttl →
  let '(issued, w1) := WsTicketStore_issue ticket d ttl w in
  issued = Ok () ∧
  (WsTicketStore_consume ticket w1).1 = Ok (if is_ticket_shaped ticket then Some d else None) ∧
  (is_ticket_shaped ticket = false → (WsTicketStore_consume ticket w1).2 = w1).
Proof.
  intros Ht H0 H1 [Hle Hlt]. unfold WsTicketStore_issue. rewrite redis_call_works by done.
  split; [done|]. unfold WsTicketStore_consume.
  destruct (is_ticket_shaped ticket); cbn [negb]; [|done]. split; [|done].
  rewrite mbind_ok_run, redis_call_works by done. cbn [fst snd mret_ w_tick tick set_tick set_redis w_redis].
  unfold CONSUME_LUA.
  rewrite (get_str (view := view) _ _ _ (uuid_to_string d) (Some (env_clock (w_tick w) + ttl_ns ttl))).
  - simpl. by rewrite uuid_parse_to_string.
  - rewrite (view_later (env_clock (w_tick w))) by done.
    rewrite view_set, decide_True by (done || naive_solver). simpl. unfold expired; simpl.
    by rewrite (proj2 (Z.leb_gt _ _)) by lia.
Qed.
End Tickets.

(** ** Replay cursors *)

Section Cursor.
Context {R : RedisServer} {view : Z → string → rdb → option entry} {RL : RedisLaws R view}.
Context {F : Rfc3339} {ok : DateTime → Prop} {FL : Rfc3339Laws F ok}.

(** Acknowledgements reaching the server at given times, in any order of their
    own timestamps. *)
Fixpoint advance_all (key : string) (ttl : Z) (acks : list (Z * DateTime)) (r : rdb) : rdb :=
  match acks with
  | [] => r
  | (now, ts) :: acks => advance_all key ttl acks (ADVANCE_LUA key (format_cursor ts) ttl now r).2
  end.

(** The newest of the timestamps, to the microsecond. *)
Definition newest (cur : Z) (acks : list (Z * DateTime)) : Z :=
  foldl (λ m a, Z.max m (to_micros a.2)) cur acks.

(** Each call comes before the entry left by the previous one expires. *)
Fixpoint in_time (ttl prev : Z) (acks : list (Z * DateTime)) : Prop :=
  match acks with
  | [] => True
  | (now, _) :: acks => prev ≤ now < prev + ttl_ns ttl ∧ in_time ttl now acks
  end.

Definition last_time (prev : Z) (acks : list (Z * DateTime)) : Z :=
  foldl (λ _ a, a.1) prev acks.

Lemma ADVANCE_LUA_step key ttl cur prev now ts r :
  0 < ttl → ok cur → ok ts → prev ≤ now < prev + ttl_ns ttl →
  view prev key r = Some (RStr (format_cursor cur), Some (prev + ttl_ns ttl)) →
  let '(n, r') := ADVANCE_LUA key (format_cursor ts) ttl now r in
  ∃ cur', ok cur' ∧ to_micros cur' = Z.max (to_micros cur) (to_micros ts) ∧
    (n = 1 ↔ to_micros cur < to_micros ts) ∧
    view now key r' = Some (RStr (format_cursor cur'), Some (now + ttl_ns ttl)).
Proof.
  intros Ht Hcur Hts [Hle Hlt] Hv.
  assert (Hv' : view now key r = Some (RStr (format_cursor cur), Some (prev + ttl_ns ttl))).
  { rewrite (view_later prev), Hv by done. unfold expired; simpl.
    by rewrite (proj2 (Z.leb_gt _ _)) by lia. }
  unfold ADVANCE_LUA. rewrite (get_str _ _ _ _ _ Hv'). unfold format_cursor in *.
  rewrite rfc3339_order by done.
  destruct (Z.ltb_spec (to_micros cur) (to_micros ts)).
  - exists ts. split_and!; [done|lia|done|]. rewrite view_set, decide_True by naive_solver. done.
  - exists cur. split_and!; [done|lia|lia|]. by rewrite view_expire, decide_True, Hv'.
Qed.

(** C23: The replay cursor is the newest acknowledgement. Whatever the order in
    which acknowledgements reach the server, as long as the entry does not
    expire in between, the stored cursor is the maximum of their timestamps (to
    the microsecond): it never moves backwards and no acknowledgement is lost. *)
Theorem cursor_is_newest_ack key ttl now ts acks r :
  0 < ttl → ok ts → Forall (λ a, ok a.2) acks → in_time ttl now acks →
  view now key r = None →
  let r' := advance_all key ttl ((now, ts) :: acks) r in
  ∃ s, cmd_get (last_time now acks) key r' = Some s ∧
    parse_from_rfc3339 s = Ok (newest (to_micros ts) acks).
Proof.
  intros Ht Hts Hacks Hin Hv. cbn [advance_all].
  set (r1 := (ADVANCE_LUA key (format_cursor ts) ttl now r).2).
  assert (Hv1 : view now key r1 = Some (RStr (format_cursor ts), Some (now + ttl_ns ttl))).
  { unfold r1, ADVANCE_LUA. rewrite (get_none _ _ _ Hv). simpl.
    by rewrite view_set, decide_True by naive_solver. }
  clearbody r1. clear Hv r. cbv zeta. revert now ts r1 Hts Hin Hv1.
  induction acks as [|[t a] acks IH]; intros now cur r1 Hcur Hin Hv1.
  - exists (format_cursor cur). split; [by apply (get_str _ _ _ _ _ Hv1)|]. by apply rfc3339_parse.
  - apply Forall_cons in Hacks as [Ha Hacks]. destruct Hin as [Htime Hin].
    pose proof (ADVANCE_LUA_step key ttl cur now t a r1 Ht Hcur Ha Htime Hv1) as Hstep.
    cbn [advance_all]. destruct (ADVANCE_LUA key (format_cursor a) ttl t r1) as [n r2].
    destruct Hstep as (cur' & Hc' & Hmax & _ & Hv2).
    destruct (IH Hacks t cur' r2 Hc' Hin Hv2) as (s & Hg & Hp). exists s. split; [done|].
    rewrite Hp, Hmax. done.
Qed.
End Cursor.

(** ** Delivery statistics *)

Section Stats.

Definition hash_add (h : gmap string Z) (fd : string * Z) : gmap string Z :=
  <[fd.1 := default 0 (h !! fd.1) + fd.2]> h.

(** One worker's report: shard, delivered, dropped, filtered out. *)
Definition report : Type := string * (Z * Z * Z).

Definition report_increments (p : report) : list (string * Z) :=
  stats_increments p.1 p.2.1.1 p.2.1.2 p.2.2.

Definition sum_of (f : report → Z) (ps : list report) : Z := foldr (λ p s, f p + s) 0 ps.

Definition on_shard_only (s : string) (f : report → Z) (p : report) : Z :=
  if decide (p.1 = s) then f p else 0.

(** What the per-shard table should show for a shard. *)
Definition shard_view (m : gmap string Z) (s : string) : option ShardStats :=
  match m !! ("delivered:" +:+ s), m !! ("dropped:" +:+ s), m !! ("filtered_out:" +:+ s) with
  | None, None, None => None
  | a, b, c => Some (MkShardStats (default 0 a) (default 0 b) (default 0 c))
  end.

(** The name of a per-shard field. *)
Definition kind_field (k s : string) : string := k +:+ String ":" s.

(** The names of the hash's fields. *)
Definition stats_field_name (f : string) : Prop :=
  f = "delivered" ∨ f = "dropped" ∨ f = "filtered_out" ∨
  ∃ s, f = kind_field "delivered" s ∨ f = kind_field "dropped" s ∨ f = kind_field "filtered_out" s.


Lemma kind_field_inj k s t : kind_field k s = kind_field k t → s = t.
Proof. unfold kind_field. intros H. apply (inj _) in H. by injection H. Qed.

Lemma kind_field_split k s :
  str_contains k ":" = false → split_once ":" (kind_field k s) = Some (k, s).
Proof. apply split_once_app. Qed.

Lemma shard_view_fields m s :
  shard_view m s =
  match m !! kind_field "delivered" s, m !! kind_field "dropped" s,
        m !! kind_field "filtered_out" s with
  | None, None, None => None
  | a, b, c => Some (MkShardStats (default 0 a) (default 0 b) (default 0 c))
  end.
Proof. done. Qed.

Lemma kind_field_ne k1 k2 s t :
  str_contains k1 ":" = false → str_contains k2 ":" = false → k1 ≠ k2 →
  kind_field k1 s ≠ kind_field k2 t.
Proof.
  intros H1 H2 Hne Heq. apply (f_equal (split_once ":")) in Heq.
  rewrite !kind_field_split in Heq by done. congruence.
Qed.

Lemma stats_field_step acc (m : gmap string Z) f v :
  stats_field_name f → m !! f = None →
  (∀ s, acc !! s = shard_view m s) → ∀ s, stats_field acc (f, v) !! s = shard_view (<[f := v]> m) s.
Proof.
  intros Hf Hm Hacc s. rewrite shard_view_fields.
  assert (Hkind : ∀ k t, m !! kind_field k t = None → f = kind_field k t →
    k = "delivered" ∨ k = "dropped" ∨ k = "filtered_out" →
    stats_field acc (f, v) !! s = shard_view (<[f := v]> m) s).
  { clear Hf. intros k t Hn -> Hk. unfold stats_field.
    rewrite kind_field_split by (destruct Hk as [-> |[-> | ->]]; done).
    rewrite (Hacc t), shard_view_fields. destruct (decide (s = t)) as [->|Hne].
    - rewrite lookup_insert_eq, shard_view_fields.
      destruct Hk as [-> |[-> | ->]];
        repeat (rewrite decide_True by done || rewrite decide_False by done);
        rewrite Hn, lookup_insert_eq, !lookup_insert_ne by (by apply kind_field_ne);
        repeat case_match; simplify_eq/=; done.
    - rewrite lookup_insert_ne, Hacc, !shard_view_fields by done.
      destruct Hk as [-> |[-> | ->]];
        rewrite !lookup_insert_ne by
          ((by apply kind_field_ne) || (intros ?%kind_field_inj; congruence));
        done. }
  destruct Hf as [-> |[-> |[-> |[t [-> |[-> | ->]]]]]].
  1-3: simpl; rewrite Hacc, shard_view_fields, !lookup_insert_ne by done; done.
  - by apply (Hkind "delivered" t); [..|left].
  - by apply (Hkind "dropped" t); [..|right; left].
  - by apply (Hkind "filtered_out" t); [..|right; right].
Qed.

Lemma stats_fold (l : list (string * Z)) :
  NoDup l.*1 → Forall stats_field_name l.*1 →
  ∀ s, foldl stats_field ∅ l !! s = shard_view (list_to_map l) s.
Proof.
  induction l as [|[f v] l IH] using rev_ind; intros Hnd Hn s; [done|].
  rewrite fmap_app in Hnd, Hn. apply NoDup_app in Hnd as (Hnd & Hdis & _).
  apply Forall_app in Hn as [Hn Hf]. apply Forall_cons in Hf as [Hf _].
  assert (f ∉ l.*1) as Hnin by (intros Hin; apply (Hdis f Hin); by left).
  rewrite foldl_app, list_to_map_snoc by done. simpl.
  apply stats_field_step; [done| |by apply IH]. by apply not_elem_of_list_to_map_1.
Qed.

Lemma read_stats_shards {MO : MapOrder string Z} (h : gmap string Z) st :
  (∀ f, is_Some (h !! f) → stats_field_name f) → read_stats h = Some st →
  ∀ s, as_per_shard st !! s = shard_view h s.
Proof.
  intros Hn. unfold read_stats. case_decide; [done|]. intros [= <-] s. cbn [as_per_shard].
  assert (Hperm : map_iter h ≡ₚ map_to_list h) by apply map_iter_perm.
  assert (Hnd : NoDup (map_iter h).*1) by (rewrite Hperm; apply NoDup_fst_map_to_list).
  rewrite stats_fold; [|done|].
  - f_equal. rewrite <- (list_to_map_to_list h) at 2. by apply list_to_map_proper.
  - apply Forall_forall. intros f. rewrite Hperm, list_elem_of_fmap.
    intros ([f' v] & -> & Hv%elem_of_map_to_list). apply Hn. eauto.
Qed.

(** The amount a list of increments adds to a field. *)
Definition inc_sum (f : string) (incs : list (string * Z)) : Z :=
  foldr (λ fd s, (if decide (fd.1 = f) then fd.2 else 0) + s) 0 incs.

Lemma inc_sum_app f a b : inc_sum f (a ++ b) = inc_sum f a + inc_sum f b.
Proof. unfold inc_sum. induction a as [|x a IH]; simpl; [done|]. rewrite IH. lia. Qed.

Lemma hash_add_all_lookup incs h f :
  foldl hash_add h incs !! f =
  if decide (f ∈ incs.*1) then Some (default 0 (h !! f) + inc_sum f incs) else h !! f.
Proof.
  revert h. induction incs as [|[g n] incs IH]; intros h; [done|]. cbn [foldl].
  rewrite IH. unfold hash_add; cbn [fst snd]. rewrite fmap_cons; cbn [fst].
  unfold inc_sum; cbn [foldr fst snd]. fold (inc_sum f incs).
  pose proof (elem_of_cons (incs.*1) f g) as Hc. destruct (decide (f = g)) as [->|Hne].
  - rewrite lookup_insert_eq, (decide_True (P := g = g)) by done. cbn [default from_option].
    rewrite (decide_True (P := g ∈ g :: incs.*1)) by tauto. unfold from_option, id.
    case_decide as Hin; f_equal; [lia|].
    enough (inc_sum g incs = 0) by lia. clear -Hin.
    induction incs as [|[x v] incs IH]; [done|]. unfold inc_sum; cbn [foldr fst snd].
    fold (inc_sum g incs). rewrite fmap_cons in Hin. apply not_elem_of_cons in Hin as [Hx Hin].
    rewrite decide_False, IH by (by cbn in *). done.
  - rewrite lookup_insert_ne by done. rewrite (decide_False (P := g = f)) by done.
    repeat case_decide; tauto.
Qed.

Lemma kind_field_plain k s x :
  str_contains k ":" = false → str_contains x ":" = false → kind_field k s ≠ x.
Proof.
  intros Hk Hx <-. apply split_once_None in Hx. by rewrite kind_field_split in Hx.
Qed.

Lemma report_sum_total p f k :
  (f = "delivered" ∧ k = p.2.1.1) ∨ (f = "dropped" ∧ k = p.2.1.2) ∨
  (f = "filtered_out" ∧ k = p.2.2) → inc_sum f (report_increments p) = k.
Proof.
  destruct p as [s [[a b] c]]. intros [[-> ->]|[[-> ->]|[-> ->]]];
    unfold report_increments, stats_increments, inc_sum; cbn [foldr fst snd];
    change ("delivered:" +:+ s) with (kind_field "delivered" s);
    change ("dropped:" +:+ s) with (kind_field "dropped" s);
    change ("filtered_out:" +:+ s) with (kind_field "filtered_out" s);
    repeat first [ rewrite decide_True by done | rewrite decide_False by done
                 | rewrite decide_False by (by apply kind_field_plain) ]; lia.
Qed.

Lemma report_sum_shard p s kind k :
  (kind = "delivered" ∧ k = p.2.1.1) ∨ (kind = "dropped" ∧ k = p.2.1.2) ∨
  (kind = "filtered_out" ∧ k = p.2.2) →
  inc_sum (kind_field kind s) (report_increments p) = if decide (p.1 = s) then k else 0.
Proof.
  destruct p as [t [[a b] c]]. cbn [fst snd]. intros Hk.
  assert (Hne : ∀ x, str_contains x ":" = false → x ≠ kind_field kind s).
  { intros x Hx Hxs. symmetry in Hxs. revert Hxs. apply kind_field_plain; [|done].
    by destruct Hk as [[-> _]|[[-> _]|[-> _]]]. }
  unfold report_increments, stats_increments, inc_sum; cbn [foldr fst snd].
  change ("delivered:" +:+ t) with (kind_field "delivered" t).
  change ("dropped:" +:+ t) with (kind_field "dropped" t).
  change ("filtered_out:" +:+ t) with (kind_field "filtered_out" t).
  rewrite (decide_False (P := "delivered" = _)) by (by apply Hne).
  rewrite (decide_False (P := "dropped" = _)) by (by apply Hne).
  rewrite (decide_False (P := "filtered_out" = _)) by (by apply Hne).
  destruct (decide (t = s)) as [->|Hts], Hk as [[-> ->]|[[-> ->]|[-> ->]]];
    repeat first [ rewrite decide_True by done
                 | rewrite decide_False by (by apply kind_field_ne)
                 | rewrite decide_False by (by intros ?%kind_field_inj) ]; lia.
Qed.

Lemma report_fields p f : f ∈ (report_increments p).*1 ↔
  f = "delivered" ∨ f = "dropped" ∨ f = "filtered_out" ∨
  f = kind_field "delivered" p.1 ∨ f = kind_field "dropped" p.1 ∨ f = kind_field "filtered_out" p.1.
Proof.
  unfold report_increments, stats_increments. rewrite !fmap_cons, fmap_nil; cbn [fst].
  rewrite !elem_of_cons, elem_of_nil. unfold kind_field. simpl. tauto.
Qed.

Definition increments (ps : list report) : list (string * Z) := concat (report_increments <$> ps).

Lemma increments_cons p ps : increments (p :: ps) = report_increments p ++ increments ps.
Proof. done. Qed.

Lemma increments_fields ps f : f ∈ (increments ps).*1 ↔ ∃ p, p ∈ ps ∧ f ∈ (report_increments p).*1.
Proof.
  induction ps as [|p ps IH]; [set_solver|].
  rewrite increments_cons, fmap_app, elem_of_app, IH. setoid_rewrite elem_of_cons. naive_solver.
Qed.

Lemma kind_field_increments k s ps :
  k = "delivered" ∨ k = "dropped" ∨ k = "filtered_out" →
  kind_field k s ∈ (increments ps).*1 ↔ s ∈ ps.*1.
Proof.
  intros Hk. assert (Hkc : str_contains k ":" = false) by (by destruct Hk as [-> |[-> | ->]]).
  rewrite increments_fields, list_elem_of_fmap. split.
  - intros (p & Hp & Hf%report_fields). exists p. split; [|done].
    assert (Hk' : ∀ k', str_contains k' ":" = false → kind_field k s = kind_field k' p.1 → s = p.1).
    { intros k' Hk' He. apply (f_equal (split_once ":")) in He.
      rewrite !kind_field_split in He by done. congruence. }
    destruct Hf as [Hf|[Hf|[Hf|[Hf|[Hf|Hf]]]]];
      [by apply kind_field_plain in Hf..|by apply Hk' in Hf|by apply Hk' in Hf|by apply Hk' in Hf].
  - intros (p & -> & Hp). exists p. split; [done|]. apply report_fields.
    destruct Hk as [-> |[-> | ->]]; auto 10.
Qed.

Lemma increments_sum ps f g :
  (∀ p, inc_sum f (report_increments p) = g p) → inc_sum f (increments ps) = sum_of g ps.
Proof.
  intros Hg. induction ps as [|p ps IH]; [done|].
  by rewrite increments_cons, inc_sum_app, Hg, IH.
Qed.

(** The statistics a list of reports should give. *)
Definition totals (ps : list report) (st : AlertStats) : Prop :=
  as_delivered st = sum_of (λ p, p.2.1.1) ps ∧ as_dropped st = sum_of (λ p, p.2.1.2) ps ∧
  as_filtered_out st = sum_of (λ p, p.2.2) ps ∧
  ∀ s, as_per_shard st !! s =
    if decide (s ∈ ps.*1) then
      Some (MkShardStats (sum_of (on_shard_only s (λ p, p.2.1.1)) ps)
                         (sum_of (on_shard_only s (λ p, p.2.1.2)) ps)
                         (sum_of (on_shard_only s (λ p, p.2.2)) ps))
    else None.

Lemma read_stats_totals {MO : MapOrder string Z} (ps : list report) :
  ps ≠ [] → ∃ st, read_stats (foldl hash_add ∅ (increments ps)) = Some st ∧ totals ps st.
Proof.
  intros Hne. set (h := foldl hash_add ∅ (increments ps)).
  assert (Hh : ∀ f, h !! f = if decide (f ∈ (increments ps).*1)
                             then Some (inc_sum f (increments ps)) else None).
  { intros f. unfold h. rewrite hash_add_all_lookup, lookup_empty. done. }
  destruct ps as [|p0 ps0]; [done|]. set (ps := p0 :: ps0) in *. clearbody h.
  assert (Htot : ∀ f g, (f = "delivered" ∨ f = "dropped" ∨ f = "filtered_out") →
    (∀ p, inc_sum f (report_increments p) = g p) → default 0 (h !! f) = sum_of g ps).
  { intros f g Hf Hg. rewrite Hh, decide_True; [by apply increments_sum|].
    rewrite increments_fields. exists p0. split; [by left|]. rewrite report_fields. tauto. }
  assert (Hsh : ∀ k s g, (k = "delivered" ∨ k = "dropped" ∨ k = "filtered_out") →
    (∀ p, inc_sum (kind_field k s) (report_increments p) = g p) →
    h !! kind_field k s = if decide (s ∈ ps.*1) then Some (sum_of g ps) else None).
  { intros k s g Hk Hg. rewrite Hh. rewrite (increments_sum _ _ _ Hg).
    pose proof (kind_field_increments k s ps Hk).
    destruct (decide (s ∈ ps.*1)); [rewrite decide_True by tauto|rewrite decide_False by tauto]; done. }
  assert (Hnames : ∀ f, is_Some (h !! f) → stats_field_name f).
  { intros f. rewrite Hh. case_decide as Hin; [|by intros []]. intros _.
    apply increments_fields in Hin as (p & _ & Hf%report_fields). unfold stats_field_name.
    destruct Hf as [|[|[|[|[|]]]]]; eauto 10. }
  destruct (read_stats h) as [st|] eqn:Hst.
  - exists st. split; [done|]. pose proof (read_stats_shards h st Hnames Hst) as Hps.
    unfold read_stats in Hst. case_decide; [done|]. injection Hst as <-.
    split_and!; cbn [as_delivered as_dropped as_filtered_out].
    + apply Htot; [tauto|]. intros p. apply report_sum_total. tauto.
    + apply Htot; [tauto|]. intros p. apply report_sum_total. tauto.
    + apply Htot; [tauto|]. intros p. apply report_sum_total. tauto.
    + intros s. rewrite Hps, shard_view_fields.
      rewrite (Hsh "delivered" s (on_shard_only s (λ p, p.2.1.1)))
        by (tauto || intros p; apply report_sum_shard; tauto).
      rewrite (Hsh "dropped" s (on_shard_only s (λ p, p.2.1.2)))
        by (tauto || intros p; apply report_sum_shard; tauto).
      rewrite (Hsh "filtered_out" s (on_shard_only s (λ p, p.2.2)))
        by (tauto || intros p; apply report_sum_shard; tauto).
      by case_decide.
  - exfalso. unfold read_stats in Hst. case_decide as He; [|done]. specialize (Hh "delivered").
    rewrite He, lookup_empty, decide_True in Hh; [done|]. rewrite increments_fields.
    exists p0. split; [by left|]. rewrite report_fields. tauto.
Qed.

(** Reports reaching the server at given times. *)
Context {R : RedisServer} {view : Z → string → rdb → option entry} {RL : RedisLaws R view}.

(** The server's side of [AlertStatsStore::record]. *)
Definition record_step (key : string) (ttl now : Z) (p : report) (r : rdb) : rdb :=
  cmd_expire now key ttl
    (foldl (λ r '(field, delta), cmd_hincrby now key field delta r) r (report_increments p)).

Fixpoint record_all (key : string) (ttl : Z) (ps : list (Z * report)) (r : rdb) : rdb :=
  match ps with
  | [] => r
  | (now, p) :: ps => record_all key ttl ps (record_step key ttl now p r)
  end.

Fixpoint reports_in_time (ttl prev : Z) (ps : list (Z * report)) : Prop :=
  match ps with
  | [] => True
  | (now, _) :: ps => prev ≤ now < prev + ttl_ns ttl ∧ reports_in_time ttl now ps
  end.

Lemma hincrby_all now key incs h d r :
  view now key r = Some (RHash h, d) →
  view now key (foldl (λ r '(f, n), cmd_hincrby now key f n r) r incs) =
    Some (RHash (foldl hash_add h incs), d).
Proof.
  revert h r. induction incs as [|[f n] incs IH]; intros h r Hv; [done|]. cbn [foldl].
  apply IH. by rewrite (view_hincrby_old _ _ _ _ _ h d), decide_True.
Qed.

Lemma hincrby_all_new now key incs r :
  incs ≠ [] → view now key r = None →
  view now key (foldl (λ r '(f, n), cmd_hincrby now key f n r) r incs) =
    Some (RHash (foldl hash_add ∅ incs), None).
Proof.
  destruct incs as [|[f n] incs]; [done|]. intros _ Hv. cbn [foldl].
  apply hincrby_all. by rewrite view_hincrby_new, decide_True.
Qed.

Lemma record_step_old key ttl now p h d r :
  0 < ttl → view now key r = Some (RHash h, d) →
  view now key (record_step key ttl now p r) =
    Some (RHash (foldl hash_add h (report_increments p)), Some (now + ttl_ns ttl)).
Proof.
  intros Ht Hv. unfold record_step. rewrite view_expire, decide_True by done.
  by rewrite (hincrby_all _ _ _ h d).
Qed.

Lemma record_step_new key ttl now p r :
  0 < ttl → view now key r = None →
  view now key (record_step key ttl now p r) =
    Some (RHash (foldl hash_add ∅ (report_increments p)), Some (now + ttl_ns ttl)).
Proof.
  intros Ht Hv. unfold record_step. rewrite view_expire, decide_True by done.
  by rewrite (hincrby_all_new now key (report_increments p)).
Qed.

(** The delivery statistics add up. Whatever the order in which the workers'
    reports for an alert reach Redis, as long as the entry does not expire in
    between, the statistics read back give the sum of all reports, and for each
    shard the sum of that shard's reports; shards nobody reported on are
    absent. *)
Theorem stats_are_sums {MO : MapOrder string Z} key ttl now p ps r :
  0 < ttl → view now key r = None → reports_in_time ttl now ps →
  let r' := record_all key ttl ((now, p) :: ps) r in
  ∃ st, read_stats (cmd_hgetall (foldl (λ _ x, x.1) now ps) key r') = Some st ∧
    totals (p :: ps.*2) st.
Proof.
  intros Ht Hv Hin. cbn [record_all]. cbv zeta.
  pose proof (record_step_new key ttl now p r Ht Hv) as H1.
  assert (∃ d, view (foldl (λ _ x, x.1) now ps) key
      (record_all key ttl ps (record_step key ttl now p r)) =
    Some (RHash (foldl hash_add ∅ (increments (p :: ps.*2))), d)) as [d Hd].
  { replace (increments (p :: ps.*2)) with (report_increments p ++ increments ps.*2) by done.
    rewrite foldl_app. revert H1. generalize (record_step key ttl now p r) as r1.
    generalize (foldl hash_add ∅ (report_increments p)) as h. clear p Hv r.
    revert now Hin. induction ps as [|[t q] ps IH]; intros now Hin h r1 H1; [by eexists|].
    destruct Hin as [Htime Hin]. cbn [record_all foldl fst]. rewrite fmap_cons; cbn [snd].
    rewrite increments_cons, foldl_app. apply (IH _ Hin).
    eapply record_step_old; [done|]. rewrite (view_later now), H1 by lia. unfold expired; cbn.
    by rewrite (proj2 (Z.leb_gt _ _)) by lia. }
  rewrite (hgetall_hash _ _ _ _ _ Hd). by apply read_stats_totals.
Qed.
End Stats.

(** ** Concrete instances *)

Definition plain_loc_codec : LocRecordCodec := {|
  loc_record_json := λ l, code (lr_lat l, lr_lon l, lr_shard_prefix l);
  parse_loc_record := λ s,
    match uncode (A := f64 * f64 * string) s with
    | Some (a, b, c) =>
      match finite_only a, finite_only b with
      | Some a, Some b => Ok (MkLocRecord a b c)
      | _, _ => Err "malformed"
      end
    | None => Err "malformed"
    end;
  record_f64 := finite_only;
|}.

Lemma plain_loc_codec_laws : LocRecordLaws plain_loc_codec.
Proof.
  split. intros [a b c] r'. unfold reread_record. simpl. rewrite uncode_code. unfold finite_only.
  destruct (is_finite a); [|done]. destruct (is_finite b); [|done]. cbn. naive_solver.
Qed.

(** Instants as 16 hexadecimal digits of their microseconds. *)
Definition hex_rfc3339 : Rfc3339 := {|
  to_rfc3339_micros := λ t, hex_digits 16 (Z.to_N (t / 1000));
  parse_from_rfc3339 := λ s, Ok (Z.of_N (hex_read 0 s) * 1000);
|}.

Definition hex_instant (t : DateTime) : Prop := 0 ≤ t / 1000 < 16 ^ 16.

Lemma hex_instant_N t : hex_instant t → (Z.to_N (t / 1000) < 16 ^ N.of_nat 16)%N.
Proof.
  intros [H1 H2]. assert ((16 ^ N.of_nat 16)%N = Z.to_N (16 ^ 16)) as -> by (by vm_compute).
  by apply Z2N.inj_lt.
Qed.

Lemma hex_rfc3339_laws : Rfc3339Laws hex_rfc3339 hex_instant.
Proof.
  split.
  - intros t Ht. cbn [to_rfc3339_micros parse_from_rfc3339 hex_rfc3339]. rewrite hex_read_digits by (by apply hex_instant_N).
    rewrite Z2N.id by apply Ht. done.
  - intros a b Ha Hb. cbn [to_rfc3339_micros hex_rfc3339]. unfold str_gtb.
    rewrite hex_digits_compare by (by apply hex_instant_N).
    destruct Ha as [Ha _], Hb as [Hb _]. unfold to_micros.
    rewrite Z2N.inj_compare by done.
    destruct (Z.compare_spec (a / 1000) (b / 1000)); symmetry;
      first [apply Z.ltb_lt | apply Z.ltb_ge]; lia.
Qed.

Definition toy_clock (n : nat) : DateTime := Z.of_nat n * 10 ^ 9.
Definition toy_pg : Pg := MkPg ∅ ∅ ∅.
Definition toy_world : @World map_redis := @MkWorld map_redis 0 ∅ toy_pg [] [].

(** 64 hexadecimal digits. *)
Definition toy_ticket : string := hex_digits 64 255.

Lemma revocation_persists_witness :
  ∃ w', @RevocationStore_revoke map_redis (calm_env toy_clock) binary_uuids (uuid_of_N 5) 60 toy_world
      = (Ok (), w') ∧
    cmd_exists (30 * 10 ^ 9) (@RevocationStore_key binary_uuids (uuid_of_N 5)) (w_redis w') = true.
Proof.
  eexists. split; [reflexivity|].
  rewrite (@revocation_persists map_redis map_view map_redis_laws (calm_env toy_clock) binary_uuids
    (uuid_of_N 5) 60 toy_world _ (30 * 10 ^ 9) _ eq_refl eq_refl).
  - reflexivity.
  - apply foreign_wait. vm_compute. discriminate.
Defined.

Lemma ticket_single_use_witness :
  (length (filter ticket_ok
    (@consume_attempts map_redis (calm_env toy_clock) binary_uuids toy_ticket 3 toy_world).1) ≤ 1)%nat.
Proof.
  apply (@ticket_single_use map_redis map_view map_redis_laws (calm_env toy_clock) binary_uuids).
  - intros n. unfold env_clock, calm_env, toy_clock. lia.
  - intros e He. discriminate He.
Defined.

Lemma ticket_roundtrip_witness :
  let '(issued, w1) := @WsTicketStore_issue map_redis (calm_env toy_clock) binary_uuids toy_ticket
    (uuid_of_N 5) 30 toy_world in
  issued = Ok () ∧
  (@WsTicketStore_consume map_redis (calm_env toy_clock) binary_uuids toy_ticket w1).1
    = Ok (Some (uuid_of_N 5)).
Proof.
  destruct (@ticket_roundtrip map_redis map_view map_redis_laws (calm_env toy_clock) binary_uuids
    binary_uuids_laws toy_ticket (uuid_of_N 5) 30 toy_world) as (H1 & H2 & _);
    [reflexivity|reflexivity|reflexivity|split; vm_compute; congruence|].
  split; [exact H1|exact H2].
Defined.

Lemma cursor_is_newest_ack_witness :
  ∃ s, cmd_get 8 "k" (@advance_all map_redis hex_rfc3339 "k" 60
      [(5, 7000); (6, 3000); (8, 9500)] (∅ : @rdb map_redis)) = Some s ∧
    @parse_from_rfc3339 hex_rfc3339 s = Ok 9000.
Proof.
  apply (@cursor_is_newest_ack map_redis map_view map_redis_laws hex_rfc3339 hex_instant
    hex_rfc3339_laws "k" 60 5 7000 [(6, 3000); (8, 9500)] (∅ : @rdb map_redis)).
  - reflexivity.
  - split; vm_compute; congruence.
  - repeat constructor; vm_compute; congruence.
  - repeat split; vm_compute; congruence.
  - reflexivity.
Defined.

Program Definition toy_str_order {A} : MapOrder string A := {| map_iter := map_to_list |}.
Next Obligation. done. Qed.

Lemma stats_are_sums_witness :
  ∃ st, @read_stats toy_str_order (cmd_hgetall 9 "k" (@record_all map_redis "k" 60
      [(5, ("tkrt", (3, 1, 0))); (9, ("tkrt", (2, 0, 4)))] (∅ : @rdb map_redis))) = Some st ∧
    totals [("tkrt", (3, 1, 0)); ("tkrt", (2, 0, 4))] st.
Proof.
  apply (@stats_are_sums map_redis map_view map_redis_laws toy_str_order "k" 60 5
    ("tkrt", (3, 1, 0)) [(9, ("tkrt", (2, 0, 4)))] (∅ : @rdb map_redis)).
  - reflexivity.
  - reflexivity.
  - repeat split; vm_compute; congruence.
Defined.
