(* ===== verification/Lease.v ===== *)
(** * Shard leases

    crates/fanout-worker/src/lease.rs: a worker's claim on its shards, taken all
    or nothing at start-up, renewed three times per time to live, and given up on
    shutdown. The [healthy] flag, an atomic shared with the readiness probe, is a
    part of the returned state.

    The first part of the file treats one shard's key under any interleaving of
    any number of workers; the second the worker's own loops. *)

From S2P Require Import Prelude F64 Str Errors Geo Domain Registry Redis World Stores.

Open Scope Z_scope.

(** ** The worker's operations *)

Record ShardLease : Type := MkLease {
  sl_prefixes : list string;
  sl_url : string;
  sl_ttl_secs : Z;
}.

Section Lease.
Context {R : RedisServer} {E : Env}.

(** The initial value of the flag. *)
Definition ShardLease_new_healthy : bool := false.

Definition ShardLease_release (self : ShardLease) (prefixes : list string) : M unit :=
  (fix go (ps : list string) : M unit :=
     match ps with
     | [] => mret_ ()
     | prefix :: ps =>
       (* a failure is only logged *)
       let! _ := ShardRegistry_release_shard prefix (sl_url self) in go ps
     end) prefixes.

Definition conflict_message (prefix owner : string) : string :=
  "shard " +:+ prefix +:+ " is already owned by " +:+ owner +:+
  "; give each worker its own FANOUT_WORKER_SHARD_PREFIXES (or wait for the old lease to expire)".

(** [claimed] grows at its end. *)
Fixpoint acquire_loop (self : ShardLease) (claimed prefixes : list string) : MR unit :=
  match prefixes with
  | [] => mret_ (Ok ())
  | prefix :: rest =>
    let! c := ShardRegistry_claim_shard prefix (sl_url self) (sl_ttl_secs self) in
    match c with
    | Ok true => acquire_loop self (claimed ++ [prefix]) rest
    | Ok false =>
      let! o := ShardRegistry_lookup_shard prefix in
      let owner := default "another worker" (match o with Ok x => x | Err _ => None end) in
      let! _ := ShardLease_release self claimed in
      mret_ (Err (Conflict (conflict_message prefix owner)))
    | Err e =>
      let! _ := ShardLease_release self claimed in
      mret_ (Err e)
    end
  end.

(** The result and the [healthy] flag afterwards. *)
Definition ShardLease_acquire_all (self : ShardLease) (healthy : bool)
    : M (result unit AppError * bool) :=
  let! r := acquire_loop self [] (sl_prefixes self) in
  mret_ (r, match r with Ok _ => true | Err _ => healthy end).

Fixpoint refresh_loop (self : ShardLease) (all_held : bool) (prefixes : list string) : M bool :=
  match prefixes with
  | [] => mret_ all_held
  | prefix :: rest =>
    let! c := ShardRegistry_claim_shard prefix (sl_url self) (sl_ttl_secs self) in
    match c with
    | Ok true => refresh_loop self all_held rest
    | Ok false => refresh_loop self false rest
    | Err _ => refresh_loop self false rest
    end
  end.

(** The flag is set to the returned value. *)
Definition ShardLease_refresh_once (self : ShardLease) : M bool :=
  refresh_loop self true (sl_prefixes self).

(** Seconds between two renewals. *)
Definition refresh_interval (self : ShardLease) : Z := Z.max (sl_ttl_secs self / 3) 1.

(** The flag is false from the start of the release. *)
Definition ShardLease_release_all (self : ShardLease) : M bool :=
  let! _ := ShardLease_release self (sl_prefixes self) in
  mret_ false.
End Lease.

(** ** One shard, any number of workers *)

Section Exclusion.
Context {R : RedisServer} {view : Z → string → rdb → option entry} {RL : RedisLaws R view}.

(** The server, its clock, and what each worker may conclude from the answers
    it got: it holds the shard until the given time. *)
Record LeaseState : Type := MkLeaseState {
  ls_db : rdb;
  ls_now : Z;
  ls_belief : gmap string Z;
}.

Inductive lease_step (key : string) : LeaseState → LeaseState → Prop :=
| ls_other db now later db' b :
    foreign key now db later db' →
    lease_step key (MkLeaseState db now b) (MkLeaseState db' later b)
| ls_claim db now b url ttl n db' :
    0 < ttl → CLAIM_LUA key url ttl now db = (n, db') →
    lease_step key (MkLeaseState db now b)
      (MkLeaseState db' now (if n =? 1 then <[url := now + ttl_ns ttl]> b else delete url b))
| ls_release db now b url n db' :
    RELEASE_LUA key url now db = (n, db') →
    lease_step key (MkLeaseState db now b) (MkLeaseState db' now (delete url b)).

(** A worker that believes it holds the shard does hold it, at least as long. *)
Definition lease_inv (key : string) (st : LeaseState) : Prop :=
  str_at (view := view) (ls_now st) key (ls_db st) ∧
  ∀ url d, ls_belief st !! url = Some d → ls_now st < d →
    ∃ d', view (ls_now st) key (ls_db st) = Some (RStr url, Some d') ∧ d ≤ d'.

Lemma CLAIM_LUA_free key url ttl now r :
  0 < ttl → view now key r = None →
  (CLAIM_LUA key url ttl now r).1 = 1 ∧
  view now key (CLAIM_LUA key url ttl now r).2 = Some (RStr url, Some (now + ttl_ns ttl)).
Proof.
  intros Ht Hv. unfold CLAIM_LUA. rewrite (get_none _ _ _ Hv). split; [done|]. simpl.
  by rewrite view_set, decide_True by naive_solver.
Qed.

Lemma CLAIM_LUA_own key url ttl now r d :
  0 < ttl → view now key r = Some (RStr url, d) →
  (CLAIM_LUA key url ttl now r).1 = 1 ∧
  view now key (CLAIM_LUA key url ttl now r).2 = Some (RStr url, Some (now + ttl_ns ttl)).
Proof.
  intros Ht Hv. unfold CLAIM_LUA. rewrite (get_str _ _ _ _ _ Hv), decide_True by done.
  split; [done|]. simpl. by rewrite view_expire, decide_True, Hv.
Qed.

Lemma CLAIM_LUA_taken key url ttl now r s d :
  s ≠ url → view now key r = Some (RStr s, d) → CLAIM_LUA key url ttl now r = (0, r).
Proof. intros Hs Hv. unfold CLAIM_LUA. by rewrite (get_str _ _ _ _ _ Hv), decide_False. Qed.

Lemma CLAIM_LUA_other key url ttl now r j :
  0 < ttl → j ≠ key → view now j (CLAIM_LUA key url ttl now r).2 = view now j r.
Proof.
  intros Ht Hj. unfold CLAIM_LUA. destruct (cmd_get now key r) as [cur|].
  - case_decide; [|done]. simpl. by rewrite view_expire, decide_False.
  - simpl. by rewrite view_set, decide_False by naive_solver.
Qed.

(** The text stored under a key. *)
Definition holder (now : Z) (key : string) (r : rdb) : option string :=
  match view now key r with Some (RStr s, _) => Some s | _ => None end.

Lemma RELEASE_LUA_view key url now r j :
  str_at (view := view) now key r →
  view now j (RELEASE_LUA key url now r).2 =
    if decide (j = key ∧ holder now key r = Some url) then None else view now j r.
Proof.
  intros Hs. unfold RELEASE_LUA, holder. rewrite (get_view (view := view)) by done.
  case_decide as Hg.
  - rewrite view_del. destruct (decide (j = key)) as [->|]; [rewrite decide_True by done|
      rewrite decide_False by naive_solver]; done.
  - by rewrite decide_False by naive_solver.
Qed.

Lemma decide_ex_claim key url now r :
  str_at (view := view) now key r →
  view now key r = None ∨ (∃ d, view now key r = Some (RStr url, d)) ∨
  ∃ s d, s ≠ url ∧ view now key r = Some (RStr s, d).
Proof.
  intros Hs. destruct (view now key r) as [[v d]|] eqn:Hv; [right|by left].
  destruct (Hs _ Hv) as [s Hv']. simpl in Hv'. subst v. destruct (decide (s = url)) as [->|]; eauto 6.
Qed.

Lemma lease_inv_step key st st' : lease_inv key st → lease_step key st st' → lease_inv key st'.
Proof.
  intros [Hs Hb] Hstep. destruct Hstep as [db now later db' b Hf|db now b url ttl n db' Ht Hc
    |db now b url n db' Hr]; unfold lease_inv in *; cbn [ls_db ls_now ls_belief] in *.
  - apply foreign_view in Hf as [Hle Hv]. split.
    + intros e. rewrite Hv. unfold aged. destruct (view now key db) as [e'|] eqn:He; [|done].
      destruct (expired later e'); [done|]. intros [= <-]. by apply Hs.
    + intros url d Hu Hlt. destruct (Hb url d Hu ltac:(lia)) as (d' & Hd & Hdd).
      exists d'. rewrite Hv, Hd. simpl. unfold expired; simpl.
      by rewrite (proj2 (Z.leb_gt _ _)) by lia.
  - assert (Hwon : ∀ v, CLAIM_LUA key url ttl now db = v → v.1 = 1 ∧
        view now key v.2 = Some (RStr url, Some (now + ttl_ns ttl)) →
        (∀ u d, b !! u = Some d → now < d → u = url) →
        v = (n, db') → lease_inv key (MkLeaseState db' now
          (if n =? 1 then <[url := now + ttl_ns ttl]> b else delete url b))).
    { intros v _ [Hn Hv] Honly ->. simpl in Hn, Hv. subst n. split; cbn [ls_db ls_now ls_belief].
      - intros e. rewrite Hv. intros [= <-]. eauto.
      - intros u d Hu Hlt. apply lookup_insert_Some in Hu as [[<- <-]|[Hne Hu]].
        + eexists. split; [done|]. lia.
        + exfalso. apply Hne. symmetry. by eapply Honly. }
    destruct (decide_ex_claim key url now db Hs) as [Hv|[[d Hv]|(s & d & Hne & Hv)]].
    + eapply (Hwon _ eq_refl); [by apply CLAIM_LUA_free| |by rewrite Hc].
      intros u d Hu Hlt. destruct (Hb u d Hu Hlt) as (? & ? & _). congruence.
    + eapply (Hwon _ eq_refl); [by eapply CLAIM_LUA_own| |by rewrite Hc].
      intros u d' Hu Hlt. destruct (Hb u d' Hu Hlt) as (? & ? & _). congruence.
    + rewrite (CLAIM_LUA_taken _ _ _ _ _ s d) in Hc by done. injection Hc as <- <-. cbn.
      split; [done|]. intros u d' [_ Hu]%lookup_delete_Some. by apply Hb.
  - pose proof (RELEASE_LUA_view key url now db key Hs) as Hv. rewrite Hr in Hv. cbn in Hv. split.
    + intros e. rewrite Hv. case_decide; [done|]. apply Hs.
    + intros u d [Hne Hu]%lookup_delete_Some Hlt. destruct (Hb u d Hu Hlt) as (d' & Hd & Hdd).
      exists d'. rewrite Hv, decide_False; [done|]. unfold holder. rewrite Hd. naive_solver.
Qed.

Lemma lease_inv_reachable key st st' :
  rtc (lease_step key) st st' → lease_inv key st → lease_inv key st'.
Proof. induction 1; eauto using lease_inv_step. Qed.

(** C9: Two workers never hold one shard. In every state reachable from a free
    shard by any interleaving of claims, renewals and releases of any number of
    workers, commands on other keys and the passing of time, at most one worker
    has an answer that still entitles it to the shard, and a lookup then names
    exactly that worker. *)
Theorem lease_mutual_exclusion key db now st a b da db' :
  view now key db = None → rtc (lease_step key) (MkLeaseState db now ∅) st →
  ls_belief st !! a = Some da → ls_now st < da →
  ls_belief st !! b = Some db' → ls_now st < db' →
  a = b ∧ cmd_get (ls_now st) key (ls_db st) = Some a.
Proof.
  intros Hfree Hsteps Ha Hla Hb Hlb.
  assert (Hinv : lease_inv key st).
  { apply (lease_inv_reachable key _ _ Hsteps). split; cbn; [intros e; rewrite Hfree; done|].
    intros u d. by rewrite lookup_empty. }
  destruct Hinv as [_ Hi]. destruct (Hi a da Ha Hla) as (d1 & H1 & _).
  destruct (Hi b db' Hb Hlb) as (d2 & H2 & _). split; [congruence|].
  by apply (get_str _ _ _ _ _ H1).
Qed.
End Exclusion.

(** ** The worker's loops *)

Section Loops.
Context {R : RedisServer} {view : Z → string → rdb → option entry} {RL : RedisLaws R view}.
Context {E : Env} (self : ShardLease).
Hypothesis ttl_pos : 0 < sl_ttl_secs self.
Hypothesis clock_mono : clock_monotone.

Abbreviation clock w := (env_clock (w_tick w)).

(** The entry of a shard now. *)
Definition shard_entry (w : World) (p : string) : option entry :=
  view (clock w) (ShardRegistry_key p) (w_redis w).

Definition keys_str (w : World) : Prop :=
  ∀ p, str_at (view := view) (clock w) (ShardRegistry_key p) (w_redis w).

(** Until [t] the shard is this worker's. *)
Definition held_until (t : Z) (w : World) (p : string) : Prop :=
  clock w < t → ∃ d, shard_entry w p = Some (RStr (sl_url self), Some d) ∧ t ≤ d.

Lemma shard_key_inj p q : ShardRegistry_key p = ShardRegistry_key q → p = q.
Proof. unfold ShardRegistry_key. apply (inj _). Qed.

Lemma keys_str_later w w' :
  w_tick w' = S (w_tick w) →
  (∀ p, str_at (view := view) (clock w) (ShardRegistry_key p) (w_redis w')) → keys_str w'.
Proof.
  intros Ht Hs p e. rewrite (view_later (clock w)) by (rewrite Ht; apply clock_mono).
  destruct (view (clock w) _ (w_redis w')) as [e'|] eqn:He; [|done].
  destruct (expired _ e'); [done|]. intros [= <-]. by apply (Hs p).
Qed.

Lemma shard_entry_later w w' p :
  w_tick w' = S (w_tick w) →
  shard_entry w' p = aged (clock w') (view (clock w) (ShardRegistry_key p) (w_redis w')).
Proof. intros Ht. unfold shard_entry. apply view_later. rewrite Ht. apply clock_mono. Qed.

(** The claim script on a shard's key. *)
Lemma claim_script w p :
  keys_str w →
  let '(n, r) := CLAIM_LUA (ShardRegistry_key p) (sl_url self) (sl_ttl_secs self) (clock w) (w_redis w) in
  (∀ q, q ≠ p → view (clock w) (ShardRegistry_key q) r = shard_entry w q) ∧
  ((n = 1 ∧ view (clock w) (ShardRegistry_key p) r =
      Some (RStr (sl_url self), Some (clock w + ttl_ns (sl_ttl_secs self)))) ∨
   (n = 0 ∧ r = w_redis w ∧ shard_entry w p ≠ None)) ∧
  (∀ q, str_at (view := view) (clock w) (ShardRegistry_key q) r).
Proof.
  intros Hs. set (key := ShardRegistry_key p).
  pose proof (λ q Hq, CLAIM_LUA_other key (sl_url self) (sl_ttl_secs self) (clock w) (w_redis w)
    (ShardRegistry_key q) ttl_pos (λ Heq, Hq (shard_key_inj _ _ Heq))) as Hother.
  assert (Hmain : let v := CLAIM_LUA key (sl_url self) (sl_ttl_secs self) (clock w) (w_redis w) in
    (v.1 = 1 ∧ view (clock w) key v.2 =
      Some (RStr (sl_url self), Some (clock w + ttl_ns (sl_ttl_secs self)))) ∨
    (v.1 = 0 ∧ v.2 = w_redis w ∧ shard_entry w p ≠ None)).
  { destruct (decide_ex_claim key (sl_url self) (clock w) (w_redis w) (Hs p))
      as [Hv|[[d Hv]|(t & d & Hne & Hv)]].
    - left. by apply CLAIM_LUA_free.
    - left. by eapply CLAIM_LUA_own.
    - right. rewrite (CLAIM_LUA_taken _ _ _ _ _ t d) by done. split_and!; [done..|].
      unfold shard_entry. fold key. congruence. }
  destruct (CLAIM_LUA key _ _ _ _) as [n r]. cbn [fst snd] in *. split_and!; [done|done|].
  intros q e. destruct (decide (q = p)) as [->|Hq].
  - destruct Hmain as [[_ Hv]|(_ & -> & _)]; [|apply Hs]. fold key. rewrite Hv. intros [= <-]. eauto.
  - rewrite Hother by done. apply Hs.
Qed.

(** What one claim does, whatever the environment. *)
Lemma claim_effect w p c w' :
  keys_str w → ShardRegistry_claim_shard p (sl_url self) (sl_ttl_secs self) w = (c, w') →
  keys_str w' ∧ w_tick w' = S (w_tick w) ∧
  (∀ q, q ≠ p → shard_entry w' q = aged (clock w') (shard_entry w q)) ∧
  (c = Ok true → shard_entry w' p =
     aged (clock w') (Some (RStr (sl_url self), Some (clock w + ttl_ns (sl_ttl_secs self))))) ∧
  (c = Ok false → shard_entry w' p = aged (clock w') (shard_entry w p) ∧ shard_entry w p ≠ None).
Proof.
  intros Hs Hc. unfold ShardRegistry_claim_shard in Hc. rewrite mbind_ok_run in Hc.
  set (script := CLAIM_LUA (ShardRegistry_key p) (sl_url self) (sl_ttl_secs self)) in *.
  pose proof (redis_call_cases script w) as Hr. pose proof (claim_script w p Hs) as Hsc.
  fold script in Hsc. destruct (redis_call script w) as [r w1]. cbn [fst snd] in Hc.
  destruct Hr as (_ & _ & _ & Ht & Hr).
  destruct (script (clock w) (w_redis w)) as [n eff] eqn:Hscript.
  destruct Hsc as (Hoth & Hp & Hstr).
  assert (w1 = w') as -> by (destruct r; by injection Hc).
  assert (Hdb : w_redis w' = w_redis w ∨ w_redis w' = eff).
  { destruct r as [a|e]; [injection Hr as _ <-; by right|]. destruct Hr as [_ [?|?]]; auto. }
  split_and!.
  - apply keys_str_later with w; [done|]. destruct Hdb as [-> | ->]; [apply Hs|apply Hstr].
  - done.
  - intros q Hq. rewrite (shard_entry_later w) by done. f_equal.
    destruct Hdb as [-> | ->]; [done|by apply Hoth].
  - intros ->. rewrite (shard_entry_later w) by done. f_equal. destruct r as [a|e]; [|done].
    injection Hc as Ha. injection Hr as -> <-. apply Z.eqb_eq in Ha.
    destruct Hp as [[_ Hp]|[Hn _]]; [done|lia].
  - intros ->. rewrite (shard_entry_later w) by done. destruct r as [a|e]; [|done].
    injection Hc as Ha. injection Hr as -> Heff. apply Z.eqb_neq in Ha.
    destruct Hp as [[Hn _]|(_ & Hn & Hne)]; [lia|]. by rewrite <- Heff, Hn.
Qed.

Lemma held_until_later t w w' p :
  w_tick w' = S (w_tick w) → shard_entry w' p = aged (clock w') (shard_entry w p) →
  held_until t w p → held_until t w' p.
Proof.
  intros Ht He Hh Hlt. destruct Hh as (d & Hd & Hle).
  { pose proof (clock_mono (w_tick w)). rewrite Ht in Hlt. lia. }
  exists d. split; [|done]. rewrite He, Hd. simpl. unfold expired; simpl.
  by rewrite (proj2 (Z.leb_gt _ _)) by lia.
Qed.

(** A successful claim at [w] holds the shard for a time to live. *)
Lemma claim_holds t w p w' :
  keys_str w → ShardRegistry_claim_shard p (sl_url self) (sl_ttl_secs self) w = (Ok true, w') →
  t ≤ clock w + ttl_ns (sl_ttl_secs self) →
  held_until t w' p ∧ ∀ q, held_until t w q → held_until t w' q.
Proof.
  intros Hs Hc Ht. apply claim_effect in Hc as (_ & Htick & Hoth & Hwon & _); [|done].
  specialize (Hwon eq_refl).
  assert (Hp : held_until t w' p).
  { intros Hlt. rewrite Hwon. simpl. unfold expired; simpl.
    rewrite (proj2 (Z.leb_gt _ _)) by lia. eauto. }
  split; [done|]. intros q Hq. destruct (decide (q = p)) as [->|Hne]; [done|].
  eapply held_until_later; eauto.
Qed.

Lemma acquire_loop_sound t ps claimed w w' :
  keys_str w → t ≤ clock w + ttl_ns (sl_ttl_secs self) →
  (∀ p, p ∈ claimed → held_until t w p) →
  acquire_loop self claimed ps w = (Ok (), w') →
  ∀ p, p ∈ claimed ++ ps → held_until t w' p.
Proof.
  revert claimed w. induction ps as [|p ps IH]; intros claimed w Hs Ht Hcl; cbn [acquire_loop].
  { intros [= <-] p. rewrite app_nil_r. apply Hcl. }
  rewrite mbind_run.
  destruct (ShardRegistry_claim_shard p (sl_url self) (sl_ttl_secs self) w) as [c w1] eqn:Hc.
  cbn [fst snd]. destruct c as [[|]|e].
  - pose proof (claim_holds t w p w1 Hs Hc Ht) as [Hp Hkeep].
    pose proof (claim_effect w p _ w1 Hs Hc) as (Hs1 & Htick & _).
    intros Hl q. replace (claimed ++ p :: ps) with ((claimed ++ [p]) ++ ps) by by rewrite <- app_assoc.
    apply (IH _ _ Hs1); [|set_solver|done].
    rewrite Htick. pose proof (clock_mono (w_tick w)). lia.
  - rewrite !mbind_run. done.
  - rewrite !mbind_run. done.
Qed.

(** A worker that acquired its shards holds all of them. If [acquire_all]
    reports success then, for a time to live counted from its start, every one
    of the configured shards is registered to this worker's URL, and the worker
    is marked healthy; this holds even if other calls of the run failed. *)
Theorem acquire_all_holds h w r h' w' :
  keys_str w → ShardLease_acquire_all self h w = ((r, h'), w') →
  h' = match r with Ok _ => true | Err _ => h end ∧
  (r = Ok () → ∀ p, p ∈ sl_prefixes self →
     held_until (clock w + ttl_ns (sl_ttl_secs self)) w' p).
Proof.
  intros Hs. unfold ShardLease_acquire_all. rewrite mbind_run.
  destruct (acquire_loop self [] (sl_prefixes self) w) as [r0 w0] eqn:Hl. cbn [fst snd mret_].
  intros [= <- <- <-]. split; [done|]. intros -> p Hp.
  apply (acquire_loop_sound _ (sl_prefixes self) [] w w0 Hs (Z.le_refl _)); [set_solver|done|done].
Qed.

Lemma refresh_loop_false ps w : (refresh_loop self false ps w).1 = false.
Proof.
  revert w. induction ps as [|p ps IH]; intros w; [done|]. cbn [refresh_loop].
  rewrite mbind_run. destruct (ShardRegistry_claim_shard _ _ _ w).1 as [[|]|e]; apply IH.
Qed.

Lemma refresh_loop_sound t ps w w' :
  keys_str w → t ≤ clock w + ttl_ns (sl_ttl_secs self) →
  refresh_loop self true ps w = (true, w') →
  (∀ p, p ∈ ps → held_until t w' p) ∧ ∀ q, held_until t w q → held_until t w' q.
Proof.
  revert w. induction ps as [|p ps IH]; intros w Hs Ht; cbn [refresh_loop].
  { intros [= <-]. split; [set_solver|done]. }
  rewrite mbind_run.
  destruct (ShardRegistry_claim_shard p (sl_url self) (sl_ttl_secs self) w) as [c w1] eqn:Hc.
  cbn [fst snd]. destruct c as [[|]|e].
  2,3: intros Hf; pose proof (refresh_loop_false ps w1) as Hff; by rewrite Hf in Hff.
  pose proof (claim_holds t w p w1 Hs Hc Ht) as [Hp Hkeep].
  pose proof (claim_effect w p _ w1 Hs Hc) as (Hs1 & Htick & _). intros Hl.
  apply IH in Hl as [Hps Hk]; [|done|rewrite Htick; pose proof (clock_mono (w_tick w)); lia].
  split; [|auto]. intros q [->|Hq]%elem_of_cons; auto.
Qed.

(** A renewal that reports success really renewed: every shard is this
    worker's for another time to live. Renewals run at least three times per
    time to live when it is three seconds or more. *)
Theorem refresh_once_holds w w' :
  keys_str w → ShardLease_refresh_once self w = (true, w') →
  (∀ p, p ∈ sl_prefixes self → held_until (clock w + ttl_ns (sl_ttl_secs self)) w' p) ∧
  (3 ≤ sl_ttl_secs self → 3 * refresh_interval self ≤ sl_ttl_secs self).
Proof.
  intros Hs Hr. split.
  - by apply (refresh_loop_sound _ (sl_prefixes self) w w' Hs (Z.le_refl _) Hr).
  - intros H3. unfold refresh_interval. pose proof (Z.mul_div_le (sl_ttl_secs self) 3). lia.
Qed.

(** ** Rolling back *)

Definition mine_or_free (w : World) (p : string) : Prop :=
  shard_entry w p = None ∨ ∃ d, shard_entry w p = Some (RStr (sl_url self), d).

Lemma aged_mine t e :
  e = None ∨ (∃ d, e = Some (RStr (sl_url self), d)) →
  aged t e = None ∨ ∃ d, aged t e = Some (RStr (sl_url self), d).
Proof. intros [-> |[d ->]]; simpl; [by left|]. destruct (expired t _); eauto. Qed.

Hypothesis no_faults : ∀ n, env_fault n = Works.

Lemma release_effect w p :
  keys_str w →
  let w' := (ShardRegistry_release_shard p (sl_url self) w).2 in
  keys_str w' ∧ w_tick w' = S (w_tick w) ∧
  (∀ q, shard_entry w q = None → shard_entry w' q = None) ∧
  (∀ q, mine_or_free w q → mine_or_free w' q) ∧
  (mine_or_free w p → shard_entry w' p = None).
Proof.
  intros Hs. unfold ShardRegistry_release_shard. rewrite mbind_ok_run, redis_call_works by done.
  cbn [fst snd mret_]. set (r := (RELEASE_LUA _ _ _ _).2). set (w' := set_redis r (tick w)).
  assert (Hr : ∀ q, view (clock w) (ShardRegistry_key q) r =
    if decide (ShardRegistry_key q = ShardRegistry_key p ∧
               holder (view := view) (clock w) (ShardRegistry_key p) (w_redis w) = Some (sl_url self))
    then None else shard_entry w q) by (intros q; apply RELEASE_LUA_view, Hs).
  assert (He : ∀ q, shard_entry w' q = aged (clock w') (view (clock w) (ShardRegistry_key q) r))
    by (intros q; by apply (shard_entry_later w w')).
  split_and!; [|done|..].
  - apply keys_str_later with w; [done|]. intros q e. cbn [w_redis w' set_redis]. rewrite Hr.
    intros He'. destruct (decide _) in He'; [done|]. by apply (Hs q).
  - intros q Hq. rewrite He, Hr, Hq. by destruct (decide _).
  - intros q Hq. unfold mine_or_free. rewrite He, Hr. apply aged_mine. destruct (decide _); [by left|done].
  - intros Hp. rewrite He, Hr. destruct (decide _) as [_|Hd]; [done|]. destruct Hp as [-> |[d Hp]]; [done|].
    exfalso. apply Hd. split; [done|]. unfold holder. unfold shard_entry in Hp. by rewrite Hp.
Qed.

Lemma release_loop_effect ps w :
  keys_str w → (∀ p, p ∈ ps → mine_or_free w p) →
  let w' := (ShardLease_release self ps w).2 in
  (∀ q, shard_entry w q = None → shard_entry w' q = None) ∧
  ∀ p, p ∈ ps → shard_entry w' p = None.
Proof.
  revert w. induction ps as [|p ps IH]; intros w Hs Hm; [set_solver|].
  unfold ShardLease_release. rewrite mbind_run. fold (ShardLease_release self ps).
  destruct (release_effect w p Hs) as (Hs1 & _ & Hfree & Hmine & Hp).
  set (w1 := (ShardRegistry_release_shard p (sl_url self) w).2) in *.
  destruct (IH w1 Hs1) as [Hf Hps]; [intros q Hq; apply Hmine, Hm; by right|].
  split; [auto|]. intros q [->|Hq]%elem_of_cons; [|auto]. apply Hf, Hp, Hm. by left.
Qed.

Lemma lookup_effect w p :
  keys_str w → let w' := (ShardRegistry_lookup_shard p w).2 in
  keys_str w' ∧ (∀ q, shard_entry w' q = aged (clock w') (shard_entry w q)).
Proof.
  intros Hs. unfold ShardRegistry_lookup_shard, redis_read. rewrite redis_call_works by done.
  cbn [fst snd]. split.
  - by apply keys_str_later with w.
  - intros q. by apply (shard_entry_later w (set_redis (w_redis w) (tick w))).
Qed.

Lemma claim_answers w p :
  ∃ b w', ShardRegistry_claim_shard p (sl_url self) (sl_ttl_secs self) w = (Ok b, w').
Proof.
  unfold ShardRegistry_claim_shard. rewrite mbind_ok_run, redis_call_works by done.
  cbn [fst snd mret_]. eauto.
Qed.

Lemma release_loop_keys ps w : keys_str w → keys_str (ShardLease_release self ps w).2.
Proof.
  revert w. induction ps as [|p ps IH]; intros w Hs; [done|].
  unfold ShardLease_release. rewrite mbind_run. fold (ShardLease_release self ps).
  by apply IH, (release_effect w p Hs).
Qed.

(** Free shards are acquired. *)
Lemma acquire_loop_free ps claimed w :
  keys_str w → NoDup ps → (∀ p, p ∈ ps → shard_entry w p = None) →
  (acquire_loop self claimed ps w).1 = Ok ().
Proof.
  revert claimed w. induction ps as [|p ps IH]; intros claimed w Hs Hnd Hfree; [done|].
  cbn [acquire_loop]. rewrite mbind_run. destruct (claim_answers w p) as (b & w1 & Hc).
  rewrite Hc. cbn [fst snd].
  destruct (claim_effect w p _ w1 Hs Hc) as (Hs1 & _ & Hoth & _ & Hlost).
  apply NoDup_cons in Hnd as [Hp Hnd]. destruct b.
  - apply IH; [done..|]. intros q Hq. rewrite Hoth by (intros ->; done).
    by rewrite Hfree by set_solver.
  - destruct (Hlost eq_refl) as [_ Hne]. destruct Hne. apply Hfree. set_solver.
Qed.

Lemma acquire_loop_rollback ps claimed w e w' :
  keys_str w → (∀ p, p ∈ claimed → mine_or_free w p) →
  acquire_loop self claimed ps w = (Err e, w') →
  (∃ p owner, e = Conflict (conflict_message p owner)) ∧
  (∀ q, shard_entry w q = None → shard_entry w' q = None) ∧
  ∀ p, p ∈ claimed → shard_entry w' p = None.
Proof.
  revert claimed w. induction ps as [|p ps IH]; intros claimed w Hs Hcl; cbn [acquire_loop]; [done|].
  rewrite mbind_run. destruct (claim_answers w p) as (b & w1 & Hc). rewrite Hc. cbn [fst snd].
  destruct (claim_effect w p _ w1 Hs Hc) as (Hs1 & Htick & Hoth & Hwon & Hlost).
  destruct b.
  - specialize (Hwon eq_refl).
    assert (Hmine : ∀ q, q ≠ p → mine_or_free w q → mine_or_free w1 q).
    { intros q Hq Hm. unfold mine_or_free. rewrite Hoth by done. by apply aged_mine. }
    assert (Hp1 : mine_or_free w1 p) by (unfold mine_or_free; rewrite Hwon; apply aged_mine; eauto).
    intros Hl. apply IH in Hl as (He & Hfree & Hrel); [|done|].
    2:{ intros q [Hq|Hq%list_elem_of_singleton]%elem_of_app; [|by subst].
        destruct (decide (q = p)) as [->|]; auto. }
    split_and!; [done| |].
    + intros q Hq. destruct (decide (q = p)) as [->|Hne]; [apply Hrel; set_solver|].
      apply Hfree. by rewrite Hoth, Hq by done.
    + intros q Hq. apply Hrel. set_solver.
  - destruct (Hlost eq_refl) as [Hp Hne]. rewrite mbind_run.
    destruct (lookup_effect w1 p Hs1) as [Hs2 He2].
    set (w2 := (ShardRegistry_lookup_shard p w1).2) in *. rewrite mbind_run. intros [= <- <-].
    assert (Hall : ∀ q, shard_entry w1 q = aged (clock w1) (shard_entry w q)).
    { intros q. destruct (decide (q = p)) as [->|]; auto. }
    destruct (release_loop_effect claimed w2 Hs2) as [Hfree Hrel].
    { intros q Hq. unfold mine_or_free. rewrite He2, Hall. by apply aged_mine, aged_mine, Hcl. }
    split_and!; [eauto| |done]. intros q Hq. apply Hfree. by rewrite He2, Hall, Hq.
Qed.

(** C33: A refused acquisition leaves no trace. When Redis answers every call and
    [acquire_all] fails, which it then does because another worker owns one of the
    shards, the error is a conflict that names a shard, the health of the lease is
    what it was, and every shard that was free before the attempt is free again:
    nothing that was claimed on the way stays claimed. *)
Theorem acquire_all_or_nothing h w e h' w' :
  keys_str w → ShardLease_acquire_all self h w = ((Err e, h'), w') →
  h' = h ∧ (∃ p owner, e = Conflict (conflict_message p owner)) ∧
  ∀ p, shard_entry w p = None → shard_entry w' p = None.
Proof.
  intros Hs. unfold ShardLease_acquire_all. rewrite mbind_run.
  destruct (acquire_loop self [] (sl_prefixes self) w) as [r w0] eqn:Hl. cbn [fst snd mret_].
  destruct r as [[]|e0]; [done|]. intros [= <- <- <-].
  apply acquire_loop_rollback in Hl as (He & Hfree & _); [done|done|set_solver].
Qed.
End Loops.

(** ** Witnesses *)

Definition toy_lease : ShardLease := MkLease ["tkrt"; "tkrw"] "ws://a" 30.

(** The second shard is already registered to another worker. *)
Definition taken_world : @World map_redis :=
  @MkWorld map_redis 0 {["shard-worker:tkrw" := (RStr "ws://b", None)]} toy_pg [] [].

Lemma toy_clock_monotone : @clock_monotone (calm_env toy_clock).
Proof. intros n. unfold env_clock, calm_env, toy_clock. lia. Qed.

Lemma toy_keys_str : @keys_str map_redis map_view (calm_env toy_clock) toy_world.
Proof. intros p e He. discriminate He. Qed.

Lemma taken_keys_str : @keys_str map_redis map_view (calm_env toy_clock) taken_world.
Proof.
  intros p e. cbn. unfold map_view. destruct (_ !! _) as [x|] eqn:Hx; [|done].
  apply lookup_singleton_Some in Hx as [_ <-]. intros [= <-]. by exists "ws://b".
Qed.

Lemma lease_mutual_exclusion_witness :
  cmd_get 5 "k" (CLAIM_LUA "k" "ws://a" 30 5 (∅ : @rdb map_redis)).2 = Some "ws://a".
Proof.
  eapply (@lease_mutual_exclusion map_redis map_view map_redis_laws "k" ∅ 5
    (MkLeaseState _ 5 {["ws://a" := 5 + ttl_ns 30]}) "ws://a" "ws://a" (5 + ttl_ns 30) (5 + ttl_ns 30)).
  - reflexivity.
  - apply rtc_once. refine (@ls_claim map_redis "k" ∅ 5 ∅ "ws://a" 30 1 _ _ _); reflexivity.
  - reflexivity.
  - reflexivity.
  - reflexivity.
  - reflexivity.
Defined.

Lemma acquire_all_holds_witness :
  ∃ w', (@ShardLease_acquire_all map_redis (calm_env toy_clock) toy_lease false toy_world)
      = ((Ok (), true), w') ∧
    ∀ p, p ∈ ["tkrt"; "tkrw"] →
      @held_until map_redis map_view (calm_env toy_clock) toy_lease (ttl_ns 30) w' p.
Proof.
  eexists. split; [reflexivity|].
  eapply (@acquire_all_holds map_redis map_view map_redis_laws (calm_env toy_clock) toy_lease
    eq_refl toy_clock_monotone false toy_world); [apply toy_keys_str|reflexivity|reflexivity].
Defined.

Lemma refresh_once_holds_witness :
  3 * refresh_interval toy_lease ≤ 30.
Proof.
  eapply (@refresh_once_holds map_redis map_view map_redis_laws (calm_env toy_clock) toy_lease
    eq_refl toy_clock_monotone toy_world); [apply toy_keys_str|reflexivity|].
  vm_compute. discriminate.
Defined.

Lemma acquire_all_or_nothing_witness :
  ∃ w', @ShardLease_acquire_all map_redis (calm_env toy_clock) toy_lease false taken_world
      = ((Err (Conflict (conflict_message "tkrw" "ws://b")), false), w') ∧
    @shard_entry map_redis map_view (calm_env toy_clock) w' "tkrt" = None.
Proof.
  assert (H1 : (@ShardLease_acquire_all map_redis (calm_env toy_clock) toy_lease false taken_world).1
    = (Err (Conflict (conflict_message "tkrw" "ws://b")), false)) by (vm_compute; reflexivity).
  destruct (@ShardLease_acquire_all map_redis (calm_env toy_clock) toy_lease false taken_world)
    as [rh w'] eqn:E1. cbn [fst] in H1. subst rh. exists w'. split; [reflexivity|].
  eapply (@acquire_all_or_nothing map_redis map_view map_redis_laws (calm_env toy_clock) toy_lease
    eq_refl toy_clock_monotone (λ _, eq_refl) false taken_world);
    [apply taken_keys_str|exact E1|reflexivity].
Defined.
