(* ===== verification/Refresher.v ===== *)
(** * Keeping the leases

    The task that renews a worker's shard leases ([ShardLease::spawn_refresher],
    crates/fanout-worker/src/lease.rs) among other workers that claim and release
    the same shards. Each tick renews all of them once; what other clients do
    between two ticks is an argument. *)

From S2P Require Import Prelude F64 Str Errors Geo Domain Registry Redis World Stores Lease.

Open Scope Z_scope.

(** ** The task *)

Section Task.
Context {R : RedisServer} {E : Env}.

(** The task for one tick per element of [others]: the flag, what happened at the
    ticks (when the renewal started and whether all leases were held), the world. *)
Fixpoint spawn_refresher (self : ShardLease) (others : list (World → World)) (healthy : bool) (w : World)
    : bool * list (Z * bool) * World :=
  match others with
  | [] => (healthy, [], w)
  | act :: others =>
    let w1 := act w in
    let '(held, w2) := ShardLease_refresh_once self w1 in
    let '(healthy', log, w') := spawn_refresher self others held w2 in
    (healthy', (env_clock (w_tick w1), held) :: log, w')
  end.
End Task.

(** Every renewal starts at most [gap] after the one before, the end of the run is
    at most [gap] after the last, and no two renewals in a row fail. *)
Fixpoint on_schedule (gap prev : Z) (missed : bool) (log : list (Z * bool)) (finish : Z) : bool :=
  match log with
  | [] => finish <=? prev + gap
  | (t, ok) :: log => (t <=? prev + gap) && (ok || negb missed) && on_schedule gap t (negb ok) log finish
  end.

(** Every renewal starts at most [gap] after the one before. *)
Fixpoint punctual (gap prev : Z) (log : list (Z * bool)) : bool :=
  match log with [] => true | (t, _) :: log => (t <=? prev + gap) && punctual gap t log end.

(** Until when the leases last, after the renewals of a log. *)
Fixpoint expiry (span till : Z) (log : list (Z * bool)) : Z :=
  match log with [] => till | (t, ok) :: log => expiry span (if ok then t + span else till) log end.

Lemma expiry_on_schedule span gap till prev (missed : bool) log finish :
  0 ≤ gap → 2 * gap < span → (if missed then prev - gap else prev) + span ≤ till →
  on_schedule gap prev missed log finish = true → finish < expiry span till log.
Proof.
  intros H0 Hg. revert till prev missed.
  induction log as [|[t ok] log IH]; intros till prev missed Ht; cbn [on_schedule expiry].
  - destruct missed; lia.
  - intros [[Hle Hok]%andb_prop Hlog]%andb_prop. apply Z.leb_le in Hle. revert Hlog. apply IH.
    destruct ok; cbn [negb]; [lia|]. destruct missed; [done|lia].
Qed.

(** ** Other clients *)

Section Rivals.
Context {R : RedisServer} {view : Z → string → rdb → option entry} {RL : RedisLaws R view}.

(** Other clients ran any number of commands: on other keys, and the claims and
    releases of other workers on this one. *)
Inductive rivals (key url : string) : Z → rdb → Z → rdb → Prop :=
| rivals_foreign now r later r' : foreign key now r later r' → rivals key url now r later r'
| rivals_claim now r url' ttl :
    url' ≠ url → 0 < ttl → rivals key url now r now (CLAIM_LUA key url' ttl now r).2
| rivals_release now r url' : url' ≠ url → rivals key url now r now (RELEASE_LUA key url' now r).2
| rivals_seq t1 r1 t2 r2 t3 r3 :
    rivals key url t1 r1 t2 r2 → rivals key url t2 r2 t3 r3 → rivals key url t1 r1 t3 r3.

(** They cannot take a lease that has not run out. *)
Lemma rivals_view key url now r later r' :
  rivals key url now r later r' → now ≤ later ∧
  ∀ d, view now key r = Some (RStr url, Some d) → later < d → view later key r' = Some (RStr url, Some d).
Proof.
  induction 1 as [now r later r' Hf|now r url' ttl Hne Ht|now r url' Hne
                 |t1 r1 t2 r2 t3 r3 _ [H12 IH1] _ [H23 IH2]].
  - apply foreign_view in Hf as [Hle Hv]. split; [done|]. intros d Hd Hlt. rewrite Hv, Hd. simpl.
    unfold expired; simpl. by rewrite (proj2 (Z.leb_gt _ _)).
  - split; [lia|]. intros d Hd _. by rewrite (CLAIM_LUA_taken _ _ _ _ _ url (Some d)) by done.
  - split; [lia|]. intros d Hd _. rewrite RELEASE_LUA_view by (intros e; rewrite Hd; intros [= <-]; eauto).
    rewrite decide_False; [done|]. unfold holder. rewrite Hd. naive_solver.
  - split; [lia|]. intros d Hd Hlt. apply IH2; [|done]. apply IH1; [done|lia].
Qed.
End Rivals.

Section RivalKeys.
Context {R : RedisServer} {view : Z → string → rdb → option entry} {RL : RedisLaws R view}.

(** A claim of another shard is a command on another key. *)
Lemma claim_foreign key j url ttl now r :
  0 < ttl → j ≠ key → foreign key now r now (CLAIM_LUA j url ttl now r).2.
Proof.
  intros Ht Hj. unfold CLAIM_LUA. destruct (cmd_get now j r) as [cur|].
  - case_decide; cbn [snd]; [by apply foreign_expire|by apply foreign_wait].
  - cbn [snd]. apply foreign_set; [done|]. by intros t [= <-].
Qed.

Lemma rivals_wait key url now r later : now ≤ later → rivals key url now r later r.
Proof. intros. by apply rivals_foreign, foreign_wait. Qed.
End RivalKeys.

(** ** The leases of one worker *)

Section Kept.
Context {R : RedisServer} {view : Z → string → rdb → option entry} {RL : RedisLaws R view}.
Context {E : Env} (self : ShardLease).
Hypothesis ttl_pos : 0 < sl_ttl_secs self.
Hypothesis clock_mono : clock_monotone.

Abbreviation clock w := (env_clock (w_tick w)).
Abbreviation ttl := (ttl_ns (sl_ttl_secs self)).
Abbreviation held_until := (held_until (view := view) self).
Abbreviation shard_entry := (shard_entry (view := view)).
Abbreviation keys_str := (keys_str (view := view)).

(** What the others do between two ticks. *)
Definition others_ok (act : World → World) : Prop := ∀ w,
  (keys_str w → keys_str (act w)) ∧ clock w ≤ clock (act w) ∧
  ∀ p, p ∈ sl_prefixes self →
    rivals (ShardRegistry_key p) (sl_url self) (clock w) (w_redis w) (clock (act w)) (w_redis (act w)).

Lemma act_keeps act t w p :
  others_ok act → p ∈ sl_prefixes self → held_until t w p → held_until t (act w) p.
Proof.
  intros Ho Hp Hh Hlt. destruct (Ho w) as (_ & Hle & Hr). apply (Hr p), rivals_view in Hp as [_ Hv].
  destruct Hh as (d & Hd & Hdt); [lia|]. exists d. split; [|done]. apply Hv; [done|lia].
Qed.

(** Another worker that renews, or tries to take the shards over, is such an act. *)
Lemma others_ok_id : others_ok (λ w, w).
Proof. intros w. split_and!; [done|done|]. intros p _. by apply rivals_wait. Qed.

Lemma others_ok_compose act1 act2 :
  others_ok act1 → others_ok act2 → others_ok (λ w, act2 (act1 w)).
Proof.
  intros H1 H2 w. destruct (H1 w) as (Hs1 & Hle1 & Hr1), (H2 (act1 w)) as (Hs2 & Hle2 & Hr2).
  split_and!; [auto|lia|]. intros p Hp. eapply rivals_seq; eauto.
Qed.

Lemma rival_claim_ok (b : ShardLease) p :
  sl_url b ≠ sl_url self → 0 < sl_ttl_secs b →
  others_ok (λ w, (ShardRegistry_claim_shard p (sl_url b) (sl_ttl_secs b) w).2).
Proof.
  intros Hne Hb w. destruct (ShardRegistry_claim_shard p (sl_url b) (sl_ttl_secs b) w) as [c w'] eqn:Hc.
  cbn [snd]. split.
  { intros Hs. by apply (claim_effect b Hb clock_mono w p c w' Hs Hc). }
  unfold ShardRegistry_claim_shard in Hc. rewrite mbind_ok_run in Hc.
  set (script := CLAIM_LUA (ShardRegistry_key p) (sl_url b) (sl_ttl_secs b)) in *.
  pose proof (redis_call_cases script w) as Hr. destruct (redis_call script w) as [r w1]. cbn [fst snd] in Hc.
  destruct Hr as (_ & _ & _ & Ht & Hr). assert (w1 = w') as -> by (destruct r; by injection Hc).
  assert (Hle : clock w ≤ clock w') by (rewrite Ht; apply clock_mono). split; [done|]. intros q _.
  assert (Hdb : w_redis w' = w_redis w ∨ w_redis w' = (script (clock w) (w_redis w)).2).
  { destruct r as [a|e]; [rewrite Hr; by right|]. destruct Hr as [_ ?]. done. }
  destruct Hdb as [-> | ->]; [by apply rivals_wait|].
  eapply rivals_seq; [|by apply rivals_wait]. destruct (decide (p = q)) as [->|Hpq].
  - by apply rivals_claim.
  - apply rivals_foreign, claim_foreign; [done|]. by intros Heq%shard_key_inj.
Qed.

Lemma rival_refresh_ok (b : ShardLease) :
  sl_url b ≠ sl_url self → 0 < sl_ttl_secs b → others_ok (λ w, (ShardLease_refresh_once b w).2).
Proof.
  intros Hne Hb. unfold ShardLease_refresh_once.
  assert (∀ ps acc, others_ok (λ w, (refresh_loop b acc ps w).2)) as H; [|apply H].
  induction ps as [|p ps IH]; intros acc; cbn [refresh_loop]; [apply others_ok_id|]. intros w.
  rewrite mbind_run. pose proof (others_ok_compose _ _ (rival_claim_ok b p Hne Hb)
    (IH (match (ShardRegistry_claim_shard p (sl_url b) (sl_ttl_secs b) w).1 with Ok true => acc | _ => false end)) w) as H.
  destruct (ShardRegistry_claim_shard p (sl_url b) (sl_ttl_secs b) w).1 as [[|]|]; exact H.
Qed.

(** One claim, whatever its answer. *)
Lemma claim_entry w p c w' :
  keys_str w → ShardRegistry_claim_shard p (sl_url self) (sl_ttl_secs self) w = (c, w') →
  shard_entry w' p = aged (clock w') (shard_entry w p) ∨
  shard_entry w' p = aged (clock w') (Some (RStr (sl_url self), Some (clock w + ttl))).
Proof.
  intros Hs Hc. unfold ShardRegistry_claim_shard in Hc. rewrite mbind_ok_run in Hc.
  set (script := CLAIM_LUA (ShardRegistry_key p) (sl_url self) (sl_ttl_secs self)) in *.
  pose proof (redis_call_cases script w) as Hr. pose proof (claim_script self ttl_pos w p Hs) as Hsc.
  fold script in Hsc. destruct (redis_call script w) as [r w1]. cbn [fst snd] in Hc.
  destruct Hr as (_ & _ & _ & Ht & Hr). destruct (script (clock w) (w_redis w)) as [n eff] eqn:Hscript.
  destruct Hsc as (_ & Hp & _). assert (w1 = w') as -> by (destruct r; by injection Hc).
  rewrite !(shard_entry_later clock_mono w w') by done.
  assert (Hdb : w_redis w' = w_redis w ∨ w_redis w' = eff).
  { destruct r as [a|e]; [injection Hr as _ <-; by right|]. destruct Hr as [_ [?|?]]; auto. }
  destruct Hdb as [-> | ->]; [by left|]. destruct Hp as [[_ ->]|(_ & -> & _)]; [by right|by left].
Qed.

Lemma claim_keeps t w p c w' q :
  keys_str w → ShardRegistry_claim_shard p (sl_url self) (sl_ttl_secs self) w = (c, w') →
  t ≤ clock w + ttl → held_until t w q → held_until t w' q.
Proof.
  intros Hs Hc Ht Hq. pose proof (claim_effect self ttl_pos clock_mono w p c w' Hs Hc) as (_ & Htick & Hoth & _).
  destruct (decide (q = p)) as [->|Hne]; [|by eapply held_until_later; eauto].
  destruct (claim_entry _ _ _ _ Hs Hc) as [He|He]; [by eapply held_until_later; eauto|].
  intros Hlt. exists (clock w + ttl). split; [|done]. rewrite He. simpl. unfold expired; simpl.
  by rewrite (proj2 (Z.leb_gt _ _)) by lia.
Qed.

Lemma refresh_loop_keeps t ps acc w r w' :
  keys_str w → t ≤ clock w + ttl → refresh_loop self acc ps w = (r, w') →
  keys_str w' ∧ clock w ≤ clock w' ∧ ∀ q, held_until t w q → held_until t w' q.
Proof.
  revert acc w. induction ps as [|p ps IH]; intros acc w Hs Ht; cbn [refresh_loop].
  { intros [= <- <-]. auto with lia. }
  rewrite mbind_run. destruct (ShardRegistry_claim_shard _ _ _ w) as [c w1] eqn:Hc. cbn [fst snd].
  pose proof (claim_effect self ttl_pos clock_mono w p c w1 Hs Hc) as (Hs1 & Htick & _).
  assert (Hle : clock w ≤ clock w1) by (rewrite Htick; apply clock_mono).
  assert (Hk : ∀ q, held_until t w q → held_until t w1 q) by (intros q; by eapply claim_keeps).
  intros Hl. destruct (IH (match c with Ok true => acc | _ => false end) w1 Hs1) as (Hs' & Hle' & Hk');
    [lia|destruct c as [[|]|]; exact Hl|]. split_and!; [done|lia|auto].
Qed.

(** One renewal: the leases last as before, or a time to live from its start. *)
Lemma refresh_step t w r w' :
  keys_str w → t ≤ clock w + ttl → (∀ p, p ∈ sl_prefixes self → held_until t w p) →
  ShardLease_refresh_once self w = (r, w') →
  let t' := if r then clock w + ttl else t in
  keys_str w' ∧ t' ≤ clock w' + ttl ∧ ∀ p, p ∈ sl_prefixes self → held_until t' w' p.
Proof.
  intros Hs Ht Hh Hr. pose proof (refresh_loop_keeps t _ _ _ _ _ Hs Ht Hr) as (Hs' & Hle & Hk).
  split; [done|]. destruct r; [|split; [lia|auto]]. split; [lia|].
  by apply (refresh_loop_sound self ttl_pos clock_mono _ (sl_prefixes self) w w' Hs (Z.le_refl _) Hr).
Qed.

Lemma refresher_keeps others healthy w t :
  keys_str w → t ≤ clock w + ttl → (∀ p, p ∈ sl_prefixes self → held_until t w p) →
  Forall others_ok others →
  let '(_, log, w') := spawn_refresher self others healthy w in
  keys_str w' ∧ ∀ p, p ∈ sl_prefixes self → held_until (expiry ttl t log) w' p.
Proof.
  intros Hs Ht Hh Ho. revert healthy w t Hs Ht Hh.
  induction Ho as [|act others Ha _ IH]; intros healthy w t Hs Ht Hh; cbn [spawn_refresher]; [done|].
  destruct (Ha w) as (Hs1 & Hle & _). specialize (Hs1 Hs).
  destruct (ShardLease_refresh_once self (act w)) as [held w2] eqn:Hr.
  destruct (refresh_step t (act w) held w2 Hs1) as (Hs2 & Ht2 & Hh2); [lia| |done|].
  { intros p Hp. by apply act_keeps, Hh. }
  specialize (IH held w2 _ Hs2 Ht2 Hh2). destruct (spawn_refresher self others held w2) as [[h log] w'].
  exact IH.
Qed.

(** C10: A worker that renews keeps its shards. Take a worker that held all its shards
    for a time to live from [start], and let its refresher run, its ticks late by
    less than a sixth of the time to live, while other workers claim and release
    the same shards as they like. As long as no two renewals in a row fail, for
    whatever reason, every one of its shards is registered to it at any moment. *)
Theorem refreshed_shards_are_kept others act healthy w start late :
  3 ≤ sl_ttl_secs self → 0 ≤ late → 6 * late < ttl →
  keys_str w → start ≤ clock w → (∀ p, p ∈ sl_prefixes self → held_until (start + ttl) w p) →
  Forall others_ok others → others_ok act →
  let '(_, log, w1) := spawn_refresher self others healthy w in
  let w' := act w1 in
  on_schedule (ttl_ns (refresh_interval self) + late) start false log (clock w') = true →
  ∀ p, p ∈ sl_prefixes self →
    cmd_get (clock w') (ShardRegistry_key p) (w_redis w') = Some (sl_url self).
Proof.
  intros H3 Hl0 Hl Hs Hst Hh Ho Ha. pose proof (refresher_keeps others healthy w (start + ttl) Hs ltac:(lia) Hh Ho) as Hk.
  destruct (spawn_refresher self others healthy w) as [[h log] w1]. destruct Hk as [_ Hk]. cbv zeta.
  intros Hsch p Hp. assert (Hiv : 0 ≤ 3 * ttl_ns (refresh_interval self) ≤ ttl).
  { unfold refresh_interval, ttl_ns. pose proof (Z.mul_div_le (sl_ttl_secs self) 3). lia. }
  apply (expiry_on_schedule ttl _ (start + ttl)) in Hsch; [|lia..].
  pose proof (act_keeps act _ w1 p Ha Hp (Hk p Hp)) as Hh'. destruct (Hh' Hsch) as (d & Hd & _).
  by apply (get_str (view := view) _ _ _ _ _ Hd).
Qed.

(** ** A worker that stops without releasing *)

(** The lease of a shard, if there is one, is ours and ends by [t]. *)
Definition ends_by (t : Z) (w : World) (p : string) : Prop :=
  ∀ e, shard_entry w p = Some e → ∃ d, e.2 = Some d ∧ d ≤ t.

Lemma ends_by_aged t w w' p :
  shard_entry w' p = aged (clock w') (shard_entry w p) → ends_by t w p → ends_by t w' p.
Proof.
  intros He Hb e. rewrite He. destruct (shard_entry w p) as [e0|] eqn:H0; [|done]. simpl.
  destruct (expired _ e0); [done|]. intros [= <-]. by apply Hb.
Qed.

Lemma refresh_loop_ends ps acc w r w' t :
  keys_str w → refresh_loop self acc ps w = (r, w') → clock w' + ttl ≤ t →
  (∀ q, ends_by t w q → ends_by t w' q) ∧ (r = true → ∀ p, p ∈ ps → ends_by t w' p).
Proof.
  revert acc w. induction ps as [|p ps IH]; intros acc w Hs; cbn [refresh_loop].
  { intros [= <- <-] _. split; [done|set_solver]. }
  rewrite mbind_run. destruct (ShardRegistry_claim_shard _ _ _ w) as [c w1] eqn:Hc. cbn [fst snd].
  pose proof (claim_effect self ttl_pos clock_mono w p c w1 Hs Hc) as (Hs1 & Htick & Hoth & Hwon & _).
  intros Hl Ht. set (acc' := match c with Ok true => acc | _ => false end).
  assert (Hl' : refresh_loop self acc' ps w1 = (r, w')) by (subst acc'; destruct c as [[|]|]; exact Hl).
  destruct (refresh_loop_keeps (clock w1) ps acc' w1 r w' Hs1) as (_ & Hle & _);
    [unfold ttl_ns; lia|done|].
  destruct (IH acc' w1 Hs1 Hl' Ht) as [Hk Hps].
  assert (Hle1 : clock w ≤ clock w1) by (rewrite Htick; apply clock_mono).
  assert (Hp : ∀ e, aged (clock w1) (Some (RStr (sl_url self), Some (clock w + ttl))) = Some e →
    ∃ d, e.2 = Some d ∧ d ≤ t).
  { intros e. simpl. destruct (expired _ _); [done|]. intros [= <-]. eexists. split; [done|]. lia. }
  split.
  - intros q Hq. apply Hk. destruct (decide (q = p)) as [->|Hne]; [|by eapply ends_by_aged; eauto].
    destruct (claim_entry _ _ _ _ Hs Hc) as [He|He]; [by eapply ends_by_aged|].
    intros e. rewrite He. apply Hp.
  - intros -> q [->|Hq]%elem_of_cons; [|by apply Hps]. apply Hk.
    assert (c = Ok true) as Hct.
    { destruct c as [[|]|]; [done|..]; subst acc'; pose proof (refresh_loop_false self ps w1) as Hf;
        by rewrite Hl' in Hf. }
    intros e. rewrite (Hwon Hct). apply Hp.
Qed.

(** ** Without faults *)

Hypothesis no_faults : ∀ n, env_fault n = Works.

Abbreviation mine_or_free := (mine_or_free (view := view) self).

Lemma claim_wins w p :
  keys_str w → mine_or_free w p →
  ∃ w', ShardRegistry_claim_shard p (sl_url self) (sl_ttl_secs self) w = (Ok true, w').
Proof.
  intros Hs Hm. unfold ShardRegistry_claim_shard. rewrite mbind_ok_run, redis_call_works by done.
  cbn [fst snd mret_]. eexists. do 3 f_equal. apply Z.eqb_eq.
  destruct Hm as [Hf|[d Hd]]; [by apply (CLAIM_LUA_free (view := view))|by eapply (CLAIM_LUA_own (view := view))].
Qed.

Lemma claim_mine w p c w' :
  keys_str w → ShardRegistry_claim_shard p (sl_url self) (sl_ttl_secs self) w = (c, w') →
  keys_str w' ∧ ∀ q, mine_or_free w q → mine_or_free w' q.
Proof.
  intros Hs Hc. pose proof (claim_effect self ttl_pos clock_mono w p c w' Hs Hc) as (Hs' & _ & Hoth & _).
  split; [done|]. intros q Hq. unfold Lease.mine_or_free. destruct (decide (q = p)) as [->|Hne].
  - destruct (claim_entry _ _ _ _ Hs Hc) as [-> | ->]; [by apply aged_mine|]. apply aged_mine. eauto.
  - rewrite Hoth by done. by apply aged_mine.
Qed.

Lemma refresh_loop_wins ps w :
  keys_str w → (∀ p, p ∈ ps → mine_or_free w p) → (refresh_loop self true ps w).1 = true.
Proof.
  revert w. induction ps as [|p ps IH]; intros w Hs Hm; [done|]. cbn [refresh_loop]. rewrite mbind_run.
  destruct (claim_wins w p Hs) as [w1 Hc]; [apply Hm; by left|].
  destruct (claim_mine _ _ _ _ Hs Hc) as [Hs1 Hm1]. rewrite Hc. cbn [fst snd].
  apply IH; [done|]. intros q Hq. apply Hm1, Hm. by right.
Qed.

(** In time, every renewal succeeds. When Redis answers and each renewal starts
    less than a time to live after the one before, every renewal of the run reports
    that all leases are held, whatever other workers try in between, so the worker
    stays healthy. *)
Theorem renewals_succeed others healthy w start gap :
  0 ≤ gap < ttl → keys_str w → start ≤ clock w →
  (∀ p, p ∈ sl_prefixes self → held_until (start + ttl) w p) → Forall others_ok others →
  let '(healthy', log, _) := spawn_refresher self others healthy w in
  punctual gap start log = true →
  Forall (λ x, x.2 = true) log ∧ healthy' = (if others is [] then healthy else true).
Proof.
  intros Hg Hs Hst Hh Ho. revert healthy w start Hs Hst Hh.
  induction Ho as [|act others Ha _ IH]; intros healthy w start Hs Hst Hh; cbn [spawn_refresher]; [done|].
  destruct (Ha w) as (Hs1 & Hle & _). specialize (Hs1 Hs).
  assert (Hh1 : ∀ p, p ∈ sl_prefixes self → held_until (start + ttl) (act w) p)
    by (intros p Hp; by apply act_keeps, Hh).
  destruct (ShardLease_refresh_once self (act w)) as [held w2] eqn:Hr.
  specialize (IH held w2 (clock (act w))).
  pose proof (refresh_step (start + ttl) (act w) held w2 Hs1 ltac:(lia) Hh1 Hr) as (Hs2 & Hle2 & Hh2).
  destruct (spawn_refresher self others held w2) as [[h log] w'] eqn:Hrest. cbn [punctual].
  intros [Hin%Z.leb_le Hlog]%andb_prop.
  assert (held = true) as ->.
  { pose proof (refresh_loop_wins (sl_prefixes self) (act w) Hs1) as Hw.
    change (refresh_loop self true (sl_prefixes self)) with (ShardLease_refresh_once self) in Hw.
    rewrite Hr in Hw. apply Hw. intros p Hp. destruct (Hh1 p Hp ltac:(lia)) as (d & Hd & _).
    right. eauto. }
  destruct (IH Hs2 ltac:(lia) Hh2 Hlog) as [Hall Hh']. split; [by constructor|]. by destruct others.
Qed.
End Kept.

Section Crash.
Context {R : RedisServer} {view : Z → string → rdb → option entry} {RL : RedisLaws R view}.
Context {E : Env} (self other : ShardLease).
Hypothesis ttl_pos : 0 < sl_ttl_secs self.
Hypothesis other_pos : 0 < sl_ttl_secs other.
Hypothesis clock_mono : clock_monotone.
Hypothesis no_faults : ∀ n, env_fault n = Works.

Abbreviation clock w := (env_clock (w_tick w)).

(** C29: A dead worker's shards become free. When a worker stops without releasing
    anything after a renewal, then a time to live later another worker that is
    configured with any of its shards acquires them all at its first attempt, if
    nobody else claimed them in between. *)
Theorem crashed_worker_is_replaced act h w w1 :
  keys_str (view := view) w → ShardLease_refresh_once self w = (true, w1) →
  keys_str (view := view) (act w1) →
  (∀ p, p ∈ sl_prefixes other →
     foreign (ShardRegistry_key p) (clock w1) (w_redis w1) (clock (act w1)) (w_redis (act w1))) →
  clock w1 + ttl_ns (sl_ttl_secs self) ≤ clock (act w1) →
  NoDup (sl_prefixes other) → sl_prefixes other ⊆ sl_prefixes self →
  (ShardLease_acquire_all other h (act w1)).1 = (Ok (), true).
Proof.
  intros Hs Hr Hs2 Hf Ht Hnd Hsub.
  destruct (refresh_loop_ends self ttl_pos clock_mono (sl_prefixes self) true w true w1 _ Hs Hr
    (Z.le_refl _)) as [_ Hend]. specialize (Hend eq_refl).
  unfold ShardLease_acquire_all. rewrite mbind_run.
  pose proof (acquire_loop_free other other_pos clock_mono no_faults (sl_prefixes other) [] (act w1) Hs2 Hnd) as Ha.
  destruct (acquire_loop other [] (sl_prefixes other) (act w1)) as [r w2]. cbn [fst snd mret_] in *.
  rewrite Ha; [done|]. intros p Hp. specialize (Hend p (Hsub p Hp)). specialize (Hf p Hp).
  apply foreign_view in Hf as [_ Hv]. unfold shard_entry. rewrite Hv.
  destruct (view (clock w1) (ShardRegistry_key p) (w_redis w1)) as [e|] eqn:He; [|done].
  destruct (Hend e He) as (d & Hd & Hdt). simpl. unfold expired. rewrite Hd.
  by rewrite (proj2 (Z.leb_le _ _)) by lia.
Qed.
End Crash.

(** ** Witnesses *)

(** Another worker that would like to have the shards of [toy_lease]. *)
Definition rival_lease : ShardLease := MkLease ["tkrt"; "tkrw"] "ws://b" 30.
Abbreviation rival_tries := (λ w : @World map_redis, (@ShardLease_refresh_once map_redis (calm_env toy_clock) rival_lease w).2).

Lemma rival_tries_ok : @others_ok map_redis map_view (calm_env toy_clock) toy_lease rival_tries.
Proof. by apply (@rival_refresh_ok map_redis map_view map_redis_laws (calm_env toy_clock) toy_lease toy_clock_monotone). Qed.

(** The worker has claimed its shards at time 0. *)
Abbreviation first_claims := (@ShardLease_refresh_once map_redis (calm_env toy_clock) toy_lease toy_world).
Definition leased_world : @World map_redis := first_claims.2.

Lemma leased_facts :
  @keys_str map_redis map_view (calm_env toy_clock) leased_world ∧
  ∀ p, p ∈ sl_prefixes toy_lease →
    @held_until map_redis map_view (calm_env toy_clock) toy_lease (0 + ttl_ns 30) leased_world p.
Proof.
  unfold leased_world. assert (Hr : first_claims.1 = true) by (vm_compute; reflexivity).
  destruct first_claims as [r w'] eqn:Hf. cbn [fst snd] in *. subst r.
  pose proof (@refresh_step map_redis map_view map_redis_laws (calm_env toy_clock) toy_lease eq_refl
    toy_clock_monotone 0 toy_world true w' toy_keys_str ltac:(done)) as H. cbv zeta in H.
  destruct H as (Hk & _ & Hh); [|exact Hf|exact (conj Hk Hh)].
  intros p _ Hlt. by apply Z.lt_irrefl in Hlt.
Qed.

Abbreviation toy_refresher n :=
  (@spawn_refresher map_redis (calm_env toy_clock) toy_lease (replicate n rival_tries) true leased_world).

Lemma refreshed_shards_are_kept_witness :
  cmd_get (@env_clock (calm_env toy_clock) (w_tick (toy_refresher 3).2)) (ShardRegistry_key "tkrw")
    (w_redis (toy_refresher 3).2) = Some "ws://a".
Proof.
  destruct leased_facts as [Hs Hh].
  pose proof (@refreshed_shards_are_kept map_redis map_view map_redis_laws (calm_env toy_clock) toy_lease
    eq_refl toy_clock_monotone (replicate 3 rival_tries) (λ w, w) true leased_world 0 (10 ^ 9)) as H.
  specialize (H ltac:(done) ltac:(done) ltac:(done) Hs ltac:(done) Hh).
  specialize (H (Forall_replicate _ 3 _ rival_tries_ok) (others_ok_id toy_lease)).
  assert (Hsch : on_schedule (ttl_ns (refresh_interval toy_lease) + 10 ^ 9) 0 false (toy_refresher 3).1.2
    (@env_clock (calm_env toy_clock) (w_tick (toy_refresher 3).2)) = true) by (vm_compute; reflexivity).
  destruct (toy_refresher 3) as [[h log] w1]. apply (H Hsch "tkrw"). set_solver.
Defined.

Lemma renewals_succeed_witness :
  Forall (λ x, x.2 = true) (toy_refresher 3).1.2 ∧ (toy_refresher 3).1.1 = true.
Proof.
  destruct leased_facts as [Hs Hh].
  pose proof (@renewals_succeed map_redis map_view map_redis_laws (calm_env toy_clock) toy_lease
    eq_refl toy_clock_monotone (λ _, eq_refl) (replicate 3 rival_tries) true leased_world 0 (10 ^ 10)) as H.
  assert (Hg : 0 ≤ 10 ^ 10 < ttl_ns 30) by (vm_compute; split; [discriminate|reflexivity]).
  assert (Hc : 0 ≤ @env_clock (calm_env toy_clock) (w_tick leased_world)) by (vm_compute; discriminate).
  specialize (H Hg Hs Hc Hh (Forall_replicate _ 3 _ rival_tries_ok)).
  assert (Hp : punctual (10 ^ 10) 0 (toy_refresher 3).1.2 = true) by (vm_compute; reflexivity).
  destruct (toy_refresher 3) as [[h log] w1]. exact (H Hp).
Defined.

(** Half a minute passes between the worker's end and the other's start. *)
Lemma crashed_worker_is_replaced_witness :
  (@ShardLease_acquire_all map_redis (calm_env toy_clock) rival_lease false (set_tick 40 leased_world)).1
    = (Ok (), true).
Proof.
  destruct leased_facts as [Hs _].
  assert (Hr : first_claims = (true, leased_world)).
  { unfold leased_world. assert (Hr1 : first_claims.1 = true) by (vm_compute; reflexivity).
    destruct first_claims as [r w']. cbn [fst snd] in *. by subst r. }
  apply (@crashed_worker_is_replaced map_redis map_view map_redis_laws (calm_env toy_clock) toy_lease
    rival_lease eq_refl eq_refl toy_clock_monotone (λ _, eq_refl) (set_tick 40) false toy_world leased_world
    toy_keys_str Hr).
  - intros p e He. apply (Hs p). revert He. cbn [set_tick w_redis w_tick].
    rewrite (@view_aged map_redis map_view map_redis_laws (@env_clock (calm_env toy_clock) (w_tick leased_world))) by (vm_compute; discriminate).
    unfold aged. destruct (map_view _ _ _) as [e'|]; [|done]. by destruct (expired _ e').
  - intros p _. apply foreign_wait. vm_compute. discriminate.
  - vm_compute. discriminate.
  - apply NoDup_cons; split; [set_solver|apply NoDup_singleton].
  - done.
Defined.
