(* ===== verification/Db.v ===== *)
(** * The Postgres repositories

    crates/infra/src/db.rs: each method is one SQL statement. A statement is a
    function on the tables of [World]; a constraint violation is an error value.
    Timestamps lose their nanoseconds when stored. Two rows that compare equal
    under an ORDER BY keep the order of the table scan; [TableScan] is that
    order. The declared widths of the VARCHAR columns (12 and 8) are wider than
    the geohashes stored in them and are not modelled.

    The circle predicate is evaluated by Postgres: its mathematical functions
    are the class [PgMath]. *)

From S2P Require Import Prelude F64 Str Errors Geo Domain Registry Redis World.

Open Scope Z_scope.
Open Scope f64_scope.

Class PgMath : Type := {
  pg_sin : f64 → f64; pg_cos : f64 → f64; pg_asin : f64 → f64;
  pg_power : f64 → f64 → f64; pg_radians : f64 → f64;
}.

(** ** The circle predicate *)

Record CircleParams : Type := MkCircle {
  cp_lat : f64; cp_lon : f64; cp_min_lat : f64; cp_max_lat : f64;
  cp_lon1 : f64 * f64; cp_lon2 : f64 * f64; cp_radius : f64;
}.

(** [boxes[0]] panics on an empty list; [None] stands for the panic. *)
Definition CircleParams_new {L : Libm} (center : Location) (radius_meters : f64)
    : result (option CircleParams) AppError :=
  let? boxes := bounding_boxes center radius_meters in
  Ok match boxes with
     | [] => None
     | first :: rest =>
       let lon2 := match rest with
                   | b :: _ => (min_lon b, max_lon b)
                   | [] => (f64_of_Z 1, f64_zero)
                   end in
       Some (MkCircle (lat center) (lon center) (min_lat first) (max_lat first)
               (min_lon first, max_lon first) lon2 radius_meters)
     end.

Definition between (x lo hi : f64) : bool := (lo <=. x) && (x <=. hi).

(** [in_circle_sql!]. *)
Definition in_circle {P : PgMath} (p : CircleParams) (la lo : f64) : bool :=
  between la (cp_min_lat p) (cp_max_lat p)
  && (between lo (cp_lon1 p).1 (cp_lon1 p).2 || between lo (cp_lon2 p).1 (cp_lon2 p).2)
  && (f64_of_Z 2 ×. f64_of_Z 6371000 ×.
        pg_asin (f64_min (f64_of_Z 1) (f64_sqrt
          (pg_power (pg_sin (pg_radians (la -. cp_lat p) /. f64_of_Z 2)) (f64_of_Z 2)
           +. pg_cos (pg_radians (cp_lat p)) ×. pg_cos (pg_radians la)
              ×. pg_power (pg_sin (pg_radians (lo -. cp_lon p) /. f64_of_Z 2)) (f64_of_Z 2))))
      <=. cp_radius p).

Record ShardCounts : Type := MkCounts { in_shard_count : Z; in_radius_count : Z }.

Record DeviceSummary : Type := MkSummary {
  su_id : Uuid; su_lat : f64; su_lon : f64; su_shard_prefix : string;
}.

Record DeliveryRecord : Type := MkDeliveryRecord {
  dl_shard_prefix : string; dl_published_at : DateTime;
  dl_devices_in_shard : Z; dl_devices_in_radius : Z;
}.

(** ** Rows and entities *)

Definition DeviceRow_of (d : Device) : DeviceRow :=
  MkDeviceRow (dev_id d) (lat (dev_location d)) (lon (dev_location d)) (dev_geohash d)
    (dev_shard_prefix d) (to_micros (dev_registered_at d)) (to_micros (dev_last_seen d)).

(** [TryFrom<DeviceRow> for Device]. *)
Definition Device_try_from (row : DeviceRow) : result Device AppError :=
  let? location := Location_new (dr_lat row) (dr_lon row) in
  Ok (MkDevice (dr_id row) location (dr_geohash row) (dr_shard_prefix row)
        (dr_registered_at row) (dr_last_seen row)).

Definition AlertRow_of (a : Alert) : AlertRow :=
  MkAlertRow (al_id a) (lat (al_center a)) (lon (al_center a)) (al_radius_meters a)
    (AlertSeverity_as_str (al_severity a)) (al_title a) (al_message a) (to_micros (al_created_at a)).

(** [TryFrom<AlertRow> for Alert]. *)
Definition Alert_try_from (row : AlertRow) : result Alert AppError :=
  let? severity := ok_or (AlertSeverity_parse (ar_severity row))
    (Database ("unknown severity '" +:+ ar_severity row +:+ "'")) in
  let? center := Location_new (ar_center_lat row) (ar_center_lon row) in
  Ok (MkAlert (ar_id row) center (ar_radius_meters row) severity (ar_title row) (ar_message row)
        (ar_created_at row)).

(** The order in which a table is scanned. *)
Class TableScan : Type := {
  scan_devices :: MapOrder Uuid DeviceRow;
  scan_alerts :: MapOrder Uuid AlertRow;
  scan_deliveries :: MapOrder (Uuid * string) DeliveryRow;
}.

(** Sort keys. *)
Definition by_time {A} (ts : A → DateTime) (a b : A) : Prop := ts a ≤ ts b.
Definition by_created_desc (a b : AlertRow) : Prop := ar_created_at b ≤ ar_created_at a.
Definition by_id (a b : DeviceRow) : Prop := (uuid_val (dr_id a) ≤ uuid_val (dr_id b))%N.
Definition by_shard_prefix (a b : DeliveryRow) : Prop := str_le (de_shard_prefix a) (de_shard_prefix b).

Global Instance by_time_dec {A} (ts : A → DateTime) : RelDecision (by_time ts).
Proof. intros a b. unfold by_time. apply _. Defined.
Global Instance by_created_desc_dec : RelDecision by_created_desc.
Proof. intros a b. unfold by_created_desc. apply _. Defined.
Global Instance by_id_dec : RelDecision by_id.
Proof. intros a b. unfold by_id. apply _. Defined.
Global Instance by_shard_prefix_dec : RelDecision by_shard_prefix.
Proof. intros a b. unfold by_shard_prefix, str_le. apply _. Defined.

Definition set_devices (m : gmap Uuid DeviceRow) (t : Pg) : Pg :=
  MkPg m (t_alerts t) (t_deliveries t).
Definition set_alerts (m : gmap Uuid AlertRow) (t : Pg) : Pg :=
  MkPg (t_devices t) m (t_deliveries t).
Definition set_deliveries (m : gmap (Uuid * string) DeliveryRow) (t : Pg) : Pg :=
  MkPg (t_devices t) (t_alerts t) m.

(** ** Statements *)

Definition device_rows {S : TableScan} (t : Pg) : list DeviceRow := (map_iter (t_devices t)).*2.

(** SELECT id ... WHERE ts < cutoff ORDER BY ts. *)
Definition sorted_stale {A} {MO : MapOrder Uuid A} (ts : A → DateTime) (cutoff : DateTime)
    (m : gmap Uuid A) : list A :=
  merge_sort (by_time ts) (filter (λ r, ts r < to_micros cutoff) (map_iter m).*2).

(** The rows a purge picks: older than the cut-off, oldest first, at most
    [batch]. *)
Definition pick_batch {A} {MO : MapOrder Uuid A} (ts : A → DateTime) (cutoff : DateTime) (batch : Z)
    (m : gmap Uuid A) : list A :=
  take (Z.to_nat batch) (sorted_stale ts cutoff m).

Definition stmt_purge_inactive {S : TableScan} (cutoff : DateTime) (batch : Z) (t : Pg) : Z * Pg :=
  let ids := dr_id <$> pick_batch dr_last_seen cutoff batch (t_devices t) in
  (Z.of_nat (length ids), set_devices (filter (λ kv, kv.1 ∉ ids) (t_devices t)) t).

(** ON DELETE CASCADE takes the delivery rows with their alert. *)
Definition stmt_purge_alerts {S : TableScan} (cutoff : DateTime) (batch : Z) (t : Pg) : Z * Pg :=
  let ids := ar_id <$> pick_batch ar_created_at cutoff batch (t_alerts t) in
  (Z.of_nat (length ids),
   set_deliveries (filter (λ kv, kv.1.1 ∉ ids) (t_deliveries t))
     (set_alerts (filter (λ kv, kv.1 ∉ ids) (t_alerts t)) t)).

Definition stmt_insert_device (row : DeviceRow) (t : Pg) : result unit string * Pg :=
  match t_devices t !! dr_id row with
  | Some _ => (Err "duplicate key value violates unique constraint", t)
  | None => (Ok (), set_devices (<[dr_id row := row]> (t_devices t)) t)
  end.

Definition stmt_insert_alert (row : AlertRow) (t : Pg) : result unit string * Pg :=
  match t_alerts t !! ar_id row with
  | Some _ => (Err "duplicate key value violates unique constraint", t)
  | None => (Ok (), set_alerts (<[ar_id row := row]> (t_alerts t)) t)
  end.

(** Foreign key on [alerts], and ON CONFLICT DO NOTHING. *)
Definition stmt_insert_delivery (alert_id : Uuid) (row : DeliveryRow) (t : Pg)
    : result unit string * Pg :=
  match t_deliveries t !! (alert_id, de_shard_prefix row) with
  | Some _ => (Ok (), t)
  | None =>
    match t_alerts t !! alert_id with
    | None => (Err "insert or update violates foreign key constraint", t)
    | Some _ => (Ok (), set_deliveries (<[(alert_id, de_shard_prefix row) := row]> (t_deliveries t)) t)
    end
  end.

(** UPDATE ... WHERE id = $1: the number of rows changed. *)
Definition stmt_update_device (id : Uuid) (f : DeviceRow → DeviceRow) (t : Pg) : Z * Pg :=
  match t_devices t !! id with
  | Some row => (1, set_devices (<[id := f row]> (t_devices t)) t)
  | None => (0, t)
  end.

Definition stmt_delete_device (id : Uuid) (t : Pg) : Z * Pg :=
  match t_devices t !! id with
  | Some _ => (1, set_devices (delete id (t_devices t)) t)
  | None => (0, t)
  end.

Section Repositories.
Context {R : RedisServer} {E : Env} {UC : UuidCodec} {L : Libm} {P : PgMath} {S : TableScan}.

(** A statement that can violate a constraint. *)
Definition pg_stmt {A} (f : DateTime → Pg → result A string * Pg) : MR A :=
  let!? r := pg_call f in mret_ (map_err Database r).

(** ** Devices *)

Definition DeviceRepository_insert (device : Device) : MR unit :=
  pg_stmt (λ _, stmt_insert_device (DeviceRow_of device)).

Definition DeviceRepository_update_location (id : DeviceId) (location : Location)
    (geohash shard_prefix : string) : MR unit :=
  let!? rows := pg_call (λ now, stmt_update_device id (λ r,
      MkDeviceRow (dr_id r) (lat location) (lon location) geohash shard_prefix
        (dr_registered_at r) (to_micros now))) in
  mret_ (if rows =? 0 then Err (DeviceNotFound (uuid_to_string id)) else Ok ()).

Definition DeviceRepository_find_by_id (id : DeviceId) : MR Device :=
  let!? row := pg_read (λ t, t_devices t !! id) in
  mret_ match row with
        | None => Err (DeviceNotFound (uuid_to_string id))
        | Some row => Device_try_from row
        end.

Definition DeviceRepository_count_in_shard (shard_prefix : string) : MR Z :=
  pg_read (λ t, Z.of_nat (map_count (λ r, bool_decide (dr_shard_prefix r = shard_prefix)) (t_devices t))).

(** The two counts of one pass over the shard. *)
Definition count_shard_and_circle (shard_prefix : string) (p : CircleParams) (t : Pg) : ShardCounts :=
  let here := λ r, bool_decide (dr_shard_prefix r = shard_prefix) in
  MkCounts (Z.of_nat (map_count here (t_devices t)))
    (Z.of_nat (map_count (λ r, here r && in_circle p (dr_lat r) (dr_lon r)) (t_devices t))).

(** A panic of [CircleParams::new] would surface as an internal error. *)
Definition circle_or_panic (center : Location) (radius_meters : f64) : result CircleParams AppError :=
  let? p := CircleParams_new center radius_meters in
  ok_or p (Internal "index out of bounds").

Definition DeviceRepository_count_in_shard_and_radius (shard_prefix : string) (center : Location)
    (radius_meters : f64) : MR ShardCounts :=
  match circle_or_panic center radius_meters with
  | Err e => mret_ (Err e)
  | Ok p => pg_read (count_shard_and_circle shard_prefix p)
  end.

Definition DeviceRepository_list_in_circle (shard_prefixes : list string) (center : Location)
    (radius_meters : f64) (limit : Z) : MR (list DeviceSummary) :=
  match circle_or_panic center radius_meters with
  | Err e => mret_ (Err e)
  | Ok p => pg_read (λ t,
      (λ r, MkSummary (dr_id r) (dr_lat r) (dr_lon r) (dr_shard_prefix r)) <$>
        take (Z.to_nat limit) (merge_sort by_id
          (filter (λ r, dr_shard_prefix r ∈ shard_prefixes ∧ in_circle p (dr_lat r) (dr_lon r) = true)
             (device_rows t))))
  end.

Definition DeviceRepository_touch (id : DeviceId) : MR unit :=
  let!? rows := pg_call (λ now, stmt_update_device id (λ r,
      MkDeviceRow (dr_id r) (dr_lat r) (dr_lon r) (dr_geohash r) (dr_shard_prefix r)
        (dr_registered_at r) (to_micros now))) in
  mret_ (if rows =? 0 then Err (DeviceNotFound (uuid_to_string id)) else Ok ()).

Definition DeviceRepository_delete (id : DeviceId) : MR bool :=
  let!? rows := pg_call (λ _, stmt_delete_device id) in
  mret_ (Ok (0 <? rows)).

Definition DeviceRepository_purge_inactive (cutoff : DateTime) (batch : Z) : MR Z :=
  pg_call (λ _, stmt_purge_inactive cutoff batch).

Definition DeviceRepository_count_all : MR Z :=
  pg_read (λ t, Z.of_nat (size (t_devices t))).

(** ** Alerts *)

Definition AlertRepository_insert_alert (alert : Alert) : MR unit :=
  pg_stmt (λ _, stmt_insert_alert (AlertRow_of alert)).

Definition AlertRepository_record_shard_delivery (alert_id : AlertId) (shard_prefix : string)
    (counts : ShardCounts) : MR unit :=
  let! _ := new_uuid in
  let! published_at := utc_now in
  pg_stmt (λ _, stmt_insert_delivery alert_id
    (MkDeliveryRow shard_prefix (to_micros published_at)
       (i32_wrap (in_shard_count counts)) (i32_wrap (in_radius_count counts)))).

Definition AlertRepository_record_delivery (alert_id : AlertId) (shard_prefix : string)
    (devices_in_shard : Z) : MR unit :=
  AlertRepository_record_shard_delivery alert_id shard_prefix (MkCounts devices_in_shard 0).

Definition AlertRepository_get_alert (id : AlertId) : MR Alert :=
  let!? row := pg_read (λ t, t_alerts t !! id) in
  mret_ match row with
        | None => Err (NotFound ("alert " +:+ uuid_to_string id))
        | Some row => Alert_try_from row
        end.

(** [collect] into a [Result]: the first error wins. *)
Fixpoint collect_results {A} (l : list (result A AppError)) : result (list A) AppError :=
  match l with
  | [] => Ok []
  | r :: l => let? a := r in let? rest := collect_results l in Ok (a :: rest)
  end.

Definition AlertRepository_recent_alerts (limit : Z) : MR (list Alert) :=
  let!? rows := pg_read (λ t,
    take (Z.to_nat limit) (merge_sort by_created_desc (map_iter (t_alerts t)).*2)) in
  mret_ (collect_results (Alert_try_from <$> rows)).

Definition AlertRepository_list_deliveries (alert_id : AlertId) : MR (list DeliveryRecord) :=
  pg_read (λ t,
    (λ r, MkDeliveryRecord (de_shard_prefix r) (de_published_at r) (de_devices_in_shard r)
            (de_devices_in_radius r)) <$>
      merge_sort by_shard_prefix
        (filter (λ kv, kv.1.1 = alert_id) (map_iter (t_deliveries t))).*2).

Definition AlertRepository_purge_older_than (cutoff : DateTime) (batch : Z) : MR Z :=
  pg_call (λ _, stmt_purge_alerts cutoff batch).
End Repositories.

(** ** The tables' invariant *)

(** Rows are stored under their own identifiers and every delivery row belongs
    to an alert that exists. *)
Record pg_wf (t : Pg) : Prop := MkPgWf {
  wf_devices k r : t_devices t !! k = Some r → dr_id r = k;
  wf_alerts k r : t_alerts t !! k = Some r → ar_id r = k;
  wf_deliveries k s r : t_deliveries t !! (k, s) = Some r →
    de_shard_prefix r = s ∧ is_Some (t_alerts t !! k);
}.

Inductive DbStmt : Type :=
| SInsertDevice (row : DeviceRow)
| SInsertAlert (row : AlertRow)
| SInsertDelivery (alert_id : Uuid) (row : DeliveryRow)
| SUpdateDevice (id : Uuid) (f : DeviceRow → DeviceRow) (Hf : ∀ r, dr_id (f r) = dr_id r)
| SDeleteDevice (id : Uuid)
| SPurgeDevices (cutoff : DateTime) (batch : Z)
| SPurgeAlerts (cutoff : DateTime) (batch : Z).

Section Tables.
Context {S : TableScan}.

Definition exec (s : DbStmt) (t : Pg) : Pg :=
  match s with
  | SInsertDevice row => (stmt_insert_device row t).2
  | SInsertAlert row => (stmt_insert_alert row t).2
  | SInsertDelivery a row => (stmt_insert_delivery a row t).2
  | SUpdateDevice id f _ => (stmt_update_device id f t).2
  | SDeleteDevice id => (stmt_delete_device id t).2
  | SPurgeDevices c b => (stmt_purge_inactive c b t).2
  | SPurgeAlerts c b => (stmt_purge_alerts c b t).2
  end.

Lemma wf_set_devices t m :
  pg_wf t → (∀ k r, m !! k = Some r → dr_id r = k) → pg_wf (set_devices m t).
Proof. intros [H1 H2 H3] Hm. by split. Qed.

Lemma exec_wf s t : pg_wf t → pg_wf (exec s t).
Proof.
  intros Hwf. pose proof Hwf as [Hd Ha Hdl].
  destruct s as [row|row|a row|id f Hf|id|c b|c b]; cbn [exec].
  - unfold stmt_insert_device. case_match; [done|]. apply wf_set_devices; [done|].
    intros k r [[<- <-]|[_ Hr]]%lookup_insert_Some; auto.
  - unfold stmt_insert_alert. case_match; [done|]. split; simpl; [done| |].
    + intros k r [[<- <-]|[_ Hr]]%lookup_insert_Some; auto.
    + intros k s r Hr. destruct (Hdl _ _ _ Hr) as [? ?]. split; [done|].
      apply lookup_insert_is_Some'. by right.
  - unfold stmt_insert_delivery. case_match; [done|]. case_match eqn:Hal; [|done].
    split; simpl; [done|done|].
    intros k s r [[[= <- <-] <-]|[_ Hr]]%lookup_insert_Some; [by rewrite Hal|]. by apply Hdl.
  - unfold stmt_update_device. case_match eqn:Hrow; [|done]. apply wf_set_devices; [done|].
    intros k r [[<- <-]|[_ Hr]]%lookup_insert_Some; [rewrite Hf; auto|auto].
  - unfold stmt_delete_device. case_match; [|done]. apply wf_set_devices; [done|].
    intros k r [_ Hr]%lookup_delete_Some. auto.
  - apply wf_set_devices; [done|]. intros k r [Hr _]%map_lookup_filter_Some. auto.
  - split; simpl; [done| |].
    + intros k r [Hr _]%map_lookup_filter_Some. auto.
    + intros k s r [Hr Hk]%map_lookup_filter_Some. simpl in Hk.
      destruct (Hdl _ _ _ Hr) as [? [x Hx]]. split; [done|]. exists x.
      apply map_lookup_filter_Some. done.
Qed.

(** The tables stay well formed: whatever statements run, in whatever order,
    each row stays under its own identifier and no delivery row outlives its
    alert, the retention sweeps included. *)
Theorem tables_stay_well_formed (ss : list DbStmt) :
  pg_wf (foldl (λ t s, exec s t) (MkPg ∅ ∅ ∅) ss).
Proof.
  assert (∀ t, pg_wf t → pg_wf (foldl (λ t s, exec s t) t ss)) as H.
  { induction ss as [|s ss IH]; intros t Ht; [done|]. simpl. apply IH. by apply exec_wf. }
  apply H. split; simpl; intros *; by rewrite lookup_empty.
Qed.

(** ** Purging *)

Section Purge.
Context {A : Type} {MO : MapOrder Uuid A} (id : A → Uuid) (ts : A → DateTime).

(** Rows under their own identifiers. *)
Definition keyed (m : gmap Uuid A) : Prop := ∀ k r, m !! k = Some r → id r = k.

Definition stale (cutoff : DateTime) (r : A) : Prop := ts r < to_micros cutoff.
Global Instance stale_dec cutoff r : Decision (stale cutoff r).
Proof. unfold stale. apply _. Defined.

Definition stale_count (cutoff : DateTime) (m : gmap Uuid A) : nat :=
  size (filter (λ kv, stale cutoff kv.2) m).

Definition purged (cutoff : DateTime) (batch : Z) (m : gmap Uuid A) : gmap Uuid A :=
  filter (λ kv, kv.1 ∉ id <$> pick_batch ts cutoff batch m) m.

Lemma rows_spec m r : keyed m → r ∈ (map_iter m).*2 ↔ m !! id r = Some r.
Proof.
  intros Hwf. rewrite map_iter_perm, list_elem_of_fmap. split.
  - intros ([k r'] & -> & Hr%elem_of_map_to_list). simpl. by rewrite (Hwf _ _ Hr).
  - intros Hr. exists (id r, r). by rewrite elem_of_map_to_list.
Qed.

Lemma rows_nodup m : keyed m → NoDup (map_iter m).*2.
Proof.
  intros Hwf. rewrite map_iter_perm. apply NoDup_fmap_2_strong; [|apply NoDup_map_to_list].
  intros [k1 r1] [k2 r2]. rewrite !elem_of_map_to_list. simpl. intros H1 H2 ->.
  by rewrite <- (Hwf _ _ H1), <- (Hwf _ _ H2).
Qed.

Lemma sorted_take_drop {B} (Rel : B → B → Prop) (l : list B) n x y :
  StronglySorted Rel l → x ∈ take n l → y ∈ drop n l → Rel x y.
Proof.
  revert n. induction l as [|a l IH]; intros [|n] Hs Hx Hy; simpl in *;
    try (by apply elem_of_nil in Hx); try (by apply elem_of_nil in Hy).
  apply StronglySorted_inv in Hs as [Hs Ha].
  apply elem_of_cons in Hx as [->|Hx]; [|by eapply IH].
  rewrite Forall_forall in Ha. apply Ha.
  rewrite <- (take_drop n l). apply elem_of_app. by right.
Qed.

Global Instance by_time_total : Total (by_time ts).
Proof. intros a b. unfold by_time. lia. Qed.
Global Instance by_time_trans : Transitive (by_time ts).
Proof. intros a b c. unfold by_time. lia. Qed.

(** The sorted list the batch is taken from. *)
Lemma stale_list cutoff m :
  keyed m →
  let l := sorted_stale ts cutoff m in
  StronglySorted (by_time ts) l ∧ NoDup l ∧ ∀ r, r ∈ l ↔ m !! id r = Some r ∧ stale cutoff r.
Proof.
  intros Hwf l. split_and!.
  - apply StronglySorted_merge_sort; apply _.
  - unfold l, sorted_stale. rewrite merge_sort_Permutation. apply NoDup_filter. by apply rows_nodup.
  - intros r. unfold l, sorted_stale. rewrite merge_sort_Permutation, list_elem_of_filter.
    rewrite rows_spec by done. unfold stale. tauto.
Qed.

Lemma pick_batch_spec cutoff batch m r :
  keyed m → r ∈ pick_batch ts cutoff batch m → m !! id r = Some r ∧ stale cutoff r.
Proof.
  intros Hwf Hr. destruct (stale_list cutoff m Hwf) as (_ & _ & Hl). apply Hl.
  by eapply subseteq_take.
Qed.

Lemma pick_batch_ids_nodup cutoff batch m :
  keyed m → NoDup (id <$> pick_batch ts cutoff batch m).
Proof.
  intros Hwf. apply NoDup_fmap_2_strong.
  - intros x y Hx Hy Hxy. apply pick_batch_spec in Hx as [Hx _], Hy as [Hy _]; [|done..]. congruence.
  - destruct (stale_list cutoff m Hwf) as (_ & Hnd & _).
    eapply sublist_NoDup; [done|apply sublist_take].
Qed.

Lemma picked_id cutoff batch m k r :
  keyed m → m !! k = Some r →
  k ∈ id <$> pick_batch ts cutoff batch m ↔ r ∈ pick_batch ts cutoff batch m.
Proof.
  intros Hwf Hr. rewrite list_elem_of_fmap. split.
  - intros (r' & -> & Hin). apply pick_batch_spec in Hin as H1; [|done]. destruct H1 as [H1 _].
    rewrite H1 in Hr. by injection Hr as <-.
  - intros Hin. exists r. split; [|done]. symmetry. by apply Hwf.
Qed.

Lemma purged_lookup cutoff batch m k r :
  keyed m → purged cutoff batch m !! k = Some r ↔
    m !! k = Some r ∧ r ∉ pick_batch ts cutoff batch m.
Proof.
  intros Hwf. unfold purged. rewrite map_lookup_filter_Some. simpl.
  split; intros [H1 H2]; (split; [done|]); by rewrite picked_id in *.
Qed.

Lemma purged_keyed cutoff batch m : keyed m → keyed (purged cutoff batch m).
Proof. intros Hwf k r [Hr _]%map_lookup_filter_Some. by apply Hwf. Qed.

(** The rows that stay and are stale come after the batch. *)
Lemma stale_left cutoff batch m k r :
  keyed m → purged cutoff batch m !! k = Some r → stale cutoff r →
  r ∈ drop (Z.to_nat batch) (sorted_stale ts cutoff m).
Proof.
  intros Hwf [Hr Hn]%purged_lookup Hs; [|done].
  destruct (stale_list cutoff m Hwf) as (_ & _ & Hl).
  assert (Hin := proj2 (Hl r)). rewrite (Hwf _ _ Hr) in Hin. specialize (Hin (conj Hr Hs)).
  rewrite <- (take_drop (Z.to_nat batch)) in Hin. by apply elem_of_app in Hin as [|].
Qed.

(** A batch takes its rows out of the stale rows of any later cut-off. *)
Lemma purged_count later cutoff batch m :
  to_micros cutoff ≤ to_micros later → keyed m →
  (stale_count later (purged cutoff batch m) + length (pick_batch ts cutoff batch m)
     = stale_count later m)%nat.
Proof.
  intros Hle Hwf. rewrite <- (length_fmap id). unfold stale_count, purged.
  rewrite map_filter_comm. apply size_filter_keys; [by apply pick_batch_ids_nodup|].
  intros k (r & -> & [Hr Hs]%pick_batch_spec)%list_elem_of_fmap; [|done].
  exists r. apply map_lookup_filter_Some. split; [done|]. cbn. unfold stale in *. lia.
Qed.

Lemma purged_sizes cutoff batch m :
  keyed m →
  (stale_count cutoff (purged cutoff batch m) + length (pick_batch ts cutoff batch m)
     = stale_count cutoff m)%nat ∧
  (size (purged cutoff batch m) + length (pick_batch ts cutoff batch m) = size m)%nat.
Proof.
  intros Hwf. split; [by apply purged_count|]. rewrite <- (length_fmap id).
  apply size_filter_keys; [by apply pick_batch_ids_nodup|].
  intros k (r & -> & [Hr Hs]%pick_batch_spec)%list_elem_of_fmap; [|done]. eauto.
Qed.

Lemma pick_batch_length cutoff batch m :
  0 ≤ batch → Z.of_nat (length (pick_batch ts cutoff batch m)) ≤ batch.
Proof. intros Hb. unfold pick_batch. rewrite length_take. lia. Qed.

Lemma purged_oldest_first cutoff batch m k r k' r' :
  keyed m → m !! k = Some r → purged cutoff batch m !! k = None →
  purged cutoff batch m !! k' = Some r' → stale cutoff r' → stale cutoff r ∧ ts r ≤ ts r'.
Proof.
  intros Hwf Hr Hgone Hr' Hs'.
  assert (Hin : r ∈ pick_batch ts cutoff batch m).
  { destruct (decide (k ∈ id <$> pick_batch ts cutoff batch m)) as [Hk|Hk].
    - by apply (picked_id _ _ _ k r).
    - exfalso.
      assert (purged cutoff batch m !! k = Some r) by (by apply map_lookup_filter_Some). congruence. }
  split; [by apply pick_batch_spec in Hin as [_ ?]|].
  destruct (stale_list cutoff m Hwf) as (Hsort & _ & _).
  eapply (sorted_take_drop (by_time ts)); [exact Hsort|exact Hin|]. by eapply stale_left.
Qed.

Lemma purged_complete cutoff batch m k r :
  keyed m → 0 ≤ batch → Z.of_nat (length (pick_batch ts cutoff batch m)) < batch →
  purged cutoff batch m !! k = Some r → ¬ stale cutoff r.
Proof.
  intros Hwf Hb Hlt Hr Hs. eapply stale_left in Hr; [|done..].
  unfold pick_batch in Hlt. rewrite length_take in Hlt.
  rewrite drop_ge in Hr by lia. by apply elem_of_nil in Hr.
Qed.
End Purge.

(** A purge batch removes the right devices. It deletes at most [batch] rows,
    and reports that number; every row it deletes is stale and was seen no later
    than any stale row it leaves; devices seen since the cut-off are untouched;
    and when it deletes fewer than [batch], no stale device is left. *)
Theorem purge_inactive_spec cutoff batch t n t' :
  pg_wf t → 0 ≤ batch → stmt_purge_inactive cutoff batch t = (n, t') →
  0 ≤ n ≤ batch ∧
  Z.of_nat (size (t_devices t')) + n = Z.of_nat (size (t_devices t)) ∧
  (∀ k r, t_devices t !! k = Some r → ¬ stale dr_last_seen cutoff r → t_devices t' !! k = Some r) ∧
  (∀ k r k' r', t_devices t !! k = Some r → t_devices t' !! k = None →
     t_devices t' !! k' = Some r' → stale dr_last_seen cutoff r' →
     stale dr_last_seen cutoff r ∧ dr_last_seen r ≤ dr_last_seen r') ∧
  (n < batch → ∀ k r, t_devices t' !! k = Some r → ¬ stale dr_last_seen cutoff r).
Proof.
  intros Hwf Hb. unfold stmt_purge_inactive. rewrite length_fmap. intros [= <- <-]. simpl.
  fold (purged dr_id dr_last_seen cutoff batch (t_devices t)).
  assert (Hk : keyed dr_id (t_devices t)) by exact (wf_devices _ Hwf).
  destruct (purged_sizes dr_id dr_last_seen cutoff batch _ Hk) as [_ Hsz].
  pose proof (pick_batch_length dr_last_seen cutoff batch (t_devices t) Hb).
  split_and!; [lia|lia|lia| | |].
  - intros k r Hr Hs. apply purged_lookup; [done|]. split; [done|].
    intros [_ ?]%(pick_batch_spec dr_id); done.
  - intros k r k' r'. by apply purged_oldest_first.
  - intros Hlt k r Hr. by eapply (purged_complete dr_id).
Qed.
End Tables.

(** ** Entities through the tables *)

(** C35: A device survives the database: what [insert] stored, [find_by_id] reads
    back, location and shard exactly and the timestamps to the microsecond; an
    identifier that was never stored gives [DeviceNotFound]. *)
Theorem device_db_roundtrip {R : RedisServer} {E : Env} {UC : UuidCodec} (d : Device) w :
  valid_location (dev_location d) = true → (∀ n, env_fault n = Works) →
  t_devices (w_pg w) !! dev_id d = None →
  let '(r, w1) := DeviceRepository_insert d w in
  r = Ok () ∧
  (DeviceRepository_find_by_id (dev_id d) w1).1 =
    Ok (MkDevice (dev_id d) (dev_location d) (dev_geohash d) (dev_shard_prefix d)
          (to_micros (dev_registered_at d)) (to_micros (dev_last_seen d))) ∧
  ∀ other, other ≠ dev_id d → t_devices (w_pg w) !! other = None →
    (DeviceRepository_find_by_id other w1).1 = Err (DeviceNotFound (uuid_to_string other)).
Proof.
  intros Hv Hf Hfresh.
  unfold DeviceRepository_insert, DeviceRepository_find_by_id, pg_stmt, pg_read.
  rewrite mbind_ok_run, pg_call_works by done. unfold stmt_insert_device.
  cbn [dr_id DeviceRow_of fst]. rewrite Hfresh. cbn [fst snd mret_ map_err].
  split; [done|]. split.
  - rewrite mbind_ok_run, pg_call_works by done. cbn [fst snd mret_ w_pg set_pg set_devices t_devices].
    rewrite lookup_insert_eq. unfold Device_try_from. cbn.
    destruct (Location_new_spec (lat (dev_location d)) (lon (dev_location d))) as [(_ & -> & _)|[Hbad _]].
    + by destruct d as [? []].
    + exfalso. destruct (dev_location d). simpl in *. congruence.
  - intros other Hne Hnone. rewrite mbind_ok_run, pg_call_works by done.
    cbn [fst snd mret_ w_pg set_pg set_devices t_devices].
    by rewrite lookup_insert_ne, Hnone.
Qed.

Definition delivery_of (shard_prefix : string) (at_ : DateTime) (c : ShardCounts) : DeliveryRow :=
  MkDeliveryRow shard_prefix at_ (i32_wrap (in_shard_count c)) (i32_wrap (in_radius_count c)).

(** Recording a delivery is idempotent and exact. For an existing alert the
    first record of a shard is stored with its counts (as long as they fit in
    32 bits), any further record for the same alert and shard changes nothing,
    and a record for an unknown alert is refused. *)
Theorem delivery_recorded_once alert_id s at1 c1 at2 c2 t :
  0 ≤ in_shard_count c1 < 2 ^ 31 → 0 ≤ in_radius_count c1 < 2 ^ 31 →
  t_deliveries t !! (alert_id, s) = None →
  let '(r1, t1) := stmt_insert_delivery alert_id (delivery_of s at1 c1) t in
  match t_alerts t !! alert_id with
  | None => t1 = t ∧ ∃ why, r1 = Err why
  | Some _ =>
    r1 = Ok () ∧
    t_deliveries t1 !! (alert_id, s) =
      Some (MkDeliveryRow s at1 (in_shard_count c1) (in_radius_count c1)) ∧
    stmt_insert_delivery alert_id (delivery_of s at2 c2) t1 = (Ok (), t1)
  end.
Proof.
  intros H1 H2 Hnone. unfold stmt_insert_delivery, delivery_of. cbn [de_shard_prefix]. rewrite Hnone.
  rewrite !i32_wrap_small by lia.
  destruct (t_alerts t !! alert_id) as [row|] eqn:Ha; [|eauto]. simpl.
  by rewrite lookup_insert_eq.
Qed.

(** The counts of an alert's audit row are consistent: never negative, and
    the devices inside the circle are among those of the shard. *)
Theorem counts_consistent {P : PgMath} shard_prefix p t :
  let c := count_shard_and_circle shard_prefix p t in
  0 ≤ in_radius_count c ≤ in_shard_count c.
Proof.
  simpl. split; [lia|]. apply inj_le.
  induction (t_devices t) as [|k r m Hk IH] using map_ind; [done|].
  rewrite !map_count_insert by done.
  destruct (bool_decide (dr_shard_prefix r = shard_prefix)), (in_circle p (dr_lat r) (dr_lon r));
    simpl; lia.
Qed.

(** ** Witnesses *)

Program Definition toy_scan : TableScan := {|
  scan_devices := toy_map_order; scan_alerts := toy_map_order;
  scan_deliveries := {| map_iter := map_to_list |};
|}.
Next Obligation. done. Qed.

Definition toy_device : Device := MkDevice (uuid_of_N 3) toy_center "u4pruyd" "u4pr" 5000 5000.

Definition two_devices : Pg :=
  MkPg (<[uuid_of_N 1 := MkDeviceRow (uuid_of_N 1) f64_zero f64_zero "s000000" "s000" 0 1000]>
         {[uuid_of_N 2 := MkDeviceRow (uuid_of_N 2) f64_zero f64_zero "s000000" "s000" 0 9000]}) ∅ ∅.

Lemma two_devices_wf : pg_wf two_devices.
Proof.
  split; simpl; try (intros *; by rewrite lookup_empty).
  intros k r [[<- <-]|[_ [<- <-]%lookup_singleton_Some]]%lookup_insert_Some; done.
Qed.

Lemma purge_inactive_spec_witness :
  (@stmt_purge_inactive toy_scan 5000 500 two_devices).1 = 1 ∧
  Z.of_nat (size (t_devices (@stmt_purge_inactive toy_scan 5000 500 two_devices).2)) + 1
    = Z.of_nat (size (t_devices two_devices)).
Proof.
  split; [reflexivity|].
  apply (@purge_inactive_spec toy_scan 5000 500 two_devices 1);
    [apply two_devices_wf|discriminate|apply surjective_pairing].
Defined.

Lemma device_db_roundtrip_witness :
  (@DeviceRepository_insert map_redis (calm_env (λ n, Z.of_nat n)) toy_device
    (@MkWorld map_redis 0 ∅ (MkPg ∅ ∅ ∅) [] [])).1 = Ok ().
Proof.
  pose proof (@device_db_roundtrip map_redis (calm_env (λ n, Z.of_nat n)) binary_uuids toy_device
    (@MkWorld map_redis 0 ∅ (MkPg ∅ ∅ ∅) [] []) eq_refl (λ _, eq_refl) eq_refl) as H.
  destruct (DeviceRepository_insert _ _) as [r w1]. exact (proj1 H).
Defined.

Lemma delivery_recorded_once_witness :
  let t := MkPg ∅ {[uuid_of_N 1 := AlertRow_of toy_alert]} ∅ in
  t_deliveries (stmt_insert_delivery (uuid_of_N 1) (delivery_of "u4pr" 7 (MkCounts 5 2)) t).2
    !! (uuid_of_N 1, "u4pr") = Some (MkDeliveryRow "u4pr" 7 5 2).
Proof.
  intros t. assert (H1 : 0 ≤ in_shard_count (MkCounts 5 2) < 2 ^ 31) by (simpl; lia).
  assert (H2 : 0 ≤ in_radius_count (MkCounts 5 2) < 2 ^ 31) by (simpl; lia).
  pose proof (delivery_recorded_once (uuid_of_N 1) "u4pr" 7 (MkCounts 5 2) 8 (MkCounts 6 3)
    t H1 H2 (lookup_empty _)) as H.
  replace (t_alerts t !! uuid_of_N 1) with (Some (AlertRow_of toy_alert)) in H
    by (symmetry; apply lookup_singleton_eq).
  destruct (stmt_insert_delivery (uuid_of_N 1) (delivery_of "u4pr" 7 (MkCounts 5 2)) t) as [r1 t1].
  exact (proj1 (proj2 H)).
Defined.
