(* ===== verification/Nats.v ===== *)
(** * Publishing and replaying through NATS

    crates/infra/src/nats.rs: bounded publishes, durable publishes to the alert
    stream, control and telemetry messages, and the replay query. The messages
    a client published so far and the stored stream are parts of the [World];
    what the stream's server does with a stored message and with a fetch is the
    class [JetStream]. A fetch returns the first messages of its consumer, as many
    as arrive before its batch expires. *)

From S2P Require Import Prelude F64 Str Errors Geo Domain Registry Redis World.

Open Scope Z_scope.

Definition PUBLISH_TIMEOUT_SECS : Z := 3.
Definition REPLAY_CLOCK_SKEW_TOLERANCE_SECS : Z := 60.

Definition seconds (n : Z) : Z := n * 10 ^ 9.

(** The stream server: which stored messages are still kept, the sequence
    number of an appended message, and a fetch through a consumer that starts
    at a time and filters by subject. *)
Class JetStream : Type := {
  js_max_age : Z;
  js_kept : DateTime → StreamMsg → bool;
  js_sequence : list StreamMsg → Z;
  js_fetch : DateTime → list StreamMsg → string → Z → Z → list Bytes;
}.

(** The messages a consumer with that filter sees, in stream order. *)
Definition consumer_sees `{JetStream} (now : DateTime) (stream : list StreamMsg)
    (subject : string) (start : Z) : list StreamMsg :=
  filter (λ m, sm_subject m = subject ∧ start ≤ sm_stored_at m ∧ js_kept now m = true) stream.

(** A message is kept for the stream's maximal age at least; a fetch returns
    first messages of its consumer, at most the requested number, and fewer than
    there are when it expires before the others have arrived. *)
Class JetStreamLaws (J : JetStream) : Prop := {
  js_kept_young now m : now - sm_stored_at m ≤ js_max_age → js_kept now m = true;
  js_fetch_first now l subject start n :
    ∃ k, (k ≤ Z.to_nat n)%nat ∧
      js_fetch now l subject start n = sm_payload <$> take k (consumer_sees now l subject start);
}.

(** The replay query asks for one batch, which expires after 750 ms. *)
Definition MAX_REPLAY_FETCH : Z := 500.

(** The batch holds every message of its consumer when there are at most 500 and all of them
    arrive in time. *)
Definition whole_batch `{JetStream} (now : DateTime) (stream : list StreamMsg) (subject : string)
    (start : Z) : Prop :=
  length (js_fetch now stream subject start MAX_REPLAY_FETCH) = length (consumer_sees now stream subject start).
#[export] Instance whole_batch_dec `{JetStream} now stream subject start :
  Decision (whole_batch now stream subject start).
Proof. unfold whole_batch. apply _. Defined.

Section Nats.
Context {R : RedisServer} {E : Env} {UC : UuidCodec} {W : Wire} {J : JetStream}.

(** Publish, flush and timeout: one call that takes place or not, whatever the
    client is told. *)
Definition publish (subject : string) (payload : Bytes) : MR unit :=
  call Messaging (λ _ w, ((), set_published (w_published w ++ [(subject, payload)]) w)).

(** A durable publish also reaches the plain subscribers. *)
Definition publish_durable (subject : string) (payload : Bytes) : MR Z :=
  call Messaging (λ now w,
    let stream := w_stream w ++ [MkStreamMsg subject now payload] in
    (js_sequence stream,
     set_stream stream (set_published (w_published w ++ [(subject, payload)]) w))).

Definition publish_control (device_id : Uuid) (message : ServerMessage) : MR unit :=
  publish (control_subject device_id) (server_message_json message).

Definition publish_telemetry (telemetry : DeliveryTelemetry) : MR unit :=
  publish TELEMETRY_DELIVERY_SUBJECT (telemetry_json telemetry).

(** [timestamp_nanos_opt]: the nanoseconds when they fit an [i64]. *)
Definition timestamp_nanos_opt (t : DateTime) : option Z :=
  if (- 2 ^ 63 <=? t) && (t <? 2 ^ 63) then Some t else None.

Definition replay_start (since : DateTime) : Z :=
  Z.max (default 0 (timestamp_nanos_opt (since - seconds REPLAY_CLOCK_SKEW_TOLERANCE_SECS))) 0.

(** The loop over the fetched messages: what parses and is newer than the
    cursor, at microsecond resolution. *)
Fixpoint collect_newer (since : DateTime) (payloads : list Bytes) : list Alert :=
  match payloads with
  | [] => []
  | p :: ps =>
    match parse_alert p with
    | Some alert =>
      if to_micros since <? to_micros (al_created_at alert)
      then alert :: collect_newer since ps
      else collect_newer since ps
    | None => collect_newer since ps
    end
  end.

Definition replay_alerts (shard_prefix : string) (since : DateTime) (max : Z) : MR (list Alert) :=
  let max := clamp max 1 MAX_REPLAY_FETCH in
  let!? _ := call Messaging (λ _ w, ((), w)) in
  let start := replay_start since in
  let!? _ := call Messaging (λ _ w, ((), w)) in
  let!? batch := call Messaging (λ now w,
    (js_fetch now (w_stream w) (alert_subject shard_prefix) start MAX_REPLAY_FETCH, w)) in
  let alerts := collect_newer since batch in
  let! _ := call Messaging (λ _ w, ((), w)) in
  mret_ (Ok (take (Z.to_nat max) alerts)).

(** ** The reference definition

    The alerts stored for a shard and created strictly after the cursor. *)
Definition stored_alerts (now : DateTime) (stream : list StreamMsg) (shard_prefix : string)
    : list Alert :=
  omap (parse_alert ∘ sm_payload)
    (filter (λ m, sm_subject m = alert_subject shard_prefix ∧ js_kept now m = true) stream).

Definition missed_alerts (now : DateTime) (stream : list StreamMsg) (shard_prefix : string)
    (since : DateTime) : list Alert :=
  filter (λ a, to_micros since < to_micros (al_created_at a))
    (stored_alerts now stream shard_prefix).
End Nats.

(** ** Lemmas *)

Lemma to_micros_mono a b : a ≤ b → to_micros a ≤ to_micros b.
Proof. unfold to_micros. intros. apply Z.mul_le_mono_nonneg_r; [lia|]. apply Z.div_le_mono; lia. Qed.

Lemma to_micros_lt a b : to_micros a < to_micros b → a < b.
Proof. intros H. destruct (Z.lt_ge_cases a b) as [|Hge]; [done|]. apply to_micros_mono in Hge. lia. Qed.

Section NatsLemmas.
Context {R : RedisServer} {E : Env} {UC : UuidCodec} {W : Wire} {J : JetStream} {JL : JetStreamLaws J}.

Lemma collect_newer_eq since ps :
  collect_newer since ps =
  filter (λ a, to_micros since < to_micros (al_created_at a)) (omap parse_alert ps).
Proof.
  induction ps as [|p ps IH]; [done|]. simpl. destruct (parse_alert p) as [a|]; [|done].
  rewrite filter_cons. destruct (Z.ltb_spec (to_micros since) (to_micros (al_created_at a))).
  - rewrite decide_True by done. by rewrite IH.
  - rewrite decide_False by lia. done.
Qed.

Lemma collect_newer_app since ps qs :
  collect_newer since (ps ++ qs) = collect_newer since ps ++ collect_newer since qs.
Proof. by rewrite !collect_newer_eq, omap_app, filter_app. Qed.

(** A whole batch is at most as long as it may be. *)
Lemma whole_batch_all now stream subject start :
  whole_batch now stream subject start →
  js_fetch now stream subject start MAX_REPLAY_FETCH = sm_payload <$> consumer_sees now stream subject start ∧
  (length (consumer_sees now stream subject start) ≤ 500)%nat.
Proof.
  unfold whole_batch. destruct (js_fetch_first now stream subject start MAX_REPLAY_FETCH) as (k & Hk & ->).
  unfold MAX_REPLAY_FETCH in Hk. rewrite length_fmap, length_take. intros Hl.
  rewrite take_ge by lia. split; [done|lia].
Qed.

Lemma collect_newer_length since ps : (length (collect_newer since ps) ≤ length ps)%nat.
Proof. induction ps as [|p ps IH]; simpl; [done|]. repeat case_match; simpl; lia. Qed.

Lemma collect_newer_In since ps a :
  a ∈ collect_newer since ps →
  to_micros since < to_micros (al_created_at a) ∧ ∃ p, p ∈ ps ∧ parse_alert p = Some a.
Proof.
  rewrite collect_newer_eq, list_elem_of_filter, list_elem_of_omap. naive_solver.
Qed.

(** The messages before the start time contribute nothing when the clocks
    disagree by less than the tolerance. *)
Lemma skew_cut now stream shard since start :
  start = replay_start since →
  (∀ m a, m ∈ stream → parse_alert (sm_payload m) = Some a →
     al_created_at a - seconds 60 ≤ sm_stored_at m ∧ 0 ≤ sm_stored_at m) →
  collect_newer since (sm_payload <$> consumer_sees now stream (alert_subject shard) start) =
  missed_alerts now stream shard since.
Proof.
  intros Hs Hskew. rewrite collect_newer_eq. unfold missed_alerts, stored_alerts, consumer_sees.
  induction stream as [|m stream IH]; [done|].
  specialize (IH ltac:(intros ? a Hm; apply (Hskew _ a); by right)).
  rewrite !filter_cons.
  destruct (decide (sm_subject m = alert_subject shard)) as [Hsub|];
    [|rewrite !decide_False by tauto; apply IH].
  destruct (js_kept now m) eqn:Hk; [|rewrite !decide_False by naive_solver; apply IH].
  rewrite (decide_True (P := sm_subject m = alert_subject shard ∧ true = true)) by done.
  destruct (decide (start ≤ sm_stored_at m)) as [Hst|Hst].
  - rewrite decide_True by done. rewrite fmap_cons. cbn [omap list_omap compose].
    unfold compose at 1. destruct (parse_alert (sm_payload m)) as [a|]; [|apply IH].
    rewrite !filter_cons. destruct (decide _); [f_equal|]; apply IH.
  - rewrite decide_False by tauto. cbn [omap list_omap compose].
    unfold compose at 1. destruct (parse_alert (sm_payload m)) as [a|] eqn:Hp; [|apply IH].
    rewrite filter_cons, decide_False; [apply IH|].
    intros Hlt%to_micros_lt. destruct (Hskew m a) as [H1 H2]; [by left|done|].
    apply Hst. rewrite Hs. unfold replay_start, timestamp_nanos_opt, seconds in *.
    unfold REPLAY_CLOCK_SKEW_TOLERANCE_SECS. destruct (_ && _); simpl; lia.
Qed.

(** What a replay query does when its calls work. *)
Lemma replay_alerts_works shard since max w :
  (∀ i, (i < 3)%nat → env_fault (w_tick w + i) = Works) →
  (replay_alerts shard since max w).1 =
    Ok (take (Z.to_nat (clamp max 1 500))
         (collect_newer since
            (js_fetch (env_clock (w_tick w + 2)) (w_stream w) (alert_subject shard)
               (replay_start since) 500))).
Proof.
  intros Hf. unfold replay_alerts, MAX_REPLAY_FETCH.
  pose proof (Hf 0%nat ltac:(lia)) as F0. pose proof (Hf 1%nat ltac:(lia)) as F1.
  pose proof (Hf 2%nat ltac:(lia)) as F2. rewrite Nat.add_0_r in F0.
  replace (w_tick w + 1)%nat with (S (w_tick w)) in * by lia.
  replace (w_tick w + 2)%nat with (S (S (w_tick w))) in * by lia.
  rewrite mbind_ok_run, call_works by done. simpl.
  rewrite mbind_ok_run, call_works by done. simpl.
  rewrite mbind_ok_run, call_works by done. cbn [fst snd].
  rewrite mbind_run. done.
Qed.

(** Whatever fails, a query returns newer alerts of the shard or an error. *)
Lemma replay_alerts_cases shard since max w :
  let '(r, w') := replay_alerts shard since max w in
  w_stream w' = w_stream w ∧ w_published w' = w_published w ∧ w_redis w' = w_redis w ∧
  w_pg w' = w_pg w ∧
  match r with
  | Ok alerts => ∃ now, alerts = take (Z.to_nat (clamp max 1 500))
       (collect_newer since (js_fetch now (w_stream w) (alert_subject shard) (replay_start since) 500))
  | Err e => ∃ why, e = Messaging why
  end.
Proof.
  unfold replay_alerts, MAX_REPLAY_FETCH. unfold mbind_ok, mbind_, mret_, call, tick, set_tick.
  simpl. repeat (case_match; simplify_eq/=); split_and!; eauto.
Qed.
End NatsLemmas.

(** ** Theorems *)

Section NatsTheorems.
Context {R : RedisServer} {E : Env} {UC : UuidCodec} {W : Wire} {WL : WireLaws W}
  {J : JetStream} {JL : JetStreamLaws J}.

(** C5: A replay query answers what was missed. If its calls work and every
    stored alert was stored at most a minute earlier (by the server's clock) than
    its creation time says, the answer is an initial part of the list of the
    shard's stored alerts created strictly after the cursor, oldest first; and if
    the batch was whole (at most 500 messages after the start of the scan, all
    arrived before it expired), it is that list, cut to the requested number. *)
Theorem replay_alerts_exact shard since max w :
  (∀ i, (i < 3)%nat → env_fault (w_tick w + i) = Works) →
  (∀ m a, m ∈ w_stream w → parse_alert (sm_payload m) = Some a →
     al_created_at a - seconds 60 ≤ sm_stored_at m ∧ 0 ≤ sm_stored_at m) →
  let now := env_clock (w_tick w + 2) in
  let missed := missed_alerts now (w_stream w) shard since in
  ∃ answer, (replay_alerts shard since max w).1 = Ok answer ∧ answer `prefix_of` missed ∧
    (whole_batch now (w_stream w) (alert_subject shard) (replay_start since) →
     answer = take (Z.to_nat (clamp max 1 500)) missed).
Proof.
  intros Hf Hskew now missed. eexists. split; [by apply replay_alerts_works|]. fold now. split.
  - destruct (js_fetch_first now (w_stream w) (alert_subject shard) (replay_start since) 500) as (k & _ & ->).
    unfold missed. rewrite <- (skew_cut now (w_stream w) shard since (replay_start since)) by done.
    rewrite <- (take_drop k (consumer_sees _ _ _ _)) at 2. rewrite fmap_app, collect_newer_app.
    etrans; [|by apply prefix_app_r]. eexists. symmetry. apply take_drop.
  - intros [Hall _]%whole_batch_all. unfold MAX_REPLAY_FETCH in Hall. rewrite Hall.
    by rewrite (skew_cut now (w_stream w) shard since).
Qed.

(** Whatever the stream holds and whichever call fails, a replay query
    changes nothing, returns at most 500 alerts, each of them stored for this
    shard and strictly newer than the cursor, or reports a messaging error. *)
Theorem replay_alerts_sound shard since max w :
  let '(r, w') := replay_alerts shard since max w in
  w_stream w' = w_stream w ∧ w_published w' = w_published w ∧ w_redis w' = w_redis w ∧
  w_pg w' = w_pg w ∧
  match r with
  | Ok alerts =>
    (length alerts ≤ 500)%nat ∧
    ∀ a, a ∈ alerts → to_micros since < to_micros (al_created_at a) ∧
      ∃ m, m ∈ w_stream w ∧ sm_subject m = alert_subject shard ∧
        parse_alert (sm_payload m) = Some a
  | Err e => ∃ why, e = Messaging why
  end.
Proof.
  pose proof (replay_alerts_cases shard since max w) as Hc.
  destruct (replay_alerts shard since max w) as [[alerts|e] w']; [|done].
  destruct Hc as (?&?&?&?&now&->). split_and!; [done..| |].
  - rewrite length_take. pose proof (clamp_bounds max 1 500). lia.
  - intros a Ha. apply elem_of_take in Ha as (i & Ha & _).
    apply list_elem_of_lookup_2, collect_newer_In in Ha as [Hnew (p & Hp & Hparse)].
    split; [done|].
    destruct (js_fetch_first now (w_stream w) (alert_subject shard) (replay_start since) 500) as (k & _ & He).
    rewrite He in Hp. apply list_elem_of_fmap in Hp as (m & -> & Hm).
    apply elem_of_take in Hm as (j & Hm & _). apply list_elem_of_lookup_2 in Hm.
    unfold consumer_sees in Hm. apply list_elem_of_filter in Hm as [(?&_&_) ?]. eauto.
Qed.

(** What is durably published can be replayed: if the acknowledgement
    arrived, the alert is in the stream and reached the plain subscribers; as
    long as the stream keeps it, what is read from it is among the missed alerts of
    its shard for every older cursor. *)
Theorem durable_publish_replayable shard a a' w seq w' :
  reread_alert a = Some a' →
  publish_durable (alert_subject shard) (alert_json a) w = (Ok seq, w') →
  w_published w' = w_published w ++ [(alert_subject shard, alert_json a)] ∧
  ∀ now since,
    now - env_clock (w_tick w) ≤ js_max_age →
    to_micros since < to_micros (al_created_at a) →
    a' ∈ missed_alerts now (w_stream w') shard since.
Proof.
  intros Hre Hp. unfold publish_durable, call in Hp.
  destruct (env_fault (w_tick w)); simplify_eq/=. split; [done|].
  intros now since Hage Hnew. unfold missed_alerts, stored_alerts.
  destruct (reread_alert_same _ _ Hre) as (_ & _ & _ & _ & Hat).
  apply list_elem_of_filter. split; [by rewrite Hat|]. apply list_elem_of_omap.
  exists (MkStreamMsg (alert_subject shard) (env_clock (w_tick w)) (alert_json a)). split.
  - apply list_elem_of_filter. split_and!; [done| |].
    + by apply js_kept_young.
    + apply elem_of_app. right. by apply list_elem_of_singleton.
  - cbn. by rewrite parse_alert_json.
Qed.
End NatsTheorems.

(** ** A stream server that keeps a list *)

Definition list_jetstream : JetStream := {|
  js_max_age := seconds (7 * 24 * 3600);
  js_kept := λ now m, now - sm_stored_at m <=? seconds (7 * 24 * 3600);
  js_sequence := λ l, Z.of_nat (length l);
  js_fetch := λ now l subject start n,
    sm_payload <$> take (Z.to_nat n)
      (filter (λ m, sm_subject m = subject ∧ start ≤ sm_stored_at m ∧
                 (now - sm_stored_at m <=? seconds (7 * 24 * 3600)) = true) l);
|}.

Lemma list_jetstream_laws : JetStreamLaws list_jetstream.
Proof.
  split; [|intros now l subject start n; by exists (Z.to_nat n)]. intros now m Hm. simpl in *. lia.
Qed.

(** The same server on a day on which no message arrives before the fetch expires. *)
Definition stalled_jetstream : JetStream := {|
  js_max_age := @js_max_age list_jetstream; js_kept := @js_kept list_jetstream;
  js_sequence := @js_sequence list_jetstream; js_fetch := λ _ _ _ _ _, [];
|}.

Lemma stalled_jetstream_laws : JetStreamLaws stalled_jetstream.
Proof.
  split; [apply (@js_kept_young _ list_jetstream_laws)|]. intros now l subject start n.
  exists 0%nat. split; [lia|done].
Qed.

(** An alert created 100 s after the epoch, and a world whose stream holds it
    together with an older one. *)
Definition sample_alert (n : Z) : Alert :=
  MkAlert (uuid_of_N (Z.to_N n)) toy_center (f64_of_Z 1000) Info "flood" "" (seconds n).

Definition sample_msg (n : Z) : StreamMsg :=
  MkStreamMsg (alert_subject "u4pr") (seconds n) (@alert_json plain_wire (sample_alert n)).

Definition sample_world : @World map_redis :=
  @MkWorld map_redis 0 (∅ : gmap string entry) (MkPg ∅ ∅ ∅) [] [sample_msg 90; sample_msg 100].

Definition minutes_env : Env := calm_env (λ n, seconds (200 + Z.of_nat n)).

Lemma sample_msgs_parse m a :
  m ∈ [sample_msg 90; sample_msg 100] → @parse_alert plain_wire (sm_payload m) = Some a →
  al_created_at a - seconds 60 ≤ sm_stored_at m ∧ 0 ≤ sm_stored_at m.
Proof.
  intros Hm.
  assert (Hs : ∀ n, 0 ≤ n → @parse_alert plain_wire (sm_payload (sample_msg n)) = Some a →
    al_created_at a - seconds 60 ≤ sm_stored_at (sample_msg n) ∧ 0 ≤ sm_stored_at (sample_msg n)).
  { intros n Hn. cbn [sm_payload sample_msg]. rewrite (@parse_alert_json _ plain_wire_laws).
    intros (_ & _ & _ & _ & ->)%reread_alert_same.
    cbn [al_created_at sample_alert sm_stored_at sample_msg]. unfold seconds. lia. }
  apply list_elem_of_In in Hm as [<-|[<-|[]]]; apply Hs; lia.
Qed.

Lemma replay_alerts_exact_witness :
  ((@replay_alerts map_redis minutes_env plain_wire list_jetstream "u4pr" (seconds 95) 10
      sample_world).1 : result (list Alert) AppError) =
  Ok (take 10 (@missed_alerts plain_wire list_jetstream (seconds 202)
        [sample_msg 90; sample_msg 100] "u4pr" (seconds 95))).
Proof.
  destruct (@replay_alerts_exact map_redis minutes_env plain_wire list_jetstream
    list_jetstream_laws "u4pr" (seconds 95) 10 sample_world) as (answer & Ha & _ & Hw).
  - done.
  - apply sample_msgs_parse.
  - rewrite Ha, Hw by (vm_compute; reflexivity). reflexivity.
Defined.

Lemma durable_publish_replayable_witness :
  sample_alert 100 ∈
    @missed_alerts plain_wire list_jetstream (seconds 300)
      (w_stream (@publish_durable map_redis minutes_env list_jetstream (alert_subject "u4pr")
         (@alert_json plain_wire (sample_alert 100)) sample_world).2) "u4pr" (seconds 95).
Proof.
  eapply (@durable_publish_replayable map_redis minutes_env plain_wire plain_wire_laws
    list_jetstream list_jetstream_laws "u4pr" (sample_alert 100) (sample_alert 100) sample_world 3).
  - reflexivity.
  - reflexivity.
  - vm_compute. discriminate.
  - vm_compute. reflexivity.
Defined.
