(* ===== verification/Telemetry.v ===== *)
(** * Delivery telemetry for the dashboards

    crates/api-coordinator/src/services/telemetry_service.rs and the stream of
    handlers/dashboard.rs: one subscription to the workers' reports, re-broadcast
    in the process to any number of dashboard streams. The broadcast channel is
    tokio's, a parameter with its documented behaviour: a receiver that falls
    more than the capacity behind loses the oldest events and is told how many. *)

From S2P Require Import Prelude F64 Str Errors Geo Domain Registry Redis World Nats.
From stdpp Require Import pretty.

Open Scope Z_scope.

Definition CHANNEL_CAPACITY : nat := 1024.
Definition RESUBSCRIBE_DELAY : Z := seconds 2.

(** What a receiver gets: an event, or the number of events it missed. *)
Abbreviation Received := (result DeliveryTelemetry Z).

Class Broadcast : Type := {
  Chan : Type;
  bc_new : nat → Chan;
  (** [Sender::subscribe]: the new receiver *)
  bc_subscribe : Chan → nat * Chan;
  (** [Sender::send]: how many receivers there are, an error when there is none *)
  bc_send : DeliveryTelemetry → Chan → option Z * Chan;
  (** one poll of a receiver; nothing when it is up to date *)
  bc_recv : nat → Chan → option Received * Chan;
}.

(** [unread c rx]: the events sent since the receiver subscribed, or since its
    last poll, oldest first, the overwritten ones included. The channel may hold
    more than was asked for. *)
Class BroadcastLaws (B : Broadcast) (capacity : Chan → nat)
    (unread : Chan → nat → option (list DeliveryTelemetry)) : Prop := {
  capacity_new cap : (cap ≤ capacity (bc_new cap))%nat;
  capacity_subscribe c : capacity (bc_subscribe c).2 = capacity c;
  capacity_send t c : capacity (bc_send t c).2 = capacity c;
  capacity_recv rx c : capacity (bc_recv rx c).2 = capacity c;
  unread_new cap rx : unread (bc_new cap) rx = None;
  unread_subscribe c rx :
    unread c (bc_subscribe c).1 = None ∧
    unread (bc_subscribe c).2 rx =
      if decide (rx = (bc_subscribe c).1) then Some [] else unread c rx;
  unread_send t c rx : unread (bc_send t c).2 rx = (λ l, l ++ [t]) <$> unread c rx;
  unread_recv_other rx rx' c : rx ≠ rx' → unread (bc_recv rx' c).2 rx = unread c rx;
  unread_recv rx c l : unread c rx = Some l →
    let behind := (length l - capacity c)%nat in
    let '(r, c') := bc_recv rx c in
    match l with
    | [] => r = None ∧ unread c' rx = Some []
    | t :: rest =>
      if decide (behind = 0%nat) then r = Some (Ok t) ∧ unread c' rx = Some rest
      else r = Some (Err (Z.of_nat behind)) ∧ unread c' rx = Some (drop behind l)
    end;
}.

Section Service.
Context {B : Broadcast} {W : Wire}.

(** ** The service *)

Definition TelemetryService_new : Chan := bc_new CHANNEL_CAPACITY.

Definition TelemetryService_subscribe : Chan → nat * Chan := bc_subscribe.

Definition TelemetryService_publish (telemetry : DeliveryTelemetry) (c : Chan) : Z * Chan :=
  let '(sent, c') := bc_send telemetry c in (default 0 sent, c').

(** The body of the inner loop of [spawn]: what is not telemetry is skipped. *)
Definition on_telemetry (payload : Bytes) (c : Chan) : Chan :=
  match parse_telemetry payload with
  | Some telemetry => (TelemetryService_publish telemetry c).2
  | None => c
  end.

(** ** The dashboard stream (handlers/dashboard.rs) *)

Record SseEvent : Type := MkSse { sse_event : string; sse_data : string }.

Definition sse_of (item : Received) : option SseEvent :=
  match item with
  | Ok telemetry => Some (MkSse "delivery" (telemetry_json telemetry))
  | Err missed => Some (MkSse "lagged" (pretty missed))
  end.

(** What a client of the stream is sent: [filter_map] over what the receiver gets. *)
Definition sse_stream (items : list Received) : list SseEvent := omap sse_of items.

(** ** Runs

    The subscription delivers messages, ends and is made again; dashboards
    subscribe and poll. *)
Inductive FeedOp : Type :=
| FMessage (payload : Bytes)
| FResubscribed
| FOpen
| FPoll (rx : nat).

(** One step: the channel, and what a poll returned. *)
Definition feed_step (op : FeedOp) (c : Chan) : Chan * option (nat * Received) :=
  match op with
  | FMessage payload => (on_telemetry payload c, None)
  | FResubscribed => (c, None)
  | FOpen => ((TelemetryService_subscribe c).2, None)
  | FPoll rx => let '(r, c') := bc_recv rx c in (c', pair rx <$> r)
  end.

Fixpoint run_feed (ops : list FeedOp) (c : Chan) : Chan * list (nat * Received) :=
  match ops with
  | [] => (c, [])
  | op :: ops =>
    let '(c1, o) := feed_step op c in
    let '(c2, out) := run_feed ops c1 in
    (c2, match o with Some x => x :: out | None => out end)
  end.

(** ** What one dashboard sees *)

(** The readable reports among the messages. *)
Definition reports (ops : list FeedOp) : list DeliveryTelemetry :=
  omap (λ op, match op with FMessage payload => parse_telemetry payload | _ => None end) ops.

Definition seen_by (rx : nat) (out : list (nat * Received)) : list Received :=
  (filter (λ x, x.1 = rx) out).*2.

(** [accounts items l]: the items account for the reports [l], in order: an
    event for one report, a lag for exactly as many reports as it says. *)
Inductive accounts : list Received → list DeliveryTelemetry → Prop :=
| accounts_nil : accounts [] []
| accounts_event t items l : accounts items l → accounts (Ok t :: items) (t :: l)
| accounts_lag n missed items l :
    Z.of_nat (length missed) = n → 0 < n → accounts items l → accounts (Err n :: items) (missed ++ l).

Context {capacity : Chan → nat} {unread : Chan → nat → option (list DeliveryTelemetry)}
  {BL : BroadcastLaws B capacity unread}.

Lemma on_telemetry_unread payload c rx l :
  unread c rx = Some l →
  unread (on_telemetry payload c) rx = Some (l ++ option_list (parse_telemetry payload)).
Proof.
  intros Hl. unfold on_telemetry. destruct (parse_telemetry payload) as [t|]; cbn [option_list].
  - unfold TelemetryService_publish. pose proof (unread_send t c rx) as Hs. rewrite Hl in Hs.
    by destruct (bc_send t c).
  - by rewrite app_nil_r.
Qed.

Lemma on_telemetry_capacity payload c : capacity (on_telemetry payload c) = capacity c.
Proof.
  unfold on_telemetry, TelemetryService_publish. destruct (parse_telemetry payload) as [t|]; [|done].
  pose proof (capacity_send t c) as Hc. by destruct (bc_send t c).
Qed.

Lemma poll_accounts rx c l :
  unread c rx = Some l →
  ∃ taken rest, l = taken ++ rest ∧ unread (bc_recv rx c).2 rx = Some rest ∧
    ∀ items later, accounts items later →
      accounts (option_list (bc_recv rx c).1 ++ items) (taken ++ later).
Proof.
  intros Hl. pose proof (unread_recv rx c l Hl) as Hr. cbv zeta in Hr.
  destruct (bc_recv rx c) as [r c']. cbn [fst snd]. destruct l as [|t rest].
  { destruct Hr as [-> Hu]. exists [], []. done. }
  case_decide as Hb; destruct Hr as [-> Hu].
  - exists [t], rest. split_and!; [done..|]. intros items later Ha. by constructor.
  - set (n := (length (t :: rest) - capacity c)%nat) in *.
    exists (take n (t :: rest)), (drop n (t :: rest)). split_and!; [by rewrite take_drop|done|].
    intros items later Ha. constructor; [|lia|done]. rewrite length_take. lia.
Qed.

Lemma run_feed_accounts ops c rx l :
  unread c rx = Some l →
  ∃ consumed rest,
    l ++ reports ops = consumed ++ rest ∧ unread (run_feed ops c).1 rx = Some rest ∧
    accounts (seen_by rx (run_feed ops c).2) consumed.
Proof.
  revert c l. induction ops as [|op ops IH]; intros c l Hl.
  { exists [], l. rewrite app_nil_r. split_and!; [done..|constructor]. }
  cbn [run_feed]. destruct op as [payload| | |rx']; cbn [feed_step].
  - destruct (IH _ _ (on_telemetry_unread payload c rx l Hl)) as (consumed & rest & Heq & Hu & Ha).
    destruct (run_feed ops _) as [c2 out]. exists consumed, rest. split_and!; [|done..].
    rewrite <- Heq, <- app_assoc. f_equal. unfold reports. cbn [omap list_omap].
    by destruct (parse_telemetry payload).
  - destruct (IH _ _ Hl) as (consumed & rest & ?). destruct (run_feed ops c). eauto.
  - destruct (unread_subscribe c rx) as [Hnew Hsub]. rewrite decide_False in Hsub by congruence.
    rewrite Hl in Hsub. destruct (IH _ _ Hsub) as (consumed & rest & ?).
    unfold TelemetryService_subscribe. destruct (run_feed ops _). eauto.
  - destruct (decide (rx' = rx)) as [->|Hne].
    + destruct (poll_accounts rx c l Hl) as (taken & rest & -> & Hu & Hacc).
      destruct (bc_recv rx c) as [r c1]. cbn [fst snd] in *.
      destruct (IH _ _ Hu) as (consumed & rest' & Heq & Hu' & Ha).
      destruct (run_feed ops c1) as [c2 out]. cbn [fst snd] in *.
      exists (taken ++ consumed), rest'. split_and!; [|done|].
      * change (reports (FPoll rx :: ops)) with (reports ops). by rewrite <- !app_assoc, Heq.
      * specialize (Hacc _ _ Ha). destruct r as [r|]; [|done].
        unfold seen_by. cbn [fmap option_fmap option_map]. by rewrite filter_cons_True.
    + pose proof (unread_recv_other rx rx' c (not_eq_sym Hne)) as Ho. rewrite Hl in Ho.
      destruct (bc_recv rx' c) as [r c1]. cbn [fst snd] in *.
      destruct (IH _ _ Ho) as (consumed & rest & Heq & Hu & Ha).
      destruct (run_feed ops c1) as [c2 out]. exists consumed, rest. split_and!; [done..|].
      destruct r as [r|]; [|done]. unfold seen_by. cbn [fmap option_fmap option_map snd].
      by rewrite filter_cons_False.
Qed.

(** Enough room for everything that is still to come: no lag. *)
Lemma run_feed_no_lag ops c rx l :
  unread c rx = Some l → (length l + length (reports ops) ≤ capacity c)%nat →
  Forall (λ item, is_ok item = true) (seen_by rx (run_feed ops c).2).
Proof.
  revert c l. induction ops as [|op ops IH]; intros c l Hl Hcap; [constructor|].
  cbn [run_feed]. destruct op as [payload| | |rx']; cbn [feed_step].
  - specialize (IH _ _ (on_telemetry_unread payload c rx l Hl)).
    destruct (run_feed ops _) as [c2 out]. apply IH. rewrite on_telemetry_capacity, length_app.
    revert Hcap. unfold reports. cbn [omap list_omap].
    destruct (parse_telemetry payload) as [t|]; simpl; lia.
  - specialize (IH _ _ Hl Hcap). by destruct (run_feed ops c).
  - destruct (unread_subscribe c rx) as [Hnew Hsub]. rewrite decide_False in Hsub by congruence.
    rewrite Hl in Hsub. specialize (IH _ _ Hsub).
    rewrite (capacity_subscribe (BroadcastLaws := BL)) in IH. specialize (IH Hcap). unfold TelemetryService_subscribe. by destruct (run_feed ops _).
  - destruct (decide (rx' = rx)) as [->|Hne].
    + pose proof (unread_recv rx c l Hl) as Hr. cbv zeta in Hr.
      pose proof (capacity_recv rx c) as Hc. destruct (bc_recv rx c) as [r c1]. cbn [snd] in *.
      destruct l as [|t rest].
      { destruct Hr as [-> Hu]. rewrite <- Hc in Hcap. specialize (IH _ _ Hu Hcap).
        by destruct (run_feed ops c1). }
      rewrite decide_True in Hr by (cbn [length] in *; lia). destruct Hr as [-> Hu].
      specialize (IH _ _ Hu). destruct (run_feed ops c1) as [c2 out].
      unfold seen_by. cbn [fmap option_fmap option_map snd]. rewrite filter_cons_True by done.
      constructor; [done|]. apply IH. change (reports (FPoll rx :: ops)) with (reports ops) in Hcap.
      cbn [length] in Hcap. lia.
    + pose proof (capacity_recv rx' c) as Hc. pose proof (unread_recv_other rx rx' c (not_eq_sym Hne)) as Ho.
      rewrite Hl in Ho. destruct (bc_recv rx' c) as [r c1]. cbn [fst snd] in *. rewrite <- Hc in Hcap.
      specialize (IH _ _ Ho Hcap).
      destruct (run_feed ops c1) as [c2 out]. destruct r as [r|]; [|done].
      unfold seen_by. cbn [fmap option_fmap option_map snd]. by rewrite filter_cons_False.
Qed.

Lemma accounts_without_lag items l :
  accounts items l → Forall (λ item, is_ok item = true) items → items = Ok <$> l.
Proof.
  induction 1 as [|t items l _ IH|]; [done| |by inversion_clear 1].
  inversion_clear 1. cbn [fmap list_fmap]. f_equal. by apply IH.
Qed.

(** The channel keeps what it holds along a run. *)
Lemma run_feed_capacity ops c : capacity (run_feed ops c).1 = capacity c.
Proof.
  revert c. induction ops as [|op ops IH]; intros c; [done|]. cbn [run_feed].
  assert (Hc : capacity (feed_step op c).1 = capacity c).
  { destruct op as [payload| | |rx]; cbn [feed_step]; [apply on_telemetry_capacity|done|apply capacity_subscribe|].
    pose proof (capacity_recv rx c) as Hc. by destruct (bc_recv rx c). }
  destruct (feed_step op c) as [c1 o]. specialize (IH c1). destruct (run_feed ops c1). cbn [fst] in *. congruence.
Qed.

(** *** What the client can tell *)

(** [tells events l]: the events tell of the reports [l], in order: a delivery event
    carries one report, and a lag event the number of reports left out at its
    place. *)
Inductive tells : list SseEvent → list DeliveryTelemetry → Prop :=
| tells_nil : tells [] []
| tells_delivery t data events l :
    parse_telemetry data = Some t → tells events l → tells (MkSse "delivery" data :: events) (t :: l)
| tells_lagged missed events l :
    missed ≠ [] → tells events l →
    tells (MkSse "lagged" (pretty (Z.of_nat (length missed))) :: events) (missed ++ l).

Lemma accounts_tells `{!WireLaws W} items l : accounts items l → tells (sse_stream items) l.
Proof.
  induction 1 as [|t items l _ IH|n missed items l Hn Hpos _ IH]; [constructor|..].
  - apply tells_delivery; [apply parse_telemetry_json|exact IH].
  - subst n. apply tells_lagged; [|exact IH]. intros ->. done.
Qed.

(** C27: A dashboard misses nothing silently. Take the service as it starts, any run
    of it, and a dashboard that opens the stream then. From there on, whatever
    messages arrive, however the NATS subscription breaks and is made again, and
    whatever other dashboards do, the events its client is sent tell of the workers'
    readable reports one by one and in order: every report is the content of a
    delivery event, or is counted by the lag event at its place, or is still
    waiting. As long as no more than 1024 reports came, each is a delivery event. *)
Theorem dashboard_accounts_for_reports `{!WireLaws W} before ops :
  let c := (run_feed before TelemetryService_new).1 in
  let rx := (TelemetryService_subscribe c).1 in
  let run := run_feed ops (TelemetryService_subscribe c).2 in
  let events := sse_stream (seen_by rx run.2) in
  ∃ told waiting,
    reports ops = told ++ waiting ∧ unread run.1 rx = Some waiting ∧ tells events told ∧
    ((length (reports ops) ≤ CHANNEL_CAPACITY)%nat →
     events = (λ t, MkSse "delivery" (telemetry_json t)) <$> told).
Proof.
  intros c rx run events. destruct (unread_subscribe c rx) as [_ Hsub].
  rewrite decide_True in Hsub by done.
  destruct (run_feed_accounts ops _ rx [] Hsub) as (consumed & rest & Heq & Hu & Ha).
  exists consumed, rest. split_and!; [done|done|by apply accounts_tells|]. intros Hcap.
  assert (Hall : seen_by rx run.2 = Ok <$> consumed).
  { eapply accounts_without_lag; [done|]. apply (run_feed_no_lag ops _ rx []); [done|].
    unfold TelemetryService_subscribe. rewrite (capacity_subscribe (BroadcastLaws := BL)).
    unfold c. rewrite run_feed_capacity. pose proof (capacity_new CHANNEL_CAPACITY) as Hn.
    unfold TelemetryService_new. cbn [length]. lia. }
  unfold events, sse_stream. rewrite Hall. clear. induction consumed as [|t l IH]; [done|].
  cbn. f_equal. exact IH.
Qed.
End Service.

(** ** A concrete channel *)

(** The capacity and each receiver's unread events. *)
Definition list_recv (cap : nat) (rx : nat) (m : gmap nat (list DeliveryTelemetry))
    : option Received * gmap nat (list DeliveryTelemetry) :=
  match m !! rx with
  | None | Some [] => (None, m)
  | Some (t :: rest) =>
    let behind := (length (t :: rest) - cap)%nat in
    if decide (behind = 0%nat) then (Some (Ok t), <[rx := rest]> m)
    else (Some (Err (Z.of_nat behind)), <[rx := drop behind (t :: rest)]> m)
  end.

Definition list_broadcast : Broadcast := {|
  Chan := nat * gmap nat (list DeliveryTelemetry);
  bc_new := λ cap, (cap, ∅);
  bc_subscribe := λ c, let rx := fresh (dom c.2) in (rx, (c.1, <[rx := []]> c.2));
  bc_send := λ t c,
    (if decide (c.2 = ∅) then None else Some (Z.of_nat (size c.2)), (c.1, (λ l, l ++ [t]) <$> c.2));
  bc_recv := λ rx c, let '(r, m) := list_recv c.1 rx c.2 in (r, (c.1, m));
|}.

Lemma list_broadcast_laws :
  BroadcastLaws list_broadcast (λ c : nat * gmap nat (list DeliveryTelemetry), c.1) (λ c rx, c.2 !! rx).
Proof.
  split; simpl.
  - done.
  - done.
  - done.
  - intros rx [cap m]. simpl. by destruct (list_recv cap rx m).
  - intros. apply lookup_empty.
  - intros [cap m] rx. simpl. split; [apply not_elem_of_dom, is_fresh|].
    case_decide as Hd; [subst; by rewrite lookup_insert_eq|by rewrite lookup_insert_ne].
  - intros t [cap m] rx. simpl. by rewrite lookup_fmap.
  - intros rx rx' [cap m] Hne. simpl. unfold list_recv.
    destruct (m !! rx') as [[|t rest]|]; [done| |done]. case_decide; simpl; by rewrite lookup_insert_ne.
  - intros rx [cap m] l Hl. simpl in *. unfold list_recv. rewrite Hl. destruct l as [|t rest]; [done|].
    case_decide; simpl; by rewrite lookup_insert_eq.
Qed.

Definition sample_report (n : Z) : DeliveryTelemetry :=
  MkTelemetry (uuid_of_N 1) "tkrt" n 0 1 120 "worker-1" 0.

Definition sample_feed : list FeedOp :=
  [FMessage (@telemetry_json plain_wire (sample_report 3)); FMessage "not telemetry"; FOpen; FPoll 0;
   FMessage (@telemetry_json plain_wire (sample_report 4)); FPoll 0].

Abbreviation sample_dashboard := (@TelemetryService_subscribe list_broadcast
  (@run_feed list_broadcast plain_wire [] (@TelemetryService_new list_broadcast)).1).

Lemma dashboard_accounts_for_reports_witness :
  ∃ told, @tells plain_wire (@sse_stream plain_wire (@seen_by sample_dashboard.1
    (@run_feed list_broadcast plain_wire sample_feed sample_dashboard.2).2)) told.
Proof.
  destruct (@dashboard_accounts_for_reports list_broadcast plain_wire _ _ list_broadcast_laws plain_wire_laws
    [] sample_feed) as (told & _ & _ & _ & Ht & _).
  exists told. exact Ht.
Defined.
