(* ===== verification/Routing.v ===== *)
(** * Requests, headers and routers

    What both HTTP applications share: a request, header maps, and the routers of
    axum as the code builds them: routes, layers around them and merging. The
    result of an endpoint is a parameter. *)

From S2P Require Import Prelude F64 Str Geo Domain Registry.

Open Scope Z_scope.

Inductive Method : Type := GET | HEAD | POST | PUT | DELETE | OtherMethod.

Global Instance Method_eq_dec : EqDecision Method.
Proof. solve_decision. Defined.

(** Header names are lower case; a name may occur more than once. *)
Definition Headers : Type := list (string * string).

Fixpoint header_get (name : string) (h : Headers) : option string :=
  match h with
  | [] => None
  | (n, v) :: h => if decide (n = name) then Some v else header_get name h
  end.

(** [HeaderMap::insert]: every value of the name is replaced. *)
Definition header_insert (name value : string) (h : Headers) : Headers :=
  (name, value) :: filter (λ kv, kv.1 ≠ name) h.

(** The path is given by its segments. *)
Record Request : Type := MkRequest {
  rq_method : Method; rq_path : list string; rq_query : string; rq_headers : Headers;
  rq_body : Bytes;
}.

Definition set_headers (h : Headers) (r : Request) : Request :=
  MkRequest (rq_method r) (rq_path r) (rq_query r) h (rq_body r).

Definition set_method (k : Method) (r : Request) : Request :=
  MkRequest k (rq_path r) (rq_query r) (rq_headers r) (rq_body r).

(** ** Routers

    A router lists its routes: the method, the pattern of the path and the
    endpoint, which gets the captured segments. A segment [{..}] of a pattern
    captures. [layer] wraps every route, [merge_routers] joins two routers; no two
    routes of an application take the same request. *)

Record Route (T : Type) : Type := MkRoute {
  ro_method : Method; ro_pattern : list string; ro_endpoint : Request → list string → T;
}.
Arguments MkRoute {_}.
Arguments ro_method {_}.
Arguments ro_pattern {_}.
Arguments ro_endpoint {_}.

Definition Router (T : Type) : Type := list (Route T).

Definition is_capture (segment : string) : bool := starts_with "{" segment.

Fixpoint match_path (pattern path : list string) : option (list string) :=
  match pattern, path with
  | [], [] => Some []
  | p :: pattern, s :: path =>
    if is_capture p then cons s <$> match_path pattern path
    else if decide (p = s) then match_path pattern path else None
  | _, _ => None
  end.

Definition takes {T} (request : Request) (route : Route T) : option (list string) :=
  if decide (ro_method route = rq_method request) then match_path (ro_pattern route) (rq_path request)
  else None.

Fixpoint find_route {T} (router : Router T) (request : Request) : option T :=
  match router with
  | [] => None
  | route :: router =>
    match takes request route with
    | Some captures => Some (ro_endpoint route request captures)
    | None => find_route router request
    end
  end.

Definition layer {T} (f : Request → T → T) (router : Router T) : Router T :=
  (λ r, MkRoute (ro_method r) (ro_pattern r)
          (λ request captures, f request (ro_endpoint r request captures))) <$> router.

Definition merge_routers {T} (a b : Router T) : Router T := a ++ b.

(** ** Lemmas *)

Lemma match_path_literal pattern path captures :
  forallb (λ s, negb (is_capture s)) pattern = true →
  match_path pattern path = Some captures → path = pattern.
Proof.
  revert path captures. induction pattern as [|p pattern IH]; intros [|s path] captures; try done.
  cbn [forallb match_path]. intros [Hp Hr]%andb_prop. apply negb_true_iff in Hp. rewrite Hp.
  case_decide as Hs; [|done]. intros Hm. f_equal; [done|by eapply IH].
Qed.

Lemma takes_literal {T} request (route : Route T) captures :
  forallb (λ s, negb (is_capture s)) (ro_pattern route) = true →
  takes request route = Some captures → rq_path request = ro_pattern route.
Proof. unfold takes. intros Hl. case_decide; [|done]. by apply match_path_literal. Qed.

Lemma find_route_Some {T} (router : Router T) request e :
  find_route router request = Some e →
  ∃ route captures, route ∈ router ∧ takes request route = Some captures ∧
    e = ro_endpoint route request captures.
Proof.
  induction router as [|route router IH]; [done|]. cbn [find_route].
  destruct (takes request route) as [captures|] eqn:Ht.
  - intros [= <-]. exists route, captures. set_solver.
  - intros (r & c & Hr & ?)%IH. exists r, c. set_solver.
Qed.
