(* ===== verification/Worker.v ===== *)
(** * The worker's shared state and its operator endpoints

    crates/fanout-worker/src/lib.rs (state, start-up, health), ops.rs (readiness,
    scrape, operator layer, presence lookup) and the replay counters of
    replay.rs. The parts of the shared state that change are fields of [Worker];
    the stores behind Redis are operations on the [World]. *)

From S2P Require Import Prelude F64 Str Errors Metrics Geo Domain Auth Configs Registry Redis World.
From S2P Require Import Stores Lease.

Open Scope Z_scope.

(** ** Replay counters (replay.rs) *)

Definition ReplayMetrics_new (registry : MetricRegistry) : option MetricRegistry :=
  foldl (λ acc f, acc ≫= f) (Some registry)
    [MetricRegistry_counter "pulsegrid_worker_replays_total" "Reconnect replays that ran to the end.";
     MetricRegistry_counter "pulsegrid_worker_replayed_alerts_total"
       "Missed alerts sent to reconnecting devices.";
     MetricRegistry_counter "pulsegrid_worker_replay_failures_total"
       "Reconnect replays that could not complete.";
     MetricRegistry_counter "pulsegrid_worker_acks_total" "Acknowledgements accepted from devices.";
     MetricRegistry_counter "pulsegrid_worker_acks_ignored_total"
       "Acknowledgements ignored (timestamp too far in the future).";
     MetricRegistry_counter "pulsegrid_worker_bad_client_messages_total"
       "Text frames from devices that were not understood."].

(** ** State *)

Record Worker : Type := MkWorker {
  wk_config : WorkerConfig;
  wk_registry : ConnectionRegistry;
  wk_metrics : MetricRegistry;
  wk_subscriptions_up : Z;
  wk_expected_subscriptions : Z;
  wk_lease_healthy : bool;
}.

Definition set_registry (r : ConnectionRegistry) (wk : Worker) : Worker :=
  MkWorker (wk_config wk) r (wk_metrics wk) (wk_subscriptions_up wk)
    (wk_expected_subscriptions wk) (wk_lease_healthy wk).
Definition set_subscriptions (n : Z) (wk : Worker) : Worker :=
  MkWorker (wk_config wk) (wk_registry wk) (wk_metrics wk) n
    (wk_expected_subscriptions wk) (wk_lease_healthy wk).
Definition set_healthy (b : bool) (wk : Worker) : Worker :=
  MkWorker (wk_config wk) (wk_registry wk) (wk_metrics wk) (wk_subscriptions_up wk)
    (wk_expected_subscriptions wk) b.

(** A change of the metrics. *)
Definition meter (f : MetricRegistry → MetricRegistry) (wk : Worker) : Worker :=
  MkWorker (wk_config wk) (wk_registry wk) (f (wk_metrics wk)) (wk_subscriptions_up wk)
    (wk_expected_subscriptions wk) (wk_lease_healthy wk).

Definition owned (wk : Worker) (prefix : string) : bool :=
  bool_decide (prefix ∈ wc_owned_prefixes (wk_config wk)).

(** [AtomicUsize::fetch_add] and [fetch_sub]. *)
Definition Health_subscription_up (wk : Worker) : Worker :=
  set_subscriptions (u64_wrap (wk_subscriptions_up wk + 1)) wk.
Definition Health_subscription_down (wk : Worker) : Worker :=
  set_subscriptions (u64_wrap (wk_subscriptions_up wk - 1)) wk.

Definition worker_lease (config : WorkerConfig) : ShardLease :=
  MkLease (wc_owned_prefixes config) (wc_public_url config) (wc_lease_ttl_secs config).

(** The check of the Redis URL when the pool is created. *)
Class PoolConfig : Type := { pool_config : string → result unit string }.

Section Worker.
Context {R : RedisServer} {E : Env} {UC : UuidCodec} {PC : PoolConfig}.

Definition build_pool (redis_url : string) : result unit AppError :=
  map_err Cache (pool_config redis_url).

(** [PING] within a time limit. *)
Definition redis_ping : MR unit := redis_read (λ _ _, ()).

(** A connection attempt, and the creation of the alert stream. *)
Definition nats_connect : MR unit := call Messaging (λ _ w, ((), w)).
Definition ensure_alert_stream (max_age_secs : Z) : MR unit := call Messaging (λ _ w, ((), w)).

(** The registration of the metrics cannot panic (see
    [worker_metrics_registered]). *)
Definition worker_metrics_at_start : MetricRegistry :=
  default [] (WorkerMetrics_new ≫= ReplayMetrics_new).

Definition worker_build_state (config : WorkerConfig) : MR Worker :=
  let!? _ := mret_ (build_pool (wc_redis_url config)) in
  let!? _ := redis_ping in
  let!? _ := nats_connect in
  let!? _ := ensure_alert_stream (wc_alert_stream_max_age_secs config) in
  let! acquired := ShardLease_acquire_all (worker_lease config) ShardLease_new_healthy in
  mret_ match acquired with
        | (Err e, _) => Err e
        | (Ok _, healthy) =>
          Ok (MkWorker config ConnectionRegistry_new
                worker_metrics_at_start
                0 (Z.of_nat (length (wc_owned_prefixes config))) healthy)
        end.

(** ** Operator endpoints (ops.rs) *)

Record ReadyReport : Type := MkReady {
  rr_status : Z; rr_redis : bool; rr_nats : bool; rr_shard_lease : bool; rr_subscriptions : bool;
  rr_connections : Z;
}.

(** [nats_connected] is the client's connection state. *)
Definition worker_ready (nats_connected : bool) (wk : Worker) : M ReadyReport :=
  let! ping := redis_ping in
  let redis_ok := is_ok ping in
  let lease_ok := wk_lease_healthy wk in
  let subscriptions_ok := wk_expected_subscriptions wk <=? wk_subscriptions_up wk in
  let all_ok := redis_ok && nats_connected && lease_ok && subscriptions_ok in
  mret_ (MkReady (if all_ok then 200 else 503) redis_ok nats_connected lease_ok subscriptions_ok
           (Z.of_nat (ConnectionRegistry_connection_count (wk_registry wk)))).

(** The gauges [metrics] sets before it renders. *)
Definition scrape_gauges (wk : Worker) : Worker :=
  let wk1 := meter (gauge_set "pulsegrid_ws_connections_current"
                      (Z.of_nat (ConnectionRegistry_connection_count (wk_registry wk)))) wk in
  let wk2 := meter (gauge_set "pulsegrid_worker_lease_healthy"
                      (if wk_lease_healthy wk1 then 1 else 0)) wk1 in
  meter (gauge_set "pulsegrid_worker_subscriptions_up" (wk_subscriptions_up wk2)) wk2.

Definition worker_scrape {FF : FloatFmt} {MO : MapOrder string Z} (wk : Worker) : Worker * string :=
  let wk' := scrape_gauges wk in
  (wk', MetricRegistry_render (wk_metrics wk')).

(** The operator layer: [None] lets the request through. [header] is the value
    of X-API-Key when it is readable text. *)
Definition require_operator (keys : ApiKeys) (header : option string) : option Z :=
  if ApiKeys_verify keys (default "" header) then None else Some 401.

Inductive PresenceReply : Type :=
| PresenceFound (worker_instance_id : string) (this_worker : bool)
| PresenceError (status : Z) (error : string).

Definition presence (wk : Worker) (device_id : Uuid) : M PresenceReply :=
  let! r := PresenceRegistry_lookup (uuid_to_string device_id) in
  mret_ match r with
        | Ok (Some instance) =>
          PresenceFound instance (bool_decide (instance = wc_instance_id (wk_config wk)))
        | Ok None => PresenceError 404 "no presence record"
        | Err _ => PresenceError 503 "presence store unavailable"
        end.
End Worker.

(** ** Theorems *)

Lemma worker_metrics_registered :
  ∃ r, WorkerMetrics_new ≫= ReplayMetrics_new = Some r ∧ NoDup (collect_names r).
Proof.
  eexists; split; [vm_compute; reflexivity|].
  apply (bool_decide_unpack (NoDup (collect_names _))); vm_compute; exact I.
Qed.

(** A call that leaves the world as it is. *)
Lemma skip_call {R : RedisServer} {E : Env} err w :
  call err (λ _ w, ((), w)) w =
    (match env_fault (w_tick w) with Works => Ok () | FailsBefore y | FailsAfter y => Err (err y) end,
     tick w).
Proof. unfold call. by destruct (env_fault _). Qed.

Lemma redis_ping_skip {R : RedisServer} {E : Env} w : redis_ping w = call Cache (λ _ w, ((), w)) w.
Proof. by destruct w. Qed.

Section WorkerTheorems.
Context {R : RedisServer} {view : Z → string → rdb → option entry} {RL : RedisLaws R view}.
Context {E : Env} {PC : PoolConfig}.

Lemma keys_str_tick w : clock_monotone → keys_str (view := view) w → keys_str (view := view) (tick w).
Proof. intros Hm Hs. by apply (keys_str_later Hm w). Qed.

Lemma clock_tick w : clock_monotone → env_clock (w_tick w) ≤ env_clock (w_tick (tick w)).
Proof. intros Hm. apply Hm. Qed.

(** A worker that starts owns its shards. When start-up succeeds, every
    configured shard is registered to this worker's address for a time to live
    counted from the start, no device is connected yet, and the worker is marked
    healthy but does not report ready before it has subscribed to its shards. *)
Theorem worker_starts_owning config w wk w' nats :
  clock_monotone → keys_str (view := view) w → 0 < wc_lease_ttl_secs config →
  wc_owned_prefixes config ≠ [] →
  worker_build_state config w = (Ok wk, w') →
  (∀ p, owned wk p = true →
     held_until (view := view) (worker_lease config)
       (env_clock (w_tick w) + ttl_ns (wc_lease_ttl_secs config)) w' p) ∧
  wk_config wk = config ∧ by_device (wk_registry wk) = ∅ ∧ wk_lease_healthy wk = true ∧
  rr_status (worker_ready nats wk w').1 = 503.
Proof.
  intros Hm Hs Httl Hne. unfold worker_build_state, nats_connect, ensure_alert_stream.
  rewrite mbind_ok_run. cbn [mret_ fst snd]. destruct (build_pool _) as [[]|]; [|done].
  rewrite mbind_ok_run, redis_ping_skip, skip_call. destruct (env_fault (w_tick w)); [|done..].
  cbn [fst snd]. rewrite mbind_ok_run, skip_call. destruct (env_fault _); [|done..]. cbn [fst snd].
  rewrite mbind_ok_run, skip_call. destruct (env_fault _); [|done..]. cbn [fst snd].
  generalize worker_metrics_at_start. intros mets. set (w3 := tick (tick (tick w))). unfold ShardLease_acquire_all. rewrite !mbind_run.
  destruct (acquire_loop _ _ _ w3) as [[[]|e] w4] eqn:Hl; cbn [fst snd mret_]; [|done].
  intros [= <- <-]. split_and!; [|done..|].
  - intros p Hp%bool_decide_eq_true. cbn [wk_config] in Hp.
    assert (env_clock (w_tick w) ≤ env_clock (w_tick w3))
      by (etrans; [by apply clock_tick|]; etrans; [by apply clock_tick|]; by apply clock_tick).
    apply (acquire_loop_sound (worker_lease config) Httl Hm
             _ (wc_owned_prefixes config) [] w3 w4); [|cbn [worker_lease sl_ttl_secs]; lia|set_solver|done|done].
    repeat (apply keys_str_tick; [done|]). done.
  - unfold worker_ready. rewrite mbind_run. cbn [wk_lease_healthy wk_expected_subscriptions wk_subscriptions_up mret_ fst rr_status].
    destruct (wc_owned_prefixes config) as [|p ps]; [done|].
    rewrite (proj2 (Z.leb_gt (Z.of_nat (length (p :: ps))) 0)) by (rewrite length_cons; lia).
    by rewrite andb_false_r.
Qed.
End WorkerTheorems.

Definition any_pool : PoolConfig := {| pool_config := λ _, Ok () |}.

Lemma worker_starts_owning_witness :
  let res := @worker_build_state map_redis (calm_env toy_clock) any_pool sample_worker_config toy_world in
  ∃ wk w', res = (Ok wk, w') ∧ by_device (wk_registry wk) = ∅.
Proof.
  destruct (@worker_build_state map_redis (calm_env toy_clock) any_pool sample_worker_config toy_world)
    as [r w'] eqn:Hb.
  assert (Hr : ∃ wk, r = Ok wk).
  { change r with (r, w').1. rewrite <- Hb. eexists. vm_compute. reflexivity. }
  destruct Hr as [wk ->]. exists wk, w'. split; [done|].
  apply (@worker_starts_owning map_redis map_view map_redis_laws (calm_env toy_clock) any_pool
    sample_worker_config toy_world wk w' true);
    [apply toy_clock_monotone|apply toy_keys_str|done|done|exact Hb].
Defined.
