(* ===== verification/Replay.v ===== *)
(** * Replaying missed alerts

    crates/fanout-worker/src/replay.rs: the batcher that limits how often a
    connection writes its cursor, the choice of what to replay, and the replay
    task itself, also when the fetch of a query is cut short. *)

From S2P Require Import Prelude F64 Str Errors Metrics Geo Domain Auth Configs Registry Redis World.
From S2P Require Import Stores Lease Nats Worker.

Open Scope Z_scope.

Definition ACK_CURSOR_TTL_SECS : Z := 7 * 24 * 3600.
Definition ACK_MIN_INTERVAL : Z := seconds 1.
Definition MAX_STREAM_READ : Z := 500.
(** How long the task waits for room in the queue. *)
Definition SEND_WAIT : Z := seconds 10.

Definition no_cursor_window : Z := seconds 300.
Definition replay_overlap : Z := seconds 5.
Definition future_ack_tolerance : Z := seconds 60.

(** ** The batcher *)

Inductive AckOutcome : Type :=
| AckIgnored
| AckBuffered
| AckWrite (cursor : DateTime).

Record AckBatcher : Type := MkBatcher {
  ab_min_interval : Z;
  ab_last_write : option Z;
  ab_pending : option DateTime;
}.

Definition AckBatcher_new (min_interval : Z) : AckBatcher := MkBatcher min_interval None None.

(** [now] is a monotonic clock reading; [duration_since] saturates at zero. *)
Definition AckBatcher_offer (self : AckBatcher) (ts wall_now : DateTime) (now : Z)
    : AckBatcher * AckOutcome :=
  if wall_now + future_ack_tolerance <? ts then (self, AckIgnored) else
  let best := match ab_pending self with
              | Some pending => if ts <=? pending then pending else ts
              | None => ts
              end in
  let due := match ab_last_write self with
             | Some last => ab_min_interval self <=? saturating_sub now last
             | None => true
             end in
  if due then (MkBatcher (ab_min_interval self) (Some now) None, AckWrite best)
  else (MkBatcher (ab_min_interval self) (ab_last_write self) (Some best), AckBuffered).

Definition AckBatcher_take_pending (self : AckBatcher) : AckBatcher * option DateTime :=
  (MkBatcher (ab_min_interval self) (ab_last_write self) None, ab_pending self).

(** ** What to replay *)

Section Replay.
Context {L : Libm} {W : Wire}.

Definition plan_replay (alerts : list Alert) (location : Location) (connected_at : DateTime)
    (limit : Z) : list Bytes :=
  let upper := connected_at + replay_overlap in
  let payloads := alert_json <$>
    filter (λ a, (al_created_at a <? upper) && Alert_contains a location = true) alerts in
  let skip := saturating_sub (Z.of_nat (length payloads)) limit in
  drop (Z.to_nat skip) payloads.

Context {R : RedisServer} {E : Env} {UC : UuidCodec} {F : Rfc3339} {J : JetStream}.

(** The loop that queues the payloads. [accepts k] says whether the [k]-th send
    of the task found room in time and the connection still there; the result is
    what was queued and whether the loop ran to its end. *)
Fixpoint send_payloads (accepts : nat → bool) (k : nat) (payloads : list Bytes)
    : list Outbound * bool :=
  match payloads with
  | [] => ([], true)
  | payload :: rest =>
    if accepts k then
      let '(sent, ok) := send_payloads accepts (S k) rest in (OAlert payload :: sent, ok)
    else ([], false)
  end.

(** The messages handed to the connection's queue and the worker afterwards. *)
Definition run_replay (wk : Worker) (device_id : Uuid) (shard_prefix : string)
    (location : Location) (connected_at : DateTime) (accepts : nat → bool)
    : M (list Outbound * Worker) :=
  let failed := meter (counter_add "pulsegrid_worker_replay_failures_total" 1) wk in
  let! cursor := AckCursorStore_get device_id in
  match cursor with
  | Err _ => mret_ ([], failed)
  | Ok c =>
    let since := match c with Some c => c | None => connected_at - no_cursor_window end in
    let! stored := replay_alerts shard_prefix since MAX_STREAM_READ in
    match stored with
    | Err _ => mret_ ([], failed)
    | Ok alerts =>
      let payloads := plan_replay alerts location connected_at
                        (wc_replay_max_alerts (wk_config wk)) in
      let '(sent, finished) := send_payloads accepts 0 payloads in
      if finished then
        let replayed := Z.of_nat (length sent) in
        let done_msg := server_message_json (ReplayComplete replayed) in
        (* the result of this send is not looked at *)
        let last := if accepts (length sent) then [OControl done_msg false] else [] in
        mret_ (sent ++ last,
               meter (counter_add "pulsegrid_worker_replayed_alerts_total" replayed)
                 (meter (counter_add "pulsegrid_worker_replays_total" 1) wk))
      else mret_ (sent, failed)
    end
  end.
End Replay.

(** ** Runs of the batcher *)

(** An acknowledgement as it arrives: its timestamp and the two clocks. *)
Record AckEvent : Type := MkAck { ae_ts : DateTime; ae_wall : DateTime; ae_now : Z }.

Definition accepted (e : AckEvent) : bool := ae_ts e <=? ae_wall e + future_ack_tolerance.

(** The batcher after a run, and the writes it asked for with their times. *)
Fixpoint run_acks (b : AckBatcher) (es : list AckEvent) : AckBatcher * list (Z * DateTime) :=
  match es with
  | [] => (b, [])
  | e :: es =>
    let '(b1, o) := AckBatcher_offer b (ae_ts e) (ae_wall e) (ae_now e) in
    let '(b2, ws) := run_acks b1 es in
    (b2, match o with AckWrite c => (ae_now e, c) :: ws | _ => ws end)
  end.

(** Everything a connection writes: the due writes, then what was pending. *)
Definition cursor_writes (b : AckBatcher) (es : list AckEvent) : list DateTime :=
  let '(b', ws) := run_acks b es in ws.*2 ++ option_list (AckBatcher_take_pending b').2.

(** The newest timestamp of a list. *)
Fixpoint newest_of (l : list DateTime) : option DateTime :=
  match l with
  | [] => None
  | t :: l => Some (match newest_of l with Some u => Z.max t u | None => t end)
  end.

Lemma newest_of_app a b :
  newest_of (a ++ b) =
  match newest_of a, newest_of b with
  | Some x, Some y => Some (Z.max x y)
  | Some x, None => Some x
  | None, o => o
  end.
Proof.
  induction a as [|t a IH]; [done|]. simpl. rewrite IH.
  destruct (newest_of a), (newest_of b); f_equal; lia.
Qed.

Lemma newest_of_option o l :
  newest_of (option_list o ++ l) =
  match o with Some p => newest_of (p :: l) | None => newest_of l end.
Proof. by destruct o. Qed.

Lemma offer_cases b e :
  let '(b', o) := AckBatcher_offer b (ae_ts e) (ae_wall e) (ae_now e) in
  let best := match ab_pending b with Some p => Z.max p (ae_ts e) | None => ae_ts e end in
  ab_min_interval b' = ab_min_interval b ∧
  if accepted e then
    (o = AckBuffered ∧ ab_pending b' = Some best ∧ ab_last_write b' = ab_last_write b) ∨
    (o = AckWrite best ∧ ab_pending b' = None ∧ ab_last_write b' = Some (ae_now e) ∧
     ∀ last, ab_last_write b = Some last → ab_min_interval b ≤ saturating_sub (ae_now e) last)
  else b' = b ∧ o = AckIgnored.
Proof.
  unfold AckBatcher_offer, accepted. rewrite Z.ltb_antisym.
  destruct (ae_ts e <=? ae_wall e + future_ack_tolerance); simpl; [|done].
  assert (match ab_pending b with
          | Some pending => if ae_ts e <=? pending then pending else ae_ts e
          | None => ae_ts e end =
          match ab_pending b with Some p => Z.max p (ae_ts e) | None => ae_ts e end) as ->.
  { destruct (ab_pending b) as [p|]; [|done]. destruct (Z.leb_spec (ae_ts e) p); lia. }
  destruct (ab_last_write b) as [last|].
  - destruct (Z.leb_spec (ab_min_interval b) (saturating_sub (ae_now e) last)); simpl.
    + split; [done|]. right. split_and!; [done..|]. by intros ? [= <-].
    + split; [done|]. by left.
  - simpl. split; [done|]. right. by split_and!.
Qed.

(** Two writes in a row are at least the interval apart. *)
Definition spaced (interval : Z) (a b : Z) : Prop := a + interval ≤ b.

Lemma run_acks_spaced b es :
  0 < ab_min_interval b →
  Sorted (spaced (ab_min_interval b)) (option_list (ab_last_write b) ++ (run_acks b es).2.*1).
Proof.
  revert b. induction es as [|e es IH]; intros b Hpos.
  { simpl. rewrite app_nil_r. destruct (ab_last_write b); repeat constructor. }
  cbn [run_acks]. pose proof (offer_cases b e) as Hc.
  destruct (AckBatcher_offer b _ _ _) as [b1 o]. destruct Hc as [Hi Hc].
  specialize (IH b1). rewrite Hi in IH. specialize (IH Hpos).
  destruct (run_acks b1 es) as [b2 ws]. cbn [snd] in *.
  destruct (accepted e); [destruct Hc as [(-> & _ & Hl)|(-> & _ & Hl & Hgap)]|destruct Hc as [-> ->]].
  - by rewrite <- Hl.
  - rewrite Hl in IH. destruct (ab_last_write b) as [last|]; [|done].
    constructor; [done|]. constructor. specialize (Hgap last eq_refl).
    unfold saturating_sub, spaced in *. simpl. lia.
  - done.
Qed.

Lemma run_acks_newest b es :
  newest_of ((run_acks b es).2.*2 ++ option_list (ab_pending (run_acks b es).1)) =
  newest_of (option_list (ab_pending b) ++ (ae_ts <$> filter (λ e, accepted e = true) es)).
Proof.
  revert b. induction es as [|e es IH]; intros b; [simpl; by rewrite app_nil_r|].
  cbn [run_acks]. pose proof (offer_cases b e) as Hc.
  destruct (AckBatcher_offer b _ _ _) as [b1 o]. destruct Hc as [_ Hc]. specialize (IH b1).
  destruct (run_acks b1 es) as [b2 ws]. cbn [fst snd] in *. rewrite filter_cons.
  destruct (accepted e).
  - rewrite decide_True, fmap_cons by done.
    destruct Hc as [(-> & Hp & _)|(-> & Hp & _)]; rewrite Hp in IH.
    + rewrite IH, !newest_of_option. destruct (ab_pending b) as [p|]; [|done].
      cbn [newest_of]. f_equal. case_match; lia.
    + rewrite fmap_cons. cbn [newest_of snd app]. rewrite IH, !newest_of_option.
      destruct (ab_pending b) as [p|]; [|done].
      cbn [newest_of]. f_equal. case_match; lia.
  - destruct Hc as [-> ->]. rewrite decide_False by done. done.
Qed.

(** A connection writes its cursor at most once per interval, whatever the
    client sends and however its clock readings jump. *)
Theorem ack_writes_spaced interval es :
  0 < interval →
  Sorted (spaced interval) (run_acks (AckBatcher_new interval) es).2.*1.
Proof. intros Hpos. exact (run_acks_spaced (AckBatcher_new interval) es Hpos). Qed.

(** Batching loses no acknowledgement: the newest value a connection writes,
    the pending one at its end included, is the newest acknowledgement that was
    not too far in the future; and if none was acceptable nothing is written. *)
Theorem batching_keeps_newest interval es :
  newest_of (cursor_writes (AckBatcher_new interval) es) =
  newest_of (ae_ts <$> filter (λ e, accepted e = true) es).
Proof.
  unfold cursor_writes. pose proof (run_acks_newest (AckBatcher_new interval) es) as H.
  by destruct (run_acks _ es).
Qed.

(** ** What is replayed *)

Section ReplayTheorems.
Context {L : Libm} {W : Wire} {WL : WireLaws W}.

(** The alerts a device has to see: in its circle, not created long after it
    connected. *)
Definition relevant (location : Location) (connected_at : DateTime) (a : Alert) : bool :=
  (al_created_at a <? connected_at + replay_overlap) && Alert_contains a location.

Lemma plan_replay_eq alerts location connected_at limit :
  0 ≤ limit →
  plan_replay alerts location connected_at limit =
  alert_json <$> drop (length (filter (λ a, relevant location connected_at a = true) alerts)
                       - Z.to_nat limit)
                   (filter (λ a, relevant location connected_at a = true) alerts).
Proof.
  intros Hl. unfold plan_replay. rewrite length_fmap, <- fmap_drop. f_equal. unfold relevant.
  f_equal. unfold saturating_sub. lia.
Qed.

(** The plan of a replay keeps the newest relevant alerts in their order: it
    is the last [limit] of the stored alerts whose circle contains the device
    and that were not created five seconds or more after the connection; every
    payload reads back as its alert, up to the precision of doubles in JSON. *)
Theorem plan_replay_newest alerts location connected_at limit :
  0 ≤ limit →
  let rel := filter (λ a, relevant location connected_at a = true) alerts in
  let plan := plan_replay alerts location connected_at limit in
  ∃ skipped kept,
    rel = skipped ++ kept ∧ plan = alert_json <$> kept ∧
    length kept = Nat.min (length rel) (Z.to_nat limit) ∧
    parse_alert <$> plan = reread_alert <$> kept.
Proof.
  intros Hl rel plan. exists (take (length rel - Z.to_nat limit) rel),
    (drop (length rel - Z.to_nat limit) rel).
  assert (Hp : plan = alert_json <$> drop (length rel - Z.to_nat limit) rel)
    by (by apply plan_replay_eq).
  split_and!; [by rewrite take_drop|done|rewrite length_drop; lia|].
  rewrite Hp, <- list_fmap_compose. apply list_fmap_ext. intros i a Ha.
  apply parse_alert_json.
Qed.

(** ** The whole task *)

Context {R : RedisServer} {E : Env} {UC : UuidCodec} {F : Rfc3339} {J : JetStream}
  {JL : JetStreamLaws J}.

Lemma send_payloads_all accepts k ps :
  (∀ i, accepts i = true) → send_payloads accepts k ps = (OAlert <$> ps, true).
Proof.
  intros Ha. revert k. induction ps as [|p ps IH]; intros k; [done|]. simpl.
  by rewrite Ha, IH.
Qed.

Lemma send_payloads_prefix accepts k ps sent ok :
  send_payloads accepts k ps = (sent, ok) →
  ∃ n, sent = OAlert <$> take n ps ∧ (ok = true → sent = OAlert <$> ps).
Proof.
  revert k sent ok. induction ps as [|p ps IH]; intros k sent ok; simpl.
  - intros [= <- <-]. by exists 0%nat.
  - destruct (accepts k); [|intros [= <- <-]; by exists 0%nat].
    destruct (send_payloads accepts (S k) ps) as [s o] eqn:Hs. intros [= <- <-].
    destruct (IH _ _ _ Hs) as (n & -> & Hok). exists (S n). split; [done|].
    intros Ho. simpl. by rewrite Hok.
Qed.

(** Reading the cursor changes nothing but the call counter. *)
Lemma cursor_get_world device_id w :
  w_stream (AckCursorStore_get device_id w).2 = w_stream w ∧
  w_tick (AckCursorStore_get device_id w).2 = S (w_tick w).
Proof.
  unfold AckCursorStore_get. rewrite mbind_ok_run.
  pose proof (redis_call_cases (λ now r, (cmd_get now (AckCursorStore_key device_id) r, r)) w) as Hc.
  unfold redis_read. destruct (redis_call _ w) as [[a|e] w']; destruct Hc as (_&_&?&?&_); done.
Qed.

(** The cursor a replay starts from. *)
Definition replay_since (cursor : option DateTime) (connected_at : DateTime) : DateTime :=
  match cursor with Some c => c | None => connected_at - no_cursor_window end.

(** A query of the replay whose batch is whole answers everything missed. *)
Lemma replay_fetches shard since w :
  (∀ i, (i < 3)%nat → env_fault (w_tick w + i) = Works) →
  (∀ m a, m ∈ w_stream w → parse_alert (sm_payload m) = Some a →
     al_created_at a - seconds 60 ≤ sm_stored_at m ∧ 0 ≤ sm_stored_at m) →
  let now := env_clock (w_tick w + 2) in
  whole_batch now (w_stream w) (alert_subject shard) (replay_start since) →
  (replay_alerts shard since MAX_STREAM_READ w).1 = Ok (missed_alerts now (w_stream w) shard since).
Proof.
  intros Hf Hskew now [Hall Hfew]%whole_batch_all. rewrite replay_alerts_works by done. fold now.
  unfold MAX_REPLAY_FETCH in Hall. rewrite Hall. rewrite clamp_id by (unfold MAX_STREAM_READ; lia).
  rewrite take_ge by (etrans; [apply collect_newer_length|];
    rewrite length_fmap; unfold MAX_STREAM_READ; lia).
  by rewrite (skew_cut now _ shard since).
Qed.

Lemma run_replay_sent wk device_id shard location connected_at accepts w cursor :
  (AckCursorStore_get device_id w).1 = Ok cursor →
  (∀ i, (1 ≤ i < 4)%nat → env_fault (w_tick w + i) = Works) →
  (∀ m a, m ∈ w_stream w → parse_alert (sm_payload m) = Some a →
     al_created_at a - seconds 60 ≤ sm_stored_at m ∧ 0 ≤ sm_stored_at m) →
  (∀ i, accepts i = true) → 1 ≤ wc_replay_max_alerts (wk_config wk) →
  let now := env_clock (w_tick w + 3) in
  let since := replay_since cursor connected_at in
  whole_batch now (w_stream w) (alert_subject shard) (replay_start since) →
  let missed := filter (λ a, relevant location connected_at a = true)
                  (missed_alerts now (w_stream w) shard since) in
  let sent := drop (length missed - Z.to_nat (wc_replay_max_alerts (wk_config wk))) missed in
  (run_replay wk device_id shard location connected_at accepts w).1.1 =
    (OAlert ∘ alert_json <$> sent) ++
    [OControl (server_message_json (ReplayComplete (Z.of_nat (length sent)))) false].
Proof.
  intros Hcur Hf Hskew Hacc Hmax now since Hfew missed sent.
  unfold run_replay. rewrite mbind_run. destruct (cursor_get_world device_id w) as [Hst Htick].
  set (w1 := (AckCursorStore_get device_id w).2) in *. rewrite Hcur. rewrite mbind_run.
  fold (replay_since cursor connected_at). fold since.
  assert (Hfetch : (replay_alerts shard since MAX_STREAM_READ w1).1 = Ok (missed_alerts now (w_stream w) shard since)).
  { subst now. rewrite <- Hst. replace (w_tick w + 3)%nat with (w_tick w1 + 2)%nat by lia.
    apply replay_fetches; rewrite ?Hst; [|done|].
    - intros i Hi. rewrite Htick. replace (S (w_tick w) + i)%nat with (w_tick w + S i)%nat by lia. apply Hf. lia.
    - by replace (w_tick w1 + 2)%nat with (w_tick w + 3)%nat by lia. }
  rewrite Hfetch. clear Hfetch.
  rewrite plan_replay_eq by lia. fold missed. fold sent.
  rewrite send_payloads_all by done. rewrite Hacc. cbn [mret_ fst].
  rewrite !length_fmap, list_fmap_compose. done.
Qed.

(** A reconnecting device is sent what it missed. If the calls work, the
    clocks disagree by at most a minute, the batch is whole and the connection takes what it is sent, the device
    receives the relevant alerts stored for its shard after its cursor, oldest
    first, cut to the newest [replay_max_alerts], followed by the completion
    message with their number. *)
Theorem run_replay_delivers wk device_id shard location connected_at accepts w cursor :
  (AckCursorStore_get device_id w).1 = Ok cursor →
  (∀ i, (1 ≤ i < 4)%nat → env_fault (w_tick w + i) = Works) →
  (∀ m a, m ∈ w_stream w → parse_alert (sm_payload m) = Some a →
     al_created_at a - seconds 60 ≤ sm_stored_at m ∧ 0 ≤ sm_stored_at m) →
  (∀ i, accepts i = true) → 1 ≤ wc_replay_max_alerts (wk_config wk) →
  let now := env_clock (w_tick w + 3) in
  let since := replay_since cursor connected_at in
  whole_batch now (w_stream w) (alert_subject shard) (replay_start since) →
  let missed := filter (λ a, relevant location connected_at a = true)
                  (missed_alerts now (w_stream w) shard since) in
  let sent := drop (length missed - Z.to_nat (wc_replay_max_alerts (wk_config wk))) missed in
  (run_replay wk device_id shard location connected_at accepts w).1.1 =
    (OAlert ∘ alert_json <$> sent) ++
    [OControl (server_message_json (ReplayComplete (Z.of_nat (length sent)))) false].
Proof. intros. by apply run_replay_sent. Qed.

(** C19: A replay cut short counts as complete. The batch of a query ends without an
    error when it expires, so if no message arrived by then, the device is told
    that its replay is complete with nothing to send, and the counters record a
    successful replay of no alerts, whatever the stream holds for it. *)
Theorem short_batch_reported_complete wk device_id shard location connected_at accepts w cursor :
  (AckCursorStore_get device_id w).1 = Ok cursor →
  (∀ i, (1 ≤ i < 4)%nat → env_fault (w_tick w + i) = Works) →
  (∀ i, accepts i = true) → 1 ≤ wc_replay_max_alerts (wk_config wk) →
  js_fetch (env_clock (w_tick w + 3)) (w_stream w) (alert_subject shard)
    (replay_start (replay_since cursor connected_at)) MAX_REPLAY_FETCH = [] →
  (run_replay wk device_id shard location connected_at accepts w).1 =
    ([OControl (server_message_json (ReplayComplete 0)) false],
     meter (counter_add "pulsegrid_worker_replayed_alerts_total" 0)
       (meter (counter_add "pulsegrid_worker_replays_total" 1) wk)).
Proof.
  intros Hcur Hf Hacc Hmax Hnone. unfold run_replay. rewrite mbind_run.
  destruct (cursor_get_world device_id w) as [Hst Htick].
  set (w1 := (AckCursorStore_get device_id w).2) in *. rewrite Hcur. rewrite mbind_run.
  fold (replay_since cursor connected_at). rewrite replay_alerts_works.
  2:{ intros i Hi. replace (w_tick w1 + i)%nat with (w_tick w + S i)%nat by lia. apply Hf. lia. }
  rewrite Hst. replace (w_tick w1 + 2)%nat with (w_tick w + 3)%nat by lia.
  unfold MAX_REPLAY_FETCH in Hnone. rewrite Hnone. cbn [collect_newer]. rewrite take_nil.
  rewrite plan_replay_eq by lia. rewrite filter_nil, drop_nil. cbn [fmap list_fmap send_payloads length].
  by rewrite Hacc.
Qed.
End ReplayTheorems.

(** ** Witnesses *)

Lemma ack_writes_spaced_witness :
  (run_acks (AckBatcher_new 10)
     [MkAck 5 100 0; MkAck 7 100 4; MkAck 6 100 9; MkAck 3 100 12]).2 = [(0, 5); (12, 7)] ∧
  Sorted (spaced 10) [0; 12].
Proof.
  split; [reflexivity|].
  apply (ack_writes_spaced 10 [MkAck 5 100 0; MkAck 7 100 4; MkAck 6 100 9; MkAck 3 100 12]). lia.
Defined.

Lemma plan_replay_newest_witness :
  ∃ skipped kept : list Alert,
    length kept = 1%nat ∧
    @plan_replay toy_libm plain_wire [sample_alert 90; sample_alert 100] toy_center (seconds 200) 1
      = @alert_json plain_wire <$> kept.
Proof.
  destruct (@plan_replay_newest toy_libm plain_wire plain_wire_laws
    [sample_alert 90; sample_alert 100] toy_center (seconds 200) 1) as (sk & kept & _ & Hp & Hl & _).
  - lia.
  - exists sk, kept. split; [rewrite Hl; vm_compute; reflexivity|exact Hp].
Defined.

Definition sample_worker : Worker :=
  MkWorker sample_worker_config ConnectionRegistry_new [] 0 2 true.

Lemma run_replay_delivers_witness :
  ∃ sent : list Alert,
  (@run_replay toy_libm plain_wire map_redis minutes_env binary_uuids hex_rfc3339 list_jetstream
     sample_worker (uuid_of_N 1) "u4pr" toy_center (seconds 200) (λ _, true) sample_world).1.1 =
  (OAlert ∘ @alert_json plain_wire <$> sent) ++
  [OControl (@server_message_json plain_wire (ReplayComplete (Z.of_nat (length sent)))) false].
Proof.
  eexists.
  apply (@run_replay_delivers toy_libm plain_wire map_redis minutes_env binary_uuids hex_rfc3339
    list_jetstream list_jetstream_laws sample_worker (uuid_of_N 1) "u4pr" toy_center (seconds 200)
    (λ _, true) sample_world None).
  - vm_compute. reflexivity.
  - done.
  - apply sample_msgs_parse.
  - done.
  - vm_compute. discriminate.
  - vm_compute. reflexivity.
Defined.

(** The alert of second 100 is stored and concerns the device, but no message
    arrives in time. *)
Lemma short_batch_reported_complete_witness :
  (@run_replay toy_libm plain_wire map_redis minutes_env binary_uuids hex_rfc3339 stalled_jetstream
     sample_worker (uuid_of_N 1) "u4pr" toy_center (seconds 200) (λ _, true) sample_world).1.1 =
  [OControl (@server_message_json plain_wire (ReplayComplete 0)) false] ∧
  length (filter (λ a, @relevant toy_libm toy_center (seconds 200) a = true)
    (@missed_alerts plain_wire stalled_jetstream (seconds 203) (w_stream sample_world) "u4pr"
       (replay_since None (seconds 200)))) = 2%nat.
Proof.
  split; [|vm_compute; reflexivity].
  rewrite (@short_batch_reported_complete toy_libm plain_wire map_redis minutes_env binary_uuids hex_rfc3339
    stalled_jetstream sample_worker (uuid_of_N 1) "u4pr" toy_center (seconds 200) (λ _, true) sample_world None).
  - reflexivity.
  - vm_compute. reflexivity.
  - done.
  - done.
  - vm_compute. discriminate.
  - reflexivity.
Defined.

(** The same run, evaluated: two alerts and the completion message. *)
Example run_replay_sample :
  length (@run_replay toy_libm plain_wire map_redis minutes_env binary_uuids hex_rfc3339
     list_jetstream sample_worker (uuid_of_N 1) "u4pr" toy_center (seconds 200) (λ _, true)
     sample_world).1.1 = 3%nat.
Proof. vm_compute. reflexivity. Qed.
