(* ===== verification/Fanout.v ===== *)
(** * Fanning alerts out and applying control messages

    crates/fanout-worker/src/subscriber.rs (one subscription per owned shard,
    the fanout of an alert, its metrics and its report) and control.rs (control
    messages addressed to connected devices). *)

From S2P Require Import Prelude F64 Str Errors Metrics Geo Domain Auth Configs Registry Redis World.
From S2P Require Import Stores Lease Nats Worker Replay.

Open Scope Z_scope.
Open Scope f64_scope.

Definition STATS_TTL_SECS : Z := 7 * 24 * 3600.

(** [Duration::as_secs_f64] and [as_micros] of a duration in nanoseconds. *)
Definition as_secs_f64 (d : Z) : f64 :=
  f64_of_Z (d / 10 ^ 9) +. f64_of_Z (d `mod` 10 ^ 9) /. f64_of_Z (10 ^ 9).
Definition as_micros (d : Z) : Z := d / 1000.

Record Fanout : Type := MkFanout {
  fo_alert : Alert; fo_result : BroadcastResult; fo_duration : Z;
}.

Section Fanout.
Context {L : Libm} {MO : MapOrder Uuid nat} {W : Wire}.

(** [elapsed] is what the stopwatch shows; [None] is a parse error. *)
Definition fanout (registry : ConnectionRegistry) (shard_prefix : string) (payload : Bytes)
    (elapsed : Z) : ConnectionRegistry * option Fanout :=
  match parse_alert payload with
  | None => (registry, None)
  | Some alert =>
    let '(registry', result) :=
      ConnectionRegistry_broadcast_to_shard registry shard_prefix alert payload in
    (registry', Some (MkFanout alert result elapsed))
  end.

Context {R : RedisServer} {E : Env} {UC : UuidCodec}.

(** The spawned task: a failed write is logged and the telemetry still sent. *)
Definition report_fanout (config : WorkerConfig) (prefix : string) (f : Fanout) : M unit :=
  let r := fo_result f in
  let! _ := AlertStatsStore_record (al_id (fo_alert f)) prefix (br_delivered r) (br_dropped r)
              (br_filtered_out r) STATS_TTL_SECS in
  let! now := utc_now in
  let telemetry := MkTelemetry (al_id (fo_alert f)) prefix (br_delivered r) (br_dropped r)
                     (br_filtered_out r) (as_micros (fo_duration f)) (wc_instance_id config) now in
  let! _ := publish_telemetry telemetry in
  mret_ ().

Definition fanout_metrics (prefix : string) (f : Fanout) (wk : Worker) : Worker :=
  let r := fo_result f in
  meter (observe "pulsegrid_worker_broadcast_duration_seconds" (as_secs_f64 (fo_duration f)))
    (meter (vec_add "pulsegrid_worker_alerts_filtered_out_total" prefix (br_filtered_out r))
    (meter (vec_add "pulsegrid_worker_alerts_dropped_total" prefix (br_dropped r))
    (meter (vec_add "pulsegrid_worker_alerts_delivered_total" prefix (br_delivered r)) wk))).

Definition on_alert (wk : Worker) (prefix : string) (payload : Bytes) (elapsed : Z) : M Worker :=
  let wk1 := meter (vec_add "pulsegrid_worker_alerts_received_total" prefix 1) wk in
  match fanout (wk_registry wk1) prefix payload elapsed with
  | (registry, None) =>
    mret_ (meter (counter_add "pulsegrid_worker_alerts_invalid_total" 1) (set_registry registry wk1))
  | (registry, Some f) =>
    let wk2 := fanout_metrics prefix f (set_registry registry wk1) in
    let! _ := report_fanout (wk_config wk2) prefix f in
    mret_ wk2
  end.

(** ** Control messages (control.rs) *)

Inductive Handled : Type := HIgnored | HLocationApplied | HForwarded | HNotConnectedHere.

Definition Handled_label (h : Handled) : string :=
  match h with
  | HIgnored => "ignored"
  | HLocationApplied => "location_applied"
  | HForwarded => "forwarded"
  | HNotConnectedHere => "not_connected_here"
  end.

Definition handle_control (registry : ConnectionRegistry) (subject : string) (payload : Bytes)
    : ConnectionRegistry * Handled :=
  match device_id_from_control_subject subject with
  | None => (registry, HIgnored)
  | Some device_id =>
    match parse_server_message payload with
    | None => (registry, HIgnored)
    | Some message =>
      match message with
      | LocationUpdated la lo =>
        match Location_new la lo with
        | Ok location =>
          let '(registry', updated) :=
            ConnectionRegistry_update_location registry device_id location in
          (registry', if updated then HLocationApplied else HNotConnectedHere)
        | Err _ => (registry, HIgnored)
        end
      | ShardChanged _ _ | Revoked =>
        let '(registry', sent) :=
          ConnectionRegistry_send_control registry device_id (server_message_json message) true in
        (registry', if sent then HForwarded else HNotConnectedHere)
      | ReplayComplete _ => (registry, HIgnored)
      end
    end
  end.

(** The body of the subscriber's inner loop. *)
Definition on_control (wk : Worker) (subject : string) (payload : Bytes) : Worker :=
  let '(registry, outcome) := handle_control (wk_registry wk) subject payload in
  meter (vec_add "pulsegrid_worker_control_messages_total" (Handled_label outcome) 1)
    (set_registry registry wk).

(** ** Subscriptions

    What the tasks of the worker's shards see: a subscription that starts, a
    message on it, its end, and a failed attempt. Between two of them the task
    sleeps. *)
Inductive ShardEvent : Type :=
| SubscriptionStarts
| SubscriptionMessage (payload : Bytes) (elapsed : Z)
| SubscriptionEnds
| SubscriptionFails.

(** One step of [run_shard] for a shard that is subscribed or not: whether it
    is afterwards, and the worker; [None] if the task is not waiting for it. *)
Definition run_shard_step (prefix : string) (up : bool) (wk : Worker) (ev : ShardEvent)
    : option (bool * M Worker) :=
  match up, ev with
  | false, SubscriptionStarts => Some (true, mret_ (Health_subscription_up wk))
  | false, SubscriptionFails => Some (false, mret_ wk)
  | true, SubscriptionMessage payload elapsed => Some (true, on_alert wk prefix payload elapsed)
  | true, SubscriptionEnds => Some (false, mret_ (Health_subscription_down wk))
  | _, _ => None
  end.

(** What the task of the control messages sees, which does not report to the
    health of the worker. *)
Inductive ControlEvent : Type :=
| ControlStarts
| ControlMessage (subject : string) (payload : Bytes)
| ControlEnds
| ControlFails.

Definition control_subscriber_step (up : bool) (wk : Worker) (ev : ControlEvent) : option (bool * Worker) :=
  match up, ev with
  | false, ControlStarts => Some (true, wk)
  | false, ControlFails => Some (false, wk)
  | true, ControlMessage subject payload => Some (true, on_control wk subject payload)
  | true, ControlEnds => Some (false, wk)
  | _, _ => None
  end.

(** One task per owned shard and the task of the control messages, interleaved:
    the subscribed shards, whether control messages are subscribed to, the worker
    and the world. *)
Inductive fanout_step : gset string * bool * Worker * World → gset string * bool * Worker * World → Prop :=
| step_shard p s ctl wk w ev up m wk' w' :
    p ∈ wc_owned_prefixes (wk_config wk) →
    run_shard_step p (bool_decide (p ∈ s)) wk ev = Some (up, m) →
    m w = (wk', w') →
    fanout_step (s, ctl, wk, w) (if up then {[p]} ∪ s else s ∖ {[p]}, ctl, wk', w')
| step_control s ctl wk w ev ctl' wk' :
    control_subscriber_step ctl wk ev = Some (ctl', wk') →
    fanout_step (s, ctl, wk, w) (s, ctl', wk', w).
End Fanout.

(** ** Theorems *)

Section FanoutTheorems.
Context {L : Libm} {MO : MapOrder Uuid nat} {W : Wire} {UC : UuidCodec}.

(** The worker's side of [on_alert]. *)
Definition on_alert_worker (wk : Worker) (prefix : string) (payload : Bytes) (elapsed : Z) : Worker :=
  let wk1 := meter (vec_add "pulsegrid_worker_alerts_received_total" prefix 1) wk in
  match fanout (wk_registry wk1) prefix payload elapsed with
  | (registry, None) =>
    meter (counter_add "pulsegrid_worker_alerts_invalid_total" 1) (set_registry registry wk1)
  | (registry, Some f) => fanout_metrics prefix f (set_registry registry wk1)
  end.

Lemma on_alert_fst {R : RedisServer} {E : Env} wk prefix payload elapsed w :
  (on_alert wk prefix payload elapsed w).1 = on_alert_worker wk prefix payload elapsed.
Proof.
  unfold on_alert, on_alert_worker. destruct (fanout _ _ _ _) as [reg [f|]]; [|done].
  rewrite mbind_run. done.
Qed.

Lemma on_alert_worker_frame wk prefix payload elapsed :
  let wk' := on_alert_worker wk prefix payload elapsed in
  wk_config wk' = wk_config wk ∧ wk_subscriptions_up wk' = wk_subscriptions_up wk ∧
  wk_expected_subscriptions wk' = wk_expected_subscriptions wk ∧
  wk_lease_healthy wk' = wk_lease_healthy wk.
Proof. unfold on_alert_worker. by destruct (fanout _ _ _ _) as [reg [f|]]. Qed.

(** Fanout never depends on the reporting backends. Whatever Redis and NATS
    do, for any two environments and worlds, an alert message leaves the worker
    with the same registry and the same metrics; a message that is not an alert
    touches no socket and reports nothing. *)
Theorem fanout_independent_of_backends {R R' : RedisServer} {E E' : Env} wk prefix payload elapsed
    (w : @World R) (w' : @World R') :
  (@on_alert _ _ _ R E _ wk prefix payload elapsed w).1
    = (@on_alert _ _ _ R' E' _ wk prefix payload elapsed w').1 ∧
  (parse_alert payload = None →
     wk_registry (on_alert (E := E) wk prefix payload elapsed w).1 = wk_registry wk ∧
     (on_alert (E := E) wk prefix payload elapsed w).2 = w).
Proof.
  split; [by rewrite !on_alert_fst|]. intros Hp. rewrite on_alert_fst.
  unfold on_alert_worker, on_alert, fanout. by rewrite Hp.
Qed.

(** The vector metrics of the fanout path are there. *)
Definition fanout_metrics_ok (r : MetricRegistry) : Prop :=
  ∀ n, n ∈ ["pulsegrid_worker_alerts_received_total"; "pulsegrid_worker_alerts_delivered_total";
            "pulsegrid_worker_alerts_dropped_total"; "pulsegrid_worker_alerts_filtered_out_total"] →
    ∃ v, find_metric n r = Some (CVec v).

(** What a successful fanout did, in terms of the abstract registry. *)
Lemma on_alert_broadcast wk prefix payload a elapsed :
  coherent (wk_registry wk) → parse_alert payload = Some a →
  let wk' := on_alert_worker wk prefix payload elapsed in
  let st' := spec_op (abs (wk_registry wk)) (OpBroadcast prefix a payload) in
  coherent (wk_registry wk') ∧ abs (wk_registry wk') = st'.1 ∧
  ∃ r, st'.2 = OutBroadcast r ∧
    wk_metrics wk' = wk_metrics
      (fanout_metrics prefix (MkFanout a r elapsed)
         (meter (vec_add "pulsegrid_worker_alerts_received_total" prefix 1) wk)).
Proof.
  intros Hc Hparse wk' st'. destruct (refines_broadcast _ prefix a payload Hc) as [Hc' Hs].
  unfold wk', st', on_alert_worker, fanout. rewrite Hparse.
  cbn [meter wk_registry]. cbn [apply_op] in Hc', Hs.
  destruct (ConnectionRegistry_broadcast_to_shard _ _ _ _) as [reg r]. cbn [fst snd] in *.
  rewrite Hs. eauto.
Qed.

(** C6: An alert reaches the right sockets and is accounted for. On a coherent
    registry, a payload received on a shard's subject that reads as an alert is
    queued, byte for byte, at the end of every connection of that shard that is
    inside the circle the worker read and has room; every other connection is left
    as it was; and the shard's counters grow by exactly the numbers of connections
    delivered to, without room, and outside the circle. *)
Theorem alert_reaches_sockets {R : RedisServer} {E : Env} wk prefix payload a elapsed w wk' w' :
  coherent (wk_registry wk) → parse_alert payload = Some a → fanout_metrics_ok (wk_metrics wk) →
  on_alert wk prefix payload elapsed w = (wk', w') →
  let conns := sp_conns (abs (wk_registry wk)) in
  let count P := Z.of_nat (map_count (λ c, on_shard prefix c && P a c) conns) in
  let total n := vec_total n prefix (wk_metrics wk) in
  let total' n := vec_total n prefix (wk_metrics wk') in
  coherent (wk_registry wk') ∧
  (∀ d c, conns !! d = Some c →
     sp_conns (abs (wk_registry wk')) !! d =
       Some (if on_shard prefix c && is_delivered a c
             then (try_send c (OAlert payload)).1 else c)) ∧
  total' "pulsegrid_worker_alerts_received_total"
    = u64_wrap (total "pulsegrid_worker_alerts_received_total" + 1) ∧
  total' "pulsegrid_worker_alerts_delivered_total"
    = u64_wrap (total "pulsegrid_worker_alerts_delivered_total" + count is_delivered) ∧
  total' "pulsegrid_worker_alerts_dropped_total"
    = u64_wrap (total "pulsegrid_worker_alerts_dropped_total" + count is_dropped) ∧
  total' "pulsegrid_worker_alerts_filtered_out_total"
    = u64_wrap (total "pulsegrid_worker_alerts_filtered_out_total" + count is_filtered).
Proof.
  intros Hc Hparse Hm Ho conns count total total'.
  assert (wk' = on_alert_worker wk prefix payload elapsed) as ->
    by (by rewrite <- (on_alert_fst (E := E) _ _ _ _ w), Ho).
  destruct (on_alert_broadcast wk prefix payload a elapsed Hc Hparse) as (Hc' & Habs & r & Hr & Hmet).
  injection Hr as <-. split; [done|]. split.
  { intros d c Hd. rewrite Habs. cbn [spec_op fst sp_conns]. rewrite lookup_fmap.
    unfold conns in Hd. rewrite Hd. simpl. f_equal. unfold deliver, is_delivered.
    destruct (on_shard prefix c); [|done]. destruct (Alert_contains a _); [|done]. simpl.
    destruct (accepts c) eqn:Ha; [done|]. by rewrite try_send_refused. }
  unfold total', total. rewrite Hmet. unfold fanout_metrics, vec_add, observe, vec_total.
  cbn [wk_metrics meter fo_result br_filtered_out br_dropped br_delivered fo_duration].
  split_and!; rewrite ?find_update_other by done; rewrite find_update_same;
    rewrite ?find_update_other by done;
    match goal with |- context [find_metric ?n (wk_metrics wk)] =>
         destruct (Hm n) as [v ->]; [set_solver|] end;
    unfold CounterVec_get, CounterVec_add; simpl; by rewrite lookup_insert_eq.
Qed.

(** *** Control messages *)

(** The effect of a control message on the abstract registry. *)
Definition control_spec (conns : gmap Uuid Connection) (d : Uuid) (m : ServerMessage)
    : gmap Uuid Connection * Handled :=
  match conns !! d with
  | None =>
    (conns, match m with
            | ReplayComplete _ => HIgnored
            | LocationUpdated la lo => if is_ok (Location_new la lo) then HNotConnectedHere else HIgnored
            | _ => HNotConnectedHere
            end)
  | Some c =>
    match m with
    | ReplayComplete _ => (conns, HIgnored)
    | LocationUpdated la lo =>
      match Location_new la lo with
      | Ok loc => (<[d := set_location loc c]> conns, HLocationApplied)
      | Err _ => (conns, HIgnored)
      end
    | _ =>
      (if accepts c
       then <[d := (try_send c (OControl (server_message_json m) true)).1]> conns
       else delete d conns, HForwarded)
    end
  end.

Lemma handle_forward reg d text :
  coherent reg →
  let '(reg', sent) := ConnectionRegistry_send_control reg d text true in
  coherent reg' ∧
  match sp_conns (abs reg) !! d with
  | None => sent = false ∧ abs reg' = abs reg
  | Some c => sent = true ∧ sp_conns (abs reg') =
      (if accepts c then <[d := (try_send c (OControl text true)).1]> (sp_conns (abs reg))
       else delete d (sp_conns (abs reg)))
  end.
Proof.
  intros Hc. destruct (refines_send_control reg d text true Hc) as [Hc' Hs].
  cbn [apply_op spec_op] in Hc', Hs.
  destruct (ConnectionRegistry_send_control reg d text true) as [reg' sent]. split; [done|].
  destruct (sp_conns (abs reg) !! d) as [c|] eqn:Hd; cbn [fst snd] in Hs.
  - destruct (accepts c).
    + pose proof (f_equal (sp_conns ∘ fst) Hs) as H1. pose proof (f_equal snd Hs) as H2.
      injection H2 as <-. done.
    + pose proof (f_equal (sp_conns ∘ fst) Hs) as H1. pose proof (f_equal snd Hs) as H2.
      injection H2 as <-. done.
  - injection Hs as H1 H2 <-. split; [done|]. by apply spec_ext.
Qed.

Lemma handle_location reg d loc :
  coherent reg →
  let '(reg', updated) := ConnectionRegistry_update_location reg d loc in
  coherent reg' ∧ sp_conns (abs reg') = alter (set_location loc) d (sp_conns (abs reg)) ∧
  updated = bool_decide (is_Some (sp_conns (abs reg) !! d)).
Proof.
  intros Hc. destruct (refines_update_location reg d loc Hc) as [Hc' Hs].
  cbn [apply_op spec_op] in Hc', Hs.
  destruct (ConnectionRegistry_update_location reg d loc) as [reg' b]. split; [done|].
  pose proof (f_equal (sp_conns ∘ fst) Hs) as H1. pose proof (f_equal snd Hs) as H2.
  injection H2 as <-. done.
Qed.

(** Control messages act on the addressed device only. On a coherent
    registry, a payload on a device's control subject that reads as a message has
    exactly the specified effect: a shard change or a revocation is queued with the order to
    close (or, if its queue has no room, the device is dropped from the
    registry), a valid position replaces the stored one, and anything else
    changes nothing. Every other device keeps its connection. *)
Theorem control_message_effect `{!UuidCodecLaws UC} reg d payload m :
  coherent reg → parse_server_message payload = Some m →
  let '(reg', handled) := handle_control reg (control_subject d) payload in
  coherent reg' ∧ (sp_conns (abs reg'), handled) = control_spec (sp_conns (abs reg)) d m ∧
  (∀ d', d' ≠ d → sp_conns (abs reg') !! d' = sp_conns (abs reg) !! d').
Proof.
  intros Hc Hparse.
  assert (Heff : let '(reg', handled) := handle_control reg (control_subject d) payload in
    coherent reg' ∧ (sp_conns (abs reg'), handled) = control_spec (sp_conns (abs reg)) d m).
  { unfold handle_control. rewrite device_id_of_control_subject, Hparse.
    unfold control_spec. destruct m as [p u| |la lo|n].
    - pose proof (handle_forward reg d (server_message_json (ShardChanged p u)) Hc) as Hf.
      destruct (ConnectionRegistry_send_control _ _ _ _) as [reg' sent].
      destruct Hf as [? Hf]. split; [done|].
      destruct (sp_conns (abs reg) !! d); destruct Hf as [-> Hf]; by rewrite Hf.
    - pose proof (handle_forward reg d (server_message_json Revoked) Hc) as Hf.
      destruct (ConnectionRegistry_send_control _ _ _ _) as [reg' sent].
      destruct Hf as [? Hf]. split; [done|].
      destruct (sp_conns (abs reg) !! d); destruct Hf as [-> Hf]; by rewrite Hf.
    - destruct (Location_new la lo) as [loc|]; [|split; [done|by destruct (_ !! d)]].
      pose proof (handle_location reg d loc Hc) as Hl.
      destruct (ConnectionRegistry_update_location _ _ _) as [reg' b].
      destruct Hl as (? & Hl & ->). split; [done|]. rewrite Hl.
      destruct (sp_conns (abs reg) !! d) as [c|] eqn:Hd.
      + rewrite bool_decide_eq_true_2 by eauto. by rewrite (alter_as_insert _ _ _ c).
      + rewrite bool_decide_eq_false_2 by (by intros []). by rewrite alter_missing.
    - split; [done|]. by destruct (_ !! d). }
  destruct (handle_control _ _ _) as [reg' h]. destruct Heff as [? Heff]. split_and!; [done..|].
  intros d' Hne. apply (f_equal fst) in Heff. cbn [fst] in Heff. rewrite Heff.
  unfold control_spec. repeat case_match; cbn [fst]; rewrite ?lookup_insert_ne, ?lookup_delete_ne by done; done.
Qed.
End FanoutTheorems.

(** *** Readiness *)

Section Readiness.
Context {L : Libm} {MO : MapOrder Uuid nat} {W : Wire} {UC : UuidCodec}.
Context {R : RedisServer} {E : Env}.

(** The counter is the number of live subscriptions, all of owned shards. *)
Definition subs_inv (config : WorkerConfig) (st : gset string * bool * Worker * @World R) : Prop :=
  let '(s, _, wk, _) := st in
  wk_config wk = config ∧ s ⊆ list_to_set (wc_owned_prefixes config) ∧
  wk_subscriptions_up wk = Z.of_nat (size s) ∧
  wk_expected_subscriptions wk = Z.of_nat (length (wc_owned_prefixes config)).

Lemma owned_size config (s : gset string) :
  s ⊆ list_to_set (wc_owned_prefixes config) → (size s ≤ length (wc_owned_prefixes config))%nat.
Proof.
  intros Hs. etrans; [by apply subseteq_size|]. clear.
  induction (wc_owned_prefixes config) as [|p l IH]; [by rewrite list_to_set_nil, size_empty|].
  rewrite list_to_set_cons, length_cons, size_union_alt, size_singleton.
  pose proof (subseteq_size (list_to_set l ∖ {[p]}) (list_to_set l : gset string) ltac:(set_solver)).
  lia.
Qed.

Lemma subs_inv_step config st st' :
  Z.of_nat (length (wc_owned_prefixes config)) < 2 ^ 64 →
  subs_inv config st → fanout_step st st' → subs_inv config st'.
Proof.
  intros Hlen Hinv Hst. destruct Hst as [p s ctl wk w ev up m wk' w' Hp Hstep Hm|s ctl wk w ev ctl' wk' Hstep].
  - destruct Hinv as (Hc & Hs & Hup & Hex). rewrite Hc in Hp.
    pose proof (owned_size _ _ Hs).
    destruct (bool_decide_reflect (p ∈ s)) as [Hin|Hnin], ev as [|pl el| |]; simplify_eq/=;
      unfold mret_ in Hm; simplify_eq/=.
    + assert (wk' = on_alert_worker wk p pl el) as ->
        by (by rewrite <- (on_alert_fst (E := E) _ _ _ _ w), Hm).
      destruct (on_alert_worker_frame wk p pl el) as (Hc' & Hu' & He' & _).
      assert ({[p]} ∪ s = s) as -> by set_solver. split_and!; congruence || done.
    + split_and!; [done|set_solver| |done]. simpl. rewrite Hup.
      rewrite size_difference by set_solver. rewrite size_singleton.
      assert (size s ≠ 0%nat) by (intros H0%size_empty_inv; set_solver).
      rewrite u64_wrap_small; lia.
    + split_and!; [done|set_solver| |done]. simpl. rewrite Hup.
      assert (size ({[p]} ∪ s) = S (size s)) as Hsz by (rewrite size_union by set_solver; by rewrite size_singleton).
      assert (({[p]} ∪ s) ⊆ (list_to_set (wc_owned_prefixes (wk_config wk)) : gset string)) as Hsub by set_solver.
      apply owned_size in Hsub. rewrite u64_wrap_small; lia.
    + assert (s ∖ {[p]} = s) as -> by set_solver. done.
  - unfold control_subscriber_step, on_control in Hstep. destruct Hinv as (?&?&?&?).
    destruct ctl, ev; simplify_eq/=; try done. by destruct (handle_control _ _ _).
Qed.

(** A worker that reports its subscriptions as complete is subscribed to
    every shard it owns. Through any interleaving of the shard tasks
    (subscribing, messages, subscriptions that end or fail) and the task of the
    control messages, the health counter never over- or underflows and the
    readiness check passes exactly when no owned shard is without a subscription.
    It says nothing on control messages: [ctl] may be anything. *)
Theorem ready_iff_subscribed config s ctl wk (w : @World R) wk0 (w0 : @World R) nats :
  NoDup (wc_owned_prefixes config) → Z.of_nat (length (wc_owned_prefixes config)) < 2 ^ 64 →
  wk_config wk0 = config → wk_subscriptions_up wk0 = 0 →
  wk_expected_subscriptions wk0 = Z.of_nat (length (wc_owned_prefixes config)) →
  rtc fanout_step (∅, false, wk0, w0) (s, ctl, wk, w) →
  rr_subscriptions (worker_ready nats wk w).1 = true ↔
  ∀ p, p ∈ wc_owned_prefixes config → p ∈ s.
Proof.
  intros Hnd Hlen Hc H0 Hex Hr.
  assert (subs_inv config (s, ctl, wk, w)) as (Hc' & Hs & Hup & Hex').
  { assert (Hi : subs_inv config (∅, false, wk0, w0)) by (by split_and!; [|set_solver|rewrite size_empty|]).
    clear -Hi Hr Hlen. induction Hr as [|x y z Hxy _ IH]; [done|]. apply IH. by eapply subs_inv_step. }
  unfold worker_ready. rewrite mbind_run. cbn [mret_ fst rr_subscriptions].
  rewrite Hup, Hex', Z.leb_le.
  assert (Hsz : size (list_to_set (wc_owned_prefixes config) : gset string)
                = length (wc_owned_prefixes config)) by (by apply size_list_to_set).
  rewrite <- Hsz. split.
  - intros Hle p Hp. assert (s = list_to_set (wc_owned_prefixes config)) as ->; [|by apply elem_of_list_to_set].
    apply set_subseteq_size_eq; [done|lia].
  - intros Hall. apply inj_le, subseteq_size. intros p Hp%elem_of_list_to_set. auto.
Qed.
End Readiness.

(** ** Witnesses *)

Definition fanout_worker : Worker :=
  set_registry toy_registry
    (MkWorker sample_worker_config ConnectionRegistry_new worker_metrics_at_start 0 2 true).

Lemma fanout_worker_metrics : fanout_metrics_ok (wk_metrics fanout_worker).
Proof.
  intros n. rewrite !elem_of_cons, elem_of_nil.
  intros [-> | [-> | [-> | [-> | []]]]]; eexists; vm_compute; reflexivity.
Qed.

(** The circle of the sample alert contains one of the two devices of its
    shard. *)
Lemma alert_reaches_sockets_witness :
  ∃ wk' w',
    @on_alert toy_libm toy_map_order plain_wire map_redis minutes_env binary_uuids fanout_worker
      "u4pr" (@alert_json plain_wire toy_alert) 1500 sample_world = (wk', w') ∧
    vec_total "pulsegrid_worker_alerts_delivered_total" "u4pr" (wk_metrics wk') = 1.
Proof.
  destruct (@on_alert toy_libm toy_map_order plain_wire map_redis minutes_env binary_uuids
    fanout_worker "u4pr" (@alert_json plain_wire toy_alert) 1500 sample_world) as [wk' w'] eqn:Ho.
  exists wk', w'. split; [done|].
  destruct (@alert_reaches_sockets toy_libm toy_map_order plain_wire binary_uuids
    map_redis minutes_env fanout_worker "u4pr" (@alert_json plain_wire toy_alert) toy_alert 1500
    sample_world wk' w') as (_ & _ & _ & Hd & _);
    [exact toy_registry_coherent|by rewrite (@parse_alert_json _ plain_wire_laws)|
     exact fanout_worker_metrics|exact Ho|].
  rewrite Hd. vm_compute. reflexivity.
Defined.

Lemma fanout_independent_of_backends_witness :
  wk_registry (@on_alert toy_libm toy_map_order plain_wire map_redis minutes_env binary_uuids
    fanout_worker "u4pr" "x" 1500 sample_world).1 = toy_registry.
Proof.
  apply (@fanout_independent_of_backends toy_libm toy_map_order plain_wire binary_uuids map_redis
    map_redis minutes_env minutes_env fanout_worker "u4pr" "x" 1500 sample_world sample_world).
  reflexivity.
Defined.

Lemma control_message_effect_witness :
  coherent (@handle_control plain_wire binary_uuids toy_registry
    (@control_subject binary_uuids (uuid_of_N 1)) (@server_message_json plain_wire Revoked)).1.
Proof.
  pose proof (@control_message_effect toy_libm toy_map_order plain_wire binary_uuids binary_uuids_laws toy_registry (uuid_of_N 1)
    (@server_message_json plain_wire Revoked) Revoked toy_registry_coherent
    (@parse_server_message_json _ plain_wire_laws Revoked)) as H.
  destruct (handle_control _ _ _) as [reg' h]. apply H.
Defined.

Lemma ready_iff_subscribed_witness :
  rr_subscriptions (@worker_ready map_redis minutes_env true fanout_worker sample_world).1 = true ↔
  ∀ p, p ∈ ["tkrt"; "tkrw"] → p ∈ (∅ : gset string).
Proof.
  apply (@ready_iff_subscribed toy_libm toy_map_order plain_wire binary_uuids map_redis minutes_env
    sample_worker_config ∅ false fanout_worker sample_world fanout_worker sample_world true).
  - apply (bool_decide_unpack (NoDup ["tkrt"; "tkrw"])). vm_compute. exact I.
  - vm_compute. reflexivity.
  - reflexivity.
  - reflexivity.
  - reflexivity.
  - apply rtc_refl.
Defined.
