(* ===== verification/Ws.v ===== *)
(** * WebSocket connections

    crates/fanout-worker/src/ws.rs: who may connect, what happens when a socket
    opens, the writer, reader and heartbeat tasks, and the clean-up when the
    socket ends, each in one piece; [Session] lets them interleave. *)

From S2P Require Import Prelude F64 Str Errors Metrics Geo Domain Auth Configs Registry Redis World.
From S2P Require Import Stores Lease Nats Worker Replay Fanout.

Open Scope Z_scope.

Definition PING_INTERVAL : Z := seconds 25.
Definition SEND_TIMEOUT : Z := seconds 10.
Definition HEARTBEAT_INTERVAL : Z := seconds 20.
Definition IDLE_TIMEOUT_MS : Z := 90 * 1000.

(** ** Authorization *)

Record ConnectParams : Type := MkParams { cp_ticket : string; cp_shard_prefix : option string }.

Record Rejection : Type := MkRejection {
  rj_status : Z; rj_reason : string; rj_message : string; rj_ws_url : option string;
}.

Definition Rejection_new (status : Z) (reason message : string) : Rejection :=
  MkRejection status reason message None.

(** The status and the JSON fields of the answer. *)
Definition Rejection_into_response (r : Rejection) : Z * list (string * option string) :=
  (rj_status r, [("error", Some (rj_message r)); ("reason", Some (rj_reason r));
                 ("ws_url", rj_ws_url r)]).

Record Authorized : Type := MkAuthorized { au_shard_prefix : string; au_location : Location }.

Definition unavailable : Rejection :=
  Rejection_new 503 "backend_unavailable" "authentication backend unavailable".

Section Ws.
Context {R : RedisServer} {E : Env} {UC : UuidCodec} {LC : LocRecordCodec} {F : Rfc3339} {W : Wire}.

(** [m.map_err(..)?] with the one answer for an unavailable store. *)
Definition or_unavailable {A B} (m : MR A) (k : A → M (result B Rejection)) : M (result B Rejection) :=
  mbind_ m (λ r, match r with Ok a => k a | Err _ => mret_ (Err unavailable) end).

Definition authorize (wk : Worker) (device_id : Uuid) (params : ConnectParams)
    : M (result Authorized Rejection) :=
  or_unavailable (WsTicketStore_consume (cp_ticket params)) (λ consumed,
  match consumed with
  | None =>
    mret_ (Err (Rejection_new 401 "invalid_ticket" "the ticket is invalid, expired or already used"))
  | Some ticket_device =>
    if negb (bool_decide (ticket_device = device_id)) then
      mret_ (Err (Rejection_new 403 "ticket_device_mismatch"
                    "the ticket was issued for a different device"))
    else
    or_unavailable (RevocationStore_is_revoked device_id) (λ revoked,
    if (revoked : bool) then mret_ (Err (Rejection_new 401 "revoked" "this device has been revoked"))
    else
    or_unavailable (DeviceLocationStore_get device_id) (λ found,
    match found with
    | None =>
      mret_ (Err (Rejection_new 409 "location_unknown"
                    "the device's location is not known; request a new ticket"))
    | Some record =>
      match DeviceLocationRecord_location record with
      | Err _ =>
        mret_ (Err (Rejection_new 409 "location_unknown"
                      "the device's stored location is invalid; request a new ticket"))
      | Ok location =>
        let shard := lr_shard_prefix record in
        if negb (owned wk shard) then
          let! url := ShardRegistry_lookup_shard shard in
          mret_ (Err (MkRejection 421 "wrong_shard"
            ("this worker does not own shard " +:+ shard +:+ "; connect to the worker that does")
            (match url with Ok u => u | Err _ => None end)))
        else if match cp_shard_prefix params with
                | Some claimed => negb (bool_decide (claimed = shard))
                | None => false
                end then
          mret_ (Err (Rejection_new 421 "stale_shard_hint"
            ("the device is in shard " +:+ shard +:+ ", not " +:+
             default "" (cp_shard_prefix params) +:+ "; request a new ticket")))
        else mret_ (Ok (MkAuthorized shard location))
      end
    end))
  end).

(** An accepted request is upgraded; a refused one is counted and answered. *)
Definition ws_upgrade_handler (wk : Worker) (device_id : Uuid) (params : ConnectParams)
    : M (Worker * result Authorized Rejection) :=
  let! r := authorize wk device_id params in
  mret_ match r with
        | Ok auth => (wk, Ok auth)
        | Err rejection =>
          (meter (vec_add "pulsegrid_ws_rejects_total" (rj_reason rejection) 1) wk, Err rejection)
        end.

(** ** Acknowledgements *)

(** A failure is only logged. *)
Definition write_cursor (device_id : Uuid) (cursor : DateTime) : M unit :=
  let! _ := AckCursorStore_advance device_id cursor ACK_CURSOR_TTL_SECS in mret_ ().

(** [mono] is the reading of the monotonic clock. *)
Definition on_client_text (wk : Worker) (device_id : Uuid) (batcher : AckBatcher) (text : string)
    (mono : Z) : M (Worker * AckBatcher) :=
  match parse_client_message text with
  | None => mret_ (meter (counter_add "pulsegrid_worker_bad_client_messages_total" 1) wk, batcher)
  | Some (Ack _ created_at) =>
    let! wall := utc_now in
    let '(batcher', outcome) := AckBatcher_offer batcher created_at wall mono in
    match outcome with
    | AckIgnored => mret_ (meter (counter_add "pulsegrid_worker_acks_ignored_total" 1) wk, batcher')
    | AckBuffered => mret_ (meter (counter_add "pulsegrid_worker_acks_total" 1) wk, batcher')
    | AckWrite cursor =>
      let! _ := write_cursor device_id cursor in
      mret_ (meter (counter_add "pulsegrid_worker_acks_total" 1) wk, batcher')
    end
  end.

(** ** The tasks of a socket *)

(** Frames, and what the writer waits for. *)
Inductive Frame : Type := FBinary (b : Bytes) | FText (t : string) | FPing | FClose.
Inductive WriterEvent : Type := WShutdown | WRecv (o : option Outbound) | WPing.

(** One round of the writer's loop: the frames it tries to send and whether it
    goes on. [sent] says whether the first of them was taken in time. *)
Definition writer_step (ev : WriterEvent) (sent : bool) : list Frame * bool :=
  match ev with
  | WShutdown => ([FClose], false)
  | WRecv None => ([], false)
  | WRecv (Some (OAlert payload)) => ([FBinary payload], sent)
  | WRecv (Some (OControl text close)) =>
    if close || negb sent then ([FText text; FClose], false) else ([FText text], true)
  | WRecv (Some OClose) => ([FClose], false)
  | WPing => ([FPing], sent)
  end.

(** The frames of a whole run and whether the writer ended by itself. *)
Fixpoint run_writer (evs : list (WriterEvent * bool)) : list Frame * bool :=
  match evs with
  | [] => ([], false)
  | (ev, sent) :: evs =>
    let '(fs, go) := writer_step ev sent in
    if go then let '(rest, ended) := run_writer evs in (fs ++ rest, ended) else (fs, true)
  end.

(** The reader: a frame from the client, or an error; [None] ends the loop. *)
Inductive ClientFrame : Type := CText (text : string) | CClose | COther | CError.

Record SocketState : Type := MkSocket { so_last_activity : Z; so_batcher : AckBatcher }.

Definition reader_step (wk : Worker) (device_id : Uuid) (so : SocketState) (frame : ClientFrame)
    (now_ms mono : Z) : M (Worker * option SocketState) :=
  match frame with
  | CClose | CError => mret_ (wk, None)
  | CText text =>
    let! (wk', b) := on_client_text wk device_id (so_batcher so) text mono in
    mret_ (wk', Some (MkSocket now_ms b))
  | COther => mret_ (wk, Some (MkSocket now_ms (so_batcher so)))
  end.

(** A tick of the heartbeat: [false] closes a silent connection. *)
Definition heartbeat_step (device_id : Uuid) (so : SocketState) (now_ms : Z) : M bool :=
  let idle := saturating_sub now_ms (so_last_activity so) in
  if IDLE_TIMEOUT_MS <? idle then mret_ false
  else let! _ := PresenceRegistry_heartbeat (uuid_to_string device_id) in mret_ true.

(** ** Opening and closing a socket *)

Record OpenSocket : Type := MkOpen {
  os_conn_id : Z; os_receiver : nat; os_connected_at : DateTime; os_replay_sender : option nat;
  os_socket : SocketState;
}.

Definition socket_open (wk : Worker) (device_id : Uuid) (auth : Authorized) (now_ms : Z)
    : M (Worker * OpenSocket) :=
  let '(registry, rg) := ConnectionRegistry_register (wk_registry wk) device_id
                           (au_shard_prefix auth) (au_location auth) in
  let wk1 := set_registry registry wk in
  let! connected_at := utc_now in
  let wk2 := meter (gauge_add "pulsegrid_ws_connections_current" 1)
               (meter (counter_add "pulsegrid_ws_connects_total" 1) wk1) in
  let! _ := PresenceRegistry_register (uuid_to_string device_id) (wc_instance_id (wk_config wk2)) in
  mret_ (wk2, MkOpen (rg_conn_id rg) (rg_receiver rg) connected_at
                (ConnectionRegistry_sender_for (wk_registry wk2) device_id (rg_conn_id rg))
                (MkSocket now_ms (AckBatcher_new ACK_MIN_INTERVAL))).

(** Whether the presence record still names this worker. *)
Definition presence_is_ours (wk : Worker) (device_id : Uuid) : M bool :=
  let! found := PresenceRegistry_lookup (uuid_to_string device_id) in
  mret_ match found with
        | Ok (Some owner) => bool_decide (owner = wc_instance_id (wk_config wk))
        | _ => false
        end.

(** What runs after the tasks have ended. *)
Definition socket_close (wk : Worker) (device_id : Uuid) (conn_id : Z) (batcher : AckBatcher)
    : M Worker :=
  let! _ := match (AckBatcher_take_pending batcher).2 with
            | Some cursor => write_cursor device_id cursor
            | None => mret_ ()
            end in
  let '(registry, was_current) := ConnectionRegistry_deregister (wk_registry wk) device_id conn_id in
  let wk1 := meter (gauge_add "pulsegrid_ws_connections_current" (-1)) (set_registry registry wk) in
  if (was_current : bool) then
    let! ours := presence_is_ours wk1 device_id in
    if (ours : bool) then
      let! _ := PresenceRegistry_deregister (uuid_to_string device_id) in mret_ wk1
    else mret_ wk1
  else mret_ wk1.
End Ws.

(** ** Lemmas *)

Section WsLemmas.
Context {R : RedisServer} {E : Env} {UC : UuidCodec} {LC : LocRecordCodec}.

Abbreviation at_ w := (env_clock (w_tick w)).

(** A read that answered: its value, and the world it leaves. *)
Lemma redis_read_Ok {A} (f : Z → rdb → A) w a w' :
  redis_read f w = (Ok a, w') → a = f (at_ w) (w_redis w) ∧ w' = tick w.
Proof.
  unfold redis_read, redis_call, call. destruct w. simpl.
  destruct (env_fault _); intros [= <- <-]; done.
Qed.

Lemma redis_read_world {A} (f : Z → rdb → A) w : (redis_read f w).2 = tick w.
Proof. unfold redis_read, redis_call, call. destruct w. simpl. by destruct (env_fault _). Qed.

Lemma consume_Ok ticket w d w' :
  WsTicketStore_consume ticket w = (Ok (Some d), w') →
  is_ticket_shaped ticket = true ∧
  (∃ s, cmd_get (at_ w) (WsTicketStore_key ticket) (w_redis w) = Some s ∧ uuid_parse_str s = Some d) ∧
  w_redis w' = (CONSUME_LUA (WsTicketStore_key ticket) (at_ w) (w_redis w)).2 ∧
  w_tick w' = S (w_tick w).
Proof.
  unfold WsTicketStore_consume. destruct (is_ticket_shaped ticket); [|done]. cbn [negb].
  rewrite mbind_ok_run.
  pose proof (redis_call_cases (CONSUME_LUA (WsTicketStore_key ticket)) w) as Hc.
  destruct (redis_call _ w) as [[raw|e] w1]; [|done]. destruct Hc as (_&_&_&Ht&Hr). cbn [fst snd mret_].
  intros [= Hd <-]. rewrite Hr. split_and!; [done| |done|done].
  unfold CONSUME_LUA in Hr. destruct (cmd_get _ _ _) as [s|]; injection Hr as <- _; [|done]. eauto.
Qed.

Lemma location_get_Ok d w rec w' :
  DeviceLocationStore_get d w = (Ok (Some rec), w') →
  (∃ s, cmd_get (at_ w) (DeviceLocationStore_key d) (w_redis w) = Some s ∧
     parse_loc_record s = Ok rec) ∧ w' = tick w.
Proof.
  unfold DeviceLocationStore_get. rewrite mbind_ok_run.
  destruct (redis_read _ w) as [[raw|e] w1] eqn:Hr; [|done]. apply redis_read_Ok in Hr as [-> ->].
  cbn [fst snd mret_]. destruct (cmd_get _ _ _) as [s|]; [|done].
  destruct (parse_loc_record s) as [r|] eqn:Hp; [|done]. simpl. intros [= <- <-]. eauto.
Qed.

Lemma or_unavailable_Ok {A B} (m : MR A) (k : A → M (result B Rejection)) w b w' :
  or_unavailable m k w = (Ok b, w') → ∃ a w1, m w = (Ok a, w1) ∧ k a w1 = (Ok b, w').
Proof.
  unfold or_unavailable. rewrite mbind_run. destruct (m w) as [[a|e] w1]; [|done]. eauto.
Qed.

(** What an accepted connection went through. *)
Lemma authorize_Ok wk d params w auth w' :
  authorize wk d params w = (Ok auth, w') →
  ∃ w1 rec, WsTicketStore_consume (cp_ticket params) w = (Ok (Some d), w1) ∧
    RevocationStore_is_revoked d w1 = (Ok false, tick w1) ∧
    DeviceLocationStore_get d (tick w1) = (Ok (Some rec), w') ∧ w' = tick (tick w1) ∧
    DeviceLocationRecord_location rec = Ok (au_location auth) ∧
    au_shard_prefix auth = lr_shard_prefix rec ∧ owned wk (lr_shard_prefix rec) = true ∧
    (cp_shard_prefix params = None ∨ cp_shard_prefix params = Some (lr_shard_prefix rec)).
Proof.
  unfold authorize. intros H. apply or_unavailable_Ok in H as (c & w1 & Hc & H).
  destruct c as [d'|]; [|done]. destruct (bool_decide_reflect (d' = d)) as [->|]; [|done]. cbn [negb] in H.
  apply or_unavailable_Ok in H as (rv & w2 & Hrv & H). destruct rv; [done|].
  pose proof (redis_read_Ok _ _ _ _ Hrv) as [_ ->].
  apply or_unavailable_Ok in H as (found & w3 & Hg & H). destruct found as [rec|]; [|done].
  pose proof (location_get_Ok _ _ _ _ Hg) as [_ ->].
  destruct (DeviceLocationRecord_location rec) as [loc|] eqn:Hl; [|done].
  destruct (owned wk (lr_shard_prefix rec)) eqn:Hown; cbn [negb] in H.
  2:{ rewrite mbind_run in H. done. }
  assert (Hhint : cp_shard_prefix params = None ∨ cp_shard_prefix params = Some (lr_shard_prefix rec)).
  { destruct (cp_shard_prefix params) as [c|]; [|by left]. right.
    destruct (bool_decide_reflect (c = lr_shard_prefix rec)); [by subst|done]. }
  destruct (cp_shard_prefix params) as [c|].
  - destruct (bool_decide_reflect (c = lr_shard_prefix rec)); [|done]. cbn [negb] in H.
    unfold mret_ in H. injection H as <- <-. eauto 12.
  - unfold mret_ in H. injection H as <- <-. eauto 12.
Qed.

(** Closes a branch that has returned. *)
Ltac fin := cbn; split_and!; [done|lia|done].

(** Whatever the outcome, authorization touches Redis through the ticket only. *)
Lemma authorize_world wk d params w :
  let '(y, w1) := WsTicketStore_consume (cp_ticket params) w in
  let '(x, w') := authorize wk d params w in
  w_redis w' = w_redis w1 ∧ (w_tick w1 ≤ w_tick w')%nat ∧
  (is_ok x = true → ticket_ok y).
Proof.
  unfold authorize, or_unavailable. rewrite mbind_run.
  destruct (WsTicketStore_consume _ w) as [[[d'|]|e] w1]; cbn [fst snd]; [|fin..].
  destruct (negb _); [fin|]. rewrite mbind_run. unfold RevocationStore_is_revoked.
  rewrite redis_read_world. destruct (redis_read _ w1).1 as [[|]|e]; [fin| |fin].
  rewrite mbind_run. assert (Hg : ∀ w, (DeviceLocationStore_get d w).2 = tick w).
  { intros w2. unfold DeviceLocationStore_get. rewrite mbind_ok_run.
    destruct (redis_read _ w2) as [[raw|e] w3] eqn:Hr;
      pose proof (redis_read_world (λ now, cmd_get now (DeviceLocationStore_key d)) w2) as Hw;
      rewrite Hr in Hw; by cbn in *. }
  rewrite Hg. destruct (DeviceLocationStore_get d (tick w1)).1 as [[rec|]|e]; [|fin..].
  destruct (DeviceLocationRecord_location rec); [|fin].
  destruct (negb (owned _ _)).
  - rewrite mbind_run. unfold ShardRegistry_lookup_shard. rewrite redis_read_world. fin.
  - destruct (cp_shard_prefix params); [destruct (negb _)|]; fin.
Qed.
End WsLemmas.

(** ** Theorems *)

Section WsTheorems.
Context {R : RedisServer} {view : Z → string → rdb → option entry} {RL : RedisLaws R view}.
Context {E : Env} {UC : UuidCodec} {UL : UuidCodecLaws UC} {LC : LocRecordCodec}.
Hypothesis clock_mono : clock_monotone.

Abbreviation at_ w := (env_clock (w_tick w)).

(** C16: A connection is accepted only with a live ticket for this device, which
    is used up; only while the device is not revoked; and its shard and position
    are those of the coordinator's record, the shard being one the worker owns
    and the one the client named, if it named one. *)
Theorem authorize_fail_closed wk d params w auth w' :
  authorize wk d params w = (Ok auth, w') →
  let r1 := (CONSUME_LUA (WsTicketStore_key (cp_ticket params)) (at_ w) (w_redis w)).2 in
  (∃ s, cmd_get (at_ w) (WsTicketStore_key (cp_ticket params)) (w_redis w) = Some s ∧
     uuid_parse_str s = Some d) ∧
  w_redis w' = r1 ∧
  cmd_exists (env_clock (S (w_tick w))) (RevocationStore_key d) r1 = false ∧
  (∃ s rec, cmd_get (env_clock (S (S (w_tick w)))) (DeviceLocationStore_key d) r1 = Some s ∧
     parse_loc_record s = Ok rec ∧ au_shard_prefix auth = lr_shard_prefix rec ∧
     Location_new (lr_lat rec) (lr_lon rec) = Ok (au_location auth)) ∧
  owned wk (au_shard_prefix auth) = true ∧
  (∀ hint, cp_shard_prefix params = Some hint → hint = au_shard_prefix auth).
Proof.
  intros (w1 & rec & Hc & Hrv & Hg & -> & Hl & Hsh & Hown & Hhint)%authorize_Ok.
  apply consume_Ok in Hc as (_ & Hs & Hr1 & Ht). cbn zeta. rewrite <- Hr1, <- Ht.
  apply redis_read_Ok in Hrv as [Hrv _]. apply location_get_Ok in Hg as [(s & Hgs & Hps) _].
  rewrite Hsh. split_and!; [done|done|done|by exists s, rec|done|].
  intros hint Hh. rewrite Hh in Hhint. destruct Hhint as [[=]|[= ->]]. done.
Qed.

(** The converse: a live ticket of a device with a live record is accepted. *)
Lemma authorize_accepts wk d ticket hint w s e js dl rec loc :
  (∀ n, env_fault n = Works) → is_ticket_shaped ticket = true →
  view (at_ w) (WsTicketStore_key ticket) (w_redis w) = Some (RStr s, e) →
  uuid_parse_str s = Some d →
  view (at_ w) (RevocationStore_key d) (w_redis w) = None →
  view (at_ w) (DeviceLocationStore_key d) (w_redis w) = Some (RStr js, Some dl) →
  env_clock (2 + w_tick w) < dl →
  parse_loc_record js = Ok rec → DeviceLocationRecord_location rec = Ok loc →
  owned wk (lr_shard_prefix rec) = true →
  hint = None ∨ hint = Some (lr_shard_prefix rec) →
  (authorize wk d (MkParams ticket hint) w).1 = Ok (MkAuthorized (lr_shard_prefix rec) loc).
Proof.
  intros Hf Hsh Vt Hs Vr Vl Hdl Hp Hloc Hown Hhint.
  set (r1 := (cmd_del (at_ w) (WsTicketStore_key ticket) (w_redis w)).2).
  assert (Hex : cmd_exists (env_clock (S (w_tick w))) (RevocationStore_key d) r1 = false).
  { rewrite exists_view. apply bool_decide_eq_false. rewrite (view_later (at_ w)) by apply clock_mono.
    unfold r1. rewrite view_del, decide_False, Vr by done. by intros []. }
  assert (Hget : cmd_get (env_clock (S (S (w_tick w)))) (DeviceLocationStore_key d) r1 = Some js).
  { apply (get_str _ _ _ _ (Some dl)). rewrite (view_later (at_ w)) by (apply clock_le; [done|lia]).
    unfold r1. rewrite view_del, decide_False, Vl by done. unfold expired. cbn [snd].
    by rewrite (proj2 (Z.leb_gt _ _)) by done. }
  unfold authorize, or_unavailable, WsTicketStore_consume. cbn [cp_ticket cp_shard_prefix].
  rewrite Hsh. cbn [negb]. repeat run_step. unfold CONSUME_LUA.
  rewrite (get_str (view := view) _ _ _ _ _ Vt). cbn [fst snd]. fold r1.
  cbn [mbind option_bind]. rewrite Hs, bool_decide_eq_true_2 by done. cbn [negb].
  unfold RevocationStore_is_revoked. repeat run_step. rewrite Hex.
  unfold DeviceLocationStore_get. repeat run_step. rewrite Hget, Hp. cbn [map_err result_map].
  rewrite Hloc, Hown. cbn [negb].
  destruct Hhint as [-> | ->]; [done|]. by rewrite bool_decide_eq_true_2.
Qed.

(** [n] attempts to connect with one ticket, by any devices. *)
Fixpoint connect_attempts (wk : Worker) (ticket : string) (who : list (Uuid * option string))
    : M (list (result Authorized Rejection)) :=
  match who with
  | [] => mret_ []
  | (d, hint) :: who =>
    let! x := authorize wk d (MkParams ticket hint) in
    let! xs := connect_attempts wk ticket who in
    mret_ (x :: xs)
  end.

Lemma ticket_later ticket (w w' : World) :
  w_redis w' = w_redis w → (w_tick w ≤ w_tick w')%nat →
  (str_at (view := view) (at_ w) (WsTicketStore_key ticket) (w_redis w) →
   str_at (view := view) (at_ w') (WsTicketStore_key ticket) (w_redis w')) ∧
  (ticket_gone (view := view) ticket w → ticket_gone (view := view) ticket w').
Proof.
  intros Hr Ht. apply (clock_le clock_mono) in Ht. unfold str_at, ticket_gone. rewrite Hr. split.
  - intros Hs e. rewrite (view_later (at_ w)) by done.
    destruct (view _ _ _) as [e'|] eqn:He; [|done]. destruct (expired _ e'); [done|].
    intros [= <-]. by apply Hs.
  - intros Hg. by rewrite (view_later (at_ w)), Hg.
Qed.

(** What one attempt leaves behind. *)
Lemma authorize_ticket wk d params w :
  let ticket := cp_ticket params in
  str_at (view := view) (at_ w) (WsTicketStore_key ticket) (w_redis w) →
  let '(x, w') := authorize wk d params w in
  str_at (view := view) (at_ w') (WsTicketStore_key ticket) (w_redis w') ∧
  (is_ok x = true → ticket_gone (view := view) ticket w') ∧
  (ticket_gone (view := view) ticket w → is_ok x = false ∧ ticket_gone (view := view) ticket w').
Proof.
  intros ticket Hs. pose proof (authorize_world wk d params w) as Hw.
  pose proof (consume_cases ticket w clock_mono Hs) as Hc. fold ticket in Hw.
  destruct (WsTicketStore_consume ticket w) as [y w1]. destruct (authorize wk d params w) as [x w'].
  destruct Hw as (Hr & Ht & Hok). destruct Hc as (Hs1 & Hgone & Hno).
  destruct (ticket_later ticket w1 w' Hr Ht) as [Hl1 Hl2]. split_and!; [auto|auto|].
  intros Hg. destruct (Hno Hg) as [Hnot Hg1]. split; [|auto]. destruct x; [|done]. naive_solver.
Qed.

(** One ticket opens at most one connection, whichever devices present it
    and whatever shard hints they give, also when calls to Redis fail or lose
    their replies in between. *)
Theorem ticket_opens_one_connection wk ticket who w :
  str_at (view := view) (at_ w) (WsTicketStore_key ticket) (w_redis w) →
  (length (filter (λ x, is_ok x = true) (connect_attempts wk ticket who w).1) ≤ 1)%nat.
Proof.
  intros Hs.
  assert (Hgone : ∀ who w, str_at (view := view) (at_ w) (WsTicketStore_key ticket) (w_redis w) →
    ticket_gone (view := view) ticket w →
    filter (λ x, is_ok x = true) (connect_attempts wk ticket who w).1 = []).
  { clear who w Hs. induction who as [|[d hint] who IH]; intros w Hs Hg; [done|].
    cbn [connect_attempts]. rewrite mbind_run.
    pose proof (authorize_ticket wk d (MkParams ticket hint) w Hs) as Ha.
    destruct (authorize _ _ _ w) as [x w1]. destruct Ha as (Hs1 & _ & Hno).
    destruct (Hno Hg) as [Hx Hg1]. cbn [fst snd]. rewrite mbind_run. cbn [mret_ fst].
    rewrite filter_cons, decide_False by congruence. by apply IH. }
  revert w Hs. induction who as [|[d hint] who IH]; intros w Hs; [simpl; lia|].
  cbn [connect_attempts]. rewrite mbind_run.
  pose proof (authorize_ticket wk d (MkParams ticket hint) w Hs) as Ha.
  destruct (authorize _ _ _ w) as [x w1]. destruct Ha as (Hs1 & Hg & _).
  cbn [fst snd]. rewrite mbind_run. cbn [mret_ fst]. rewrite filter_cons. case_decide as Hx.
  - rewrite Hgone by auto. done.
  - by apply IH.
Qed.

(** A revoked device stays out. After a successful revocation, whatever other
    clients do on other keys, no connection of the device is accepted by any
    worker before the revocation's time to live is over, even with a valid
    ticket. *)
Theorem revoked_device_refused wk d params ttl w w1 w2 :
  0 < ttl → RevocationStore_revoke d ttl w = (Ok (), w1) →
  foreign (RevocationStore_key d) (at_ w) (w_redis w1) (at_ w2) (w_redis w2) →
  env_clock (S (w_tick w2)) < at_ w + ttl_ns ttl →
  is_ok (authorize wk d params w2).1 = false.
Proof.
  intros Ht Hrev Hf Hlt. destruct (authorize wk d params w2) as [[auth|e] w'] eqn:Ha; [|done].
  exfalso. apply authorize_Ok in Ha as (w3 & rec & Hc & Hrv & _).
  apply consume_Ok in Hc as (_ & _ & Hr & Htick). apply redis_read_Ok in Hrv as [Hrv _].
  rewrite Htick, Hr in Hrv. symmetry in Hrv. revert Hrv. rewrite exists_view.
  unfold RevocationStore_revoke in Hrev.
  pose proof (redis_call_cases (λ now r, ((), cmd_set now (RevocationStore_key d) "1" (Some ttl) r)) w)
    as Hcall. rewrite Hrev in Hcall. destruct Hcall as (_ & _ & _ & _ & [= Hset]).
  apply foreign_view in Hf as [Hle Hv]. rewrite <- Hset in Hv.
  rewrite view_set, decide_True in Hv by (done || naive_solver).
  assert (Hle2 : at_ w2 ≤ env_clock (S (w_tick w2))) by apply clock_mono.
  cbn [aged fmap option_fmap option_map] in Hv. unfold expired in Hv; cbn [snd] in Hv.
  rewrite (proj2 (Z.leb_gt _ _)) in Hv by lia.
  rewrite (view_later (at_ w2)) by done.
  assert (Hkeep : view (at_ w2) (RevocationStore_key d)
      (CONSUME_LUA (WsTicketStore_key (cp_ticket params)) (at_ w2) (w_redis w2)).2
      = view (at_ w2) (RevocationStore_key d) (w_redis w2)).
  { unfold CONSUME_LUA. destruct (cmd_get _ _ _); cbn [snd]; [|done]. by rewrite view_del, decide_False. }
  rewrite Hkeep, Hv. unfold expired; cbn [snd]. rewrite (proj2 (Z.leb_gt _ _)) by lia.
  rewrite bool_decide_eq_true_2; [done|eauto].
Qed.
End WsTheorems.

(** *** The writer *)

Definition is_data (f : Frame) : bool :=
  match f with FBinary _ | FText _ => true | _ => false end.

(** The frame a queued message becomes, and the messages a run received. *)
Definition outbound_frame (o : Outbound) : option Frame :=
  match o with
  | OAlert b => Some (FBinary b)
  | OControl t _ => Some (FText t)
  | OClose => None
  end.

Definition received (evs : list (WriterEvent * bool)) : list Outbound :=
  omap (λ e, match e.1 with WRecv o => o | _ => None end) evs.

(** The writer sends what was queued, in order, and closes once. In every run
    the text and binary frames are a prefix of the messages taken from the
    queue, in the queue's order; at most one Close frame is sent, it is the last
    frame, and only a writer that has ended sends it. *)
Theorem writer_in_order evs fs ended :
  run_writer evs = (fs, ended) →
  prefix (filter (λ f, is_data f = true) fs) (omap outbound_frame (received evs)) ∧
  ∃ body, (FClose ∉ body) ∧ (fs = body ∨ fs = body ++ [FClose] ∧ ended = true).
Proof.
  revert fs ended. induction evs as [|[ev sent] evs IH]; intros fs ended.
  { intros [= <- <-]. split; [apply prefix_nil|]. exists []. split; [apply not_elem_of_nil|by left]. }
  cbn [run_writer]. destruct (writer_step ev sent) as [fs1 go] eqn:Hstep. destruct go.
  - destruct (run_writer evs) as [rest e] eqn:Hr. intros [= <- <-].
    destruct (IH _ _ eq_refl) as (Hpre & body & Hb & Hrest).
    assert (Hgo : (filter (λ f, is_data f = true) fs1
                   = omap outbound_frame (received [(ev, sent)])) ∧ FClose ∉ fs1).
    { destruct ev as [|[[b|t c|]|]|]; cbn in Hstep; try (destruct c, sent; simpl in Hstep);
        simplify_eq; split; try done; set_solver. }
    destruct Hgo as [Hf Hnc]. split.
    + unfold received in *. rewrite filter_app, Hf.
      change ((ev, sent) :: evs) with ([(ev, sent)] ++ evs). rewrite !omap_app.
      by apply prefix_app.
    + exists (fs1 ++ body). split; [set_solver|].
      destruct Hrest as [-> | [-> ->]]; [by left|right]. by rewrite (assoc_L app).
  - intros [= <- <-]. destruct ev as [|[[b|t c|]|]|]; cbn in Hstep;
      try (destruct c, sent; simpl in Hstep); simplify_eq; cbn; (split;
      [first [apply prefix_nil | apply prefix_cons, prefix_nil]|]).
    all: first [by exists []; split; [set_solver|by right]
      | by exists []; split; [set_solver|by left]
      | by eexists [_]; split; [|by left]; set_solver
      | by eexists [_]; split; [|by right]; set_solver].
Qed.

(** *** Presence *)

Section Presence.
Context {R : RedisServer} {view : Z → string → rdb → option entry} {RL : RedisLaws R view}.
Context {E : Env} {UC : UuidCodec} {F : Rfc3339}.

Abbreviation at_ w := (env_clock (w_tick w)).

(** Writing a cursor leaves the other keys alone. *)
Lemma write_cursor_frame d c w k :
  clock_monotone → k ≠ AckCursorStore_key d →
  let w' := (write_cursor d c w).2 in
  w_tick w' = S (w_tick w) ∧
  view (at_ w') k (w_redis w') = aged (at_ w') (view (at_ w) k (w_redis w)).
Proof.
  intros Hm Hk w'. unfold w', write_cursor, AckCursorStore_advance. rewrite mbind_run, mbind_ok_run.
  pose proof (redis_call_cases
    (ADVANCE_LUA (AckCursorStore_key d) (format_cursor c) ACK_CURSOR_TTL_SECS) w) as Hc.
  destruct (redis_call _ w) as [r w1]. destruct Hc as (_&_&_&Ht&Hr). cbn [fst snd].
  assert (Hw : w_redis w1 = w_redis w ∨
    w_redis w1 = (ADVANCE_LUA (AckCursorStore_key d) (format_cursor c) ACK_CURSOR_TTL_SECS
                    (at_ w) (w_redis w)).2).
  { destruct r; [|by destruct Hr]. right. by rewrite Hr. }
  assert (Hv : view (at_ w) k (w_redis w1) = view (at_ w) k (w_redis w)).
  { destruct Hw as [-> | ->]; [done|]. unfold ADVANCE_LUA. repeat case_match; cbn [snd];
      first [rewrite view_set | rewrite view_expire]; rewrite ?decide_False; naive_solver. }
  assert (Hgoal : w_tick w1 = S (w_tick w) ∧
    view (at_ w1) k (w_redis w1) = aged (at_ w1) (view (at_ w) k (w_redis w))).
  { split; [done|]. rewrite <- Hv. apply view_aged. rewrite Ht. apply Hm. }
  by destruct r.
Qed.

(** Closing a replaced connection disturbs nothing of its successor. When a
    device has opened a second connection to the same worker, the clean-up of
    the first leaves the registry as it is, the second connection stays the
    current one, and the device's presence record is not touched, whether or not
    an acknowledgement was still pending. *)
Theorem replaced_connection_cleanup wk d a1 a2 t1 t2 b w1 w2 w3 wk1 wk2 o1 o2 w1' w2' :
  clock_monotone → coherent (wk_registry wk) → next_id (wk_registry wk) + 2 < 2 ^ 64 →
  socket_open wk d a1 t1 w1 = ((wk1, o1), w1') →
  socket_open wk1 d a2 t2 w2 = ((wk2, o2), w2') →
  let '(wk3, w3') := socket_close wk2 d (os_conn_id o1) b w3 in
  wk_registry wk3 = wk_registry wk2 ∧
  ConnectionRegistry_sender_for (wk_registry wk3) d (os_conn_id o2) = Some (os_receiver o2) ∧
  view (at_ w3') (PresenceRegistry_key (uuid_to_string d)) (w_redis w3') =
    aged (at_ w3') (view (at_ w3) (PresenceRegistry_key (uuid_to_string d)) (w_redis w3)).
Proof.
  intros Hm Hc Hn. unfold socket_open.
  destruct (ConnectionRegistry_register (wk_registry wk) d _ _) as [reg1 rg1] eqn:H1.
  rewrite !mbind_run. cbn [mret_]. intros [= <- <- _]. cbn [wk_registry meter set_registry].
  destruct (ConnectionRegistry_register reg1 d _ _) as [reg2 rg2] eqn:H2.
  rewrite !mbind_run. cbn [mret_]. intros [= <- <- _]. cbn [os_conn_id os_receiver].
  destruct (stale_deregister _ _ _ _ _ _ _ _ _ _ Hc Hn H1 H2) as (Hd & _ & Hs).
  unfold socket_close. rewrite mbind_run. cbn [wk_registry meter set_registry].
  rewrite Hd. cbn [mret_ wk_registry meter set_registry]. split_and!; [done|done|].
  unfold AckBatcher_take_pending. cbn [snd]. destruct (ab_pending b) as [c|].
  - apply (write_cursor_frame d c w3); done.
  - cbn [mret_ snd]. by rewrite view_aged_now.
Qed.

(** The clean-up of the current connection deletes the presence record only
    when it names this worker: a record of another worker survives. *)
Theorem foreign_presence_kept wk d id b w other wk' w' :
  ab_pending b = None → other ≠ wc_instance_id (wk_config wk) →
  cmd_get (at_ w) (PresenceRegistry_key (uuid_to_string d)) (w_redis w) = Some other →
  socket_close wk d id b w = (wk', w') → w_redis w' = w_redis w.
Proof.
  intros Hb Hne Hget. unfold socket_close, AckBatcher_take_pending. cbn [snd]. rewrite Hb.
  rewrite mbind_run. cbn [mret_ fst snd].
  destruct (ConnectionRegistry_deregister _ d id) as [reg [|]]; [|by intros [= <- <-]].
  rewrite mbind_run. unfold presence_is_ours. rewrite mbind_run. cbn [mret_ fst snd].
  unfold PresenceRegistry_lookup. rewrite redis_read_world.
  destruct (redis_read _ w) as [[o|e] w1] eqn:Hr; cbn [fst].
  - apply redis_read_Ok in Hr as [-> ->]. rewrite Hget. cbn [meter set_registry wk_config].
    rewrite bool_decide_eq_false_2 by done. by intros [= <- <-].
  - by intros [= <- <-].
Qed.

(** The check and the deletion of the presence record are two commands. If a
    device connects to another worker between them, the record of that worker
    is deleted although the device is connected there, and the heartbeats of
    the new connection do not bring it back: looking the device up finds
    nothing. *)
Theorem presence_cleanup_race wk d other w :
  clock_monotone →
  (∀ i, (i < 5)%nat → env_fault (w_tick w + i) = Works) →
  cmd_get (at_ w) (PresenceRegistry_key (uuid_to_string d)) (w_redis w)
    = Some (wc_instance_id (wk_config wk)) →
  let id := uuid_to_string d in
  let '(ours, w1) := presence_is_ours wk d w in
  let '(_, w2) := PresenceRegistry_register id other w1 in
  let '(_, w3) := PresenceRegistry_deregister id w2 in
  let '(_, w4) := PresenceRegistry_heartbeat id w3 in
  ours = true ∧ (PresenceRegistry_lookup id w4).1 = Ok None.
Proof.
  intros Hm Hf Hget id. fold id in Hget. unfold presence_is_ours. rewrite mbind_run. cbn [mret_].
  unfold PresenceRegistry_lookup, redis_read. fold id. set (key := PresenceRegistry_key id) in *.
  pose proof (Hf 0%nat ltac:(lia)) as F0. pose proof (Hf 1%nat ltac:(lia)) as F1.
  pose proof (Hf 2%nat ltac:(lia)) as F2. pose proof (Hf 3%nat ltac:(lia)) as F3.
  pose proof (Hf 4%nat ltac:(lia)) as F4. rewrite !Nat.add_succ_r, Nat.add_0_r in *.
  rewrite redis_call_works by done. cbn [fst snd].
  unfold PresenceRegistry_register, PresenceRegistry_deregister, PresenceRegistry_heartbeat.
  rewrite redis_call_works by done. rewrite redis_call_works by done.
  rewrite redis_call_works by done. fold key. split; [by rewrite Hget, bool_decide_eq_true_2|].
  rewrite redis_call_works by done.
  cbn [fst snd w_tick tick set_tick set_redis w_redis]. f_equal.
  apply (get_none (view := view)).
  set (t3 := env_clock (S (S (S (w_tick w))))). set (t4 := env_clock (S (S (S (S (w_tick w)))))).
  set (t2 := env_clock (S (S (w_tick w)))).
  rewrite (view_later t3) by apply Hm. unfold key at 2.
  rewrite view_expire, decide_True by done.
  rewrite (view_later t2) by apply Hm. by rewrite view_del, decide_True.
Qed.
End Presence.

(** ** Witnesses *)

(** A server that holds a ticket, a location and a presence record of device 5,
    which is in the worker's shard. *)
Definition dev5 : Uuid := uuid_of_N 5.

Definition ws_redis : gmap string entry :=
  {[ @WsTicketStore_key toy_ticket := (RStr (@uuid_to_string binary_uuids dev5), Some (seconds 30));
     @DeviceLocationStore_key binary_uuids dev5 :=
       (RStr (@loc_record_json plain_loc_codec
          (MkLocRecord (lat toy_center) (lon toy_center) "tkrt")), None);
     @PresenceRegistry_key (@uuid_to_string binary_uuids dev5) :=
       (RStr (wc_instance_id sample_worker_config), None) ]}.

Definition ws_world : @World map_redis := @MkWorld map_redis 0 ws_redis toy_pg [] [].

Lemma authorize_fail_closed_witness :
  ∃ auth w', @authorize map_redis (calm_env toy_clock) binary_uuids plain_loc_codec sample_worker dev5
      (MkParams toy_ticket None) ws_world = (Ok auth, w') ∧
    owned sample_worker (au_shard_prefix auth) = true.
Proof.
  destruct (@authorize map_redis (calm_env toy_clock) binary_uuids plain_loc_codec sample_worker dev5
      (MkParams toy_ticket None) ws_world) as [r w'] eqn:Ha.
  assert (Hr : ∃ auth, r = Ok auth).
  { change r with (r, w').1. rewrite <- Ha. eexists. vm_compute. reflexivity. }
  destruct Hr as [auth ->]. exists auth, w'. split; [done|].
  apply (@authorize_fail_closed map_redis (calm_env toy_clock) binary_uuids plain_loc_codec
    sample_worker dev5 (MkParams toy_ticket None) ws_world auth w' Ha).
Defined.

Lemma ws_ticket_str :
  @str_at map_redis map_view (toy_clock 0) (@WsTicketStore_key toy_ticket) ws_redis.
Proof. intros e He. vm_compute in He. injection He as <-. by eexists. Qed.

Lemma ticket_opens_one_connection_witness :
  (length (filter (λ x, is_ok x = true)
    (@connect_attempts map_redis (calm_env toy_clock) binary_uuids plain_loc_codec sample_worker
       toy_ticket [(dev5, None); (uuid_of_N 6, None); (dev5, Some "tkrt")] ws_world).1) ≤ 1)%nat.
Proof.
  apply (@ticket_opens_one_connection map_redis map_view map_redis_laws (calm_env toy_clock)
    binary_uuids plain_loc_codec toy_clock_monotone). exact ws_ticket_str.
Defined.

Lemma revoked_device_refused_witness :
  ∃ w1, @RevocationStore_revoke map_redis (calm_env toy_clock) binary_uuids dev5 60 ws_world = (Ok (), w1) ∧
  is_ok (@authorize map_redis (calm_env toy_clock) binary_uuids plain_loc_codec sample_worker dev5
    (MkParams toy_ticket None) w1).1 = false.
Proof.
  destruct (@RevocationStore_revoke map_redis (calm_env toy_clock) binary_uuids dev5 60 ws_world)
    as [r w1] eqn:Hr.
  assert (r = Ok ()) as ->.
  { change r with (r, w1).1. rewrite <- Hr. vm_compute. reflexivity. }
  exists w1. split; [done|].
  assert (Ht : w_tick w1 = 1%nat).
  { change w1 with (@pair (result unit AppError) _ (Ok ()) w1).2. rewrite <- Hr. vm_compute. reflexivity. }
  eapply (@revoked_device_refused map_redis map_view map_redis_laws (calm_env toy_clock) binary_uuids
    plain_loc_codec toy_clock_monotone sample_worker dev5 (MkParams toy_ticket None) 60 ws_world w1 w1).
  - reflexivity.
  - exact Hr.
  - apply foreign_wait. rewrite Ht. vm_compute. discriminate.
  - rewrite Ht. vm_compute. reflexivity.
Defined.

Lemma writer_in_order_witness :
  ∃ body, (FClose ∉ body) ∧
    ([FBinary "a"; FPing; FText "bye"; FClose] = body ∨
     [FBinary "a"; FPing; FText "bye"; FClose] = body ++ [FClose] ∧ true = true).
Proof.
  apply (writer_in_order
    [(WRecv (Some (OAlert "a")), true); (WPing, true); (WRecv (Some (OControl "bye" true)), true);
     (WRecv (Some (OAlert "b")), true)]). reflexivity.
Defined.

Lemma replaced_connection_cleanup_witness :
  ∃ (wk1 wk2 : Worker) (o1 o2 : OpenSocket) (w1 w2 : @World map_redis),
    wk_registry (@socket_close map_redis (calm_env toy_clock) binary_uuids hex_rfc3339 wk2 dev5
      (os_conn_id o1) (AckBatcher_new ACK_MIN_INTERVAL) w2).1 = wk_registry wk2.
Proof.
  set (auth := MkAuthorized "tkrt" toy_center).
  destruct (@socket_open map_redis (calm_env toy_clock) binary_uuids sample_worker dev5 auth 0 ws_world)
    as [[wk1 o1] w1] eqn:H1.
  destruct (@socket_open map_redis (calm_env toy_clock) binary_uuids wk1 dev5 auth 9 w1)
    as [[wk2 o2] w2] eqn:H2.
  exists wk1, wk2, o1, o2, w1, w2.
  pose proof (@replaced_connection_cleanup map_redis map_view map_redis_laws (calm_env toy_clock)
    binary_uuids hex_rfc3339 sample_worker dev5 auth auth 0 9 (AckBatcher_new ACK_MIN_INTERVAL)
    ws_world w1 w2 wk1 wk2 o1 o2 w1 w2 toy_clock_monotone coherent_new eq_refl H1 H2) as H.
  destruct (socket_close _ _ _ _ w2) as [wk3 w3']. apply H.
Defined.

Lemma foreign_presence_kept_witness :
  let wk := MkWorker
    (MkWorkerConfig false "" "" 1 [] "" 30 (MkLimit 1 1) false false [] false 1 1 "me")
    ConnectionRegistry_new [] 0 0 true in
  w_redis (@socket_close map_redis (calm_env toy_clock) binary_uuids hex_rfc3339 wk dev5 1
    (AckBatcher_new ACK_MIN_INTERVAL) ws_world).2 = ws_redis.
Proof.
  intros wk.
  destruct (@socket_close map_redis (calm_env toy_clock) binary_uuids hex_rfc3339 wk dev5 1
    (AckBatcher_new ACK_MIN_INTERVAL) ws_world) as [wk' w'] eqn:Hc.
  apply (@foreign_presence_kept map_redis (calm_env toy_clock) binary_uuids hex_rfc3339 wk
    dev5 1 (AckBatcher_new ACK_MIN_INTERVAL) ws_world (wc_instance_id sample_worker_config) wk' w').
  - reflexivity.
  - vm_compute. discriminate.
  - vm_compute. reflexivity.
  - exact Hc.
Defined.

Lemma presence_cleanup_race_witness :
  (let '(ours, w1) := @presence_is_ours map_redis (calm_env toy_clock) binary_uuids sample_worker dev5
     ws_world in ours = true).
Proof.
  pose proof (@presence_cleanup_race map_redis map_view map_redis_laws (calm_env toy_clock) binary_uuids
    sample_worker dev5 "other" ws_world toy_clock_monotone) as H.
  specialize (H ltac:(done) ltac:(vm_compute; reflexivity)). cbv zeta in H.
  destruct (presence_is_ours sample_worker dev5 ws_world) as [ours w1].
  repeat match type of H with context [let '(_, _) := ?c in _] => destruct c as [? ?] end.
  apply H.
Defined.
