(* ===== verification/Session.v ===== *)
(** * The life of a connection

    [handle_socket] (crates/fanout-worker/src/ws.rs) and its tasks, while other
    connections, subscriptions and processes go on. A node is the worker, the
    world and the connections that were upgraded. A step is one stretch of the
    handler between two awaits, one round of the writer, the reader or the
    heartbeat, a stretch of the replay task ([run_replay] of replay.rs: reading the
    cursor, the query, one message, or giving up), the end of a task that was told
    to stop, an operation of a subscription on the registry, or anything that
    happens outside. [JoinHandle::abort] only asks a task to stop: a task whose
    handler has moved on may run on until it is cancelled. A send of the replay
    task that waits for room happens at some later moment at which there is room.
    An operation on the registry is one step here, so the runs are those in which
    no two of them overlap; [RegistryRace] and [RegistrySteps] cut them further. A
    scrape of the metrics is a step of its own, since it sets the gauge of
    connections.

    The fields [ss_frames], [ss_accepted], [ss_stored] and [ss_cut] record what
    happened; nothing reads them. *)

From S2P Require Import Prelude F64 Str Errors Metrics Geo Domain Auth Configs Registry Redis World.
From S2P Require Import Interleave Stores Lease Nats Worker Replay Fanout Ws.

Open Scope Z_scope.

Definition CLOSE_GRACE : Z := seconds 1.

(** ** State *)

(** Where the handler is: the presence record is being written; the tasks run;
    the writer may still say goodbye; the last acknowledgement is being stored;
    the registry entry is next; the presence record is looked up, and removed. *)
Inductive Phase : Type :=
| PhOpening
| PhServing
| PhGrace
| PhStoring (pending : option DateTime)
| PhDeregister
| PhLookup
| PhUnlist
| PhDone.

Inductive Task : Type := TWriter | TReader | THeartbeat | TReplay.

(** Where the replay task is: it reads the cursor; it reads the stream; it queues
    what is left of the payloads, and then the completion message. *)
Inductive Replaying : Type :=
| RCursor
| RStream (since : DateTime)
| RSend (payloads : list Bytes) (replayed : Z).

Record Session : Type := MkSession {
  ss_device : Uuid;
  ss_auth : Authorized;
  ss_conn_id : Z;
  ss_receiver : nat;
  ss_connected_at : DateTime;
  ss_phase : Phase;
  ss_writer : bool;
  ss_reader : bool;
  ss_heartbeat : bool;
  (* the replay task: its sender, and where it is *)
  ss_replay : option (nat * Replaying);
  ss_socket : SocketState;
  (* the cursor the reader is storing *)
  ss_writing : option DateTime;
  ss_frames : list Frame;
  ss_accepted : list DateTime;
  ss_stored : list DateTime;
  ss_cut : list DateTime;
}.

Definition set_phase (ph : Phase) (s : Session) : Session :=
  MkSession (ss_device s) (ss_auth s) (ss_conn_id s) (ss_receiver s) (ss_connected_at s) ph
    (ss_writer s) (ss_reader s) (ss_heartbeat s) (ss_replay s) (ss_socket s) (ss_writing s)
    (ss_frames s) (ss_accepted s) (ss_stored s) (ss_cut s).
Definition set_tasks (writer reader heartbeat : bool) (replay : option (nat * Replaying))
    (s : Session) : Session :=
  MkSession (ss_device s) (ss_auth s) (ss_conn_id s) (ss_receiver s) (ss_connected_at s) (ss_phase s)
    writer reader heartbeat replay (ss_socket s) (ss_writing s)
    (ss_frames s) (ss_accepted s) (ss_stored s) (ss_cut s).
Definition set_socket (so : SocketState) (s : Session) : Session :=
  MkSession (ss_device s) (ss_auth s) (ss_conn_id s) (ss_receiver s) (ss_connected_at s) (ss_phase s)
    (ss_writer s) (ss_reader s) (ss_heartbeat s) (ss_replay s) so (ss_writing s)
    (ss_frames s) (ss_accepted s) (ss_stored s) (ss_cut s).
Definition set_writing (c : option DateTime) (s : Session) : Session :=
  MkSession (ss_device s) (ss_auth s) (ss_conn_id s) (ss_receiver s) (ss_connected_at s) (ss_phase s)
    (ss_writer s) (ss_reader s) (ss_heartbeat s) (ss_replay s) (ss_socket s) c
    (ss_frames s) (ss_accepted s) (ss_stored s) (ss_cut s).
Definition log_frames (fs : list Frame) (s : Session) : Session :=
  MkSession (ss_device s) (ss_auth s) (ss_conn_id s) (ss_receiver s) (ss_connected_at s) (ss_phase s)
    (ss_writer s) (ss_reader s) (ss_heartbeat s) (ss_replay s) (ss_socket s) (ss_writing s)
    (ss_frames s ++ fs) (ss_accepted s) (ss_stored s) (ss_cut s).
Definition log_acks (accepted stored cut : list DateTime) (s : Session) : Session :=
  MkSession (ss_device s) (ss_auth s) (ss_conn_id s) (ss_receiver s) (ss_connected_at s) (ss_phase s)
    (ss_writer s) (ss_reader s) (ss_heartbeat s) (ss_replay s) (ss_socket s) (ss_writing s)
    (ss_frames s) (ss_accepted s ++ accepted) (ss_stored s ++ stored) (ss_cut s ++ cut).

Definition set_replay (replay : option (nat * Replaying)) (s : Session) : Session :=
  set_tasks (ss_writer s) (ss_reader s) (ss_heartbeat s) replay s.

Section Session.
Context {R : RedisServer} {E : Env} {UC : UuidCodec} {F : Rfc3339} {W : Wire} {L : Libm}
  {MO : MapOrder Uuid nat} {J : JetStream}.

(** A connection acts on the worker, the world and itself; [None]: not now. *)
Definition SessionStep : Type := option (Worker * World * Session).

(** ** The handler *)

(** [register], the time of the connection and the counters. *)
Definition open_session (wk : Worker) (w : World) (d : Uuid) (auth : Authorized)
    : Worker * World * Session :=
  let '(registry, rg) := ConnectionRegistry_register (wk_registry wk) d
                           (au_shard_prefix auth) (au_location auth) in
  let '(connected_at, w') := utc_now w in
  (meter (gauge_add "pulsegrid_ws_connections_current" 1)
     (meter (counter_add "pulsegrid_ws_connects_total" 1) (set_registry registry wk)), w',
   MkSession d auth (rg_conn_id rg) (rg_receiver rg) connected_at PhOpening false false false None
     (MkSocket 0 (AckBatcher_new ACK_MIN_INTERVAL)) None [] [] [] []).

(** The tasks are told to stop and the waiting acknowledgement is taken. *)
Definition stop_tasks (s : Session) : Session :=
  let '(batcher, pending) := AckBatcher_take_pending (so_batcher (ss_socket s)) in
  set_phase (PhStoring pending) (set_socket (MkSocket (so_last_activity (ss_socket s)) batcher) s).

(** The handler's next stretch. In [PhServing] it waits until a task has ended;
    [writer_first] says whether [select!] noticed the writer. [PhGrace] ends when
    the writer has ended or [CLOSE_GRACE] is over. *)
Definition handler_step (writer_first : bool) (now_ms : Z) (wk : Worker) (w : World) (s : Session)
    : SessionStep :=
  let id := uuid_to_string (ss_device s) in
  match ss_phase s with
  | PhOpening =>
    let '(_, w') := PresenceRegistry_register id (wc_instance_id (wk_config wk)) w in
    let replay := ConnectionRegistry_sender_for (wk_registry wk) (ss_device s) (ss_conn_id s) in
    Some (wk, w', set_phase PhServing (set_tasks true true true ((λ p, (p, RCursor)) <$> replay)
                    (set_socket (MkSocket now_ms (AckBatcher_new ACK_MIN_INTERVAL)) s)))
  | PhServing =>
    if writer_first then if ss_writer s then None else Some (wk, w, stop_tasks s)
    else if ss_reader s && ss_heartbeat s then None else Some (wk, w, set_phase PhGrace s)
  | PhGrace => Some (wk, w, stop_tasks s)
  | PhStoring None => Some (wk, w, set_phase PhDeregister s)
  | PhStoring (Some cursor) =>
    let '(_, w') := write_cursor (ss_device s) cursor w in
    Some (wk, w', set_phase PhDeregister (log_acks [] [cursor] [] s))
  | PhDeregister =>
    let '(registry, was_current) := ConnectionRegistry_deregister (wk_registry wk) (ss_device s)
                                      (ss_conn_id s) in
    Some (meter (gauge_add "pulsegrid_ws_connections_current" (-1)) (set_registry registry wk), w,
          set_phase (if was_current : bool then PhLookup else PhDone) s)
  | PhLookup =>
    let '(ours, w') := presence_is_ours wk (ss_device s) w in
    Some (wk, w', set_phase (if ours : bool then PhUnlist else PhDone) s)
  | PhUnlist =>
    let '(_, w') := PresenceRegistry_deregister id w in Some (wk, w', set_phase PhDone s)
  | PhDone => None
  end.

(** ** The tasks *)

(** The channel is closed when no sender is left: the registry's, and the replay
    task's. *)
Definition no_sender (reg : ConnectionRegistry) (s : Session) : bool :=
  bool_decide (map_Forall (λ _ p, p ≠ ss_receiver s) (by_device reg)) &&
  match ss_replay s with None => true | Some _ => false end.

(** Whether the handler has told the writer to send its Close and stop. *)
Definition shutting_down (s : Session) : bool :=
  match ss_phase s with PhOpening | PhServing => false | _ => true end.

(** What the writer waits for has happened: the registry afterwards. *)
Definition writer_takes (ev : WriterEvent) (reg : ConnectionRegistry) (s : Session)
    : option ConnectionRegistry :=
  match ev with
  | WShutdown => if shutting_down s then Some reg else None
  | WPing => Some reg
  | WRecv (Some m) =>
    match recv reg (ss_receiver s) with
    | (reg', Some m') => if decide (m = m') then Some reg' else None
    | (_, None) => None
    end
  | WRecv None =>
    match recv reg (ss_receiver s) with
    | (_, Some _) => None
    | (_, None) => if no_sender reg s then Some reg else None
    end
  end.

(** The writer ends: its receiver is dropped. *)
Definition end_writer (wk : Worker) (s : Session) : Worker * Session :=
  (set_registry (drop_receiver (wk_registry wk) (ss_receiver s)) wk,
   set_tasks false (ss_reader s) (ss_heartbeat s) (ss_replay s) s).

Definition writer_round (ev : WriterEvent) (sent : bool) (wk : Worker) (w : World) (s : Session)
    : SessionStep :=
  if ss_writer s then
    match writer_takes ev (wk_registry wk) s with
    | Some registry =>
      let '(frames, go) := writer_step ev sent in
      let wk1 := set_registry registry wk in
      let s1 := log_frames frames s in
      if (go : bool) then Some (wk1, w, s1)
      else let '(wk2, s2) := end_writer wk1 s1 in Some (wk2, w, s2)
    | None => None
    end
  else None.

(** The reader takes a frame; an acknowledgement that is to be stored at once
    leaves it waiting for the store. *)
Definition reader_round (frame : ClientFrame) (now_ms mono : Z) (wk : Worker) (w : World) (s : Session)
    : SessionStep :=
  if ss_reader s && bool_decide (ss_writing s = None) then
    let active := MkSocket now_ms (so_batcher (ss_socket s)) in
    match frame with
    | CClose | CError => Some (wk, w, set_tasks (ss_writer s) false (ss_heartbeat s) (ss_replay s) s)
    | COther => Some (wk, w, set_socket active s)
    | CText text =>
      match parse_client_message text with
      | None => Some (meter (counter_add "pulsegrid_worker_bad_client_messages_total" 1) wk, w,
                      set_socket active s)
      | Some (Ack _ created_at) =>
        let '(wall, w') := utc_now w in
        let '(batcher, outcome) := AckBatcher_offer (so_batcher (ss_socket s)) created_at wall mono in
        let s1 := set_socket (MkSocket now_ms batcher) s in
        match outcome with
        | AckIgnored => Some (meter (counter_add "pulsegrid_worker_acks_ignored_total" 1) wk, w', s1)
        | AckBuffered =>
          Some (meter (counter_add "pulsegrid_worker_acks_total" 1) wk, w', log_acks [created_at] [] [] s1)
        | AckWrite cursor =>
          Some (meter (counter_add "pulsegrid_worker_acks_total" 1) wk, w',
                set_writing (Some cursor) (log_acks [created_at] [] [] s1))
        end
      end
    end
  else None.

(** The reader's pending store takes place. *)
Definition reader_stores (wk : Worker) (w : World) (s : Session) : SessionStep :=
  match ss_reader s, ss_writing s with
  | true, Some cursor =>
    let '(_, w') := write_cursor (ss_device s) cursor w in
    Some (wk, w', set_writing None (log_acks [] [cursor] [] s))
  | _, _ => None
  end.

Definition heartbeat_round (now_ms : Z) (wk : Worker) (w : World) (s : Session) : SessionStep :=
  if ss_heartbeat s then
    let '(go, w') := heartbeat_step (ss_device s) (ss_socket s) now_ms w in
    Some (wk, w', set_tasks (ss_writer s) (ss_reader s) go (ss_replay s) s)
  else None.

(** The replay task ([run_replay] of replay.rs), cut at its awaits. A send waits
    while the queue is full, and fails when the receiver is gone. *)
Definition replay_failed (wk : Worker) : Worker :=
  meter (counter_add "pulsegrid_worker_replay_failures_total" 1) wk.

Definition replay_finished (replayed : Z) (wk : Worker) : Worker :=
  meter (counter_add "pulsegrid_worker_replayed_alerts_total" replayed)
    (meter (counter_add "pulsegrid_worker_replays_total" 1) wk).

Definition replay_round (wk : Worker) (w : World) (s : Session) : SessionStep :=
  match ss_replay s with
  | None => None
  | Some (p, RCursor) =>
    let '(cursor, w') := AckCursorStore_get (ss_device s) w in
    match cursor with
    | Err _ => Some (replay_failed wk, w', set_replay None s)
    | Ok c =>
      let since := match c with Some c => c | None => ss_connected_at s - no_cursor_window end in
      Some (wk, w', set_replay (Some (p, RStream since)) s)
    end
  | Some (p, RStream since) =>
    let '(stored, w') := replay_alerts (au_shard_prefix (ss_auth s)) since MAX_STREAM_READ w in
    match stored with
    | Err _ => Some (replay_failed wk, w', set_replay None s)
    | Ok alerts =>
      let payloads := plan_replay alerts (au_location (ss_auth s)) (ss_connected_at s)
                        (wc_replay_max_alerts (wk_config wk)) in
      Some (wk, w', set_replay (Some (p, RSend payloads 0)) s)
    end
  | Some (p, RSend (payload :: rest) replayed) =>
    match send_to (wk_registry wk) p (OAlert payload) with
    | (registry, Ok _) =>
      Some (set_registry registry wk, w, set_replay (Some (p, RSend rest (replayed + 1))) s)
    | (_, Err TSFull) => None
    | (_, Err TSClosed) => Some (replay_failed wk, w, set_replay None s)
    end
  | Some (p, RSend [] replayed) =>
    match send_to (wk_registry wk) p (OControl (server_message_json (ReplayComplete replayed)) false) with
    | (registry, Ok _) => Some (replay_finished replayed (set_registry registry wk), w, set_replay None s)
    | (_, Err TSFull) => None
    | (_, Err TSClosed) => Some (replay_finished replayed wk, w, set_replay None s)
    end
  end.

(** [SEND_WAIT] is over and there is still no room for the next payload. *)
Definition replay_times_out (wk : Worker) (w : World) (s : Session) : SessionStep :=
  match ss_replay s with
  | Some (p, RSend (payload :: _) _) =>
    match send_to (wk_registry wk) p (OAlert payload) with
    | (_, Err TSFull) => Some (replay_failed wk, w, set_replay None s)
    | _ => None
    end
  | _ => None
  end.

(** A task that ends because it was told to. *)
Definition task_ends (t : Task) (wk : Worker) (w : World) (s : Session) : SessionStep :=
  let aborted := match ss_phase s with PhOpening | PhServing | PhGrace => false | _ => true end in
  match t with
  | TReplay => if aborted then Some (wk, w, set_replay None s) else None
  | TWriter => if aborted then let '(wk', s') := end_writer wk s in Some (wk', w, s') else None
  | TReader =>
    if aborted then
      Some (wk, w, set_writing None (log_acks [] [] (option_list (ss_writing s))
                     (set_tasks (ss_writer s) false (ss_heartbeat s) (ss_replay s) s)))
    else None
  | THeartbeat =>
    if aborted then Some (wk, w, set_tasks (ss_writer s) (ss_reader s) false (ss_replay s) s) else None
  end.

(** ** Nodes *)

Record Node : Type := MkNode { nd_worker : Worker; nd_world : World; nd_sessions : list Session }.

Inductive Action : Type :=
| AHandler (writer_first : bool) (now_ms : Z)
| AWriter (ev : WriterEvent) (sent : bool)
| AReader (frame : ClientFrame) (now_ms mono : Z)
| AStore
| AHeartbeat (now_ms : Z)
| AReplay
| AReplayTimeout
| AEnd (t : Task).

Definition session_step (a : Action) : Worker → World → Session → SessionStep :=
  match a with
  | AHandler writer_first now_ms => handler_step writer_first now_ms
  | AWriter ev sent => writer_round ev sent
  | AReader frame now_ms mono => reader_round frame now_ms mono
  | AStore => reader_stores
  | AHeartbeat now_ms => heartbeat_round now_ms
  | AReplay => replay_round
  | AReplayTimeout => replay_times_out
  | AEnd t => task_ends t
  end.

(** What a subscription or the shutdown does to the registry. *)
Definition is_delivery (op : RegOp) : bool :=
  match op with OpRegister _ _ _ | OpDeregister _ _ => false | _ => true end.

Inductive Event : Type :=
| NOpen (d : Uuid) (auth : Authorized)
| NSession (i : nat) (a : Action)
| NDeliver (op : RegOp)
| NMeter (f : MetricRegistry → MetricRegistry)
| NScrape
| NOutside (w : World).

Definition node_step (ev : Event) (n : Node) : option Node :=
  match ev with
  | NOpen d auth =>
    let '(wk, w, s) := open_session (nd_worker n) (nd_world n) d auth in
    Some (MkNode wk w (nd_sessions n ++ [s]))
  | NSession i a =>
    s ← nd_sessions n !! i;
    '(wk, w, s') ← session_step a (nd_worker n) (nd_world n) s;
    Some (MkNode wk w (<[i := s']> (nd_sessions n)))
  | NDeliver op =>
    if is_delivery op then
      Some (MkNode (set_registry (apply_op (wk_registry (nd_worker n)) op).1 (nd_worker n))
              (nd_world n) (nd_sessions n))
    else None
  | NMeter f => Some (MkNode (meter f (nd_worker n)) (nd_world n) (nd_sessions n))
  | NScrape => Some (MkNode (scrape_gauges (nd_worker n)) (nd_world n) (nd_sessions n))
  | NOutside w => Some (MkNode (nd_worker n) w (nd_sessions n))
  end.

Fixpoint run_node (evs : list Event) (n : Node) : option Node :=
  match evs with
  | [] => Some n
  | ev :: evs => n' ← node_step ev n; run_node evs n'
  end.
End Session.

(** ** The cut is faithful *)

Section Faithful.
Context {R : RedisServer} {E : Env} {UC : UuidCodec} {F : Rfc3339} {W : Wire} {L : Libm}
  {MO : MapOrder Uuid nat} {J : JetStream}.

(** What an open connection is to [Ws]. *)
Definition open_socket (s : Session) : OpenSocket :=
  MkOpen (ss_conn_id s) (ss_receiver s) (ss_connected_at s) (fst <$> ss_replay s) (ss_socket s).

(** The handler alone, for at most [n] stretches. *)
Fixpoint finish (n : nat) (wk : Worker) (w : World) (s : Session) : Worker * World * Session :=
  match n with
  | 0%nat => (wk, w, s)
  | S n =>
    match handler_step false 0 wk w s with
    | Some (wk', w', s') => finish n wk' w' s'
    | None => (wk, w, s)
    end
  end.

(** The handler's stretches, run without interference, are the operations of
    [Ws]: opening a connection is [socket_open], and from the moment the tasks
    are to stop the handler does [socket_close] and is done. *)
Theorem handler_cut_faithfully wk w d auth b now_ms s :
  (let '(wk1, w1, s1) := open_session wk w d auth in
   ∃ wk2 w2 s2, handler_step b now_ms wk1 w1 s1 = Some (wk2, w2, s2) ∧
     socket_open wk d auth now_ms w = ((wk2, open_socket s2), w2)) ∧
  (let '(wk', w', s') := finish 5 wk w (set_phase PhGrace s) in
   ss_phase s' = PhDone ∧
   socket_close wk (ss_device s) (ss_conn_id s) (so_batcher (ss_socket s)) w = (wk', w')).
Proof.
  split.
  - unfold open_session, socket_open. destruct (ConnectionRegistry_register _ _ _ _) as [reg rg].
    cbn [utc_now]. rewrite !mbind_run. cbn [utc_now fst snd handler_step ss_phase ss_device ss_conn_id].
    destruct (PresenceRegistry_register _ _ _) as [r w'] eqn:Hp. eexists _, _, _. split; [done|].
    unfold open_socket. cbn. by destruct (ConnectionRegistry_sender_for _ _ _).
  - cbn [finish]. unfold handler_step at 1. cbn [ss_phase set_phase].
    unfold socket_close. rewrite mbind_run. unfold stop_tasks. cbn [ss_socket set_phase].
    destruct (AckBatcher_take_pending _) as [batcher pending]. cbn [finish snd].
    assert (Hs : ∀ w1 s1, ss_phase s1 = PhDeregister → ss_device s1 = ss_device s →
      ss_conn_id s1 = ss_conn_id s →
      let '(wk', w', s') := finish 3 wk w1 s1 in ss_phase s' = PhDone ∧
      (let '(registry, was_current) := ConnectionRegistry_deregister (wk_registry wk) (ss_device s) (ss_conn_id s) in
       let wk1 := meter (gauge_add "pulsegrid_ws_connections_current" (-1)) (set_registry registry wk) in
       if (was_current : bool) then
         let! ours := presence_is_ours wk1 (ss_device s) in
         if (ours : bool) then
           let! _ := PresenceRegistry_deregister (uuid_to_string (ss_device s)) in mret_ wk1
         else mret_ wk1
       else mret_ wk1) w1 = (wk', w')).
    { clear. intros w1 s1 Hph Hd Hc. cbn [finish]. unfold handler_step at 1. rewrite Hph, Hd, Hc.
      destruct (ConnectionRegistry_deregister _ _ _) as [reg [|]]; cbn [set_phase ss_phase];
        [|by cbn].
      rewrite mbind_run. unfold handler_step at 1. cbn [ss_phase set_phase ss_device]. rewrite Hd.
      destruct (presence_is_ours _ _ w1) as [[|] w2]; [|by cbn]. cbn [fst snd].
      rewrite mbind_run. unfold handler_step. cbn [ss_phase set_phase ss_device]. rewrite Hd.
      by destruct (PresenceRegistry_deregister _ w2). }
    cbn [finish] in Hs |- *. unfold handler_step at 1. cbn [ss_phase set_phase].
    destruct pending as [c|].
    + cbn [ss_device set_phase set_socket]. destruct (write_cursor _ c w) as [u w1]. by apply Hs.
    + by apply Hs.
Qed.
(** The replay task alone, for at most [n] steps. *)
Fixpoint replay_alone (n : nat) (wk : Worker) (w : World) (s : Session) : Worker * World * Session :=
  match n with
  | 0%nat => (wk, w, s)
  | S n =>
    match replay_round wk w s with
    | Some (wk', w', s') => replay_alone n wk' w' s'
    | None => (wk, w, s)
    end
  end.

(** The queue of [p] has grown by [l]. *)
Definition queued (c : Connection) (l : list Outbound) : Connection :=
  MkConn (c_id c) (c_shard c) (c_location c) (c_queue c ++ l) (c_rx_open c).
Definition with_queued (p : nat) (c : Connection) (l : list Outbound) (wk : Worker) : Worker :=
  set_registry (set_heap (<[p := queued c l]> (heap (wk_registry wk))) (wk_registry wk)) wk.

Lemma queued_nil c : queued c [] = c.
Proof. unfold queued. rewrite app_nil_r. by destruct c. Qed.

Lemma with_queued_nil p c wk : heap (wk_registry wk) !! p = Some c → with_queued p c [] wk = wk.
Proof.
  intros Hc. unfold with_queued. rewrite queued_nil, insert_id by done. destruct wk as [? [] ? ? ? ?]. done.
Qed.

Lemma with_queued_app p c l l' wk :
  with_queued p (queued c l) l' (with_queued p c l wk) = with_queued p c (l ++ l') wk.
Proof.
  unfold with_queued. cbn [wk_registry set_registry heap set_heap]. rewrite insert_insert_eq.
  unfold queued. cbn [c_id c_shard c_location c_queue c_rx_open]. by rewrite <- (assoc_L app).
Qed.

Lemma send_to_room wk p c m :
  heap (wk_registry wk) !! p = Some c → c_rx_open c = true → Z.of_nat (length (c_queue c)) < 64 →
  send_to (wk_registry wk) p m = (wk_registry (with_queued p c [m] wk), Ok ()).
Proof.
  intros Hc Ho Hq. unfold send_to, try_send, CONNECTION_CHANNEL_CAPACITY. rewrite Hc, Ho. cbn [negb].
  rewrite (proj2 (Z.leb_gt _ _)) by done. unfold with_queued, queued. by rewrite Ho.
Qed.

Lemma replay_sends payloads replayed wk w s p c :
  ss_replay s = Some (p, RSend payloads replayed) → heap (wk_registry wk) !! p = Some c →
  c_rx_open c = true → Z.of_nat (length (c_queue c) + length payloads) < 64 →
  let total := replayed + Z.of_nat (length payloads) in
  replay_alone (S (length payloads)) wk w s =
    (replay_finished total (with_queued p c
       ((OAlert <$> payloads) ++ [OControl (server_message_json (ReplayComplete total)) false]) wk),
     w, set_replay None s).
Proof.
  revert replayed wk s c. induction payloads as [|payload rest IH]; intros replayed wk s c Hr Hc Ho Hq total.
  - cbn [length replay_alone]. unfold replay_round. rewrite Hr. rewrite (send_to_room wk p c) by (done || lia).
    subst total. cbn [length]. by rewrite Z.add_0_r.
  - cbn [length] in Hq. change (replay_alone (S (length (payload :: rest))) wk w s) with
      (match replay_round wk w s with
       | Some (wk', w', s') => replay_alone (S (length rest)) wk' w' s' | None => (wk, w, s) end).
    unfold replay_round at 1. rewrite Hr. rewrite (send_to_room wk p c) by (done || lia).
    rewrite (IH (replayed + 1) _ _ (queued c [OAlert payload])); cycle 1.
    + done.
    + cbn. by rewrite lookup_insert_eq.
    + done.
    + cbn. rewrite length_app. cbn. lia.
    + replace (replayed + 1 + Z.of_nat (length rest)) with total by (subst total; cbn [length]; lia).
      change (set_registry (wk_registry (with_queued p c [OAlert payload] wk)) wk) with (with_queued p c [OAlert payload] wk).
      rewrite with_queued_app. done.
Qed.

(** The replay task alone, with room in the queue for what it sends, is
    [run_replay] of [Replay]: it queues the same messages, makes the same calls and
    moves the same counters. *)
Theorem replay_cut_faithfully wk w s p c :
  ss_replay s = Some (p, RCursor) → heap (wk_registry wk) !! p = Some c → c_rx_open c = true →
  let '((sent, wk'), w') := run_replay wk (ss_device s) (au_shard_prefix (ss_auth s))
      (au_location (ss_auth s)) (ss_connected_at s) (λ _, true) w in
  Z.of_nat (length (c_queue c) + length sent) ≤ 64 →
  replay_alone (2 + length sent) wk w s = (with_queued p c sent wk', w', set_replay None s).
Proof.
  intros Hr Hc Ho. unfold run_replay. rewrite mbind_run. cbn [Nat.add replay_alone]. unfold replay_round at 1.
  rewrite Hr. destruct (AckCursorStore_get (ss_device s) w) as [[cursor|e] w1]; cbn [fst snd mret_].
  2:{ intros _. cbn [replay_round ss_replay set_replay set_tasks]. by rewrite with_queued_nil. }
  rewrite mbind_run. set (since := match cursor with Some c => c | None => _ end).
  unfold replay_round at 1. cbn [ss_replay set_replay set_tasks ss_auth].
  destruct (replay_alerts _ since _ w1) as [[alerts|e] w2]; cbn [fst snd mret_].
  2:{ intros _. by rewrite with_queued_nil. }
  change (ss_connected_at (set_replay (Some (p, RStream since)) s)) with (ss_connected_at s).
  set (payloads := plan_replay _ _ _ _). change (plan_replay _ _ _ _) with payloads.
  rewrite (send_payloads_all (λ _, true) 0 payloads) by done. cbn [mret_]. rewrite length_app, length_fmap.
  cbn [length]. intros Hq. rewrite Nat.add_1_r. cbn [fst snd].
  rewrite (replay_sends payloads 0 wk w2 _ p c) by (done || lia). done.
Qed.
End Faithful.

(** ** Invariants of a node *)

Section Invariants.
Context {R : RedisServer} {E : Env} {UC : UuidCodec} {F : Rfc3339} {W : Wire} {L : Libm}
  {MO : MapOrder Uuid nat} {J : JetStream}.

(** How far the handler still has to go. *)
Definition turns_left (ph : Phase) : nat :=
  match ph with
  | PhOpening => 7
  | PhServing => 6
  | PhGrace => 5
  | PhStoring _ => 4
  | PhDeregister => 3
  | PhLookup => 2
  | PhUnlist => 1
  | PhDone => 0
  end.

(** The handler has not yet given the connection back. *)
Definition registered (s : Session) : Prop := (3 ≤ turns_left (ss_phase s))%nat.

(** *** What does not register only takes entries away *)

Definition shrinks (reg reg' : ConnectionRegistry) : Prop :=
  coherent reg' ∧ next_id reg' = next_id reg ∧ (∀ p, meta_at reg' p = meta_at reg p) ∧
  ∀ d p, by_device reg' !! d = Some p → by_device reg !! d = Some p.

Lemma shrinks_refl reg : coherent reg → shrinks reg reg.
Proof. intros Hc. unfold shrinks. by split_and!. Qed.

Lemma shrinks_trans reg1 reg2 reg3 : shrinks reg1 reg2 → shrinks reg2 reg3 → shrinks reg1 reg3.
Proof. intros (?&H1&H2&H3) (?&H4&H5&H6). split_and!; [done|congruence| |auto]. intros p. by rewrite H5, H2. Qed.

Lemma shrinks_heap reg h :
  coherent reg → (∀ p, meta <$> h !! p = meta_at reg p) →
  (∀ p c, h !! p = Some c → Z.of_nat (length (c_queue c)) ≤ 64) → shrinks reg (set_heap h reg).
Proof. intros Hc Hm Hq. split_and!; [by apply coherent_heap_update|done|done|done]. Qed.

Lemma recv_shrinks reg p : coherent reg → shrinks reg (recv reg p).1.
Proof.
  intros Hc. pose proof (recv_coherent reg p Hc) as Hr. unfold recv in *.
  destruct (heap reg !! p) as [c|] eqn:Hp; [|by apply shrinks_refl].
  destruct (c_queue c); [by apply shrinks_refl|]. split_and!; [done|done| |done].
  intros q. unfold meta_at. cbn. by apply (meta_insert_same _ _ c).
Qed.

Lemma drop_receiver_shrinks reg p : coherent reg → shrinks reg (drop_receiver reg p).
Proof.
  intros Hc. split_and!; [by apply drop_receiver_coherent|done| |done].
  intros q. unfold meta_at, drop_receiver. cbn. destruct (decide (q = p)) as [->|Hne].
  - rewrite lookup_alter_eq. by destruct (heap reg !! p).
  - by rewrite lookup_alter_ne.
Qed.

Lemma send_to_shrinks reg p m : coherent reg → shrinks reg (send_to reg p m).1.
Proof.
  intros Hc. split_and!; [by apply send_to_coherent|apply send_to_frame| |].
  - intros q. unfold send_to. destruct (heap reg !! p) as [c|] eqn:Hp; [|done].
    pose proof (try_send_meta c m) as Hm. destruct (try_send c m) as [c' r]. unfold meta_at. cbn.
    by apply (meta_insert_same _ _ c).
  - intros d q. by rewrite (proj1 (send_to_frame reg p m)).
Qed.

Lemma deregister_shrinks reg d id : coherent reg → shrinks reg (ConnectionRegistry_deregister reg d id).1.
Proof.
  intros Hc. pose proof (deregister_coherent reg d id Hc) as Hd.
  destruct (ConnectionRegistry_deregister reg d id) as [reg' b] eqn:Hr. cbn in *.
  apply deregister_effect in Hr as [(_ & _ & Hb & Hh & Hn & _)|(_ & -> & _)]; [|by apply shrinks_refl|done].
  split_and!; [done|done| |].
  - intros p. unfold meta_at. by rewrite Hh.
  - intros e p. rewrite Hb. by intros [_ ?]%lookup_delete_Some.
Qed.

Lemma close_all_shrinks reg : coherent reg → shrinks reg (ConnectionRegistry_close_all reg).
Proof.
  intros Hc. pose proof (refines_close_all reg Hc) as [Hc' _]. cbn [apply_op fst] in Hc'.
  unfold ConnectionRegistry_close_all in *. set (l := (map_iter (by_device reg)).*2) in *. clearbody l.
  assert (Hs : shrinks reg (foldl (λ r p, (send_to r p OClose).1) reg l)).
  { clear Hc'. revert reg Hc. induction l as [|p l IH]; intros reg Hc; [by apply shrinks_refl|]. cbn [foldl].
    eapply shrinks_trans; [by apply send_to_shrinks|]. apply IH. by apply send_to_coherent. }
  destruct Hs as (_ & Hn & Hm & _). split_and!; [done|done|exact Hm|]. intros d p. cbn. by rewrite lookup_empty.
Qed.

Lemma delivery_shrinks reg op : coherent reg → is_delivery op → shrinks reg (apply_op reg op).1.
Proof.
  intros Hc. destruct op as [d s loc|d id|s alert payload|d loc|d text close|]; try done; intros _; cbn [apply_op].
  - destruct (by_shard reg !! s) as [m|] eqn:Hs;
      unfold ConnectionRegistry_broadcast_to_shard; rewrite Hs; [|by apply shrinks_refl].
    destruct (shard_ptrs _ _ _ Hc Hs) as (Hnd & _ & Hsome).
    destruct (foldl _ _ _) as [h r] eqn:Hf. apply broadcast_loop in Hf as [Hh _]; [|done..].
    apply shrinks_heap; [done| |]; intros p; rewrite Hh; unfold meta_at; case_decide.
    + destruct (heap reg !! p) as [c|]; [|done]. cbn. by rewrite deliver_meta.
    + done.
    + intros c. destruct (heap reg !! p) as [c'|] eqn:Hp; [|done]. intros [= <-].
      apply deliver_queue. by apply (coh_queue _ Hc p).
    + apply (coh_queue _ Hc p).
  - pose proof (refines_update_location reg d loc Hc) as [Hc' _]. cbn [apply_op] in Hc'.
    unfold ConnectionRegistry_update_location in *. destruct (by_device reg !! d) as [p|]; [|by apply shrinks_refl].
    split_and!; [done|done| |done]. intros q. unfold meta_at. cbn.
    destruct (decide (q = p)) as [->|]; [|by rewrite lookup_alter_ne]. rewrite lookup_alter_eq.
    by destruct (heap reg !! p).
  - unfold ConnectionRegistry_send_control. destruct (by_device reg !! d) as [p|]; [|by apply shrinks_refl].
    pose proof (send_to_shrinks reg p (OControl text close) Hc) as Hs.
    destruct (send_to reg p _) as [reg1 sent]. cbn [fst] in Hs.
    destruct (_ && close); [|done]. destruct (heap reg !! p) as [conn|]; [|done]. cbn [fst].
    eapply shrinks_trans; [exact Hs|]. apply deregister_shrinks, Hs.
  - by apply close_all_shrinks.
Qed.
(** *** One step *)

Definition same_identity (s s' : Session) : Prop :=
  ss_device s' = ss_device s ∧ ss_auth s' = ss_auth s ∧ ss_conn_id s' = ss_conn_id s ∧
  ss_receiver s' = ss_receiver s.

Lemma handler_turn b now_ms wk w s wk' w' s' :
  handler_step b now_ms wk w s = Some (wk', w', s') →
  same_identity s s' ∧ (turns_left (ss_phase s') < turns_left (ss_phase s))%nat.
Proof.
  unfold handler_step, stop_tasks, same_identity.
  destruct (ss_phase s) as [| | |[c|]| | | |]; repeat case_match; intros; simplify_eq; cbn; split_and!; done || lia.
Qed.

Lemma handler_registry b now_ms wk w s wk' w' s' :
  coherent (wk_registry wk) → handler_step b now_ms wk w s = Some (wk', w', s') →
  (shrinks (wk_registry wk) (wk_registry wk') ∧ (registered s → registered s')) ∨
  (ss_phase s = PhDeregister ∧
   wk_registry wk' = (ConnectionRegistry_deregister (wk_registry wk) (ss_device s) (ss_conn_id s)).1).
Proof.
  intros Hc. pose proof (shrinks_refl _ Hc) as Hr. unfold handler_step, stop_tasks, registered.
  destruct (ss_phase s) as [| | |[c|]| | | |]; repeat case_match; intros; simplify_eq; cbn; eauto with lia.
Qed.

Lemma end_writer_registry wk s :
  coherent (wk_registry wk) → shrinks (wk_registry wk) (wk_registry (end_writer wk s).1).
Proof. apply drop_receiver_shrinks. Qed.

Lemma writer_takes_registry ev reg s reg' :
  coherent reg → writer_takes ev reg s = Some reg' → shrinks reg reg'.
Proof.
  intros Hc. pose proof (recv_shrinks reg (ss_receiver s) Hc) as Hr. pose proof (shrinks_refl _ Hc).
  unfold writer_takes. destruct (recv reg (ss_receiver s)) as [reg1 [m|]]; cbn [fst] in Hr;
    repeat case_match; intros; simplify_eq; done.
Qed.

(** A step of the replay task changes only where it is, and sends at most one
    message to its own sender. *)
Lemma replay_effect wk w s wk' w' s' :
  replay_round wk w s = Some (wk', w', s') ∨ replay_times_out wk w s = Some (wk', w', s') →
  (∃ r, s' = set_replay r s ∧ (r = None ∨ fst <$> r = fst <$> ss_replay s)) ∧
  (wk_registry wk' = wk_registry wk ∨
   ∃ p r m, ss_replay s = Some (p, r) ∧ wk_registry wk' = (send_to (wk_registry wk) p m).1).
Proof.
  unfold replay_round, replay_times_out. destruct (ss_replay s) as [[p [|since|[|payload rest] k]]|]; [..|by intros []].
  - destruct (AckCursorStore_get _ w) as [[c|e] w1]; intros [Hs|Hs]; simplify_eq; eauto 8.
  - destruct (replay_alerts _ _ _ w) as [[alerts|e] w1]; intros [Hs|Hs]; simplify_eq; eauto 8.
  - destruct (send_to _ p _) as [reg [u|[|]]] eqn:He; intros [Hs|Hs]; simplify_eq; try (eauto 8; fail).
    split; [eauto|]. right. eexists _, _, _. by rewrite He.
  - destruct (send_to _ p _) as [reg [u|[|]]] eqn:He; intros [Hs|Hs]; simplify_eq; try (eauto 8; fail).
    split; [eauto|]. right. eexists _, _, _. by rewrite He.
Qed.

(** A step of a task neither moves the handler nor adds an entry. *)
Lemma task_turn a wk w s wk' w' s' :
  coherent (wk_registry wk) → (∀ b now_ms, a ≠ AHandler b now_ms) →
  session_step a wk w s = Some (wk', w', s') →
  same_identity s s' ∧ ss_phase s' = ss_phase s ∧ shrinks (wk_registry wk) (wk_registry wk').
Proof.
  intros Hc Ha. pose proof (shrinks_refl _ Hc) as Hr. unfold same_identity.
  assert (Hcase : ∀ r, wk_registry wk' = wk_registry wk ∨
      (∃ p q m, ss_replay s = Some (p, q) ∧ wk_registry wk' = (send_to (wk_registry wk) p m).1) →
    (ss_device (set_replay r s) = ss_device s ∧ ss_auth (set_replay r s) = ss_auth s ∧
     ss_conn_id (set_replay r s) = ss_conn_id s ∧ ss_receiver (set_replay r s) = ss_receiver s) ∧
    ss_phase (set_replay r s) = ss_phase s ∧ shrinks (wk_registry wk) (wk_registry wk')).
  { intros r Hreg. split; [done|]. split; [done|].
    destruct Hreg as [-> |(p & q & m & _ & ->)]; [done|by apply send_to_shrinks]. }
  destruct a as [b now_ms|ev sent|frame now_ms mono| |now_ms| | |[]]; cbn [session_step]; [by destruct (Ha b now_ms)|..].
  - unfold writer_round, end_writer. destruct (ss_writer s); [|done].
    destruct (writer_takes _ _ _) as [reg|] eqn:Ht; [|done]. apply writer_takes_registry in Ht; [|done].
    destruct (writer_step ev sent) as [fs [|]]; intros; simplify_eq; cbn; [done|].
    split; [by split_and!|split; [done|]].
    eapply shrinks_trans; [exact Ht|]. apply drop_receiver_shrinks, Ht.
  - unfold reader_round. repeat case_match; intros; simplify_eq; done.
  - unfold reader_stores. repeat case_match; intros; simplify_eq; done.
  - unfold heartbeat_round. repeat case_match; intros; simplify_eq; done.
  - intros Hs. destruct (replay_effect wk w s wk' w' s' (or_introl Hs)) as [(r & -> & _) Hreg]. by apply Hcase.
  - intros Hs. destruct (replay_effect wk w s wk' w' s' (or_intror Hs)) as [(r & -> & _) Hreg]. by apply Hcase.
  - unfold task_ends, end_writer. repeat case_match; intros; simplify_eq; cbn;
      (split; [by split_and!|split; [done|]]); by apply drop_receiver_shrinks.
  - unfold task_ends. repeat case_match; intros; simplify_eq; done.
  - unfold task_ends. repeat case_match; intros; simplify_eq; done.
  - unfold task_ends. repeat case_match; intros; simplify_eq; done.
Qed.

(** *** No entry without a handler *)

(** Every entry belongs to a connection whose handler has still to give it back,
    and the connections know their own entries. *)
Record node_wf (n : Node) : Prop := MkNodeWf {
  nw_coherent : coherent (wk_registry (nd_worker n));
  nw_owner d p : by_device (wk_registry (nd_worker n)) !! d = Some p →
    ∃ i s, nd_sessions n !! i = Some s ∧ registered s ∧ ss_device s = d ∧ ss_receiver s = p;
  nw_tag i s : nd_sessions n !! i = Some s →
    meta_at (wk_registry (nd_worker n)) (ss_receiver s) = Some (ss_conn_id s, au_shard_prefix (ss_auth s));
  nw_distinct i j s t : nd_sessions n !! i = Some s → nd_sessions n !! j = Some t →
    ss_receiver s = ss_receiver t → i = j;
}.

Lemma node_wf_shrink wk w l wk' w' :
  node_wf (MkNode wk w l) → shrinks (wk_registry wk) (wk_registry wk') → node_wf (MkNode wk' w' l).
Proof.
  intros [Hc Ho Ht Hdi] (Hc' & _ & Hm & Hd). split; cbn in *; [done|by eauto| |exact Hdi].
  intros i s Hs. rewrite Hm. eauto.
Qed.

Lemma distinct_insert (l : list Session) i s s' :
  (∀ i j s t, l !! i = Some s → l !! j = Some t → ss_receiver s = ss_receiver t → i = j) →
  l !! i = Some s → ss_receiver s' = ss_receiver s →
  ∀ j k t u, <[i := s']> l !! j = Some t → <[i := s']> l !! k = Some u →
    ss_receiver t = ss_receiver u → j = k.
Proof.
  intros Hl Hi Hr j k t u. rewrite !list_lookup_insert_Some.
  intros [(-> & <- & _)|[_ Hj]] [(-> & <- & _)|[_ Hk]]; rewrite ?Hr; [done|by apply Hl|by apply Hl|by apply Hl].
Qed.

Lemma node_wf_insert wk w l i s s' :
  node_wf (MkNode wk w l) → l !! i = Some s → same_identity s s' → (registered s → registered s') →
  node_wf (MkNode wk w (<[i := s']> l)).
Proof.
  intros [Hc Ho Ht Hdi] Hi (Hd & Ha & Hid & Hr) Hreg. pose proof (lookup_lt_Some _ _ _ Hi).
  split; cbn in *; [done| | |by eapply distinct_insert].
  - intros d p Hp. destruct (Ho d p Hp) as (j & t & Hj & Hrt & <- & <-).
    destruct (decide (j = i)) as [->|Hne].
    + rewrite Hi in Hj. injection Hj as <-. exists i, s'. rewrite list_lookup_insert_eq by done. auto.
    + exists j, t. by rewrite list_lookup_insert_ne.
  - intros j t. rewrite list_lookup_insert_Some. intros [(-> & -> & _)|[_ Hj]]; [|by eauto].
    rewrite Hr, Hid, Ha. eauto.
Qed.

(** The handler gives its entry back, or finds that it is not its own. *)
Lemma node_wf_deregister wk w l i s s' wk' w' :
  node_wf (MkNode wk w l) → l !! i = Some s → same_identity s s' →
  wk_registry wk' = (ConnectionRegistry_deregister (wk_registry wk) (ss_device s) (ss_conn_id s)).1 →
  node_wf (MkNode wk' w' (<[i := s']> l)).
Proof.
  intros [Hc Ho Ht Hdi] Hi (Hd & Ha & Hid & Hr) Hreg. cbn in *.
  pose proof (deregister_shrinks _ (ss_device s) (ss_conn_id s) Hc) as (Hc' & _ & Hm & Hsub).
  rewrite <- Hreg in Hc', Hm, Hsub. split; cbn; [done| | |by eapply distinct_insert].
  - intros d p Hp. destruct (Ho d p) as (j & t & Hj & Hrt & <- & <-); [auto|].
    destruct (decide (j = i)) as [->|Hne]; [|exists j, t; by rewrite list_lookup_insert_ne].
    exfalso. rewrite Hi in Hj. injection Hj as <-.
    destruct (ConnectionRegistry_deregister _ _ _) as [reg' b] eqn:He. cbn [fst] in Hreg.
    apply deregister_effect in He as [(_ & _ & Hb & _)|(_ & -> & Hno)]; [| |done].
    + rewrite Hreg, Hb, lookup_delete_eq in Hp. done.
    + rewrite Hreg in Hp. by eapply Hno, Ht.
  - intros j t. rewrite Hm, list_lookup_insert_Some. intros [(-> & -> & _)|[_ Hj]]; [|by eauto].
    rewrite Hr, Hid, Ha. eauto.
Qed.

Lemma node_wf_open wk w l d auth wk' w' s :
  node_wf (MkNode wk w l) → next_id (wk_registry wk) + 1 < 2 ^ 64 →
  open_session wk w d auth = (wk', w', s) →
  node_wf (MkNode wk' w' (l ++ [s])) ∧ next_id (wk_registry wk') = next_id (wk_registry wk) + 1.
Proof.
  intros [Hc Ho Ht Hdi] Hn. unfold open_session. cbn [nd_worker nd_sessions] in *.
  pose proof (register_coherent _ d (au_shard_prefix auth) (au_location auth) Hc Hn) as Hc'.
  destruct (ConnectionRegistry_register _ _ _ _) as [reg rg] eqn:Hreg. cbn [utc_now].
  intros [= <- <- <-]. apply register_effect in Hreg as (-> & Hb & Hh & Hnext & _); [|done].
  cbn [fst rg_conn_id rg_receiver] in *. pose proof (coh_next _ Hc). rewrite u64_wrap_small in * by lia.
  pose proof (fresh_not_in_heap (wk_registry wk)) as Hf. set (p := fresh _) in *.
  assert (Hnew : ∀ j t, l !! j = Some t → ss_receiver t ≠ p).
  { intros j t Hj Hp. apply Ht in Hj. congruence. }
  split; [|by cbn]. split; cbn; [done| | |].
  - intros e q. rewrite Hb. intros [[<- <-]|[_ Hq]]%lookup_insert_Some.
    + eexists (length l), _. rewrite lookup_app_r, Nat.sub_diag by done. split_and!; [done|cbn; unfold registered; cbn; lia|done|done].
    + destruct (Ho e q Hq) as (j & t & Hj & ?). exists j, t. by rewrite lookup_app_l by (by eapply lookup_lt_Some).
  - intros j t. rewrite lookup_app_Some. intros [Hj|[_ Hj]].
    + apply Ht in Hj. unfold meta_at at 1. cbn [wk_registry meter set_registry].
      rewrite Hh, lookup_insert_ne by (intros Hp; rewrite <- Hp in Hj; congruence).
      by rewrite close_previous_meta.
    + apply list_lookup_singleton_Some in Hj as [_ <-]. cbn. unfold meta_at. by rewrite Hh, lookup_insert_eq.
  - intros j k t u. rewrite !lookup_app_Some.
    intros [Hj|[Hlj Hj]] [Hk|[Hlk Hk]]; [by apply Hdi| | |].
    + apply list_lookup_singleton_Some in Hk as [_ <-]. cbn. by intros ?%(Hnew j).
    + apply list_lookup_singleton_Some in Hj as [_ <-]. cbn. intros He. by destruct (Hnew k u).
    + apply list_lookup_singleton_Some in Hj as [? _], Hk as [? _]. lia.
Qed.
Lemma node_wf_step ev n n' :
  node_wf n → next_id (wk_registry (nd_worker n)) + 1 < 2 ^ 64 → node_step ev n = Some n' →
  node_wf n' ∧ next_id (wk_registry (nd_worker n')) ≤ next_id (wk_registry (nd_worker n)) + 1.
Proof.
  destruct n as [wk w l]. intros Hwf Hn. pose proof (nw_coherent _ Hwf) as Hc.
  cbn [nd_worker] in *. destruct ev as [d auth|i a|op|f| |w0]; cbn [node_step nd_worker nd_world nd_sessions].
  - destruct (open_session wk w d auth) as [[wk' w'] s] eqn:Ho. intros [= <-].
    destruct (node_wf_open _ _ _ _ _ _ _ _ Hwf Hn Ho) as [? Hid]. split; [done|cbn; lia].
  - destruct (l !! i) as [s|] eqn:Hi; [|done]. cbn.
    destruct (session_step a wk w s) as [[[wk' w'] s']|] eqn:Hs; [|done]. intros [= <-]. cbn.
    assert (Hcase : same_identity s s' ∧
      ((shrinks (wk_registry wk) (wk_registry wk') ∧ (registered s → registered s')) ∨
       (ss_phase s = PhDeregister ∧ wk_registry wk'
          = (ConnectionRegistry_deregister (wk_registry wk) (ss_device s) (ss_conn_id s)).1))).
    { destruct a as [b now_ms| | | | | | |]; [split; [by eapply handler_turn|by eapply handler_registry]|..];
        (apply task_turn in Hs as (? & Hp & ?); [|done|done]);
        (split; [done|left; unfold registered; by rewrite Hp]). }
    destruct Hcase as [Hid [[Hsh Hreg]|[_ Hreg]]].
    + split; [|destruct Hsh as (_ & -> & _); lia]. eapply node_wf_insert; [|done..]. by eapply node_wf_shrink.
    + split; [by eapply node_wf_deregister|]. rewrite Hreg.
      destruct (deregister_shrinks _ (ss_device s) (ss_conn_id s) Hc) as (_ & -> & _). lia.
  - destruct (is_delivery op) eqn:Hop; [|done]. intros [= <-].
    pose proof (delivery_shrinks _ op Hc ltac:(by rewrite Hop)) as Hsh. cbn in *.
    split; [by eapply node_wf_shrink|]. destruct Hsh as (_ & -> & _). lia.
  - intros [= <-]. split; [|cbn; lia]. by apply (node_wf_shrink _ _ _ (meter f wk) w Hwf), shrinks_refl.
  - intros [= <-]. split; [|cbn; lia]. by apply (node_wf_shrink _ _ _ (scrape_gauges wk) w Hwf), shrinks_refl.
  - intros [= <-]. split; [|cbn; lia]. by apply (node_wf_shrink _ _ _ wk w0 Hwf), shrinks_refl.
Qed.

Lemma run_node_app evs1 evs2 n : run_node (evs1 ++ evs2) n = run_node evs1 n ≫= run_node evs2.
Proof.
  revert n. induction evs1 as [|ev evs1 IH]; intros n; [done|]. cbn. destruct (node_step ev n); [apply IH|done].
Qed.

(** A worker without connections. *)
Definition idle_node (wk : Worker) (w : World) : Node :=
  MkNode (set_registry ConnectionRegistry_new wk) w [].

Lemma run_node_bound evs n n' :
  node_wf n → next_id (wk_registry (nd_worker n)) + Z.of_nat (length evs) < 2 ^ 64 →
  run_node evs n = Some n' →
  node_wf n' ∧
  next_id (wk_registry (nd_worker n')) ≤ next_id (wk_registry (nd_worker n)) + Z.of_nat (length evs).
Proof.
  revert n. induction evs as [|ev evs IH]; intros n Hwf Hn; cbn [run_node].
  { intros [= <-]. split; [done|cbn; lia]. }
  cbn [length] in Hn |- *. destruct (node_step ev n) as [n1|] eqn:Hs; [|done]. cbn [mbind option_bind]. intros Hrun.
  apply node_wf_step in Hs as [Hwf1 Hn1]; [|done|lia]. destruct (IH n1 Hwf1 ltac:(lia) Hrun). split; [done|lia].
Qed.

Lemma run_node_wf evs n n' :
  node_wf n → next_id (wk_registry (nd_worker n)) + Z.of_nat (length evs) < 2 ^ 64 →
  run_node evs n = Some n' → node_wf n'.
Proof. intros. by eapply run_node_bound. Qed.

Lemma idle_node_wf wk w : node_wf (idle_node wk w).
Proof.
  split; cbn; [apply coherent_new| |done|done]. intros d p. by rewrite lookup_empty.
Qed.

(** C8: No connection leaks. However the connections of a worker open, run, are
    replaced, are told to close, and end, and whatever the subscriptions deliver
    in between, as long as no two operations of the registry overlap, every registry
    entry belongs to a connection whose handler has yet to give it back; so when all
    handlers are done the registry is empty, in both indexes. (For fewer than 2^64
    events, so that connection numbers do not wrap. [RegistrySteps] cuts the
    operations of the registry themselves.) *)
Theorem no_connection_leaks evs wk w n :
  Z.of_nat (length evs) < 2 ^ 64 → run_node evs (idle_node wk w) = Some n →
  coherent (wk_registry (nd_worker n)) ∧
  (∀ d p, by_device (wk_registry (nd_worker n)) !! d = Some p →
     ∃ i s, nd_sessions n !! i = Some s ∧ registered s ∧ ss_device s = d ∧ ss_receiver s = p) ∧
  ((∀ i s, nd_sessions n !! i = Some s → ss_phase s = PhDone) →
   ConnectionRegistry_connection_count (wk_registry (nd_worker n)) = 0%nat ∧
   ∀ shard d, in_shard (wk_registry (nd_worker n)) shard d = None).
Proof.
  intros Hlen Hrun. apply run_node_wf in Hrun as [Hc Ho _ _]; [|apply idle_node_wf|done].
  split_and!; [done|done|]. intros Hdone.
  assert (Hnone : ∀ d, by_device (wk_registry (nd_worker n)) !! d = None).
  { intros d. apply eq_None_not_Some. intros [p Hp]. destruct (Ho d p Hp) as (i & s & Hi & Hr & _).
    unfold registered in Hr. rewrite (Hdone i s Hi) in Hr. cbn in Hr. lia. }
  split.
  - unfold ConnectionRegistry_connection_count. apply map_size_empty_iff. by apply map_empty.
  - intros shard d. by apply coh_not_in_shard.
Qed.

(** *** Handlers finish *)

(** The handler's stretches of one connection in a run. *)
Definition is_turn (i : nat) (ev : Event) : bool :=
  match ev with NSession j (AHandler _ _) => bool_decide (j = i) | _ => false end.
Definition handler_turns (i : nat) (evs : list Event) : nat := length (filter (λ ev, is_turn i ev = true) evs).

(** The three tasks run, and nothing has ended. *)
Definition serving (s : Session) : bool :=
  match ss_phase s with PhServing => ss_writer s && (ss_reader s && ss_heartbeat s) | _ => false end.

Lemma handler_progress wk w s :
  ss_phase s = PhDone ∨ serving s = true ∨ ∃ b, is_Some (handler_step b 0 wk w s).
Proof.
  unfold serving, handler_step. destruct (ss_phase s) as [| | |[c|]| | | |].
  - right. right. exists true. repeat case_match; eauto.
  - destruct (ss_writer s) eqn:?, (ss_reader s && ss_heartbeat s) eqn:?; cbn; [by right; left|..];
      right; right; [exists false|exists true|exists true]; eauto.
  - right. right. exists true. eauto.
  - right. right. exists true. repeat case_match; eauto.
  - right. right. exists true. eauto.
  - right. right. exists true. repeat case_match; eauto.
  - right. right. exists true. repeat case_match; eauto.
  - right. right. exists true. repeat case_match; eauto.
  - by left.
Qed.
Lemma node_step_session ev n n' i s :
  coherent (wk_registry (nd_worker n)) → node_step ev n = Some n' → nd_sessions n !! i = Some s →
  ∃ s', nd_sessions n' !! i = Some s' ∧ same_identity s s' ∧
    ((if is_turn i ev then 1 else 0) + turns_left (ss_phase s') ≤ turns_left (ss_phase s))%nat.
Proof.
  destruct n as [wk w l]. cbn [nd_worker nd_sessions]. intros Hc. destruct ev as [d auth|j a|op|f| |w0];
    cbn [node_step nd_worker nd_world nd_sessions is_turn].
  - destruct (open_session wk w d auth) as [[wk' w'] s0]. intros [= <-] Hi. exists s. cbn.
    by rewrite lookup_app_l by (by eapply lookup_lt_Some).
  - destruct (l !! j) as [s0|] eqn:Hj; [|done]. cbn.
    destruct (session_step a wk w s0) as [[[wk' w'] s1]|] eqn:Hs; [|done]. intros [= <-] Hi. cbn.
    destruct (decide (j = i)) as [->|Hne].
    + rewrite Hi in Hj. injection Hj as <-. exists s1.
      rewrite list_lookup_insert_eq by (by eapply lookup_lt_Some). split; [done|].
      destruct a as [b now_ms| | | | | | |]; [apply handler_turn in Hs as [? ?];
        rewrite bool_decide_eq_true_2 by done; by split|..];
        (apply task_turn in Hs as (? & -> & _); [by split|done|done]).
    + exists s. rewrite list_lookup_insert_ne by done. destruct a; by rewrite ?bool_decide_eq_false_2.
  - destruct (is_delivery op); [|done]. intros [= <-] Hi. by exists s.
  - intros [= <-] Hi. by exists s.
  - intros [= <-] Hi. by exists s.
  - intros [= <-] Hi. by exists s.
Qed.

(** C21: Handlers finish. In every run of a node, a connection whose handler is
    neither done nor waiting for one of its three running tasks can take its next
    stretch; it takes at most seven of them, whatever happens in between; so once a
    task has ended, six more end the handler. *)
Theorem handler_finishes evs n n' i s :
  node_wf n → next_id (wk_registry (nd_worker n)) + Z.of_nat (length evs) < 2 ^ 64 →
  nd_sessions n !! i = Some s → run_node evs n = Some n' →
  ∃ s', nd_sessions n' !! i = Some s' ∧
    (handler_turns i evs + turns_left (ss_phase s') ≤ turns_left (ss_phase s) ≤ 7)%nat ∧
    (ss_phase s' = PhDone ∨ serving s' = true ∨
     ∃ b, is_Some (handler_step b 0 (nd_worker n') (nd_world n') s')).
Proof.
  revert n s. induction evs as [|ev evs IH]; intros n s Hwf Hn Hi; cbn [run_node].
  - intros [= <-]. exists s. split; [done|]. split; [|apply handler_progress].
    unfold handler_turns. cbn. split; [done|]. by destruct (ss_phase s); cbn; lia.
  - cbn [length] in Hn. destruct (node_step ev n) as [n1|] eqn:Hs; [|done]. cbn [mbind option_bind].
    intros Hrun. pose proof (node_wf_step _ _ _ Hwf ltac:(lia) Hs) as [Hwf1 Hn1].
    destruct (node_step_session _ _ _ _ _ (nw_coherent _ Hwf) Hs Hi) as (s1 & Hi1 & _ & Hle).
    destruct (IH n1 s1 Hwf1 ltac:(lia) Hi1 Hrun) as (s' & Hi' & [Ht _] & Hp). exists s'. split; [done|].
    split; [|done]. unfold handler_turns in *. rewrite filter_cons.
    assert (turns_left (ss_phase s) ≤ 7)%nat by (destruct (ss_phase s); cbn; lia).
    destruct (is_turn i ev); case_decide; cbn [length] in *; try done; lia.
Qed.
(** *** Acknowledgements *)

(** Every element of [acks] is reached by one of [cursors]. *)
Definition covers (cursors acks : list DateTime) : Prop := ∀ t, t ∈ acks → ∃ c, c ∈ cursors ∧ t ≤ c.

Lemma covers_mono l l' acks :
  (∀ c, c ∈ l → ∃ c', c' ∈ l' ∧ c ≤ c') → covers l acks → covers l' acks.
Proof. intros Hl Ha t Ht. destruct (Ha t Ht) as (c & Hc & ?). destruct (Hl c Hc) as (c' & ? & ?). exists c'. split; [done|lia]. Qed.

Lemma covers_incl l l' acks : l ⊆ l' → covers l acks → covers l' acks.
Proof. intros Hl. apply covers_mono. intros c Hc. exists c. split; [by apply Hl|lia]. Qed.

(** The acknowledgements a connection still holds. *)
Definition held (s : Session) : list DateTime :=
  option_list (ss_writing s) ++ (match ss_phase s with PhStoring p => option_list p | _ => [] end) ++
  option_list (ab_pending (so_batcher (ss_socket s))).

Record acks_ok (s : Session) : Prop := MkAcksOk {
  ao_covered : covers (ss_stored s ++ ss_cut s ++ held s) (ss_accepted s);
  ao_reader : ss_reader s = false → ss_writing s = None;
  ao_cut : (5 ≤ turns_left (ss_phase s))%nat → ss_cut s = [];
  ao_opening : ss_phase s = PhOpening → ss_accepted s = [] ∧ ss_reader s = false;
}.

Lemma offer_covers b ts wall now b' o :
  AckBatcher_offer b ts wall now = (b', o) →
  match o with
  | AckIgnored => b' = b
  | AckBuffered => covers (option_list (ab_pending b')) (ts :: option_list (ab_pending b))
  | AckWrite c => ab_pending b' = None ∧ covers [c] (ts :: option_list (ab_pending b))
  end.
Proof.
  intros Ho. pose proof (offer_cases b (MkAck ts wall now)) as Hc. cbn [ae_ts ae_wall ae_now] in Hc.
  rewrite Ho in Hc. destruct Hc as [_ Hc]. set (best := match ab_pending b with Some _ => _ | None => _ end) in *.
  assert (Hb : covers [best] (ts :: option_list (ab_pending b))).
  { intros t Ht. exists best. split; [set_solver|]. unfold best. destruct (ab_pending b); cbn in Ht;
      set_unfold; naive_solver lia. }
  destruct (accepted _); [|by destruct Hc as [-> ->]].
  destruct Hc as [(-> & -> & _)|(-> & -> & _)]; done.
Qed.
(** The parts of a connection the acknowledgements depend on. *)
Lemma acks_ok_same s s' :
  ss_accepted s' = ss_accepted s → ss_stored s' = ss_stored s → ss_cut s' = ss_cut s →
  ss_writing s' = ss_writing s → ss_reader s' = ss_reader s →
  ab_pending (so_batcher (ss_socket s')) = ab_pending (so_batcher (ss_socket s)) →
  ss_phase s' = ss_phase s → acks_ok s → acks_ok s'.
Proof.
  intros H1 H2 H3 H4 H5 H6 H7 [? ? ? ?]. split; unfold held in *; rewrite ?H1, ?H2, ?H3, ?H4, ?H5, ?H6, ?H7; done.
Qed.

(** The handler moves on, and keeps what is held somewhere. *)
Lemma acks_ok_phase s s' :
  ss_accepted s' = ss_accepted s → ss_cut s' = ss_cut s →
  ss_writing s' = ss_writing s → ss_reader s' = ss_reader s →
  (turns_left (ss_phase s') ≤ turns_left (ss_phase s))%nat → ss_phase s' ≠ PhOpening →
  ss_stored s ++ held s ⊆ ss_stored s' ++ held s' → acks_ok s → acks_ok s'.
Proof.
  intros H1 H3 H4 H5 Hle Hno Hin [Hcov ? Hcut ?].
  split; rewrite ?H1, ?H3, ?H4, ?H5; [|done|intros; apply Hcut; lia|done].
  eapply covers_incl; [|exact Hcov]. intros c. specialize (Hin c). rewrite !elem_of_app in *. tauto.
Qed.

Lemma handler_acks b now_ms wk w s wk' w' s' :
  acks_ok s → handler_step b now_ms wk w s = Some (wk', w', s') → acks_ok s'.
Proof.
  intros Ha Hs. pose proof (handler_turn _ _ _ _ _ _ _ _ Hs) as [_ Hlt]. revert Hs.
  assert (Hd : ss_phase s = PhOpening ∨ ss_phase s ≠ PhOpening) by (destruct (ss_phase s); auto).
  destruct Hd as [Hop|Hop].
  - destruct Ha as [_ Hrd Hcut Hno]. destruct (Hno Hop) as [Hacc Hr]. unfold handler_step. rewrite Hop.
    destruct (PresenceRegistry_register _ _ _) as [u w1]. intros [= <- <- <-]. split; cbn.
    + rewrite Hacc. intros t Ht. by apply not_elem_of_nil in Ht.
    + done.
    + intros _. apply Hcut. rewrite Hop. cbn. lia.
    + done.
  - unfold handler_step, stop_tasks, AckBatcher_take_pending.
    destruct (ss_phase s) as [| | |[c|]| | | |] eqn:Hph; try done;
      repeat case_match; intros; simplify_eq;
      (apply (acks_ok_phase s); [by cbn; rewrite ?app_nil_r|by cbn; rewrite ?app_nil_r|done|done|rewrite Hph; cbn in *; lia|done| |done]);
      intros x; unfold held; rewrite Hph; cbn;
      rewrite ?app_nil_r, ?elem_of_app, ?elem_of_cons, ?elem_of_nil; tauto.
Qed.
(** An accepted acknowledgement: what the batcher held, and the new one, are
    reached by what is held now. *)
Lemma accept_covers s ts rest old new :
  covers (rest ++ old) (ss_accepted s) → covers new (ts :: old) →
  covers (rest ++ new) (ss_accepted s ++ [ts]).
Proof.
  intros Hcov Hn t. rewrite elem_of_app, list_elem_of_singleton. intros [Ht| ->].
  - destruct (Hcov t Ht) as (c & Hc & ?). apply elem_of_app in Hc as [Hc|Hc].
    + exists c. split; [rewrite elem_of_app; by left|done].
    + destruct (Hn c) as (c' & ? & ?); [by apply list_elem_of_further|].
      exists c'. split; [rewrite elem_of_app; by right|lia].
  - destruct (Hn ts) as (c' & ? & ?); [apply list_elem_of_here|].
    exists c'. split; [rewrite elem_of_app; by right|done].
Qed.

Lemma reader_acks frame now_ms mono wk w s wk' w' s' :
  acks_ok s → reader_round frame now_ms mono wk w s = Some (wk', w', s') → acks_ok s'.
Proof.
  intros Ha. unfold reader_round. destruct (ss_reader s) eqn:Hr; [|done].
  destruct (bool_decide_reflect (ss_writing s = None)) as [Hw|]; [|done]. cbn [andb].
  assert (Hsame : ∀ so, so_batcher so = so_batcher (ss_socket s) → acks_ok (set_socket so s)).
  { intros so Hso. apply (acks_ok_same s); try done. cbn. by rewrite Hso. }
  assert (Hend : acks_ok (set_tasks (ss_writer s) false (ss_heartbeat s) (ss_replay s) s)).
  { destruct Ha as [Hcov Hrd Hcut Hop]. split; [exact Hcov|done|exact Hcut|].
    intros Hph. by destruct (Hop Hph). }
  destruct frame as [text| | |]; [|by intros [= _ _ <-]|by intros [= _ _ <-]; apply Hsame|by intros [= _ _ <-]].
  destruct (parse_client_message text) as [[aid ts]|]; [|by intros [= _ _ <-]; apply Hsame].
  destruct (utc_now w) as [wall w1]. destruct (AckBatcher_offer _ _ _ _) as [batcher o] eqn:Ho.
  apply offer_covers in Ho. destruct Ha as [Hcov Hrd Hcut Hop]. unfold held in Hcov. rewrite Hw in Hcov.
  destruct o as [| |cursor]; intros [= _ _ <-].
  - apply Hsame. by subst.
  - split; unfold held; cbn; rewrite ?app_nil_r, ?Hw; [|done|done|intros Hph; destruct (Hop Hph); congruence].
    rewrite !(assoc_L app) in *. by eapply accept_covers.
  - destruct Ho as [Hp Ho].
    split; unfold held; cbn; rewrite ?app_nil_r; [|congruence|done|intros Hph; destruct (Hop Hph); congruence].
    rewrite Hp. eapply covers_incl; [|eapply (accept_covers s ts _ _ [cursor]); [|exact Ho]].
    2:{ cbn in Hcov. rewrite !(assoc_L app) in Hcov. exact Hcov. }
    intros x. cbn. rewrite ?elem_of_app, ?elem_of_cons, ?elem_of_app, ?elem_of_nil. tauto.
Qed.

Lemma session_acks a wk w s wk' w' s' :
  acks_ok s → session_step a wk w s = Some (wk', w', s') → acks_ok s'.
Proof.
  intros Ha. destruct a as [b now_ms|ev sent|frame now_ms mono| |now_ms| | |t]; cbn [session_step].
  - by apply handler_acks.
  - unfold writer_round, end_writer. destruct (ss_writer s); [|done].
    destruct (writer_takes _ _ _); [|done]. destruct (writer_step ev sent) as [fs [|]];
      intros [= _ _ <-]; by apply (acks_ok_same s).
  - by apply reader_acks.
  - unfold reader_stores. destruct (ss_reader s) eqn:Hr; [|done].
    destruct (ss_writing s) as [c|] eqn:Hw; [|done]. destruct (write_cursor _ c w) as [u w1].
    intros [= _ _ <-]. destruct Ha as [Hcov Hrd Hcut Hop]. unfold held in Hcov. rewrite Hw in Hcov.
    split; unfold held; cbn; rewrite ?app_nil_r; [|done|done|intros Hph; destruct (Hop Hph); congruence].
    eapply covers_incl; [|exact Hcov]. intros x. cbn. rewrite ?elem_of_app, ?elem_of_cons, ?elem_of_app, ?elem_of_nil. tauto.
  - unfold heartbeat_round. destruct (ss_heartbeat s); [|done].
    destruct (heartbeat_step _ _ _ _) as [go w1]. intros [= _ _ <-]. by apply (acks_ok_same s).
  - intros Hs. destruct (replay_effect _ _ _ _ _ _ (or_introl Hs)) as [(r & -> & _) _]. by apply (acks_ok_same s).
  - intros Hs. destruct (replay_effect _ _ _ _ _ _ (or_intror Hs)) as [(r & -> & _) _]. by apply (acks_ok_same s).
  - unfold task_ends, end_writer. set (aborted := match ss_phase s with PhOpening | PhServing | PhGrace => false | _ => true end).
    destruct t, aborted eqn:Hab; try done; intros [= _ _ <-]; [by apply (acks_ok_same s)| |by apply (acks_ok_same s)..].
    assert (Hle : (turns_left (ss_phase s) < 5)%nat).
    { unfold aborted in Hab. destruct (ss_phase s); try done; cbn; lia. }
    destruct Ha as [Hcov Hrd Hcut Hop]. unfold held in Hcov.
    split; unfold held; cbn; rewrite ?app_nil_r; [|done|lia|intros Hph; by destruct (Hop Hph)].
    eapply covers_incl; [|exact Hcov]. intros x. rewrite !elem_of_app. tauto.
Qed.
(** The client has left, or the handler has stopped the tasks after that: nothing
    is cut off any more, and what was waiting is taken when the tasks stop. *)
Definition departed (s : Session) : Prop :=
  ss_reader s = false ∧ ss_writing s = None ∧ ss_cut s = [] ∧ (turns_left (ss_phase s) ≤ 6)%nat ∧
  ((turns_left (ss_phase s) ≤ 4)%nat → ab_pending (so_batcher (ss_socket s)) = None).

Lemma session_departed a wk w s wk' w' s' :
  departed s → session_step a wk w s = Some (wk', w', s') → departed s'.
Proof.
  intros (Hr & Hw & Hcut & Hph & Hp).
  destruct a as [b now_ms|ev sent|frame now_ms mono| |now_ms| | |t]; cbn [session_step].
  - unfold handler_step, stop_tasks, AckBatcher_take_pending, departed.
    destruct (ss_phase s) as [| | |[c|]| | | |] eqn:Hps; cbn in Hph, Hp; [lia|..]; repeat case_match; intros;
      simplify_eq; cbn; rewrite ?Hcut; (split_and!; [done..|lia|intros; first [done|apply Hp; lia|lia]]).
  - unfold writer_round, end_writer, departed. destruct (ss_writer s); [|done].
    destruct (writer_takes _ _ _); [|done]. destruct (writer_step ev sent) as [fs [|]];
      intros [= _ _ <-]; cbn; done.
  - unfold reader_round. by rewrite Hr.
  - unfold reader_stores. by rewrite Hr.
  - unfold heartbeat_round. destruct (ss_heartbeat s); [|done].
    destruct (heartbeat_step _ _ _ _) as [go w1]. intros [= _ _ <-]. by unfold departed.
  - intros Hs. by destruct (replay_effect _ _ _ _ _ _ (or_introl Hs)) as [(r & -> & _) _].
  - intros Hs. by destruct (replay_effect _ _ _ _ _ _ (or_intror Hs)) as [(r & -> & _) _].
  - unfold task_ends, end_writer, departed.
    set (aborted := match ss_phase s with PhOpening | PhServing | PhGrace => false | _ => true end).
    clearbody aborted.
    destruct t, aborted; intros; simplify_eq; cbn; rewrite ?Hw, ?Hcut; done.
Qed.

(** A property that the steps of a connection keep, along a run. *)
Lemma run_keeps (P : Session → Prop) evs n n' i s :
  (∀ a wk w s wk' w' s', P s → session_step a wk w s = Some (wk', w', s') → P s') →
  run_node evs n = Some n' → nd_sessions n !! i = Some s → P s →
  ∃ s', nd_sessions n' !! i = Some s' ∧ P s'.
Proof.
  intros HP. revert n s. induction evs as [|ev evs IH]; intros n s; cbn [run_node]; [intros [= <-]; eauto|].
  destruct (node_step ev n) as [n1|] eqn:Hs; [|done]. cbn. intros Hrun Hi Hps.
  assert (∃ s1, nd_sessions n1 !! i = Some s1 ∧ P s1) as (s1 & Hi1 & Hp1); [|by eapply IH].
  clear IH Hrun. destruct ev as [d auth|j a|op|f| |w0]; cbn [node_step] in Hs.
  - destruct (open_session _ _ _ _) as [[wk' w'] s0]. injection Hs as <-. exists s. cbn.
    by rewrite lookup_app_l by (by eapply lookup_lt_Some).
  - destruct (nd_sessions n !! j) as [s0|] eqn:Hj; [|done]. cbn in Hs.
    destruct (session_step _ _ _ s0) as [[[wk' w'] s1]|] eqn:Ha; [|done]. injection Hs as <-. cbn.
    destruct (decide (j = i)) as [->|Hne]; [|exists s; by rewrite list_lookup_insert_ne].
    exists s1. rewrite list_lookup_insert_eq by (by eapply lookup_lt_Some). split; [done|].
    rewrite Hi in Hj. injection Hj as <-. by eapply HP.
  - destruct (is_delivery op); [|done]. injection Hs as <-. eauto.
  - injection Hs as <-. eauto.
  - injection Hs as <-. eauto.
  - injection Hs as <-. eauto.
Qed.

(** ... and of all connections, when new ones have it. *)
Lemma run_all (P : Session → Prop) evs n n' :
  (∀ a wk w s wk' w' s', P s → session_step a wk w s = Some (wk', w', s') → P s') →
  (∀ wk w d auth, P (open_session wk w d auth).2) →
  run_node evs n = Some n' → Forall P (nd_sessions n) → Forall P (nd_sessions n').
Proof.
  intros HP Hnew. revert n. induction evs as [|ev evs IH]; intros n; cbn [run_node]; [by intros [= <-]|].
  destruct (node_step ev n) as [n1|] eqn:Hs; [|done]. cbn. intros Hrun Hl. apply (IH n1 Hrun).
  clear IH Hrun. destruct ev as [d auth|j a|op|f| |w0]; cbn [node_step] in Hs.
  - pose proof (Hnew (nd_worker n) (nd_world n) d auth) as Hs0.
    destruct (open_session _ _ _ _) as [[wk' w'] s0]. injection Hs as <-. apply Forall_app. auto.
  - destruct (nd_sessions n !! j) as [s0|] eqn:Hj; [|done]. cbn in Hs.
    destruct (session_step _ _ _ s0) as [[[wk' w'] s1]|] eqn:Ha; [|done]. injection Hs as <-. cbn.
    apply Forall_insert; [done|]. eapply HP; [|exact Ha]. by eapply Forall_lookup_1.
  - destruct (is_delivery op); [|done]. by injection Hs as <-.
  - by injection Hs as <-.
  - by injection Hs as <-.
  - by injection Hs as <-.
Qed.

Lemma new_session_acks wk w d auth : acks_ok (open_session wk w d auth).2.
Proof.
  unfold open_session. destruct (ConnectionRegistry_register _ _ _ _) as [reg rg]. cbn.
  split; [|done..]. intros t Ht. by apply not_elem_of_nil in Ht.
Qed.

(** C20: The acknowledgements of a client that has left are stored. When the reader
    of a connection ended by itself, because the client closed the connection or
    it broke, then by the time the handler is done every acknowledgement that was
    accepted on this connection is reached by a cursor that was handed to the
    store, however late it came and however the batcher held it back. *)
Theorem departed_client_acks_stored evs1 evs2 wk w n n' i s s' :
  run_node evs1 (idle_node wk w) = Some n → nd_sessions n !! i = Some s →
  ss_phase s = PhServing ∨ ss_phase s = PhGrace → ss_reader s = false →
  run_node evs2 n = Some n' → nd_sessions n' !! i = Some s' → ss_phase s' = PhDone →
  covers (ss_stored s') (ss_accepted s').
Proof.
  intros Hrun1 Hi Hph Hr Hrun2 Hi' Hdone.
  assert (Ha : acks_ok s).
  { eapply Forall_lookup_1; [|exact Hi]. eapply (run_all acks_ok); [apply session_acks|apply new_session_acks|exact Hrun1|].
    by constructor. }
  assert (Hd : departed s).
  { destruct Ha as [_ Hw Hcut _]. split_and!; [done|by apply Hw| | |].
    - apply Hcut. destruct Hph as [-> | ->]; cbn; lia.
    - destruct Hph as [-> | ->]; cbn; lia.
    - destruct Hph as [-> | ->]; cbn; lia. }
  destruct (run_keeps (λ s, acks_ok s ∧ departed s) evs2 n n' i s) as (s2 & Hi2 & [Hcov _ _ _] & Hd2);
    [|done|done|done|].
  { intros a wk1 w1 s1 wk2 w2 s2 [? ?] Hs. split; [by eapply session_acks|by eapply session_departed]. }
  rewrite Hi' in Hi2. injection Hi2 as <-. destruct Hd2 as (_ & Hw & Hcut & _ & Hp).
  unfold held in Hcov. rewrite Hw, Hcut, Hdone, Hp in Hcov by (rewrite Hdone; cbn; lia).
  cbn in Hcov. by rewrite app_nil_r in Hcov.
Qed.
(** *** Silent connections *)

(** The readings of the clock at the heartbeat's ticks; it started at [t0]. *)
Definition tick_ms (t0 : Z) (k : nat) : Z := t0 + Z.of_nat k * (HEARTBEAT_INTERVAL / 10 ^ 6).

Lemma heartbeat_verdict wk w s now_ms :
  ss_heartbeat s = true → 0 ≤ now_ms - so_last_activity (ss_socket s) →
  ∃ w' s', heartbeat_round now_ms wk w s = Some (wk, w', s') ∧
    ss_heartbeat s' = bool_decide (now_ms ≤ so_last_activity (ss_socket s) + IDLE_TIMEOUT_MS).
Proof.
  intros Hb Hle. unfold heartbeat_round, heartbeat_step. rewrite Hb.
  unfold saturating_sub. rewrite Z.max_r by lia.
  destruct (Z.ltb_spec IDLE_TIMEOUT_MS (now_ms - so_last_activity (ss_socket s))).
  - eexists _, _. split; [done|]. cbn. symmetry. apply bool_decide_eq_false. lia.
  - rewrite mbind_run. destruct (PresenceRegistry_heartbeat _ w) as [r w1]. cbn [fst snd mret_].
    eexists _, _. split; [done|]. cbn. symmetry. apply bool_decide_eq_true. lia.
Qed.

(** A silent connection is dropped in time, and only a silent one: the heartbeat
    ends at the first of its ticks that is more than 90 s after the client's last
    frame, at most 110 s after it, and goes on at every earlier tick. *)
Theorem idle_connection_closed wk w s t0 :
  ss_heartbeat s = true → t0 ≤ so_last_activity (ss_socket s) →
  let a := so_last_activity (ss_socket s) in
  ∃ k, a + 90000 < tick_ms t0 k ≤ a + 110000 ∧
    ∀ j, a ≤ tick_ms t0 j → ∃ w' s', heartbeat_round (tick_ms t0 j) wk w s = Some (wk, w', s') ∧
      (ss_heartbeat s' = true ↔ (j < k)%nat).
Proof.
  intros Hb Hle a. set (k := Z.to_nat ((a + 90000 - t0) / 20000 + 1)).
  assert (Hq : 0 ≤ (a + 90000 - t0) / 20000) by (apply Z.div_pos; lia).
  pose proof (Z.mul_div_le (a + 90000 - t0) 20000 ltac:(lia)).
  pose proof (Z.mul_succ_div_gt (a + 90000 - t0) 20000 ltac:(lia)).
  assert (Hk : tick_ms t0 k = t0 + ((a + 90000 - t0) / 20000 + 1) * 20000).
  { unfold tick_ms, k. rewrite Z2Nat.id by lia. done. }
  exists k. split; [rewrite Hk; lia|]. intros j Hj.
  destruct (heartbeat_verdict wk w s (tick_ms t0 j) Hb) as (w' & s' & Hs & Hv); [fold a; lia|].
  exists w', s'. split; [done|]. rewrite Hv, bool_decide_eq_true. fold a. unfold IDLE_TIMEOUT_MS.
  unfold tick_ms in *. change (HEARTBEAT_INTERVAL / 10 ^ 6) with 20000 in *. unfold k in *. lia.
Qed.
End Invariants.

(** ** Witnesses *)

Abbreviation sample_run :=
  (@run_node map_redis (calm_env toy_clock) binary_uuids hex_rfc3339 plain_wire toy_libm toy_map_order list_jetstream).

Definition sample_auth : Authorized := MkAuthorized "tkrt" toy_center.
Definition sample_ack (t : DateTime) : ClientFrame :=
  CText (client_message_json (Wire := plain_wire) (Ack (uuid_of_N 7) t)).

(** Device 5 connects twice; the first connection is told to close and ends. The
    client acknowledges two alerts on the second one. *)
Definition sample_events : list (@Event map_redis) :=
  [NOpen dev5 sample_auth; NSession 0 (AHandler true 100); NOpen dev5 sample_auth;
   NSession 1 (AHandler true 200); NSession 0 (AWriter (WRecv (Some OClose)) true);
   NSession 0 (AHandler true 0); NSession 0 (AHandler true 0); NSession 0 (AHandler true 0);
   NSession 1 (AReader (sample_ack 5000) 300 0); NSession 1 AStore;
   NSession 1 (AReader (sample_ack 7000) 400 10); NSession 1 (AReader CClose 500 20)].

(** Then the client has left, and the handler cleans up. *)
Definition sample_cleanup : list (@Event map_redis) :=
  [NSession 1 (AHandler false 0); NSession 1 (AHandler false 0); NSession 1 (AHandler false 0);
   NSession 1 (AHandler false 0); NSession 1 (AHandler false 0); NSession 1 (AHandler false 0)].

Definition sample_start : @Node map_redis := idle_node sample_worker ws_world.

(** A run and a decidable fact of where it ends. *)
Lemma run_result {R : RedisServer} (o : option Node) (P : Node → bool) :
  match o with Some n => P n | None => false end = true → ∃ n, o = Some n ∧ P n = true.
Proof. destruct o; [eauto|done]. Qed.

Definition is_done (s : Session) : bool := match ss_phase s with PhDone => true | _ => false end.
Definition is_serving (s : Session) : bool := match ss_phase s with PhServing => true | _ => false end.

Lemma is_done_true s : is_done s = true → ss_phase s = PhDone.
Proof. unfold is_done. by destruct (ss_phase s). Qed.
Lemma is_serving_true s : is_serving s = true → ss_phase s = PhServing.
Proof. unfold is_serving. by destruct (ss_phase s). Qed.

Lemma sample_ends :
  ∃ n, sample_run (sample_events ++ sample_cleanup) sample_start = Some n ∧
    forallb is_done (nd_sessions n) = true.
Proof. apply run_result. vm_compute. reflexivity. Qed.

(** The two halves of the run, and the second connection in between and at the end. *)
Definition halfway (n : @Node map_redis) : bool :=
  match nd_sessions n !! 1%nat with
  | Some s => is_serving s && negb (ss_reader s) && (next_id (wk_registry (nd_worker n)) <=? 10)
  | None => false
  end.
Definition at_end (n : @Node map_redis) : bool :=
  match nd_sessions n !! 1%nat with
  | Some s => is_done s && bool_decide (ss_accepted s = [5000; 7000])
  | None => false
  end.

Lemma sample_halves : ∃ n n' s s',
  sample_run sample_events sample_start = Some n ∧ sample_run sample_cleanup n = Some n' ∧
  nd_sessions n !! 1%nat = Some s ∧ nd_sessions n' !! 1%nat = Some s' ∧
  is_serving s = true ∧ (next_id (wk_registry (nd_worker n)) <=? 10) = true ∧ ss_reader s = false ∧
  is_done s' = true ∧ ss_accepted s' = [5000; 7000].
Proof.
  destruct (run_result (sample_run sample_events sample_start) halfway) as (n & H1 & Hn);
    [vm_compute; reflexivity|].
  destruct (run_result (sample_run (sample_events ++ sample_cleanup) sample_start) at_end) as (n' & H2 & Hn');
    [vm_compute; reflexivity|].
  rewrite run_node_app, H1 in H2. cbn [mbind option_bind] in H2.
  unfold halfway in Hn. destruct (nd_sessions n !! 1%nat) as [s|] eqn:Hi; [|done].
  unfold at_end in Hn'. destruct (nd_sessions n' !! 1%nat) as [s'|] eqn:Hi'; [|done].
  apply andb_true_iff in Hn as [[Hs Hr]%andb_true_iff Hid]. apply andb_true_iff in Hn' as [Hd Ha].
  apply negb_true_iff in Hr. apply bool_decide_eq_true_1 in Ha. exists n, n', s, s'.
  exact (conj H1 (conj H2 (conj Hi (conj Hi' (conj Hs (conj Hid (conj Hr (conj Hd Ha)))))))).
Qed.

Lemma no_connection_leaks_witness :
  ∃ n, sample_run (sample_events ++ sample_cleanup) sample_start = Some n ∧
    ConnectionRegistry_connection_count (wk_registry (nd_worker n)) = 0%nat.
Proof.
  destruct sample_ends as (n & Hrun & Hdone). exists n. split; [exact Hrun|].
  apply (@no_connection_leaks map_redis (calm_env toy_clock) binary_uuids hex_rfc3339 plain_wire toy_libm
    toy_map_order list_jetstream (sample_events ++ sample_cleanup) sample_worker ws_world n eq_refl Hrun).
  intros i s Hs. apply is_done_true. rewrite forallb_forall in Hdone. apply Hdone.
  apply list_elem_of_In. by eapply list_elem_of_lookup_2.
Defined.

Lemma handler_finishes_witness :
  ∃ n n' s', sample_run sample_events sample_start = Some n ∧ sample_run sample_cleanup n = Some n' ∧
    nd_sessions n' !! 1%nat = Some s' ∧ (handler_turns 1 sample_cleanup + turns_left (ss_phase s') ≤ 6)%nat.
Proof.
  destruct sample_halves as (n & n' & s & s' & H1 & H2 & Hi & Hi' & Hs & Hn & _). exists n, n'.
  apply is_serving_true in Hs.
  destruct (@handler_finishes map_redis (calm_env toy_clock) binary_uuids hex_rfc3339 plain_wire toy_libm
    toy_map_order list_jetstream sample_cleanup n n' 1 s) as (s2 & Hi2 & [Hle _] & _).
  - apply (@run_node_wf map_redis (calm_env toy_clock) binary_uuids hex_rfc3339 plain_wire toy_libm
      toy_map_order list_jetstream sample_events sample_start); [apply idle_node_wf|done|exact H1].
  - apply Z.leb_le in Hn. cbn [length sample_cleanup]. lia.
  - exact Hi.
  - exact H2.
  - exists s2. rewrite Hs in Hle. exact (conj H1 (conj H2 (conj Hi2 Hle))).
Defined.

Lemma departed_client_acks_stored_witness :
  ∃ n' s', sample_run (sample_events ++ sample_cleanup) sample_start = Some n' ∧
    nd_sessions n' !! 1%nat = Some s' ∧ ss_accepted s' = [5000; 7000] ∧
    covers (ss_stored s') (ss_accepted s').
Proof.
  destruct sample_halves as (n & n' & s & s' & H1 & H2 & Hi & Hi' & Hs & _ & Hr & Hd & Ha).
  exists n', s'. split; [rewrite run_node_app, H1; exact H2|]. split; [exact Hi'|]. split; [exact Ha|].
  apply (@departed_client_acks_stored map_redis (calm_env toy_clock) binary_uuids hex_rfc3339 plain_wire
    toy_libm toy_map_order list_jetstream sample_events sample_cleanup sample_worker ws_world n n' 1 s s' H1 Hi
    (or_introl (is_serving_true _ Hs)) Hr H2 Hi' (is_done_true _ Hd)).
Defined.

Lemma idle_connection_closed_witness :
  ∃ k, 1000 + 90000 < tick_ms 0 k ≤ 1000 + 110000.
Proof.
  destruct (@idle_connection_closed map_redis (calm_env toy_clock) binary_uuids sample_worker ws_world
    (MkSession dev5 sample_auth 1 0 0 PhServing true true true None
       (MkSocket 1000 (AckBatcher_new ACK_MIN_INTERVAL)) None [] [] [] []) 0 eq_refl ltac:(done)) as (k & Hk & _).
  exists k. exact Hk.
Defined.
