(* ===== verification/Delivery.v ===== *)
(** * From the queue to the socket

    What the writer of a connection (crates/fanout-worker/src/ws.rs) sends of what
    the rest of the worker queues for it: the messages of subscriber.rs and
    control.rs are events of a node, and a running writer sends its queue in
    order, without loss, whatever else happens on the worker. With it goes what the
    replay task queues (replay.rs): a replayed alert is sent. *)

From S2P Require Import Prelude F64 Str Errors Metrics Geo Domain Auth Configs Registry Redis World.
From S2P Require Import Interleave Stores Lease Nats Worker Replay Fanout Ws Session.

Open Scope Z_scope.

(** ** Queues only grow at the end *)

(** The connection got [l] into its queue, and is open or closed as before. *)
Definition grown (c c' : Connection) (l : list Outbound) : Prop :=
  c_queue c' = c_queue c ++ l ∧ c_rx_open c' = c_rx_open c.

Lemma grown_refl c : grown c c [].
Proof. split; [by rewrite app_nil_r|done]. Qed.

Lemma grown_trans c1 c2 c3 l l' : grown c1 c2 l → grown c2 c3 l' → grown c1 c3 (l ++ l').
Proof. intros [H1 H2] [H3 H4]. split; [by rewrite H3, H1, (assoc_L app)|congruence]. Qed.

#[export] Hint Resolve grown_refl : pulse.

(** The connection behind [p], if any, keeps what is queued. *)
Definition grows (p : nat) (reg reg' : ConnectionRegistry) : Prop :=
  ∀ c, heap reg !! p = Some c → ∃ c' l, heap reg' !! p = Some c' ∧ grown c c' l.

Lemma grows_heap p reg reg' : heap reg' !! p = heap reg !! p → grows p reg reg'.
Proof. intros Hh c Hc. exists c, []. rewrite Hh. auto with pulse. Qed.

Lemma grows_trans p reg1 reg2 reg3 : grows p reg1 reg2 → grows p reg2 reg3 → grows p reg1 reg3.
Proof.
  intros H12 H23 c Hc. destruct (H12 c Hc) as (c2 & l2 & Hc2 & Hq2).
  destruct (H23 c2 Hc2) as (c3 & l3 & Hc3 & Hq3). eauto using grown_trans.
Qed.

Lemma try_send_grown c m : ∃ l, grown c (try_send c m).1 l.
Proof. unfold try_send. repeat case_match; cbn; eauto with pulse. by exists [m]. Qed.

Lemma send_to_grows p reg q m : grows p reg (send_to reg q m).1.
Proof.
  intros c Hc. unfold send_to. destruct (heap reg !! q) as [cq|] eqn:Hq; [|cbn; eauto with pulse].
  destruct (try_send_grown cq m) as [l Hl]. destruct (try_send cq m) as [cq' r]. cbn in *.
  destruct (decide (q = p)) as [->|Hne].
  - exists cq', l. rewrite lookup_insert_eq. split; [done|]. by simplify_eq.
  - rewrite lookup_insert_ne by done. eauto with pulse.
Qed.

Section Delivery.
Context {L : Libm} {MO : MapOrder Uuid nat}.

Lemma register_grows p reg d s loc :
  coherent reg → grows p reg (ConnectionRegistry_register reg d s loc).1.
Proof.
  intros Hc c Hp. destruct (ConnectionRegistry_register reg d s loc) as [reg' rg] eqn:Hr.
  apply register_effect in Hr as (_ & _ & Hh & _); [|done]. cbn [fst]. rewrite Hh.
  rewrite lookup_insert_ne.
  2:{ intros Hf. apply (is_fresh (dom (heap reg))). rewrite Hf. by apply elem_of_dom. }
  unfold close_previous. destruct (by_device reg !! d) as [q|]; [|eauto with pulse].
  destruct (decide (q = p)) as [->|Hne].
  - destruct (try_send_grown c OClose) as [l Hl]. exists (try_send c OClose).1, l.
    by rewrite lookup_alter_eq, Hp.
  - rewrite lookup_alter_ne by done. eauto with pulse.
Qed.

Lemma deregister_grows p reg d id : coherent reg → grows p reg (ConnectionRegistry_deregister reg d id).1.
Proof.
  intros Hc. destruct (ConnectionRegistry_deregister reg d id) as [reg' b] eqn:Hr. cbn.
  apply deregister_effect in Hr as [(_ & _ & _ & Hh & _)|(_ & -> & _)]; [|by apply grows_heap|done].
  apply grows_heap. by rewrite Hh.
Qed.

Lemma deliver_grown alert payload c : ∃ l, grown c (deliver alert payload c) l.
Proof. unfold deliver. case_match; [apply try_send_grown|eauto with pulse]. Qed.

Lemma delivery_grows p reg op : coherent reg → is_delivery op → grows p reg (apply_op reg op).1.
Proof.
  intros Hc. destruct op as [d s loc|d id|s alert payload|d loc|d text close|]; try done; intros _; cbn [apply_op].
  - unfold ConnectionRegistry_broadcast_to_shard.
    destruct (by_shard reg !! s) as [m|] eqn:Hs; [|by apply grows_heap].
    destruct (shard_ptrs _ _ _ Hc Hs) as (Hnd & _ & Hsome).
    destruct (foldl _ _ _) as [h r] eqn:Hf. apply broadcast_loop in Hf as [Hh _]; [|done..].
    intros c Hp. cbn. rewrite Hh, Hp. case_decide; [|eauto with pulse].
    destruct (deliver_grown alert payload c) as [l Hl]. cbn. eauto.
  - unfold ConnectionRegistry_update_location. destruct (by_device reg !! d) as [q|]; [|by apply grows_heap].
    intros c Hp. cbn. destruct (decide (q = p)) as [->|].
    + rewrite lookup_alter_eq, Hp. eexists _, []. split; [done|]. exact (grown_refl c).
    + rewrite lookup_alter_ne by done. eauto with pulse.
  - unfold ConnectionRegistry_send_control. destruct (by_device reg !! d) as [q|]; [|by apply grows_heap].
    pose proof (send_to_grows p reg q (OControl text close)) as Hg.
    pose proof (send_to_coherent reg q (OControl text close) Hc) as Hc1.
    destruct (send_to reg q _) as [reg1 sent]. cbn [fst] in *.
    destruct (_ && close); [|done]. destruct (heap reg !! q) as [conn|]; [|done]. cbn [fst].
    eapply grows_trans; [exact Hg|]. by apply deregister_grows.
  - unfold ConnectionRegistry_close_all. set (l := (map_iter (by_device reg)).*2). clearbody l.
    intros c. cbn. revert c. change (grows p reg (foldl (λ r q, (send_to r q OClose).1) reg l)).
    revert reg Hc. induction l as [|q l IH]; intros reg Hc; [by apply grows_heap|]. cbn [foldl].
    eapply grows_trans; [apply send_to_grows|]. apply IH. by apply send_to_coherent.
Qed.
End Delivery.

(** ** The writer sends its queue *)

Section Writer.
Context {R : RedisServer} {E : Env} {UC : UuidCodec} {F : Rfc3339} {W : Wire} {L : Libm}
  {MO : MapOrder Uuid nat} {J : JetStream}.

(** The text and binary frames a connection has sent. *)
Definition sent_data (s : Session) : list Frame := filter (λ f, is_data f = true) (ss_frames s).

Lemma recv_other p reg q : p ≠ q → heap (recv reg q).1 !! p = heap reg !! p.
Proof.
  intros Hne. unfold recv. destruct (heap reg !! q) as [c|]; [|done]. destruct (c_queue c); [done|].
  cbn. by rewrite lookup_insert_ne.
Qed.

Lemma writer_takes_heap ev reg s reg' :
  writer_takes ev reg s = Some reg' →
  (reg' = reg ∧ ∀ m, ev ≠ WRecv (Some m)) ∨
  ∃ m, ev = WRecv (Some m) ∧ recv reg (ss_receiver s) = (reg', Some m).
Proof.
  unfold writer_takes. destruct ev as [|[m|]|].
  - destruct (shutting_down s); [|done]. intros [= <-]. by left.
  - destruct (recv reg (ss_receiver s)) as [reg1 [m'|]]; [|done]. case_decide; [|done].
    subst. intros [= <-]. right. eauto.
  - destruct (recv reg (ss_receiver s)) as [reg1 [m'|]]; [done|]. destruct (no_sender reg s); [|done].
    intros [= <-]. by left.
  - intros [= <-]. by left.
Qed.

Lemma handler_gives_back p reg d id reg' b :
  coherent reg → ConnectionRegistry_deregister reg d id = (reg', b) → grows p reg reg'.
Proof. intros Hc Hr. pose proof (deregister_grows p reg d id Hc) as Hg. by rewrite Hr in Hg. Qed.

(** A step of another connection. *)
Lemma other_step_grows p a wk w t wk' w' t' :
  coherent (wk_registry wk) → p ≠ ss_receiver t → session_step a wk w t = Some (wk', w', t') →
  grows p (wk_registry wk) (wk_registry wk').
Proof.
  intros Hc Hne. assert (Hsame : grows p (wk_registry wk) (wk_registry wk)) by (by apply grows_heap).
  destruct a as [b now_ms|ev sent|frame now_ms mono| |now_ms| | |[]]; cbn [session_step].
  - unfold handler_step. destruct (ss_phase t) as [| | |[c|]| | | |]; repeat case_match; intros; simplify_eq;
      try done; by eapply handler_gives_back.
  - unfold writer_round, end_writer. destruct (ss_writer t); [|done].
    destruct (writer_takes _ _ _) as [reg|] eqn:Ht; [|done].
    assert (Hreg : heap reg !! p = heap (wk_registry wk) !! p).
    { apply writer_takes_heap in Ht as [[-> _]|(m & _ & Hr)]; [done|].
      change reg with (reg, Some m).1. rewrite <- Hr. by apply recv_other. }
    destruct (writer_step ev sent) as [fs [|]]; intros; simplify_eq; apply grows_heap; [done|].
    cbn. by rewrite lookup_alter_ne.
  - unfold reader_round. repeat case_match; intros; simplify_eq; done.
  - unfold reader_stores. repeat case_match; intros; simplify_eq; done.
  - unfold heartbeat_round. repeat case_match; intros; simplify_eq; done.
  - intros Hs. destruct (replay_effect _ _ _ _ _ _ (or_introl Hs)) as [_ [->|(q & u & m & _ & ->)]];
      [done|apply send_to_grows].
  - intros Hs. destruct (replay_effect _ _ _ _ _ _ (or_intror Hs)) as [_ [->|(q & u & m & _ & ->)]];
      [done|apply send_to_grows].
  - unfold task_ends, end_writer. repeat case_match; intros; simplify_eq;
      apply grows_heap; cbn; by rewrite lookup_alter_ne.
  - unfold task_ends. repeat case_match; intros; simplify_eq; done.
  - unfold task_ends. repeat case_match; intros; simplify_eq; done.
  - unfold task_ends. repeat case_match; intros; simplify_eq; done.
Qed.

(** The queue moved on by [recv], what was received was sent, and [new] was added. *)
Definition moved_on (s s' : Session) (reg reg' : ConnectionRegistry) : Prop :=
  ∀ c, heap reg !! ss_receiver s = Some c →
    ∃ c' received new, heap reg' !! ss_receiver s = Some c' ∧
      c_queue c ++ new = received ++ c_queue c' ∧ c_rx_open c' = c_rx_open c ∧
      sent_data s' = sent_data s ++ omap outbound_frame received.

Lemma moved_on_grows s s' reg reg' :
  ss_frames s' = ss_frames s → grows (ss_receiver s) reg reg' → moved_on s s' reg reg'.
Proof.
  intros Hf Hg c Hc. destruct (Hg c Hc) as (c' & l & Hc' & Hq & Hx). exists c', [], l.
  unfold sent_data. rewrite Hf, Hq, app_nil_r. done.
Qed.

Lemma moved_on_trans s1 s2 s3 reg1 reg2 reg3 :
  ss_receiver s2 = ss_receiver s1 →
  moved_on s1 s2 reg1 reg2 → moved_on s2 s3 reg2 reg3 → moved_on s1 s3 reg1 reg3.
Proof.
  intros Hp H12 H23 c Hc. destruct (H12 c Hc) as (c2 & r1 & n1 & Hc2 & Hq1 & Hx1 & Hs1).
  rewrite <- Hp in Hc2. destruct (H23 c2 Hc2) as (c3 & r2 & n2 & Hc3 & Hq2 & Hx2 & Hs2).
  rewrite Hp in Hc3. exists c3, (r1 ++ r2), (n1 ++ n2). split_and!; [done| |congruence|].
  - by rewrite (assoc_L app), Hq1, <- (assoc_L app), Hq2, (assoc_L app).
  - by rewrite Hs2, Hs1, omap_app, (assoc_L app).
Qed.

(** A writer that is still running after a round has sent what it took. *)
Lemma own_round_moves ev sent wk w s wk' w' s' :
  writer_round ev sent wk w s = Some (wk', w', s') → ss_writer s' = true →
  moved_on s s' (wk_registry wk) (wk_registry wk').
Proof.
  unfold writer_round, end_writer. destruct (ss_writer s); [|done].
  destruct (writer_takes _ _ _) as [reg|] eqn:Ht; [|done].
  destruct (writer_step ev sent) as [fs go] eqn:Hw. destruct go; intros; simplify_eq/=.
  apply writer_takes_heap in Ht as [[-> Hno]|(m & -> & Hr)]; intros c Hc.
  - exists c, [], []. rewrite !app_nil_r. split_and!; [done|done|done|]. unfold sent_data. cbn.
    assert (Hd : filter (λ f, is_data f = true) fs = []).
    { destruct ev as [|[m|]|]; cbn in Hw; simplify_eq; try done. by destruct (Hno m). }
    by rewrite filter_app, Hd, app_nil_r.
  - unfold recv in Hr. rewrite Hc in Hr. destruct (c_queue c) as [|m' q] eqn:Hq; [done|].
    injection Hr as <- <-. eexists _, [m'], []. cbn. rewrite lookup_insert_eq. split; [done|].
    split; [by rewrite app_nil_r|]. split; [done|]. unfold sent_data. cbn. rewrite filter_app. f_equal.
    destruct m' as [b|t cl|]; cbn in Hw; [|destruct cl, sent|]; cbn in Hw; simplify_eq; done.
Qed.

Lemma own_step_moves a wk w s wk' w' s' :
  coherent (wk_registry wk) → session_step a wk w s = Some (wk', w', s') → ss_writer s' = true →
  moved_on s s' (wk_registry wk) (wk_registry wk').
Proof.
  intros Hc Hs Hw. destruct a as [b now_ms|ev sent|frame now_ms mono| |now_ms| | |t]; cbn [session_step] in Hs.
  - apply moved_on_grows; revert Hs; unfold handler_step, stop_tasks;
      destruct (ss_phase s) as [| | |[c|]| | | |]; repeat case_match; intros; simplify_eq; cbn;
      rewrite ?app_nil_r; try done; first [by apply grows_heap|by eapply handler_gives_back].
  - by eapply own_round_moves.
  - apply moved_on_grows; revert Hs; unfold reader_round; repeat case_match; intros; simplify_eq;
      done || by apply grows_heap.
  - apply moved_on_grows; revert Hs; unfold reader_stores; repeat case_match; intros; simplify_eq;
      done || by apply grows_heap.
  - apply moved_on_grows; revert Hs; unfold heartbeat_round; repeat case_match; intros; simplify_eq;
      done || by apply grows_heap.
  - destruct (replay_effect _ _ _ _ _ _ (or_introl Hs)) as [(r & -> & _) [->|(q & u & m & _ & ->)]];
      (apply moved_on_grows; [done|]); [by apply grows_heap|apply send_to_grows].
  - destruct (replay_effect _ _ _ _ _ _ (or_intror Hs)) as [(r & -> & _) [->|(q & u & m & _ & ->)]];
      (apply moved_on_grows; [done|]); [by apply grows_heap|apply send_to_grows].
  - unfold task_ends, end_writer in Hs.
    set (aborted := match ss_phase s with PhOpening | PhServing | PhGrace => false | _ => true end) in Hs.
    clearbody aborted. destruct t, aborted; simplify_eq/=;
      (apply moved_on_grows; [done|by apply grows_heap]).
Qed.

(** *** Along a run *)

(** The writer has ended, or was never started because it is too late to. *)
Definition writer_over (s : Session) : Prop := ss_writer s = false ∧ ss_phase s ≠ PhOpening.

Lemma session_writer_over a wk w s wk' w' s' :
  writer_over s → session_step a wk w s = Some (wk', w', s') → writer_over s'.
Proof.
  intros [Hw Hph]. destruct a as [b now_ms|ev sent|frame now_ms mono| |now_ms| | |t]; cbn [session_step];
    unfold writer_over.
  - unfold handler_step, stop_tasks. destruct (ss_phase s) as [| | |[c|]| | | |] eqn:Hp; try done;
      repeat case_match; intros; simplify_eq; done.
  - unfold writer_round. by rewrite Hw.
  - unfold reader_round. repeat case_match; intros; simplify_eq; done.
  - unfold reader_stores. repeat case_match; intros; simplify_eq; done.
  - unfold heartbeat_round. repeat case_match; intros; simplify_eq; done.
  - intros Hs. by destruct (replay_effect _ _ _ _ _ _ (or_introl Hs)) as [(r & -> & _) _].
  - intros Hs. by destruct (replay_effect _ _ _ _ _ _ (or_intror Hs)) as [(r & -> & _) _].
  - unfold task_ends, end_writer.
    set (aborted := match ss_phase s with PhOpening | PhServing | PhGrace => false | _ => true end).
    clearbody aborted. destruct t, aborted; intros; simplify_eq; done.
Qed.

(** A step that is not the connection's own. *)
Lemma node_step_grows ev n n' i s :
  node_wf n → node_step ev n = Some n' → nd_sessions n !! i = Some s → (∀ a, ev ≠ NSession i a) →
  nd_sessions n' !! i = Some s ∧ grows (ss_receiver s) (wk_registry (nd_worker n)) (wk_registry (nd_worker n')).
Proof.
  destruct n as [wk w l]. intros Hwf. pose proof (nw_coherent _ Hwf) as Hc. cbn [nd_worker nd_sessions] in *.
  destruct ev as [d auth|j a|op|f| |w0]; cbn [node_step nd_worker nd_world nd_sessions].
  - pose proof (register_grows (ss_receiver s) (wk_registry wk) d (au_shard_prefix auth) (au_location auth) Hc)
      as Hg. unfold open_session. destruct (ConnectionRegistry_register _ _ _ _) as [reg rg].
    cbn [utc_now]. intros [= <-] Hi _. split; [|exact Hg]. cbn. by rewrite lookup_app_l by (by eapply lookup_lt_Some).
  - destruct (l !! j) as [t|] eqn:Hj; [|done]. cbn.
    destruct (session_step a wk w t) as [[[wk' w'] t']|] eqn:Hs; [|done]. intros [= <-] Hi Hown. cbn in *.
    assert (Hne : j ≠ i) by (intros ->; by apply (Hown a)).
    rewrite list_lookup_insert_ne by done. split; [done|].
    eapply other_step_grows; [done| |exact Hs]. intros He. apply Hne. by eapply (nw_distinct _ Hwf j i).
  - destruct (is_delivery op) eqn:Hop; [|done]. intros [= <-] Hi _. split; [done|].
    apply delivery_grows; [done|by rewrite Hop].
  - intros [= <-] Hi _. split; [done|by apply grows_heap].
  - intros [= <-] Hi _. split; [done|by apply grows_heap].
  - intros [= <-] Hi _. split; [done|by apply grows_heap].
Qed.

(** The connection's own step. *)
Lemma node_step_own i a n n' s :
  node_step (NSession i a) n = Some n' → nd_sessions n !! i = Some s →
  ∃ s', session_step a (nd_worker n) (nd_world n) s = Some (nd_worker n', nd_world n', s') ∧
    nd_sessions n' !! i = Some s'.
Proof.
  cbn [node_step]. intros Hs Hi. rewrite Hi in Hs. cbn in Hs.
  destruct (session_step a _ _ s) as [[[wk' w'] s']|]; [|done]. injection Hs as <-. exists s'. split; [done|].
  cbn. by rewrite list_lookup_insert_eq by (by eapply lookup_lt_Some).
Qed.

Lemma own_or_other i (ev : Event) : (∃ a, ev = NSession i a) ∨ ∀ a, ev ≠ NSession i a.
Proof. destruct ev as [|j a| | | |]; try (by right). destruct (decide (j = i)) as [->|]; [eauto|right; congruence]. Qed.

Lemma node_step_moves ev n n' i s s' :
  node_wf n → node_step ev n = Some n' → nd_sessions n !! i = Some s → nd_sessions n' !! i = Some s' →
  ss_writer s' = true → moved_on s s' (wk_registry (nd_worker n)) (wk_registry (nd_worker n')).
Proof.
  intros Hwf Hs Hi Hi' Hw. destruct (own_or_other i ev) as [[a ->]|Hne].
  - destruct (node_step_own _ _ _ _ _ Hs Hi) as (s1 & Hs1 & Hi1). rewrite Hi' in Hi1. injection Hi1 as <-.
    eapply own_step_moves; [apply (nw_coherent _ Hwf)|exact Hs1|done].
  - destruct (node_step_grows _ _ _ _ _ Hwf Hs Hi Hne) as [Hi1 Hg]. rewrite Hi' in Hi1. injection Hi1 as <-.
    by apply moved_on_grows.
Qed.

Lemma run_moves evs n n' i s s' :
  node_wf n → next_id (wk_registry (nd_worker n)) + Z.of_nat (length evs) < 2 ^ 64 →
  run_node evs n = Some n' → nd_sessions n !! i = Some s → nd_sessions n' !! i = Some s' →
  ss_phase s ≠ PhOpening → ss_writer s' = true →
  moved_on s s' (wk_registry (nd_worker n)) (wk_registry (nd_worker n')).
Proof.
  revert n s. induction evs as [|ev evs IH]; intros n s Hwf Hn; cbn [run_node].
  { intros [= <-] Hi Hi' _ _. simplify_eq. apply moved_on_grows; [done|by apply grows_heap]. }
  cbn [length] in Hn. destruct (node_step ev n) as [n1|] eqn:Hs; [|done]. cbn [mbind option_bind].
  intros Hrun Hi Hi' Hop Hw. pose proof (node_wf_step _ _ _ Hwf ltac:(lia) Hs) as [Hwf1 Hn1].
  destruct (node_step_session _ _ _ _ _ (nw_coherent _ Hwf) Hs Hi) as (s1 & Hi1 & Hid & Hle).
  assert (Hop1 : ss_phase s1 ≠ PhOpening).
  { intros Hp. rewrite Hp in Hle. cbn in Hle. destruct (ss_phase s); cbn in Hle; done || lia. }
  assert (Hw1 : ss_writer s1 = true).
  { destruct (ss_writer s1) eqn:Hw1; [done|].
    destruct (run_keeps writer_over evs n1 n' i s1 session_writer_over Hrun Hi1) as (s2 & Hi2 & Hov & _);
      [by split|]. congruence. }
  eapply moved_on_trans; [|by eapply node_step_moves|by apply (IH n1 s1); [|lia|..]].
  apply Hid.
Qed.

(** C7: A running writer sends its queue. Take any connection past its opening and
    any run of the worker after which its writer is still running: the messages
    queued at the start, followed by those added in the run, are the messages the
    writer took, all of which it sent, in this order, each as one frame, followed
    by what is still queued. Nothing is lost, repeated or overtaken, whatever
    other connections and subscriptions do in between. *)
Theorem running_writer_sends_queue evs1 evs2 wk w n n' i s s' c :
  Z.of_nat (length (evs1 ++ evs2)) < 2 ^ 64 →
  run_node evs1 (idle_node wk w) = Some n → nd_sessions n !! i = Some s → ss_phase s ≠ PhOpening →
  heap (wk_registry (nd_worker n)) !! ss_receiver s = Some c →
  run_node evs2 n = Some n' → nd_sessions n' !! i = Some s' → ss_writer s' = true →
  ∃ c' received new, heap (wk_registry (nd_worker n')) !! ss_receiver s = Some c' ∧
    c_queue c ++ new = received ++ c_queue c' ∧
    sent_data s' = sent_data s ++ omap outbound_frame received.
Proof.
  intros Hlen Hrun1 Hi Hop Hc Hrun2 Hi' Hw. rewrite length_app in Hlen.
  destruct (run_node_bound evs1 (idle_node wk w) n (idle_node_wf wk w)) as [Hwf Hid];
    [cbn; lia|done|]. cbn [wk_registry nd_worker idle_node set_registry next_id ConnectionRegistry_new] in Hid.
  destruct (run_moves evs2 n n' i s s' Hwf ltac:(lia) Hrun2 Hi Hi' Hop Hw c Hc)
    as (c' & received & new & ? & ? & _ & ?). by exists c', received, new.
Qed.

(** ** The replay reaches the socket *)

(** A new connection runs no task yet, a running writer has its receiver, and a
    replay task sends to its own connection. *)
Record node_live (n : Node) : Prop := MkNodeLive {
  nl_new i s : nd_sessions n !! i = Some s → ss_phase s = PhOpening →
    ss_writer s = false ∧ ss_reader s = false ∧ ss_heartbeat s = false ∧ ss_replay s = None;
  nl_open i s : nd_sessions n !! i = Some s → ss_writer s = true ∨ ss_phase s = PhOpening →
    ∃ c, heap (wk_registry (nd_worker n)) !! ss_receiver s = Some c ∧ c_rx_open c = true;
  nl_replay i s p r : nd_sessions n !! i = Some s → ss_replay s = Some (p, r) → p = ss_receiver s;
}.

(** Before the handler's first stretch a connection takes no other step. *)
Lemma new_session_step a wk w s wk' w' s' :
  ss_phase s = PhOpening → ss_writer s = false ∧ ss_reader s = false ∧ ss_heartbeat s = false ∧ ss_replay s = None →
  session_step a wk w s = Some (wk', w', s') → ss_phase s' ≠ PhOpening.
Proof.
  intros Hp (Hw & Hr & Hb & Hre). destruct a as [b now_ms|ev sent|frame now_ms mono| |now_ms| | |t]; cbn [session_step];
    unfold handler_step, writer_round, reader_round, reader_stores, heartbeat_round, replay_round,
      replay_times_out, task_ends; rewrite ?Hp, ?Hw, ?Hr, ?Hb, ?Hre; try done.
  - destruct (PresenceRegistry_register _ _ _). by intros [= _ _ <-].
  - by destruct t.
Qed.

(** The sender a new connection's replay task gets is its own. *)
Lemma own_replay n i a wk' w' s s' p r :
  node_wf n → nd_sessions n !! i = Some s → (∀ q u, ss_replay s = Some (q, u) → q = ss_receiver s) →
  session_step a (nd_worker n) (nd_world n) s = Some (wk', w', s') → ss_replay s' = Some (p, r) →
  p = ss_receiver s'.
Proof.
  intros Hwf Hi Hown Hs. assert (Hrep : ∀ r0, s' = set_replay r0 s →
    r0 = None ∨ fst <$> r0 = fst <$> ss_replay s → ss_replay s' = Some (p, r) → p = ss_receiver s').
  { intros r0 -> [->|Hf] Hr; cbn in *; [done|]. subst r0.
    destruct (ss_replay s) as [[q u]|]; [|done]. injection Hf as ->. by eapply Hown. }
  destruct a as [b now_ms|ev sent|frame now_ms mono| |now_ms| | |t]; cbn [session_step] in Hs.
  - revert Hs. unfold handler_step, stop_tasks. destruct (ss_phase s) as [| | |[c|]| | | |] eqn:Hp; repeat case_match;
      intros; simplify_eq; cbn in *; try (by eapply Hown).
    destruct (ConnectionRegistry_sender_for _ _ _) as [q|] eqn:Hsf; [|done]. simplify_eq/=.
    unfold ConnectionRegistry_sender_for in Hsf. destruct (by_device _ !! _) as [q|]; [|done]. cbn in Hsf.
    destruct (heap _ !! q) as [c|] eqn:Hq; [|done]. cbn in Hsf. destruct (Z.eqb_spec (c_id c) (ss_conn_id s)) as [He|]; [|done].
    injection Hsf as ->. pose proof (nw_tag _ Hwf _ _ Hi) as Ht.
    eapply (coh_ids _ (nw_coherent _ Hwf)); [|exact Ht]. unfold meta_at. rewrite Hq, <- He. done.
  - revert Hs. unfold writer_round, end_writer. repeat case_match; intros; simplify_eq; cbn in *; by eapply Hown.
  - revert Hs. unfold reader_round. repeat case_match; intros; simplify_eq; cbn in *; by eapply Hown.
  - revert Hs. unfold reader_stores. repeat case_match; intros; simplify_eq; cbn in *; by eapply Hown.
  - revert Hs. unfold heartbeat_round. repeat case_match; intros; simplify_eq; cbn in *; by eapply Hown.
  - destruct (replay_effect _ _ _ _ _ _ (or_introl Hs)) as [(r0 & He & Hr0) _]. by eapply Hrep.
  - destruct (replay_effect _ _ _ _ _ _ (or_intror Hs)) as [(r0 & He & Hr0) _]. by eapply Hrep.
  - revert Hs. unfold task_ends, end_writer.
    set (aborted := match ss_phase s with PhOpening | PhServing | PhGrace => false | _ => true end).
    clearbody aborted. destruct t, aborted; intros; simplify_eq; cbn in *; done || by eapply Hown.
Qed.
Lemma node_live_own n i a n' s s' :
  node_wf n → node_live n → nd_sessions n !! i = Some s →
  session_step a (nd_worker n) (nd_world n) s = Some (nd_worker n', nd_world n', s') →
  node_step (NSession i a) n = Some n' → nd_sessions n' !! i = Some s' →
  (ss_phase s' ≠ PhOpening) ∧
  (ss_writer s' = true → ∃ c, heap (wk_registry (nd_worker n')) !! ss_receiver s' = Some c ∧ c_rx_open c = true) ∧
  (∀ p r, ss_replay s' = Some (p, r) → p = ss_receiver s').
Proof.
  intros Hwf [Hnew Hopen Hrep] Hi Hs Hn Hi'.
  destruct (node_step_session _ _ _ _ _ (nw_coherent _ Hwf) Hn Hi) as (s1 & Hi1 & (_ & _ & _ & Hrcv) & Hle).
  rewrite Hi' in Hi1. injection Hi1 as <-. split_and!.
  - destruct (decide (turns_left (ss_phase s) = 7)%nat) as [H7|H7].
    + assert (Hp : ss_phase s = PhOpening) by (by destruct (ss_phase s)).
      eapply new_session_step; [exact Hp|by apply (Hnew i)|exact Hs].
    + intros Hp. rewrite Hp in Hle. cbn in Hle. destruct (ss_phase s); cbn in *; lia.
  - intros Hw. destruct (Hopen i s Hi) as (c & Hc & Ho).
    { destruct (ss_writer s) eqn:Hw0; [by left|right].
      destruct (decide (turns_left (ss_phase s) = 7)%nat) as [H7|H7]; [by destruct (ss_phase s)|].
      assert (Hov : writer_over s) by (split; [done|]; intros Hp; by rewrite Hp in H7).
      destruct (session_writer_over _ _ _ _ _ _ _ Hov Hs) as [Hf _]. congruence. }
    destruct (node_step_moves _ _ _ _ _ _ Hwf Hn Hi Hi' Hw c Hc) as (c' & _ & _ & Hc' & _ & Ho' & _).
    exists c'. rewrite Hrcv. split; [done|congruence].
  - intros p r Hr. eapply own_replay; [exact Hwf|exact Hi| |exact Hs|exact Hr]. intros q u. by apply (Hrep i).
Qed.

Lemma node_live_step ev n n' :
  node_wf n → node_live n → node_step ev n = Some n' → node_live n'.
Proof.
  intros Hwf Hl Hn. pose proof Hl as [Hnew Hopen Hrep].
  assert (Hcase : ∀ i s', nd_sessions n' !! i = Some s' →
    (nd_sessions n !! i = Some s' ∧ grows (ss_receiver s') (wk_registry (nd_worker n)) (wk_registry (nd_worker n'))) ∨
    (ss_phase s' ≠ PhOpening ∧
     (ss_writer s' = true → ∃ c, heap (wk_registry (nd_worker n')) !! ss_receiver s' = Some c ∧ c_rx_open c = true) ∧
     (∀ p r, ss_replay s' = Some (p, r) → p = ss_receiver s')) ∨
    (ss_writer s' = false ∧ ss_reader s' = false ∧ ss_heartbeat s' = false ∧ ss_replay s' = None ∧
     ∃ c, heap (wk_registry (nd_worker n')) !! ss_receiver s' = Some c ∧ c_rx_open c = true)).
  { intros i s' Hi'. destruct (nd_sessions n !! i) as [s|] eqn:Hi.
    - destruct (own_or_other i ev) as [[a ->]|Hne].
      + right. left. destruct (node_step_own _ _ _ _ _ Hn Hi) as (s1 & Hs1 & Hi1).
        rewrite Hi' in Hi1. injection Hi1 as <-. by eapply node_live_own.
      + left. destruct (node_step_grows _ _ _ _ _ Hwf Hn Hi Hne) as [Hi1 Hg]. by simplify_eq.
    - right. right. destruct n as [wk w l]. destruct ev as [d auth|j a|op|f| |w0];
        cbn [node_step nd_worker nd_world nd_sessions] in *.
      + unfold open_session in Hn. destruct (ConnectionRegistry_register _ _ _ _) as [reg rg] eqn:Hreg.
        cbn [utc_now] in Hn. injection Hn as <-. cbn [nd_sessions nd_worker] in *.
        apply lookup_app_Some in Hi' as [Hi'|[_ Hi']]; [congruence|].
        apply list_lookup_singleton_Some in Hi' as [_ <-]. cbn. split_and!; [done..|].
        apply register_effect in Hreg as (-> & _ & Hh & _); [|apply (nw_coherent _ Hwf)]. cbn.
        rewrite Hh, lookup_insert_eq. eauto.
      + destruct (l !! j) as [t|] eqn:Hj; [|done]. cbn in Hn.
        destruct (session_step a wk w t) as [[[wk1 w1] t1]|]; [|done]. injection Hn as <-. cbn in *.
        apply list_lookup_insert_Some in Hi' as [(-> & _ & _)|[_ ?]]; congruence.
      + destruct (is_delivery op); [|done]. injection Hn as <-. cbn in *. congruence.
      + injection Hn as <-. cbn in *. congruence.
      + injection Hn as <-. cbn in *. congruence.
      + injection Hn as <-. cbn in *. congruence. }
  split.
  - intros i s' Hi' Hp. destruct (Hcase i s' Hi') as [[Hi _]|[(? & _)|(? & ? & ? & ? & _)]]; [by eapply Hnew|done|done].
  - intros i s' Hi' Hw. destruct (Hcase i s' Hi') as [[Hi Hg]|[(Hp & Ho & _)|(_ & _ & _ & _ & Ho)]]; [|naive_solver|done].
    destruct (Hopen i s' Hi Hw) as (c & Hc & Ho). destruct (Hg c Hc) as (c' & l & Hc' & _ & Ho').
    exists c'. split; [done|congruence].
  - intros i s' p r Hi' Hr. destruct (Hcase i s' Hi') as [[Hi _]|[(_ & _ & Ho)|(_ & _ & _ & Hn0 & _)]];
      [by eapply Hrep|by eapply Ho|congruence].
Qed.

Lemma run_node_live evs n n' :
  node_wf n → node_live n → next_id (wk_registry (nd_worker n)) + Z.of_nat (length evs) < 2 ^ 64 →
  run_node evs n = Some n' → node_live n'.
Proof.
  revert n. induction evs as [|ev evs IH]; intros n Hwf Hl Hn; cbn [run_node]; [by intros [= <-]|].
  cbn [length] in Hn. destruct (node_step ev n) as [n1|] eqn:Hs; [|done]. cbn [mbind option_bind].
  pose proof (node_wf_step _ _ _ Hwf ltac:(lia) Hs) as [Hwf1 Hn1]. apply IH; [done| |lia].
  exact (node_live_step ev n n1 Hwf Hl Hs).
Qed.

Lemma idle_node_live wk w : node_live (idle_node wk w).
Proof. split; intros i s; cbn; by rewrite lookup_nil. Qed.

(** A payload is on its way to the device, or has been sent. *)
Definition coming (b : Bytes) (s : Session) (c : Connection) : Prop :=
  (∃ rest k, ss_replay s = Some (ss_receiver s, RSend rest k) ∧ b ∈ rest) ∨
  OAlert b ∈ c_queue c ∨ FBinary b ∈ sent_data s.

Lemma coming_moves b s s' c c' received new :
  c_queue c ++ new = received ++ c_queue c' → sent_data s' = sent_data s ++ omap outbound_frame received →
  OAlert b ∈ c_queue c ++ new ∨ FBinary b ∈ sent_data s → coming b s' c'.
Proof.
  intros Hq Hs [Hin|Hin]; unfold coming; [|rewrite Hs, elem_of_app; auto].
  rewrite Hq in Hin. apply elem_of_app in Hin as [Hin|Hin]; [|auto].
  right. right. rewrite Hs, elem_of_app. right. apply list_elem_of_omap. by exists (OAlert b).
Qed.

(** A serving connection's replay stays where it is, except by its own step. *)
Lemma replay_kept a wk w s wk' w' s' :
  a ≠ AReplay → a ≠ AReplayTimeout → ss_phase s = PhServing → ss_phase s' = PhServing →
  session_step a wk w s = Some (wk', w', s') → ss_replay s' = ss_replay s.
Proof.
  intros Hr1 Hr2 Hp Hp' Hs. destruct a as [b now_ms|ev sent|frame now_ms mono| |now_ms| | |t]; cbn [session_step] in Hs; try done.
  - revert Hs Hp'. unfold handler_step, stop_tasks. rewrite Hp. repeat case_match; intros; simplify_eq; done.
  - revert Hs. unfold writer_round, end_writer. repeat case_match; intros; simplify_eq; done.
  - revert Hs. unfold reader_round. repeat case_match; intros; simplify_eq; done.
  - revert Hs. unfold reader_stores. repeat case_match; intros; simplify_eq; done.
  - revert Hs. unfold heartbeat_round. repeat case_match; intros; simplify_eq; done.
  - revert Hs. unfold task_ends. rewrite Hp. by destruct t.
Qed.

Lemma coming_step b ev n n' i s s' c :
  node_wf n → node_step ev n = Some n' → nd_sessions n !! i = Some s → nd_sessions n' !! i = Some s' →
  ev ≠ NSession i AReplayTimeout → ss_phase s = PhServing → ss_phase s' = PhServing → ss_writer s' = true →
  heap (wk_registry (nd_worker n)) !! ss_receiver s = Some c → c_rx_open c = true → coming b s c →
  ∃ c', heap (wk_registry (nd_worker n')) !! ss_receiver s' = Some c' ∧ c_rx_open c' = true ∧ coming b s' c'.
Proof.
  intros Hwf Hn Hi Hi' Hev Hp Hp' Hw Hc Ho Hcom.
  destruct (node_step_session _ _ _ _ _ (nw_coherent _ Hwf) Hn Hi) as (s1 & Hi1 & (_ & _ & _ & Hrcv) & _).
  rewrite Hi' in Hi1. injection Hi1 as <-.
  destruct (node_step_moves _ _ _ _ _ _ Hwf Hn Hi Hi' Hw c Hc) as (c' & received & new & Hc' & Hq & Ho' & Hsent).
  exists c'. rewrite Hrcv. split; [done|]. split; [congruence|].
  destruct Hcom as [(rest & k & Hr & Hin)|Hcom].
  2:{ eapply coming_moves; [done..|]. rewrite elem_of_app. tauto. }
  assert (Hkeep : ss_replay s' = ss_replay s → coming b s' c') by (intros He; left; exists rest, k; by rewrite He, Hrcv).
  destruct (own_or_other i ev) as [[a ->]|Hne].
  2:{ destruct (node_step_grows _ _ _ _ _ Hwf Hn Hi Hne) as [Hi1 _]. apply Hkeep. congruence. }
  destruct (node_step_own _ _ _ _ _ Hn Hi) as (s1 & Hs1 & Hi1). rewrite Hi' in Hi1. injection Hi1 as <-.
  assert (a = AReplay ∨ a ≠ AReplay) as [->|Ha] by (destruct a; (by left) || by right).
  2:{ apply Hkeep. eapply replay_kept; try done; congruence. }
  cbn [session_step] in Hs1. unfold replay_round in Hs1. rewrite Hr in Hs1.
  destruct rest as [|payload rest]; [by apply not_elem_of_nil in Hin|].
  unfold send_to in Hs1. rewrite Hc in Hs1. unfold try_send in Hs1. rewrite Ho in Hs1. cbn [negb] in Hs1.
  destruct (_ <=? _); [done|]. injection Hs1 as Hwk _ <-.
  apply elem_of_cons in Hin as [->|Hin].
  - eapply coming_moves; [done..|]. left. rewrite Hq. apply elem_of_app. right.
    rewrite <- Hwk in Hc'. cbn in Hc'. rewrite lookup_insert_eq in Hc'. injection Hc' as <-. cbn. set_solver.
  - left. exists rest, (k + 1). by split.
Qed.

(** The handler has left its select. *)
Definition past_serving (s : Session) : Prop := (turns_left (ss_phase s) ≤ 5)%nat.

Lemma session_past_serving a wk w s wk' w' s' :
  past_serving s → session_step a wk w s = Some (wk', w', s') → past_serving s'.
Proof.
  unfold past_serving. intros Hp. assert (Hle : ss_phase s' = ss_phase s → (turns_left (ss_phase s') ≤ 5)%nat) by (by intros ->).
  destruct a as [b now_ms| | | | | | |t]; cbn [session_step]; intros Hs;
    [apply handler_turn in Hs as [_ ?]; lia|apply Hle; clear Hle..].
  - revert Hs. unfold writer_round, end_writer. repeat case_match; intros; simplify_eq; done.
  - revert Hs. unfold reader_round. repeat case_match; intros; simplify_eq; done.
  - revert Hs. unfold reader_stores. repeat case_match; intros; simplify_eq; done.
  - revert Hs. unfold heartbeat_round. repeat case_match; intros; simplify_eq; done.
  - by destruct (replay_effect _ _ _ _ _ _ (or_introl Hs)) as [(r & -> & _) _].
  - by destruct (replay_effect _ _ _ _ _ _ (or_intror Hs)) as [(r & -> & _) _].
  - revert Hs. unfold task_ends, end_writer.
    set (aborted := match ss_phase s with PhOpening | PhServing | PhGrace => false | _ => true end).
    clearbody aborted. destruct t, aborted; intros; simplify_eq; done.
Qed.

Lemma serving_before evs n n' i s s' :
  run_node evs n = Some n' → nd_sessions n !! i = Some s → nd_sessions n' !! i = Some s' →
  ss_phase s ≠ PhOpening → ss_phase s' = PhServing → ss_phase s = PhServing.
Proof.
  intros Hrun Hi Hi' Hop Hp'. destruct (decide (turns_left (ss_phase s) ≤ 5)%nat) as [Hle|Hle].
  - destruct (run_keeps past_serving evs n n' i s session_past_serving Hrun Hi Hle) as (t & Ht & Hpt).
    rewrite Hi' in Ht. injection Ht as <-. unfold past_serving in Hpt. rewrite Hp' in Hpt. cbn in Hpt. lia.
  - destruct (ss_phase s); cbn in Hle; done || lia.
Qed.

Lemma writing_before evs n n' i s s' :
  run_node evs n = Some n' → nd_sessions n !! i = Some s → nd_sessions n' !! i = Some s' →
  ss_phase s ≠ PhOpening → ss_writer s' = true → ss_writer s = true.
Proof.
  intros Hrun Hi Hi' Hop Hw'. destruct (ss_writer s) eqn:Hw; [done|].
  destruct (run_keeps writer_over evs n n' i s session_writer_over Hrun Hi) as (t & Ht & Hov & _);
    [by split|]. congruence.
Qed.

Lemma run_coming b evs n n' i s s' c :
  node_wf n → next_id (wk_registry (nd_worker n)) + Z.of_nat (length evs) < 2 ^ 64 →
  run_node evs n = Some n' → nd_sessions n !! i = Some s → nd_sessions n' !! i = Some s' →
  NSession i AReplayTimeout ∉ evs → ss_phase s = PhServing → ss_phase s' = PhServing → ss_writer s' = true →
  heap (wk_registry (nd_worker n)) !! ss_receiver s = Some c → c_rx_open c = true → coming b s c →
  ∃ c', heap (wk_registry (nd_worker n')) !! ss_receiver s' = Some c' ∧ coming b s' c'.
Proof.
  revert n s c. induction evs as [|ev evs IH]; intros n s c Hwf Hn; cbn [run_node].
  { intros [= <-] Hi Hi' _ _ _ _ Hc _ Hcom. simplify_eq. eauto. }
  cbn [length] in Hn. destruct (node_step ev n) as [n1|] eqn:Hs; [|done]. cbn [mbind option_bind].
  intros Hrun Hi Hi' [Hev Hevs]%not_elem_of_cons Hp Hp' Hw Hc Ho Hcom.
  pose proof (node_wf_step _ _ _ Hwf ltac:(lia) Hs) as [Hwf1 Hn1].
  destruct (node_step_session _ _ _ _ _ (nw_coherent _ Hwf) Hs Hi) as (s1 & Hi1 & _ & Hle).
  assert (Hop1 : ss_phase s1 ≠ PhOpening).
  { intros Hp1. rewrite Hp1, Hp in Hle. cbn in Hle. case_match; lia. }
  pose proof (serving_before evs n1 n' i s1 s' Hrun Hi1 Hi' Hop1 Hp') as Hp1.
  pose proof (writing_before evs n1 n' i s1 s' Hrun Hi1 Hi' Hop1 Hw) as Hw1.
  destruct (coming_step b ev n n1 i s s1 c Hwf Hs Hi Hi1 ltac:(congruence) Hp Hp1 Hw1 Hc Ho Hcom)
    as (c1 & Hc1 & Ho1 & Hcom1).
  by apply (IH n1 s1 c1 Hwf1 ltac:(lia)).
Qed.

(** A replayed alert is sent to the returning device. Take any connection that
    is being served and whose replay task has fetched the missed alerts and still
    has this one to queue, at any point of any run of the worker; and any further
    run in which the task does not wait ten seconds for room, after which it has
    ended, the connection is still served, its writer runs and its queue is
    empty: the device has been sent the alert's frame, whatever other connections
    and subscriptions did in between. *)
Theorem replayed_payload_is_sent b evs1 evs2 wk w n n' i s s' p rest replayed :
  Z.of_nat (length (evs1 ++ evs2)) < 2 ^ 64 →
  run_node evs1 (idle_node wk w) = Some n → nd_sessions n !! i = Some s → ss_phase s = PhServing →
  ss_replay s = Some (p, RSend rest replayed) → b ∈ rest →
  run_node evs2 n = Some n' → NSession i AReplayTimeout ∉ evs2 → nd_sessions n' !! i = Some s' →
  ss_phase s' = PhServing → ss_writer s' = true → ss_replay s' = None →
  c_queue <$> heap (wk_registry (nd_worker n')) !! ss_receiver s' = Some [] →
  FBinary b ∈ sent_data s'.
Proof.
  intros Hlen Hrun1 Hi Hp Hr Hb Hrun2 Hev Hi' Hp' Hw Hr' Hq. rewrite length_app in Hlen.
  destruct (run_node_bound evs1 (idle_node wk w) n (idle_node_wf wk w)) as [Hwf Hid];
    [cbn; lia|done|]. cbn [wk_registry nd_worker idle_node set_registry next_id ConnectionRegistry_new] in Hid.
  pose proof (run_node_live evs1 _ n (idle_node_wf wk w) (idle_node_live wk w) ltac:(cbn; lia) Hrun1) as Hl.
  assert (Hop : ss_phase s ≠ PhOpening) by (by rewrite Hp).
  destruct (nl_open _ Hl i s Hi) as (c & Hc & Ho); [left; by apply (writing_before evs2 n n' i s s')|].
  pose proof (nl_replay _ Hl i s p _ Hi Hr) as ->.
  destruct (run_coming b evs2 n n' i s s' c Hwf ltac:(lia) Hrun2 Hi Hi' Hev Hp Hp' Hw Hc Ho)
    as (c' & Hc' & [(? & ? & ? & _)|[Hin|Hin]]); [left; by exists rest, replayed|congruence| |done].
  rewrite Hc' in Hq. injection Hq as Hq. rewrite Hq in Hin. by apply not_elem_of_nil in Hin.
Qed.

(** The query of the stream, as a step of the node. *)
Lemma replay_queried n n1 i s p since alerts :
  nd_sessions n !! i = Some s → ss_replay s = Some (p, RStream since) →
  (replay_alerts (au_shard_prefix (ss_auth s)) since MAX_STREAM_READ (nd_world n)).1 = Ok alerts →
  node_step (NSession i AReplay) n = Some n1 →
  nd_sessions n1 !! i = Some (set_replay (Some (p, RSend (plan_replay alerts (au_location (ss_auth s))
    (ss_connected_at s) (wc_replay_max_alerts (wk_config (nd_worker n)))) 0)) s).
Proof.
  intros Hi Hr Hq Hs. destruct (node_step_own _ _ _ _ _ Hs Hi) as (s1 & Hs1 & ->).
  cbn [session_step] in Hs1. unfold replay_round in Hs1. rewrite Hr in Hs1.
  destruct (replay_alerts _ _ _ _) as [q w1]. cbn [fst] in Hq. subst q. by injection Hs1 as _ _ <-.
Qed.
End Writer.

(** ** The subscriptions are events of the node *)

Section Subscriptions.
Context {R : RedisServer} {E : Env} {UC : UuidCodec} {F : Rfc3339} {W : Wire} {L : Libm}
  {MO : MapOrder Uuid nat} {J : JetStream}.

Lemma set_registry_id wk : set_registry (wk_registry wk) wk = wk.
Proof. by destruct wk. Qed.

Lemma on_alert_events wk prefix payload elapsed w l :
  ∃ evs, (length evs ≤ 3)%nat ∧
    run_node evs (MkNode wk w l) = Some (MkNode (on_alert_worker wk prefix payload elapsed) w l).
Proof.
  unfold on_alert_worker, fanout. set (f1 := vec_add "pulsegrid_worker_alerts_received_total" prefix 1).
  destruct (parse_alert payload) as [alert|].
  - set (f2 := λ wk1, fanout_metrics prefix (MkFanout alert
      (ConnectionRegistry_broadcast_to_shard (wk_registry wk) prefix alert payload).2 elapsed) wk1).
    exists [NMeter f1; NDeliver (OpBroadcast prefix alert payload);
       NMeter (λ m, wk_metrics (f2 (MkWorker (wk_config wk) ConnectionRegistry_new m 0 0 true)))].
    split; [by cbn; lia|]. cbn. unfold f2.
    by destruct (ConnectionRegistry_broadcast_to_shard _ _ _ _) as [reg r].
  - exists [NMeter f1; NMeter (counter_add "pulsegrid_worker_alerts_invalid_total" 1)].
    split; [by cbn; lia|]. cbn. by destruct wk.
Qed.

Lemma handle_control_event reg subject payload :
  (∃ op, is_delivery op ∧ (handle_control reg subject payload).1 = (apply_op reg op).1) ∨
  (handle_control reg subject payload).1 = reg.
Proof.
  unfold handle_control. destruct (device_id_from_control_subject subject) as [d|]; [|by right].
  destruct (parse_server_message payload) as [[p u| |la lo|k]|]; [| | |by right..].
  - left. exists (OpSendControl d (server_message_json (ShardChanged p u)) true). split; [done|].
    cbn [apply_op]. by destruct (ConnectionRegistry_send_control _ _ _ _).
  - left. exists (OpSendControl d (server_message_json Revoked) true). split; [done|].
    cbn [apply_op]. by destruct (ConnectionRegistry_send_control _ _ _ _).
  - destruct (Location_new la lo) as [loc|]; [|by right]. left. exists (OpUpdateLocation d loc).
    split; [done|]. cbn [apply_op]. by destruct (ConnectionRegistry_update_location _ _ _).
Qed.

Lemma on_control_events wk subject payload w l :
  ∃ evs, (length evs ≤ 2)%nat ∧
    run_node evs (MkNode wk w l) = Some (MkNode (on_control wk subject payload) w l).
Proof.
  unfold on_control. destruct (handle_control_event (wk_registry wk) subject payload) as [(op & Hop & Heq)|Heq];
    destruct (handle_control _ _ _) as [reg o]; cbn [fst] in Heq; subst reg;
    set (f := vec_add "pulsegrid_worker_control_messages_total" (Handled_label o) 1).
  - exists [NDeliver op; NMeter f]. split; [done|]. cbn. destruct (is_delivery op); done.
  - exists [NMeter f]. split; [by cbn; lia|]. cbn. by destruct wk.
Qed.

(** What a subscription does is a run of the node, so all the theorems on runs
    hold with it: a message on a shard's subject ([on_alert]) and a control
    message ([on_control]) are operations on the registry and the metrics, and the
    report of a fan-out happens outside. *)
Theorem subscriptions_are_runs wk w l prefix payload elapsed subject text :
  (∃ evs, (length evs ≤ 4)%nat ∧
     let '(wk', w') := on_alert wk prefix payload elapsed w in
     run_node evs (MkNode wk w l) = Some (MkNode wk' w' l)) ∧
  (∃ evs, (length evs ≤ 2)%nat ∧
     run_node evs (MkNode wk w l) = Some (MkNode (on_control wk subject text) w l)).
Proof.
  split; [|apply on_control_events]. destruct (on_alert_events wk prefix payload elapsed w l) as (evs & Hle & Hr).
  pose proof (on_alert_fst wk prefix payload elapsed w) as Hf.
  destruct (on_alert wk prefix payload elapsed w) as [wk' w']. cbn in Hf. subst wk'.
  exists (evs ++ [NOutside w']). split; [rewrite length_app; cbn; lia|]. by rewrite run_node_app, Hr.
Qed.

(** The registry after an alert. *)
Lemma on_alert_registry wk prefix payload elapsed :
  coherent (wk_registry wk) →
  shrinks (wk_registry wk) (wk_registry (on_alert_worker wk prefix payload elapsed)) .
Proof.
  intros Hc. unfold on_alert_worker, fanout. cbn [meter wk_registry].
  destruct (parse_alert payload) as [alert|]; [|by apply shrinks_refl].
  pose proof (delivery_shrinks _ (OpBroadcast prefix alert payload) Hc ltac:(done)) as Hs. cbn [apply_op] in Hs.
  by destruct (ConnectionRegistry_broadcast_to_shard _ _ _ _).
Qed.
End Subscriptions.

(** ** Witnesses *)

(** Device 5 has connected twice, as in [Session]; a notice is queued for the
    second connection, and its writer has two turns. *)
Definition sample_notice : string := "notice".
Definition sample_delivery : list (@Event map_redis) :=
  [NDeliver (OpSendControl dev5 sample_notice false);
   NSession 1 (AWriter (WRecv (Some (OControl sample_notice false))) true);
   NSession 1 (AWriter WPing true)].

Definition sample_open : list (@Event map_redis) := firstn 5 sample_events.

Definition sent_notice (n : @Node map_redis) : bool :=
  match nd_sessions n !! 1%nat with Some s => ss_writer s | None => false end.
Definition opened (n : @Node map_redis) : bool :=
  match nd_sessions n !! 1%nat with
  | Some s => is_serving s && match heap (wk_registry (nd_worker n)) !! ss_receiver s with
                              | Some c => bool_decide (c_queue c = []) | None => false end
  | None => false
  end.

Lemma sample_delivers : ∃ n n' s s' c,
  sample_run sample_open sample_start = Some n ∧ sample_run sample_delivery n = Some n' ∧
  nd_sessions n !! 1%nat = Some s ∧ nd_sessions n' !! 1%nat = Some s' ∧ ss_phase s = PhServing ∧
  heap (wk_registry (nd_worker n)) !! ss_receiver s = Some c ∧ c_queue c = [] ∧ ss_writer s' = true.
Proof.
  destruct (run_result (sample_run sample_open sample_start) (λ n, opened n &&
      match sample_run sample_delivery n with Some n' => sent_notice n' | None => false end))
    as (n & H1 & [Ho H2]%andb_prop); [vm_compute; reflexivity|].
  apply run_result in H2 as (n' & H2 & Hs). unfold opened in Ho. unfold sent_notice in Hs.
  destruct (nd_sessions n !! 1%nat) as [s|] eqn:Hi; [|done].
  destruct (nd_sessions n' !! 1%nat) as [s'|] eqn:Hi'; [|done].
  apply andb_prop in Ho as [Hph%is_serving_true Hq].
  destruct (heap _ !! _) as [c|] eqn:Hc; [|done]. apply bool_decide_eq_true_1 in Hq.
  exists n, n', s, s', c.
  exact (conj H1 (conj H2 (conj Hi (conj Hi' (conj Hph (conj Hc (conj Hq Hs))))))).
Qed.

Lemma running_writer_sends_queue_witness :
  ∃ n n' s s' received new c', sample_run sample_open sample_start = Some n ∧
    sample_run sample_delivery n = Some n' ∧ nd_sessions n' !! 1%nat = Some s' ∧
    new = received ++ c_queue c' ∧ sent_data s' = sent_data s ++ omap outbound_frame received.
Proof.
  destruct sample_delivers as (n & n' & s & s' & c & H1 & H2 & Hi & Hi' & Hph & Hc & Hq & Hw).
  destruct (@running_writer_sends_queue map_redis (calm_env toy_clock) binary_uuids hex_rfc3339 plain_wire
    toy_libm toy_map_order list_jetstream sample_open sample_delivery sample_worker ws_world n n' 1 s s' c eq_refl H1 Hi
    ltac:(rewrite Hph; discriminate) Hc H2 Hi' Hw) as (c' & received & new & _ & Hr & Hs).
  rewrite Hq in Hr. exists n, n', s, s', received, new, c'.
  exact (conj H1 (conj H2 (conj Hi' (conj Hr Hs)))).
Defined.
