(* ===== verification/ConnectionMetrics.v ===== *)
(** * The connection counters

    The gauge of open connections and the counter of all connections
    (crates/fanout-worker/src/metrics.rs), which ws.rs moves in [handle_socket] and
    a scrape (ops.rs) sets, against the connections of a node ([Session]). *)

From S2P Require Import Prelude F64 Str Errors Metrics Geo Domain Auth Configs Registry Redis World.
From S2P Require Import Interleave Stores Lease Nats Worker Replay Fanout Ws Session Delivery.

Open Scope Z_scope.

Definition CONNECTIONS : string := "pulsegrid_ws_connections_current".
Definition CONNECTS : string := "pulsegrid_ws_connects_total".

Definition is_connection_metric (name : string) : Prop := name = CONNECTIONS ∨ name = CONNECTS.

(** The two metrics are the same. *)
Definition same_counts (m m' : MetricRegistry) : Prop :=
  ∀ name, is_connection_metric name → find_metric name m' = find_metric name m.

Lemma same_counts_refl m : same_counts m m.
Proof. by intros name. Qed.

Lemma update_other name f m m' :
  name ≠ CONNECTIONS → name ≠ CONNECTS → same_counts m m' → same_counts m (update_metric name f m').
Proof. intros H1 H2 Hm n Hn. rewrite <- (Hm n Hn). by destruct Hn as [-> | ->]; apply find_update_other. Qed.

Create HintDb counts.
#[export] Hint Resolve same_counts_refl : counts.
#[export] Hint Extern 1 (same_counts _ (counter_add _ _ _)) => (apply update_other; [discriminate|discriminate|]) : counts.
#[export] Hint Extern 1 (same_counts _ (vec_add _ _ _ _)) => (apply update_other; [discriminate|discriminate|]) : counts.
#[export] Hint Extern 1 (same_counts _ (observe _ _ _)) => (apply update_other; [discriminate|discriminate|]) : counts.

(** The handler has given the connection back. *)
Definition given_back (s : Session) : bool := (turns_left (ss_phase s) <? 3)%nat.

Definition open_count (l : list Session) : nat := length (filter (λ s, given_back s = false) l).

Lemma open_count_insert l i s s' :
  l !! i = Some s →
  (open_count (<[i := s']> l) + (if given_back s then 0 else 1)
   = open_count l + (if given_back s' then 0 else 1))%nat.
Proof.
  unfold open_count. revert i. induction l as [|t l IH]; intros [|i]; [done..| |].
  - change (<[0%nat:=s']> (t :: l)) with (s' :: l). intros [= ->]. rewrite !filter_cons.
    destruct (given_back s), (given_back s'); repeat case_decide; cbn [length]; done || lia.
  - change (<[S i:=s']> (t :: l)) with (t :: <[i:=s']> l). intros Hi. specialize (IH i Hi).
    rewrite !filter_cons. case_decide; cbn [length]; lia.
Qed.

Lemma open_count_app l l' : open_count (l ++ l') = (open_count l + open_count l')%nat.
Proof. unfold open_count. by rewrite filter_app, length_app. Qed.

Lemma open_count_le l : (open_count l ≤ length l)%nat.
Proof. apply length_filter. Qed.

Section Metrics.
Context {R : RedisServer} {E : Env} {UC : UuidCodec} {F : Rfc3339} {W : Wire} {L : Libm}
  {MO : MapOrder Uuid nat} {J : JetStream}.

(** A step of a connection moves the gauge when its handler gives the connection
    back, and nothing else moves either number. *)
Lemma session_counts a wk w s wk' w' s' :
  session_step a wk w s = Some (wk', w', s') →
  (given_back s' = given_back s ∧ same_counts (wk_metrics wk) (wk_metrics wk')) ∨
  (given_back s = false ∧ given_back s' = true ∧
   wk_metrics wk' = gauge_add CONNECTIONS (-1) (wk_metrics wk)).
Proof.
  destruct a as [b now_ms|ev sent|frame now_ms mono| |now_ms| | |t]; cbn [session_step].
  - unfold handler_step, stop_tasks, given_back.
    destruct (ss_phase s) as [| | |[c|]| | | |]; repeat case_match; intros; simplify_eq; cbn; auto with counts.
  - unfold writer_round, end_writer. repeat case_match; intros; simplify_eq; cbn; auto with counts.
  - unfold reader_round. repeat case_match; intros; simplify_eq; cbn; auto with counts.
  - unfold reader_stores. repeat case_match; intros; simplify_eq; cbn; auto with counts.
  - unfold heartbeat_round. repeat case_match; intros; simplify_eq; cbn; auto with counts.
  - unfold replay_round, replay_failed, replay_finished. repeat case_match; intros; simplify_eq;
      left; (split; [done|]); cbn [wk_metrics meter set_registry]; auto with counts.
  - unfold replay_times_out, replay_failed. repeat case_match; intros; simplify_eq; cbn; auto with counts.
  - unfold task_ends, end_writer.
    set (aborted := match ss_phase s with PhOpening | PhServing | PhGrace => false | _ => true end).
    clearbody aborted. destruct t, aborted; intros; simplify_eq; cbn; auto with counts.
Qed.

(** What else runs on the worker leaves the two metrics alone. *)
Definition event_ok (ev : Event) : Prop :=
  match ev with NMeter f => ∀ m, same_counts m (f m) | _ => True end.

(** The subscriptions do. *)
Lemma subscriptions_keep_counts wk prefix payload elapsed subject text :
  same_counts (wk_metrics wk) (wk_metrics (on_alert_worker wk prefix payload elapsed)) ∧
  same_counts (wk_metrics wk) (wk_metrics (on_control wk subject text)).
Proof.
  split.
  - unfold on_alert_worker, fanout, fanout_metrics. destruct (parse_alert payload) as [alert|].
    + destruct (ConnectionRegistry_broadcast_to_shard _ _ _ _) as [reg r]. cbn [meter wk_metrics set_registry].
      auto 10 with counts.
    + cbn [meter wk_metrics set_registry]. auto with counts.
  - unfold on_control. destruct (handle_control _ _ _) as [reg o]. cbn [meter wk_metrics set_registry].
    auto with counts.
Qed.

(** The registry has an entry for at most each open connection. *)
Lemma entries_open n :
  node_wf n → (ConnectionRegistry_connection_count (wk_registry (nd_worker n)) ≤ open_count (nd_sessions n))%nat.
Proof.
  intros [_ Ho _ _]. unfold ConnectionRegistry_connection_count, open_count.
  rewrite <- (length_fmap ss_device), <- (size_dom (D := gset Uuid)).
  apply submseteq_length, NoDup_submseteq; [apply NoDup_elements|].
  intros d Hd%elem_of_elements. apply elem_of_dom in Hd as [p Hp].
  destruct (Ho d p Hp) as (i & s & Hi & Hr & <- & _). apply list_elem_of_fmap_2, list_elem_of_filter.
  split; [|by eapply list_elem_of_lookup_2]. unfold given_back. apply Nat.ltb_ge. exact Hr.
Qed.

Definition entries (n : Node) : Z := Z.of_nat (ConnectionRegistry_connection_count (wk_registry (nd_worker n))).
Definition opened (n : Node) : Z := Z.of_nat (open_count (nd_sessions n)).

(** The counter is the number of connections, and the gauge falls short of the
    open ones by [off], the connections a scrape did not see. *)
Definition counted (off : Z) (n : Node) : Prop :=
  0 ≤ off ≤ Z.of_nat (length (nd_sessions n)) ∧
  find_metric CONNECTIONS (wk_metrics (nd_worker n)) = Some (CGauge (opened n - off)) ∧
  find_metric CONNECTS (wk_metrics (nd_worker n)) = Some (CCounter (Z.of_nat (length (nd_sessions n)))).

Lemma same_counted off wk wk' w w' l :
  same_counts (wk_metrics wk) (wk_metrics wk') → counted off (MkNode wk w l) → counted off (MkNode wk' w' l).
Proof. intros Hs (Ho & H1 & H2). split; [done|]. split; cbn in *; rewrite Hs; done || by (left + right). Qed.

Lemma counted_step off ev n n' :
  event_ok ev → ev ≠ NScrape → Z.of_nat (length (nd_sessions n)) + 1 < 2 ^ 63 → counted off n →
  node_step ev n = Some n' → counted off n'.
Proof.
  destruct n as [wk w l]. intros Hok Hne Hlen Hcnt. pose proof Hcnt as (Ho & Hg & Hc).
  unfold opened in Hg. destruct ev as [d auth|i a|op|f| |w0]; cbn [node_step nd_worker nd_world nd_sessions] in *.
  - unfold open_session. destruct (ConnectionRegistry_register _ _ _ _) as [reg rg]. cbn [utc_now].
    intros [= <-]. pose proof (open_count_le l). unfold counted, opened.
    cbn [nd_worker nd_sessions meter wk_metrics set_registry].
    change "pulsegrid_ws_connections_current" with CONNECTIONS. change "pulsegrid_ws_connects_total" with CONNECTS.
    unfold gauge_add, counter_add. rewrite find_update_same, (find_update_other CONNECTIONS) by done.
    rewrite (find_update_other CONNECTS), find_update_same, Hg, Hc by done. cbn [fmap option_fmap option_map].
    rewrite open_count_app, length_app.
    match goal with |- context [open_count [?t]] => change (open_count [t]) with 1%nat end. cbn [length].
    unfold Gauge_add, Counter_add. rewrite i64_wrap_small, u64_wrap_small by lia.
    split; [lia|]. split; do 2 f_equal; lia.
  - destruct (l !! i) as [s|] eqn:Hi; [|done]. cbn.
    destruct (session_step a wk w s) as [[[wk' w'] s']|] eqn:Hs; [|done]. intros [= <-]. cbn.
    pose proof (open_count_insert l i s s' Hi) as Hn.
    pose proof (open_count_le l). apply session_counts in Hs as [[He Hs]|(He & He' & Hs)].
    + apply (same_counted off wk wk' w w'); [done|]. unfold counted, opened. cbn [nd_worker nd_sessions].
      rewrite length_insert. replace (open_count (<[i:=s']> l)) with (open_count l); [done|].
      rewrite He in Hn. lia.
    + rewrite He, He' in Hn. cbv iota in Hn. unfold counted, opened. cbn [nd_worker nd_sessions].
      rewrite length_insert, Hs. unfold gauge_add. split_and!; [lia|lia|..].
      * rewrite find_update_same, Hg. cbn [fmap option_fmap option_map]. do 2 f_equal.
        unfold Gauge_add. rewrite i64_wrap_small by lia. lia.
      * by rewrite find_update_other.
  - destruct (is_delivery op); [|done]. intros [= <-]. by eapply same_counted; [|exact Hcnt].
  - intros [= <-]. by eapply same_counted; [|exact Hcnt].
  - done.
  - intros [= <-]. by eapply same_counted; [|exact Hcnt].
Qed.

(** A scrape sets the gauge to the entries of the registry. *)
Lemma counted_scrape off n n' :
  node_wf n → Z.of_nat (length (nd_sessions n)) < 2 ^ 63 → counted off n → node_step NScrape n = Some n' →
  counted (opened n - entries n) n'.
Proof.
  intros Hwf Hlen (_ & Hg & Hc). pose proof (entries_open n Hwf) as He.
  pose proof (open_count_le (nd_sessions n)) as Ho. destruct n as [wk w l].
  cbn [node_step nd_worker nd_world nd_sessions] in *. intros [= <-].
  unfold counted, opened, entries, scrape_gauges. cbn [nd_worker nd_sessions meter wk_metrics].
  change "pulsegrid_ws_connections_current" with CONNECTIONS. split; [lia|]. unfold gauge_set.
  rewrite !(find_update_other CONNECTIONS), find_update_same, Hg by done.
  rewrite !(find_update_other CONNECTS) by done. split; [|done].
  cbn [fmap option_fmap option_map]. do 2 f_equal. unfold Gauge_set. lia.
Qed.

Lemma step_length ev n n' :
  node_step ev n = Some n' → (length (nd_sessions n') ≤ length (nd_sessions n) + 1)%nat.
Proof.
  destruct ev as [d auth|i a|op|f| |w0]; cbn [node_step].
  - destruct (open_session _ _ _ _) as [[wk w] s]. intros [= <-]. cbn. rewrite length_app. cbn. lia.
  - destruct (nd_sessions n !! i) as [s|]; [|done]. cbn. destruct (session_step _ _ _ _) as [[[wk w] s']|]; [|done].
    intros [= <-]. cbn. rewrite length_insert. lia.
  - destruct (is_delivery op); [|done]. intros [= <-]. cbn. lia.
  - intros [= <-]. cbn. lia.
  - intros [= <-]. cbn. lia.
  - intros [= <-]. cbn. lia.
Qed.

Lemma counted_run off evs n n' :
  Forall event_ok evs → NScrape ∉ evs → Z.of_nat (length (nd_sessions n)) + Z.of_nat (length evs) < 2 ^ 63 →
  counted off n → run_node evs n = Some n' → counted off n'.
Proof.
  intros Hok. revert n. induction Hok as [|ev evs Hev _ IH]; intros n Hns Hlen Hn; cbn [run_node].
  { by intros [= <-]. }
  apply not_elem_of_cons in Hns as [Hne Hns].
  cbn [length] in Hlen. destruct (node_step ev n) as [n1|] eqn:Hs; [|done]. cbn [mbind option_bind].
  pose proof (step_length _ _ _ Hs). apply IH; [done|lia|]. apply (counted_step off ev n); [done..|lia|done|done].
Qed.

Lemma run_length evs n n' :
  run_node evs n = Some n' → (length (nd_sessions n') ≤ length (nd_sessions n) + length evs)%nat.
Proof.
  revert n. induction evs as [|ev evs IH]; intros n; cbn [run_node length]; [intros [= <-]; lia|].
  destruct (node_step ev n) as [n1|] eqn:Hs; [|done]. intros Hrun%IH. pose proof (step_length _ _ _ Hs). lia.
Qed.

(** The state a run from the start reaches right after its last scrape. *)
Lemma counted_after_scrape evs wk w n1 n2 off :
  Z.of_nat (length evs) < 2 ^ 63 - 1 → run_node evs (idle_node wk w) = Some n1 → counted off n1 →
  node_step NScrape n1 = Some n2 → counted (opened n1 - entries n1) n2.
Proof.
  intros Hlen Hrun Hn. pose proof (run_length _ _ _ Hrun) as Hl. cbn in Hl.
  apply (counted_scrape off); [|lia|done].
  eapply run_node_wf; [apply idle_node_wf| |exact Hrun]. cbn. lia.
Qed.

Section Runs.
Context (wk : Worker) (w : World).
Hypothesis gauge_fresh : find_metric CONNECTIONS (wk_metrics wk) = Some (CGauge 0).
Hypothesis counter_fresh : find_metric CONNECTS (wk_metrics wk) = Some (CCounter 0).

Lemma counted_idle : counted 0 (idle_node wk w).
Proof. by split_and!. Qed.

Lemma counted_somehow evs n :
  Forall event_ok evs → Z.of_nat (length evs) < 2 ^ 63 - 1 → run_node evs (idle_node wk w) = Some n →
  ∃ off, counted off n.
Proof.
  revert n. induction evs as [|ev evs IH] using rev_ind; intros n.
  { intros _ _ [= <-]. exists 0. apply counted_idle. }
  intros [Hok Hev]%Forall_app Hlen. rewrite length_app in Hlen. cbn in Hlen. rewrite run_node_app.
  destruct (run_node evs (idle_node wk w)) as [n1|] eqn:Hrun; [|done].
  destruct (IH n1 Hok ltac:(lia) eq_refl) as [off Hn1]. pose proof (run_length _ _ _ Hrun) as Hl. cbn in Hl.
  cbn [mbind option_bind run_node]. destruct (node_step ev n1) as [n2|] eqn:Hs; [|done]. intros [= <-].
  assert (ev = NScrape ∨ ev ≠ NScrape) as [->|Hne] by (destruct ev; auto).
  - eexists. eapply counted_after_scrape; [|exact Hrun|exact Hn1|exact Hs]. lia.
  - exists off. apply (counted_step off ev n1); [by apply (Forall_singleton event_ok)|done|lia|done|done].
Qed.
End Runs.

(** C30: The connection metrics are right. Along every run of a worker that started
    with fresh metrics, the counter is the number of connections ever opened and
    the registry never has more entries than connections are open. The gauge is
    the number of open connections as long as nothing scraped the worker; a scrape
    sets it to the entries of the registry, which is the number it shows, and from
    then on it moves by one with each connection opened or given back. *)
Theorem connection_metrics_count evs wk w n :
  find_metric CONNECTIONS (wk_metrics wk) = Some (CGauge 0) →
  find_metric CONNECTS (wk_metrics wk) = Some (CCounter 0) →
  Forall event_ok evs → Z.of_nat (length evs) < 2 ^ 63 - 1 →
  run_node evs (idle_node wk w) = Some n →
  ∃ gauge, find_metric CONNECTIONS (wk_metrics (nd_worker n)) = Some (CGauge gauge) ∧
    find_metric CONNECTS (wk_metrics (nd_worker n)) = Some (CCounter (Z.of_nat (length (nd_sessions n)))) ∧
    0 ≤ entries n ≤ opened n ∧
    (NScrape ∉ evs → gauge = opened n) ∧
    (∀ evs1 evs2 n1, evs = evs1 ++ NScrape :: evs2 → NScrape ∉ evs2 →
       run_node evs1 (idle_node wk w) = Some n1 → gauge = entries n1 + (opened n - opened n1)).
Proof.
  intros Hg Hc Hok Hlen Hrun. destruct (counted_somehow wk w Hg Hc evs n Hok Hlen Hrun) as (off & Ho & Hn1 & Hn2).
  exists (opened n - off). split; [done|]. split; [done|]. split.
  { split; [unfold entries; lia|]. apply inj_le, entries_open.
    eapply run_node_wf; [apply idle_node_wf| |exact Hrun]. cbn. lia. }
  split.
  - intros Hns. destruct (counted_run 0 evs (idle_node wk w) n Hok Hns) as (_ & Hn & _); [cbn; lia|by apply counted_idle|done|].
    rewrite Hn1 in Hn. injection Hn as Hn. lia.
  - intros evs1 evs2 n1 -> Hns Hrun1. apply Forall_app in Hok as [Hok1 [_ Hok2]%Forall_cons].
    rewrite length_app in Hlen. cbn [length] in Hlen.
    destruct (counted_somehow wk w Hg Hc evs1 n1 Hok1 ltac:(lia) Hrun1) as [off1 Hoff1].
    rewrite run_node_app, Hrun1 in Hrun. cbn [mbind option_bind run_node] in Hrun.
    destruct (node_step NScrape n1) as [n2|] eqn:Hs; [|done]. cbn [mbind option_bind] in Hrun.
    pose proof (run_length _ _ _ Hrun1) as Hl1. pose proof (step_length _ _ _ Hs) as Hl2. cbn in Hl1.
    destruct (counted_run (opened n1 - entries n1) evs2 n2 n Hok2 Hns) as (_ & Hn & _); [lia| |done|].
    + eapply counted_after_scrape; [|exact Hrun1|exact Hoff1|exact Hs]. lia.
    + rewrite Hn1 in Hn. injection Hn as Hn. lia.
Qed.
End Metrics.

(** ** Witness *)

(** Fresh metrics. *)
Definition fresh_metrics_worker : Worker :=
  MkWorker (wk_config sample_worker) ConnectionRegistry_new worker_metrics_at_start 0 0 true.

(** The run of [Session], scraped while the first connection is replaced but not
    yet given back. *)
Definition before_scrape : list (@Event map_redis) := take 4 sample_events.
Definition after_scrape : list (@Event map_redis) := drop 4 sample_events.

Lemma connection_metrics_count_witness :
  ∃ n1 n, sample_run before_scrape (idle_node fresh_metrics_worker ws_world) = Some n1 ∧
    sample_run (before_scrape ++ NScrape :: after_scrape) (idle_node fresh_metrics_worker ws_world) = Some n ∧
    opened n1 = 2 ∧ entries n1 = 1 ∧ opened n = 1 ∧
    find_metric CONNECTIONS (wk_metrics (nd_worker n)) = Some (CGauge 0) ∧
    find_metric CONNECTS (wk_metrics (nd_worker n)) = Some (CCounter 2).
Proof.
  destruct (run_result (sample_run before_scrape (idle_node fresh_metrics_worker ws_world))
    (λ n, (opened n =? 2) && (entries n =? 1))) as (n1 & Hrun1 & [Ho1%Z.eqb_eq He1%Z.eqb_eq]%andb_prop);
    [vm_compute; reflexivity|].
  destruct (run_result (sample_run (before_scrape ++ NScrape :: after_scrape) (idle_node fresh_metrics_worker ws_world))
    (λ n, (opened n =? 1) && (length (nd_sessions n) =? 2)%nat))
    as (n & Hrun & [Ho%Z.eqb_eq Hl%Nat.eqb_eq]%andb_prop); [vm_compute; reflexivity|].
  exists n1, n. do 5 (split; [done|]).
  destruct (@connection_metrics_count map_redis (calm_env toy_clock) binary_uuids hex_rfc3339 plain_wire
    toy_libm toy_map_order list_jetstream (before_scrape ++ NScrape :: after_scrape) fresh_metrics_worker
    ws_world n) as (gauge & H1 & H2 & _ & _ & H3).
  - vm_compute. reflexivity.
  - vm_compute. reflexivity.
  - repeat constructor.
  - reflexivity.
  - exact Hrun.
  - rewrite Hl in H2. specialize (H3 before_scrape after_scrape n1 eq_refl).
    rewrite H3, Ho, Ho1, He1 in H1; [exact (conj H1 H2)| |exact Hrun1].
    unfold after_scrape, sample_events. cbn [drop]. intros Hin. repeat (apply elem_of_cons in Hin as [Hin|Hin]; [discriminate Hin|]).
    by apply not_elem_of_nil in Hin.
Defined.
