(* ===== verification/WorkerApp.v ===== *)
(** * The worker's HTTP application and its shutdown

    The router of crates/fanout-worker/src/lib.rs around the endpoints of ops.rs
    and ws.rs, and the end of main.rs: open sockets are told to close, the
    background tasks are stopped, and the shard leases are given up. *)

From S2P Require Import Prelude F64 Str Errors Metrics Geo Domain Auth Configs Registry Redis World.
From S2P Require Import Stores Lease Nats Routing Worker Replay Fanout Ws.

Open Scope Z_scope.

(** ** The router *)

(** What axum and tower_governor do with a request to the worker. *)
Class WorkerHttp : Type := {
  wh_header_to_str : string → option string;
  (** the identifier in the path and the parameters of the query; [None] and a
      request that is no WebSocket upgrade are answered by axum *)
  wh_path_uuid : string → option Uuid;
  wh_connect_params : Request → option ConnectParams;
  wh_is_upgrade : Request → bool;
  wh_governor_refuses : Governor → nat → Request → bool;
}.

Inductive WorkerReply : Type :=
| WRText (body : string)
| WRReady (report : ReadyReport)
| WRPresence (reply : PresenceReply)
| WRUnauthorized
| WRUpgraded (auth : Authorized)
| WRRejected (rejection : Rejection)
| WRTooMany
| WRAxum.

Section App.
Context {R : RedisServer} {E : Env} {UC : UuidCodec} {LC : LocRecordCodec} {F : Rfc3339} {W : Wire}
  {FF : FloatFmt} {MO : MapOrder string Z} {WH : WorkerHttp}.

(** An endpoint acts on the worker and on the world. *)
Definition WorkerEndpoint : Type := Worker → M (WorkerReply * Worker).

Definition connect_endpoint (request : Request) (captures : list string) : WorkerEndpoint := λ wk,
  if wh_is_upgrade request then
    match wh_path_uuid (default "" (head captures)), wh_connect_params request with
    | Some device_id, Some params =>
      let! r := ws_upgrade_handler wk device_id params in
      let '(wk', outcome) := r in
      mret_ (match outcome with Ok auth => WRUpgraded auth | Err rj => WRRejected rj end, wk')
    | _, _ => mret_ (WRAxum, wk)
    end
  else mret_ (WRAxum, wk).

Definition presence_endpoint (_ : Request) (captures : list string) : WorkerEndpoint := λ wk,
  match wh_path_uuid (default "" (head captures)) with
  | Some device_id => let! reply := presence wk device_id in mret_ (WRPresence reply, wk)
  | None => mret_ (WRAxum, wk)
  end.

(** [require_operator] around an endpoint. *)
Definition worker_operator_layer (request : Request) (next : WorkerEndpoint) : WorkerEndpoint := λ wk,
  let header := header_get "x-api-key" (rq_headers request) ≫= wh_header_to_str in
  match require_operator (wc_operator_keys (wk_config wk)) header with
  | Some _ => mret_ (WRUnauthorized, wk)
  | None => next wk
  end.

Definition connect_limit_layer (request : Request) (next : WorkerEndpoint) : WorkerEndpoint := λ wk,
  match with_connect_limit (wk_config wk) with
  | None => next wk
  | Some governor => λ w,
      if wh_governor_refuses governor (w_tick w) request then mret_ (WRTooMany, wk) w else next wk w
  end.

Definition worker_router (nats_connected : bool) : Router WorkerEndpoint :=
  let connect := layer connect_limit_layer
    [MkRoute GET ["connect"; "{device_id}"] connect_endpoint] in
  let admin := layer worker_operator_layer
    [MkRoute GET ["admin"; "presence"; "{device_id}"] presence_endpoint] in
  merge_routers connect (merge_routers admin
    [MkRoute GET ["health"] (λ _ _ wk, mret_ (WRText "ok", wk));
     MkRoute GET ["ready"] (λ _ _ wk,
       let! report := worker_ready nats_connected wk in mret_ (WRReady report, wk));
     MkRoute GET ["metrics"] (λ _ _ wk,
       let '(wk', text) := worker_scrape wk in mret_ (WRText text, wk'))]).

Definition worker_serve (nats_connected : bool) (request : Request) : WorkerEndpoint := λ wk,
  match find_route (worker_router nats_connected) request with
  | Some endpoint => endpoint wk
  | None => mret_ (WRAxum, wk)
  end.

(** ** Shutdown (main.rs)

    The signal closes the sockets; when the server has finished, or the grace
    period is over, the tasks are stopped and the leases released. *)
Definition SHUTDOWN_GRACE : Z := seconds 15.

Context {RO : MapOrder Uuid nat}.

Definition worker_shutdown (wk : Worker) : M Worker :=
  let wk1 := set_registry (ConnectionRegistry_close_all (wk_registry wk)) wk in
  let! healthy := ShardLease_release_all (worker_lease (wk_config wk1)) in
  mret_ (set_healthy healthy wk1).
End App.

(** ** Theorems *)

Section Presence.
Context {R : RedisServer} {E : Env} {UC : UuidCodec} {LC : LocRecordCodec} {F : Rfc3339} {W : Wire}
  {FF : FloatFmt} {MO : MapOrder string Z} {WH : WorkerHttp}.

(** Where a device is connected is told to operators only: whatever is
    asked under /admin without a configured key, the worker looks nothing up and
    answers 401 or as for a request no route takes. *)
Theorem presence_needs_operator nats request wk w :
  head (rq_path request) = Some "admin" →
  default "" (header_get "x-api-key" (rq_headers request) ≫= wh_header_to_str)
    ∉ wc_operator_keys (wk_config wk) →
  ∃ reply, worker_serve nats request wk w = ((reply, wk), w) ∧
    (reply = WRUnauthorized ∨ reply = WRAxum).
Proof.
  intros Hp Hk. unfold worker_serve.
  destruct (find_route _ request) as [e|] eqn:Hf; [|eauto].
  apply find_route_Some in Hf as (route & caps & Hin & Ht & ->).
  assert (Hno : ∀ (route : Route WorkerEndpoint) p ps, ro_pattern route = p :: ps →
    is_capture p = false → p ≠ "admin" → takes request route = Some caps → False).
  { intros r p ps Hpat Hc Hne. unfold takes. case_decide; [|done]. rewrite Hpat.
    destruct (rq_path request) as [|s path]; [done|]. injection Hp as ->. cbn [match_path].
    rewrite Hc. by case_decide. }
  revert Hin. unfold worker_router, merge_routers, layer. cbn [fmap list_fmap].
  rewrite !elem_of_app, !elem_of_cons, !elem_of_nil.
  intros [[->|[]]|[[->|[]]|[->|[->|[->|[]]]]]];
    try (exfalso; eapply Hno; [..|exact Ht]; [reflexivity|reflexivity|discriminate]).
  cbn [ro_endpoint]. unfold worker_operator_layer, require_operator.
  rewrite ApiKeys_verify_spec, bool_decide_eq_false_2 by done. eauto.
Qed.
End Presence.

Section Handover.
Context {R : RedisServer} {view : Z → string → rdb → option entry} {RL : RedisLaws R view}.
Context {E : Env} {RO : MapOrder Uuid nat}.
Hypothesis clock_mono : clock_monotone.
Hypothesis no_faults : ∀ n, env_fault n = Works.

(** C28: A worker that shuts down hands its shards over. When it stops, no
    connection is registered any more, it is no longer marked healthy, and a
    worker that starts for any of its shards, with another address, acquires them
    at once instead of waiting for the leases to expire. *)
Theorem shutdown_hands_over wk w other healthy :
  keys_str (view := view) w → 0 < wc_lease_ttl_secs (wk_config wk) → 0 < sl_ttl_secs other →
  (∀ p, p ∈ wc_owned_prefixes (wk_config wk) →
     mine_or_free (view := view) (worker_lease (wk_config wk)) w p) →
  NoDup (sl_prefixes other) → sl_prefixes other ⊆ wc_owned_prefixes (wk_config wk) →
  let '(wk', w') := worker_shutdown wk w in
  ConnectionRegistry_connection_count (wk_registry wk') = 0%nat ∧
  (∀ s, ConnectionRegistry_shard_connection_count (wk_registry wk') s = 0%nat) ∧
  wk_lease_healthy wk' = false ∧
  (ShardLease_acquire_all other healthy w').1 = (Ok (), true).
Proof.
  intros Hs Httl Hother Hmine Hnd Hsub. unfold worker_shutdown, ShardLease_release_all.
  rewrite !mbind_run. cbn [fst snd mret_ set_registry wk_config].
  set (lease := worker_lease (wk_config wk)).
  destruct (release_loop_effect lease Httl clock_mono no_faults (sl_prefixes lease) w Hs Hmine) as [_ Hfree].
  pose proof (release_loop_keys lease clock_mono no_faults (sl_prefixes lease) w Hs) as Hs'.
  set (w' := (ShardLease_release lease (sl_prefixes lease) w).2) in *.
  split_and!; [done|done|done|].
  unfold ShardLease_acquire_all. rewrite mbind_run. cbn [fst mret_].
  rewrite (acquire_loop_free other Hother clock_mono no_faults (sl_prefixes other) [] w' Hs' Hnd);
    [done|]. intros p Hp. apply Hfree, Hsub, Hp.
Qed.
End Handover.

(** The worker of the first example takes over from itself under a new address. *)
Lemma shutdown_hands_over_witness :
  (@ShardLease_acquire_all map_redis (calm_env toy_clock)
     (MkLease (wc_owned_prefixes (wk_config sample_worker)) "ws://new" 30) false
     (@worker_shutdown map_redis (calm_env toy_clock) toy_map_order sample_worker toy_world).2).1
  = (Ok (), true).
Proof.
  pose proof (@shutdown_hands_over map_redis map_view map_redis_laws (calm_env toy_clock) toy_map_order
    toy_clock_monotone (λ _, eq_refl) sample_worker toy_world
    (MkLease (wc_owned_prefixes (wk_config sample_worker)) "ws://new" 30) false) as H.
  destruct (worker_shutdown sample_worker toy_world) as [wk' w']. cbn [snd].
  apply H; [apply toy_keys_str|done|done| | |done].
  - intros p _. left. reflexivity.
  - apply (bool_decide_unpack (NoDup _)). vm_compute. exact I.
Defined.

Definition bare_worker_http : WorkerHttp := {|
  wh_header_to_str := Some; wh_path_uuid := λ _, Some (uuid_of_N 3); wh_connect_params := λ _, None;
  wh_is_upgrade := λ _, false; wh_governor_refuses := λ _ _ _, false;
|}.

Example presence_without_key :
  (@worker_serve map_redis (calm_env toy_clock) binary_uuids plain_loc_codec trivial_fmt
     stored_order bare_worker_http true
     (MkRequest GET ["admin"; "presence"; "3"] "" [] "") sample_worker toy_world).1.1 = WRUnauthorized.
Proof. reflexivity. Qed.
