(* ===== verification/Retention.v ===== *)
(** * The retention sweep

    crates/api-coordinator/src/services/retention_service.rs: inactive devices
    and old alerts are deleted in bounded batches. The loop over a table is
    treated once, for any table whose purge statement removes the oldest stale
    rows. The task that sweeps again and again is in [RetentionTask]. *)

From S2P Require Import Prelude F64 Str Errors Metrics Geo Domain Registry Redis World Stores Db Nats.

Open Scope Z_scope.

Definition BATCH_SIZE : Z := 500.
Definition MAX_BATCHES_PER_SWEEP : nat := 200.
Definition FIRST_SWEEP_DELAY : Z := seconds 60.

Definition days (n : Z) : Z := n * 24 * 3600 * 10 ^ 9.

Record SweepReport : Type := MkReport { devices_deleted : Z; alerts_deleted : Z }.

Record RetentionService : Type := MkRetention { rt_device_retention : Z; rt_alert_retention : Z }.

Definition RetentionService_new (device_retention_days alert_retention_days : Z) : RetentionService :=
  MkRetention (days device_retention_days) (days alert_retention_days).

Definition RetentionService_cutoffs (self : RetentionService) (now : DateTime) : DateTime * DateTime :=
  (now - rt_device_retention self, now - rt_alert_retention self).

(** When the first sweep runs, after the service was spawned. *)
Definition first_sweep_after (interval : Z) : Z := Z.min FIRST_SWEEP_DELAY interval.

Section Sweep.
Context {R : RedisServer} {E : Env} {S : TableScan}.

(** [for _ in 0..fuel { let n = purge().await?; total += n; if n < BATCH { break } }]. *)
Fixpoint purge_loop (purge : MR Z) (fuel : nat) (total : Z) : MR Z :=
  match fuel with
  | O => mret_ (Ok total)
  | Datatypes.S fuel =>
    let!? n := purge in
    let total := total + n in
    if n <? BATCH_SIZE then mret_ (Ok total) else purge_loop purge fuel total
  end.

(** The metrics are updated only by a sweep that ran to its end. *)
Definition RetentionService_sweep (self : RetentionService) (now : DateTime) (metrics : MetricRegistry)
    : M (result SweepReport AppError * MetricRegistry) :=
  let '(device_cutoff, alert_cutoff) := RetentionService_cutoffs self now in
  let! d := purge_loop (DeviceRepository_purge_inactive device_cutoff BATCH_SIZE)
              MAX_BATCHES_PER_SWEEP 0 in
  match d with
  | Err e => mret_ (Err e, metrics)
  | Ok devices =>
    let! a := purge_loop (AlertRepository_purge_older_than alert_cutoff BATCH_SIZE)
                MAX_BATCHES_PER_SWEEP 0 in
    match a with
    | Err e => mret_ (Err e, metrics)
    | Ok alerts =>
      mret_ (Ok (MkReport devices alerts),
             counter_add "pulsegrid_retention_alerts_deleted_total" alerts
               (counter_add "pulsegrid_retention_devices_deleted_total" devices metrics))
    end
  end.
End Sweep.

(** ** The loop over one table *)

Section Loop.
Context {R : RedisServer} {E : Env} {A : Type} {MO : MapOrder Uuid A}.
Context (id : A → Uuid) (ts : A → DateTime) (cutoff : DateTime).
Context (table : Pg → gmap Uuid A) (stmt : Pg → Z * Pg).
Hypothesis stmt_count : ∀ t, (stmt t).1 = Z.of_nat (length (pick_batch ts cutoff BATCH_SIZE (table t))).
Hypothesis stmt_table : ∀ t, table (stmt t).2 = purged id ts cutoff BATCH_SIZE (table t).

(** Only stale rows go, and nothing is added. *)
Definition only_stale_removed (m m' : gmap Uuid A) : Prop :=
  (∀ k r, m' !! k = Some r → m !! k = Some r) ∧
  (∀ k r, m !! k = Some r → ¬ stale ts cutoff r → m' !! k = Some r).

Lemma only_stale_removed_refl m : only_stale_removed m m.
Proof. split; auto. Qed.

Lemma only_stale_removed_trans m1 m2 m3 :
  only_stale_removed m1 m2 → only_stale_removed m2 m3 → only_stale_removed m1 m3.
Proof. intros [H1 H2] [H3 H4]. split; auto. Qed.

Lemma stmt_only_stale t : keyed id (table t) → only_stale_removed (table t) (table (stmt t).2).
Proof.
  intros Hk. rewrite stmt_table. split.
  - intros k r Hr. by apply purged_lookup in Hr as [? _].
  - intros k r Hr Hs. apply purged_lookup; [done|]. split; [done|].
    intros [_ ?]%(pick_batch_spec id); done.
Qed.

(** Whatever fails, a loop of [fuel] batches runs at most [fuel] statements and
    removes stale rows only. *)
Lemma purge_loop_safe fuel total w :
  keyed id (table (w_pg w)) →
  let w' := (purge_loop (pg_call (λ _, stmt)) fuel total w).2 in
  only_stale_removed (table (w_pg w)) (table (w_pg w')) ∧ keyed id (table (w_pg w')) ∧
  (w_tick w' ≤ w_tick w + fuel)%nat ∧ w_redis w' = w_redis w.
Proof.
  revert total w. induction fuel as [|fuel IH]; intros total w Hk.
  { split_and!; [apply only_stale_removed_refl|done|simpl; lia|done]. }
  cbn [purge_loop]. rewrite mbind_ok_run.
  pose proof (pg_call_cases (λ _, stmt) w) as Hc. pose proof (stmt_only_stale _ Hk) as Hs.
  destruct (pg_call _ w) as [r w1]. destruct Hc as (Hr & _ & _ & Ht & Hp). cbn [fst snd].
  assert (Hst : only_stale_removed (table (w_pg w)) (table (w_pg w1)) ∧ keyed id (table (w_pg w1))).
  { assert (w_pg w1 = w_pg w ∨ w_pg w1 = (stmt (w_pg w)).2) as [-> | ->].
    - destruct r; [right; by rewrite Hp|by destruct Hp].
    - split; [apply only_stale_removed_refl|done].
    - split; [done|]. rewrite stmt_table. by apply purged_keyed. }
  destruct Hst as [Hst Hk1]. destruct r as [n|e]; [|cbn [snd]; split_and!; [done..|lia|done]].
  destruct (n <? BATCH_SIZE); [cbn; split_and!; [done..|lia|done]|].
  destruct (IH (total + n) w1 Hk1) as (H1 & H2 & H3 & H4).
  split_and!; [by eapply only_stale_removed_trans|done|lia|congruence].
Qed.

(** When the statements work and the stale rows fit in the batches, the loop
    removes all of them and counts them. *)
Lemma purge_loop_complete fuel total w :
  (∀ n, env_fault n = Works) → keyed id (table (w_pg w)) →
  Z.of_nat (stale_count ts cutoff (table (w_pg w))) < BATCH_SIZE * Z.of_nat fuel →
  let '(r, w') := purge_loop (pg_call (λ _, stmt)) fuel total w in
  r = Ok (total + Z.of_nat (stale_count ts cutoff (table (w_pg w)))) ∧
  ∀ k x, table (w_pg w') !! k = Some x → ¬ stale ts cutoff x.
Proof.
  intros Hf. revert total w. induction fuel as [|fuel IH]; intros total w Hk Hlt; [lia|].
  cbn [purge_loop]. rewrite mbind_ok_run, pg_call_works by done. cbn [fst snd].
  rewrite stmt_count. set (m := table (w_pg w)) in *.
  destruct (purged_sizes id ts cutoff BATCH_SIZE m Hk) as [Hsz _].
  assert (Hb : 0 ≤ BATCH_SIZE) by done.
  assert (Hcomplete : ∀ k x, Z.of_nat (length (pick_batch ts cutoff BATCH_SIZE m)) < BATCH_SIZE →
    purged id ts cutoff BATCH_SIZE m !! k = Some x → ¬ stale ts cutoff x)
    by (intros; by eapply (purged_complete id)).
  destruct (Z.ltb_spec (Z.of_nat (length (pick_batch ts cutoff BATCH_SIZE m))) BATCH_SIZE) as [Hn|Hn].
  - cbn [mret_ w_pg set_pg]. rewrite stmt_table. split; [|by eauto].
    do 2 f_equal. rewrite <- Hsz.
    assert (stale_count ts cutoff (purged id ts cutoff BATCH_SIZE m) = 0%nat) as ->; [|lia].
    unfold stale_count. apply map_size_empty_iff, map_empty. intros k.
    apply map_lookup_filter_None. right. intros x Hx. simpl. by eapply Hcomplete.
  - specialize (IH (total + Z.of_nat (length (pick_batch ts cutoff BATCH_SIZE m)))
      (set_pg (stmt (w_pg w)).2 (tick w))).
    cbn [w_pg set_pg] in IH. rewrite stmt_table in IH. fold m in IH.
    specialize (IH ltac:(by apply purged_keyed) ltac:(lia)).
    destruct (purge_loop _ fuel _ _) as [r w']. destruct IH as [-> IH]. split; [|done].
    f_equal. lia.
Qed.

(** A projection of the tables the statement leaves alone. *)
Lemma purge_loop_frame {B} (proj : Pg → B) fuel total w :
  (∀ t, proj (stmt t).2 = proj t) →
  proj (w_pg (purge_loop (pg_call (λ _, stmt)) fuel total w).2) = proj (w_pg w).
Proof.
  intros Hp. revert total w. induction fuel as [|fuel IH]; intros total w; [done|].
  cbn [purge_loop]. rewrite mbind_ok_run. pose proof (pg_call_cases (λ _, stmt) w) as Hc.
  destruct (pg_call _ w) as [r w1]. destruct Hc as (_ & _ & _ & _ & Hr). cbn [fst snd].
  assert (Hw1 : proj (w_pg w1) = proj (w_pg w)).
  { destruct r as [n|e].
    - rewrite <- (Hp (w_pg w)). by rewrite Hr.
    - destruct Hr as [_ [-> | ->]]; [done|apply Hp]. }
  destruct r as [n|e]; [|done]. destruct (n <? BATCH_SIZE); [done|]. by rewrite IH.
Qed.
End Loop.

(** ** Theorems *)

Section SweepTheorems.
Context {R : RedisServer} {E : Env} {S : TableScan}.

Lemma devices_purge cutoff t :
  (stmt_purge_inactive cutoff BATCH_SIZE t).1
    = Z.of_nat (length (pick_batch dr_last_seen cutoff BATCH_SIZE (t_devices t))) ∧
  t_devices (stmt_purge_inactive cutoff BATCH_SIZE t).2
    = purged dr_id dr_last_seen cutoff BATCH_SIZE (t_devices t) ∧
  t_alerts (stmt_purge_inactive cutoff BATCH_SIZE t).2 = t_alerts t.
Proof. unfold stmt_purge_inactive. simpl. by rewrite length_fmap. Qed.

Lemma alerts_purge cutoff t :
  (stmt_purge_alerts cutoff BATCH_SIZE t).1
    = Z.of_nat (length (pick_batch ar_created_at cutoff BATCH_SIZE (t_alerts t))) ∧
  t_alerts (stmt_purge_alerts cutoff BATCH_SIZE t).2
    = purged ar_id ar_created_at cutoff BATCH_SIZE (t_alerts t) ∧
  t_devices (stmt_purge_alerts cutoff BATCH_SIZE t).2 = t_devices t.
Proof. unfold stmt_purge_alerts. simpl. by rewrite length_fmap. Qed.

Abbreviation device_loop c := (purge_loop (pg_call (λ _, stmt_purge_inactive c BATCH_SIZE))).
Abbreviation alert_loop c := (purge_loop (pg_call (λ _, stmt_purge_alerts c BATCH_SIZE))).

(** The two loops on both tables. *)
Lemma device_loop_safe c fuel total w :
  keyed dr_id (t_devices (w_pg w)) →
  let w' := (device_loop c fuel total w).2 in
  only_stale_removed dr_last_seen c (t_devices (w_pg w)) (t_devices (w_pg w')) ∧
  t_alerts (w_pg w') = t_alerts (w_pg w) ∧
  (w_tick w' ≤ w_tick w + fuel)%nat ∧ w_redis w' = w_redis w.
Proof.
  intros Hk w'. destruct (purge_loop_safe dr_id dr_last_seen c t_devices
    (stmt_purge_inactive c BATCH_SIZE) (λ t, proj1 (proj2 (devices_purge c t))) fuel total w Hk)
    as (?&?&?&?). split_and!; [done| |done|done].
  apply (purge_loop_frame _ t_alerts). intros t. apply devices_purge.
Qed.

Lemma alert_loop_safe c fuel total w :
  keyed ar_id (t_alerts (w_pg w)) →
  let w' := (alert_loop c fuel total w).2 in
  only_stale_removed ar_created_at c (t_alerts (w_pg w)) (t_alerts (w_pg w')) ∧
  t_devices (w_pg w') = t_devices (w_pg w) ∧
  (w_tick w' ≤ w_tick w + fuel)%nat ∧ w_redis w' = w_redis w.
Proof.
  intros Hk w'. destruct (purge_loop_safe ar_id ar_created_at c t_alerts
    (stmt_purge_alerts c BATCH_SIZE) (λ t, proj1 (proj2 (alerts_purge c t))) fuel total w Hk)
    as (?&?&?&?). split_and!; [done| |done|done].
  apply (purge_loop_frame _ t_devices). intros t. apply alerts_purge.
Qed.

(** C25: A sweep is safe and bounded. Whatever the database does, it runs at most
    400 statements, removes only devices and alerts past their retention
    period, touches nothing in Redis, and counts its deletions only when it ran
    to its end. *)
Theorem sweep_safe self now mets w r mets' w' :
  pg_wf (w_pg w) → RetentionService_sweep self now mets w = ((r, mets'), w') →
  only_stale_removed dr_last_seen (now - rt_device_retention self)
    (t_devices (w_pg w)) (t_devices (w_pg w')) ∧
  only_stale_removed ar_created_at (now - rt_alert_retention self)
    (t_alerts (w_pg w)) (t_alerts (w_pg w')) ∧
  (w_tick w' ≤ w_tick w + 400)%nat ∧ w_redis w' = w_redis w ∧
  (is_ok r = false → mets' = mets).
Proof.
  intros Hwf. unfold RetentionService_sweep, RetentionService_cutoffs. rewrite mbind_run.
  unfold DeviceRepository_purge_inactive, AlertRepository_purge_older_than.
  destruct (device_loop_safe (now - rt_device_retention self) MAX_BATCHES_PER_SWEEP 0 w
    (wf_devices _ Hwf)) as (Hd & Ha & Ht & Hr).
  destruct (device_loop _ _ _ w) as [[n|e] w1]; cbn [fst snd] in *.
  2:{ intros [= <- <- <-]. rewrite Ha. unfold MAX_BATCHES_PER_SWEEP in Ht.
      split_and!; [done|apply only_stale_removed_refl|lia|done|done]. }
  rewrite mbind_run.
  destruct (alert_loop_safe (now - rt_alert_retention self) MAX_BATCHES_PER_SWEEP 0 w1)
    as (Ha2 & Hd2 & Ht2 & Hr2); [rewrite Ha; exact (wf_alerts _ Hwf)|].
  destruct (alert_loop _ _ _ w1) as [[m|e] w2]; cbn [fst snd] in *;
    intros [= <- <- <-]; rewrite Hd2, <- Ha; unfold MAX_BATCHES_PER_SWEEP in *;
    split_and!; (done || lia || congruence).
Qed.

(** A sweep is complete. When the database works and fewer than 100000
    devices and 100000 alerts are past their retention period, one sweep deletes
    all of them, its report says exactly how many, and the counters grow by
    these numbers. *)
Theorem sweep_complete self now mets w :
  pg_wf (w_pg w) → (∀ n, env_fault n = Works) →
  let cd := now - rt_device_retention self in
  let ca := now - rt_alert_retention self in
  let nd := Z.of_nat (stale_count dr_last_seen cd (t_devices (w_pg w))) in
  let na := Z.of_nat (stale_count ar_created_at ca (t_alerts (w_pg w))) in
  nd < 100000 → na < 100000 →
  let '((r, mets'), w') := RetentionService_sweep self now mets w in
  r = Ok (MkReport nd na) ∧
  mets' = counter_add "pulsegrid_retention_alerts_deleted_total" na
            (counter_add "pulsegrid_retention_devices_deleted_total" nd mets) ∧
  (∀ k x, t_devices (w_pg w') !! k = Some x → ¬ stale dr_last_seen cd x) ∧
  (∀ k x, t_alerts (w_pg w') !! k = Some x → ¬ stale ar_created_at ca x).
Proof.
  intros Hwf Hf cd ca nd na Hnd Hna. unfold RetentionService_sweep, RetentionService_cutoffs.
  fold cd ca. rewrite mbind_run.
  unfold DeviceRepository_purge_inactive, AlertRepository_purge_older_than.
  pose proof (purge_loop_complete dr_id dr_last_seen cd t_devices
    (stmt_purge_inactive cd BATCH_SIZE) (λ t, proj1 (devices_purge cd t))
    (λ t, proj1 (proj2 (devices_purge cd t))) MAX_BATCHES_PER_SWEEP 0 w Hf
    (wf_devices _ Hwf) Hnd) as Hd.
  destruct (device_loop_safe cd MAX_BATCHES_PER_SWEEP 0 w (wf_devices _ Hwf)) as (_ & Ha & _).
  destruct (device_loop _ _ _ w) as [r1 w1]. destruct Hd as [-> Hd]. cbn [fst snd] in *.
  rewrite mbind_run.
  pose proof (purge_loop_complete ar_id ar_created_at ca t_alerts
    (stmt_purge_alerts ca BATCH_SIZE) (λ t, proj1 (alerts_purge ca t))
    (λ t, proj1 (proj2 (alerts_purge ca t))) MAX_BATCHES_PER_SWEEP 0 w1 Hf) as Hal.
  rewrite Ha in Hal. specialize (Hal (wf_alerts _ Hwf) Hna).
  destruct (alert_loop_safe ca MAX_BATCHES_PER_SWEEP 0 w1) as (_ & Hd2 & _);
    [rewrite Ha; exact (wf_alerts _ Hwf)|].
  destruct (alert_loop _ _ _ w1) as [r2 w2]. destruct Hal as [-> Hal]. cbn [fst snd mret_] in *.
  rewrite Hd2. split_and!; done.
Qed.
End SweepTheorems.

(** ** Witnesses *)

Definition sweep_world : @World map_redis := @MkWorld map_redis 0 ∅ two_devices [] [].

(** Two devices, last seen 1 and 9 microseconds after the epoch; the first is
    past its retention a day and 5 microseconds after the epoch. *)
Lemma sweep_complete_witness :
  (@RetentionService_sweep map_redis (calm_env toy_clock) toy_scan (RetentionService_new 1 1)
     (days 1 + 5000) [] sweep_world).1.1 = Ok (MkReport 1 0).
Proof.
  pose proof (@sweep_complete map_redis (calm_env toy_clock) toy_scan (RetentionService_new 1 1)
    (days 1 + 5000) [] sweep_world two_devices_wf (λ _, eq_refl)) as H. cbv zeta in H.
  specialize (H ltac:(vm_compute; reflexivity) ltac:(vm_compute; reflexivity)).
  destruct (RetentionService_sweep _ _ _ _) as [[r mets'] w']. destruct H as [-> _].
  vm_compute. reflexivity.
Defined.

Lemma sweep_safe_witness :
  w_redis (@RetentionService_sweep map_redis (calm_env toy_clock) toy_scan (RetentionService_new 1 1)
     (days 1 + 5000) [] sweep_world).2 = (∅ : gmap string entry).
Proof.
  destruct (@RetentionService_sweep map_redis (calm_env toy_clock) toy_scan (RetentionService_new 1 1)
     (days 1 + 5000) [] sweep_world) as [[r mets'] w'] eqn:H.
  apply (@sweep_safe map_redis (calm_env toy_clock) toy_scan (RetentionService_new 1 1)
    (days 1 + 5000) [] sweep_world r mets' w' two_devices_wf H).
Defined.
