(* ===== verification/RetentionTask.v ===== *)
(** * The retention task

    The task of crates/api-coordinator/src/services/retention_service.rs over many
    sweeps ([RetentionService::spawn]): what the rest of the system does to the
    tables between two sweeps is an argument, and any sweep may fail at any
    statement. *)

From S2P Require Import Prelude F64 Str Errors Metrics Geo Domain Registry Redis World Stores Db Nats.
From S2P Require Import Lease Retention.

Open Scope Z_scope.

Section Task.
Context {R : RedisServer} {E : Env} {S : TableScan}.

(** When tick [k] of the task is due, after its start. *)
Definition sweep_due (interval : Z) (k : nat) : Z := first_sweep_after interval + Z.of_nat k * interval.

(** One tick: whether the sweep ran to its end. *)
Definition sweep_tick (self : RetentionService) (metrics : MetricRegistry) : M (bool * MetricRegistry) :=
  let! now := utc_now in
  let! rm := RetentionService_sweep self now metrics in
  mret_ (is_ok rm.1, rm.2).

(** The task for one tick per element of [others]: how many sweeps ran to their
    end, the metrics and the world. *)
Fixpoint RetentionService_spawn (self : RetentionService) (others : list (World → World))
    (metrics : MetricRegistry) (w : World) : nat * MetricRegistry * World :=
  match others with
  | [] => (0%nat, metrics, w)
  | act :: others =>
    let '((ok, metrics1), w1) := sweep_tick self metrics (act w) in
    let '(completed, metrics2, w2) := RetentionService_spawn self others metrics1 w1 in
    ((if ok then 1 else 0) + completed, metrics2, w2)%nat
  end.
End Task.

(** ** One table *)

Section Table.
Context {R : RedisServer} {E : Env} {A : Type} {MO : MapOrder Uuid A}.
Context (id : A → Uuid) (ts : A → DateTime).
Context (table : Pg → gmap Uuid A).

Abbreviation stale := (stale ts).
Abbreviation stale_count := (stale_count ts).

Definition none_stale (c : DateTime) (m : gmap Uuid A) : Prop := ∀ k x, m !! k = Some x → ¬ stale c x.

(** Nothing that is stale at [c] was added. *)
Definition no_new_stale (c : DateTime) (m m' : gmap Uuid A) : Prop :=
  ∀ k x, m' !! k = Some x → stale c x → m !! k = Some x.

Lemma stale_mono c c' x : c ≤ c' → stale c x → stale c' x.
Proof. unfold Db.stale. intros Hle%to_micros_mono Hs. lia. Qed.

Lemma stale_count_shrinks c m m' : no_new_stale c m m' → (stale_count c m' ≤ stale_count c m)%nat.
Proof.
  intros H. apply map_size_le, map_subseteq_spec || apply map_subseteq_size. apply map_subseteq_spec.
  intros k x [Hx Hs]%map_lookup_filter_Some. apply map_lookup_filter_Some. split; [|done]. by apply H.
Qed.

(** A loop that ended without an error has removed everything that was stale, or
    as many rows as it may. *)
Lemma purge_loop_progress (stmt : Pg → Z * Pg) cutoff later fuel total w n w' :
  (∀ t, (stmt t).1 = Z.of_nat (length (pick_batch ts cutoff BATCH_SIZE (table t)))) →
  (∀ t, table (stmt t).2 = purged id ts cutoff BATCH_SIZE (table t)) →
  cutoff ≤ later → keyed id (table (w_pg w)) →
  purge_loop (pg_call (λ _, stmt)) fuel total w = (Ok n, w') →
  none_stale cutoff (table (w_pg w')) ∨
  BATCH_SIZE * Z.of_nat fuel + Z.of_nat (stale_count later (table (w_pg w')))
    ≤ Z.of_nat (stale_count later (table (w_pg w))).
Proof.
  intros Hcount Htable Hle. revert total w. induction fuel as [|fuel IH]; intros total w Hk; cbn [purge_loop].
  { intros [= _ <-]. right. lia. }
  rewrite mbind_ok_run. pose proof (pg_call_cases (λ _, stmt) w) as Hc.
  destruct (pg_call _ w) as [r w1]. destruct Hc as (_ & _ & _ & _ & Hr). cbn [fst snd].
  destruct r as [n1|e]; [|done]. specialize (Hcount (w_pg w)). specialize (Htable (w_pg w)).
  rewrite Hr in Hcount, Htable. cbn [fst snd] in Hcount, Htable.
  assert (Hlem : to_micros cutoff ≤ to_micros later) by by apply to_micros_mono.
  pose proof (purged_count id ts later cutoff BATCH_SIZE (table (w_pg w)) Hlem Hk) as Hn.
  destruct (Z.ltb_spec n1 BATCH_SIZE) as [Hlt|Hge].
  - intros [= _ <-]. left. intros k x. rewrite Htable. apply purged_complete; [done|done|lia].
  - intros Hl. apply IH in Hl as [Hl|Hl]; [by left| |rewrite Htable; by apply purged_keyed].
    right. rewrite Htable in Hl. lia.
Qed.

(** [done] completed sweeps after the start with table [m0]: nothing is left that
    was stale then, or much of what is stale at the end has gone. *)
Definition progress (c0 later : DateTime) (m0 : gmap Uuid A) (done : nat) (m : gmap Uuid A) : Prop :=
  none_stale c0 m ∨
  100000 * Z.of_nat done + Z.of_nat (stale_count later m) ≤ Z.of_nat (stale_count later m0).

Lemma progress_shrinks c0 later m0 done m m' :
  c0 ≤ later → no_new_stale later m m' → progress c0 later m0 done m → progress c0 later m0 done m'.
Proof.
  intros Hle Hn [Hp|Hp].
  - left. intros k x Hx Hs. apply (Hp k x); [|done]. apply Hn; [done|]. by eapply stale_mono.
  - right. pose proof (stale_count_shrinks _ _ _ Hn). lia.
Qed.

Lemma progress_fewer c0 later m0 done m :
  progress c0 later m0 (Datatypes.S done) m → progress c0 later m0 done m.
Proof. intros [Hp|Hp]; [by left|right; lia]. Qed.

Lemma removed_no_new c later m m' : only_stale_removed ts c m m' → no_new_stale later m m'.
Proof. intros [H _] k x Hx _. by apply H. Qed.

(** The loop of a sweep on its table. *)
Lemma progress_loop (stmt : Pg → Z * Pg) c0 cutoff later m0 done w r w' :
  (∀ t, (stmt t).1 = Z.of_nat (length (pick_batch ts cutoff BATCH_SIZE (table t)))) →
  (∀ t, table (stmt t).2 = purged id ts cutoff BATCH_SIZE (table t)) →
  c0 ≤ cutoff → cutoff ≤ later → keyed id (table (w_pg w)) →
  purge_loop (pg_call (λ _, stmt)) MAX_BATCHES_PER_SWEEP 0 w = (r, w') →
  progress c0 later m0 done (table (w_pg w)) →
  keyed id (table (w_pg w')) ∧
  progress c0 later m0 (if is_ok r then Datatypes.S done else done) (table (w_pg w')).
Proof.
  intros Hcount Htable H0 Hle Hk Hl Hp.
  pose proof (purge_loop_safe id ts cutoff table stmt Htable MAX_BATCHES_PER_SWEEP 0 w Hk) as (Hs & Hk' & _).
  rewrite Hl in Hs, Hk'. cbn [snd] in Hs, Hk'. split; [done|].
  pose proof (progress_shrinks c0 later m0 done _ _ ltac:(lia) (removed_no_new _ later _ _ Hs) Hp) as Hp'.
  destruct r as [n|e]; cbn [is_ok]; [|done].
  destruct (purge_loop_progress stmt cutoff later _ _ _ _ _ Hcount Htable Hle Hk Hl) as [Hn|Hn].
  - left. intros k x Hx Hst. apply (Hn k x Hx). by eapply stale_mono.
  - destruct Hp as [Hp|Hp].
    + left. intros k x Hx. apply (Hp k x). by apply Hs.
    + right. unfold MAX_BATCHES_PER_SWEEP, BATCH_SIZE in Hn. lia.
Qed.
End Table.

(** ** Both tables *)

Section TaskTheorems.
Context {R : RedisServer} {E : Env} {S : TableScan}.
Context (self : RetentionService).
Hypothesis clock_mono : clock_monotone.

Abbreviation clock w := (env_clock (w_tick w)).
Abbreviation devices w := (t_devices (w_pg w)).
Abbreviation alerts w := (t_alerts (w_pg w)).
Abbreviation device_cutoff t := (t - rt_device_retention self).
Abbreviation alert_cutoff t := (t - rt_alert_retention self).

Definition rows_keyed (w : World) : Prop := keyed dr_id (devices w) ∧ keyed ar_id (alerts w).

(** What happens between two sweeps: no row is added that will be past its
    retention period at [horizon]. *)
Definition act_ok (horizon : DateTime) (w w1 : World) : Prop :=
  (w_tick w ≤ w_tick w1)%nat ∧ (rows_keyed w → rows_keyed w1) ∧
  no_new_stale dr_last_seen (device_cutoff horizon) (devices w) (devices w1) ∧
  no_new_stale ar_created_at (alert_cutoff horizon) (alerts w) (alerts w1).

(** The same along a run of the task. *)
Fixpoint others_ok (horizon : DateTime) (others : list (World → World)) (metrics : MetricRegistry)
    (w : World) : Prop :=
  match others with
  | [] => True
  | act :: others =>
    act_ok horizon w (act w) ∧
    let '((_, metrics1), w1) := RetentionService_sweep self (clock (act w)) metrics (tick (act w)) in
    others_ok horizon others metrics1 w1
  end.

(** The progress on both tables since [w0], with [done] sweeps completed. *)
Definition swept (t0 horizon : DateTime) (w0 : World) (done : nat) (w : World) : Prop :=
  rows_keyed w ∧
  progress dr_last_seen (device_cutoff t0) (device_cutoff horizon) (devices w0) done (devices w) ∧
  progress ar_created_at (alert_cutoff t0) (alert_cutoff horizon) (alerts w0) done (alerts w).

Lemma purge_loop_tick stmt fuel total w :
  (w_tick w ≤ w_tick (purge_loop (pg_call stmt) fuel total w).2)%nat.
Proof.
  revert total w. induction fuel as [|fuel IH]; intros total w; [done|]. cbn [purge_loop].
  rewrite mbind_ok_run. pose proof (pg_call_cases stmt w) as Hc.
  destruct (pg_call stmt w) as [r w1]. destruct Hc as (_ & _ & _ & Ht & _). cbn [fst snd].
  destruct r as [n|e]; [|cbn; lia]. destruct (n <? BATCH_SIZE); [cbn; lia|]. etrans; [|apply IH]. lia.
Qed.

Lemma sweep_swept t0 horizon w0 done mets w r mets' w' now :
  t0 ≤ now → now ≤ horizon → swept t0 horizon w0 done w →
  RetentionService_sweep self now mets w = ((r, mets'), w') →
  swept t0 horizon w0 (if is_ok r then Datatypes.S done else done) w' ∧ (w_tick w ≤ w_tick w')%nat.
Proof.
  intros H0 Hh ((Hkd & Hka) & Hd & Ha). unfold RetentionService_sweep, RetentionService_cutoffs.
  rewrite mbind_run. unfold DeviceRepository_purge_inactive, AlertRepository_purge_older_than.
  set (cd := device_cutoff now). set (ca := alert_cutoff now).
  pose proof (device_loop_safe cd MAX_BATCHES_PER_SWEEP 0 w Hkd) as (Hds & Hda & _).
  pose proof (purge_loop_tick (λ _, stmt_purge_inactive cd BATCH_SIZE) MAX_BATCHES_PER_SWEEP 0 w) as Ht1.
  destruct (purge_loop _ _ 0 w) as [r1 w1] eqn:Hl1. cbn [fst snd] in *.
  destruct (progress_loop dr_id dr_last_seen t_devices _ (device_cutoff t0) cd (device_cutoff horizon)
    (devices w0) done w r1 w1 (λ t, proj1 (devices_purge cd t)) (λ t, proj1 (proj2 (devices_purge cd t)))
    ltac:(lia) ltac:(lia) Hkd Hl1 Hd) as [Hkd1 Hd1]. rewrite <- Hda in Hka, Ha.
  destruct r1 as [n1|e]; cbn [is_ok] in *.
  2:{ intros [= <- <- <-]. split; [|done]. by split_and!. }
  rewrite mbind_run.
  pose proof (alert_loop_safe ca MAX_BATCHES_PER_SWEEP 0 w1 Hka) as (Has & Had & _).
  pose proof (purge_loop_tick (λ _, stmt_purge_alerts ca BATCH_SIZE) MAX_BATCHES_PER_SWEEP 0 w1) as Ht2.
  destruct (purge_loop _ _ 0 w1) as [r2 w2] eqn:Hl2. cbn [fst snd] in *.
  destruct (progress_loop ar_id ar_created_at t_alerts _ (alert_cutoff t0) ca (alert_cutoff horizon)
    (alerts w0) done w1 r2 w2 (λ t, proj1 (alerts_purge ca t)) (λ t, proj1 (proj2 (alerts_purge ca t)))
    ltac:(lia) ltac:(lia) Hka Hl2 Ha) as [Hka2 Ha2].
  destruct r2 as [n2|e]; cbn [is_ok mret_] in *; intros [= <- <- <-]; (split; [|lia]);
    (split; [by split; [rewrite Had|]|]); (split; [|done]); rewrite Had; [done|by apply progress_fewer].
Qed.

Lemma act_swept t0 horizon w0 done w w1 :
  t0 ≤ horizon → act_ok horizon w w1 → swept t0 horizon w0 done w → swept t0 horizon w0 done w1.
Proof.
  intros Hle (_ & Hk' & Hnd & Hna) (Hk & Hd & Ha). split; [auto|].
  split; eapply progress_shrinks; try done; lia.
Qed.

Lemma sweep_tick_le now mets w : (w_tick w ≤ w_tick (RetentionService_sweep self now mets w).2)%nat.
Proof.
  unfold RetentionService_sweep, RetentionService_cutoffs. rewrite mbind_run.
  unfold DeviceRepository_purge_inactive, AlertRepository_purge_older_than.
  pose proof (purge_loop_tick (λ _, stmt_purge_inactive (device_cutoff now) BATCH_SIZE)
    MAX_BATCHES_PER_SWEEP 0 w) as Ht1.
  destruct (purge_loop _ _ 0 w) as [[n1|e] w1]; cbn [fst snd] in *; [|done]. rewrite mbind_run.
  pose proof (purge_loop_tick (λ _, stmt_purge_alerts (alert_cutoff now) BATCH_SIZE)
    MAX_BATCHES_PER_SWEEP 0 w1) as Ht2.
  destruct (purge_loop _ _ 0 w1) as [[n2|e] w2]; cbn [fst snd mret_] in *; lia.
Qed.

(** One tick and the rest. *)
Lemma spawn_cons act others mets w :
  let '((r, mets1), w1) := RetentionService_sweep self (clock (act w)) mets (tick (act w)) in
  let '(n, mets2, w2) := RetentionService_spawn self others mets1 w1 in
  RetentionService_spawn self (act :: others) mets w = ((if is_ok r then 1 else 0) + n, mets2, w2)%nat.
Proof.
  cbn [RetentionService_spawn]. unfold sweep_tick. rewrite mbind_run. cbn [utc_now fst snd].
  rewrite mbind_run. destruct (RetentionService_sweep self _ mets _) as [[r mets1] w1]. cbn [fst snd mret_].
  by destruct (RetentionService_spawn self others mets1 w1) as [[n mets2] w2].
Qed.

Lemma spawn_tick_le others horizon mets w :
  others_ok horizon others mets w → (w_tick w ≤ w_tick (RetentionService_spawn self others mets w).2)%nat.
Proof.
  revert mets w. induction others as [|act others IH]; intros mets w; cbn [others_ok]; [done|].
  intros [(Hle & _) Ho]. pose proof (spawn_cons act others mets w) as Hs.
  pose proof (sweep_tick_le (clock (act w)) mets (tick (act w))) as Ht. cbn [tick set_tick w_tick] in Ht.
  destruct (RetentionService_sweep self _ mets _) as [[r mets1] w1]. specialize (IH mets1 w1 Ho).
  destruct (RetentionService_spawn self others mets1 w1) as [[n mets2] w2]. rewrite Hs. cbn [snd] in *. lia.
Qed.

Lemma spawn_swept others t0 horizon w0 k mets w :
  t0 ≤ clock w → others_ok horizon others mets w → swept t0 horizon w0 k w →
  let '(completed, _, w') := RetentionService_spawn self others mets w in
  clock w' ≤ horizon → swept t0 horizon w0 (completed + k) w'.
Proof.
  revert k mets w. induction others as [|act others IH]; intros k mets w H0 Ho Hsw; [by intros _|].
  pose proof (spawn_cons act others mets w) as Hs. cbn [others_ok] in Ho. destruct Ho as [Ha Ho].
  pose proof (sweep_tick_le (clock (act w)) mets (tick (act w))) as Ht. cbn [tick set_tick w_tick] in Ht.
  destruct (RetentionService_sweep self _ mets _) as [[r mets1] w1] eqn:Hsweep. cbn [snd] in Ht.
  pose proof (spawn_tick_le others horizon mets1 w1 Ho) as Hle2. pose proof Ha as (Hle & _).
  pose proof (λ d, IH d mets1 w1) as IH'.
  destruct (RetentionService_spawn self others mets1 w1) as [[n mets2] w2].
  rewrite Hs. cbn [snd] in Hle2. intros Hhor.
  assert (Hc1 : clock w ≤ clock (act w)) by by apply clock_le.
  assert (Hc2 : clock (act w) ≤ clock w2) by (apply clock_le; [done|lia]).
  apply (act_swept _ _ _ _ w (act w)) in Hsw; [|lia|done].
  eapply (sweep_swept t0 horizon w0 k) in Hsweep as [Hsw1 _]; [|lia|lia|exact Hsw].
  apply IH' in Hsw1; [|etrans; [exact H0|apply clock_le; [done|lia]]|done..].
  replace ((if is_ok r then 1 else 0) + n + k)%nat with (n + if is_ok r then Datatypes.S k else k)%nat
    by (destruct (is_ok r); lia). done.
Qed.

(** C24: The retention task keeps up. Over any number of ticks, with any failures and
    whatever the rest of the system does between the sweeps short of adding rows
    that are already past their retention period, when the backlog at the start,
    counted with what goes past the retention period until the end, is less than
    100000 rows per completed sweep, then nothing is left that was past its
    retention period when the task started. This holds for devices and for alerts
    separately, and failed sweeps do no harm. *)
Theorem retention_keeps_up others mets w :
  rows_keyed w →
  let '(completed, _, w') := RetentionService_spawn self others mets w in
  others_ok (clock w') others mets w →
  (Z.of_nat (stale_count dr_last_seen (device_cutoff (clock w')) (devices w)) < 100000 * Z.of_nat completed →
   none_stale dr_last_seen (device_cutoff (clock w)) (devices w')) ∧
  (Z.of_nat (stale_count ar_created_at (alert_cutoff (clock w')) (alerts w)) < 100000 * Z.of_nat completed →
   none_stale ar_created_at (alert_cutoff (clock w)) (alerts w')).
Proof.
  intros Hk. pose proof (spawn_swept others (clock w)) as Hs. 
  destruct (RetentionService_spawn self others mets w) as [[n mets'] w'] eqn:Hr. intros Ho.
  specialize (Hs (clock w') w 0%nat mets w). rewrite Hr, Nat.add_0_r in Hs.
  destruct Hs as (_ & Hd & Ha); [done|done| |done|].
  { split; [done|]. split; right; lia. }
  split; intros Hlt; [destruct Hd as [Hp|Hp]|destruct Ha as [Hp|Hp]]; done || lia.
Qed.
End TaskTheorems.

(** ** Witness *)

(** Another device registers between the sweeps. *)
Definition newcomer : DeviceRow := MkDeviceRow (uuid_of_N 3) f64_zero f64_zero "s000000" "s000" 0 (seconds 60).
Definition newcomer_arrives (w : @World map_redis) : @World map_redis :=
  set_pg (set_devices (<[uuid_of_N 3 := newcomer]> (t_devices (w_pg w))) (w_pg w)) w.

Definition short_retention : RetentionService := MkRetention (seconds 5) (seconds 5).
Definition stale_world : @World map_redis := @MkWorld map_redis 10 ∅ two_devices [] [].

Lemma newcomer_ok horizon w :
  horizon < seconds 60 → act_ok short_retention horizon w (newcomer_arrives w).
Proof.
  intros Hh. split_and!; [done| |..].
  - intros [Hd Ha]. split; [|exact Ha]. intros k r Hr. cbn in Hr. apply lookup_insert_Some in Hr as [[<- <-]|[_ Hr]]; [done|by apply Hd].
  - intros k x Hr Hs. cbn in Hr. apply lookup_insert_Some in Hr as [[<- <-]|[_ Hr]]; [|done]. exfalso. unfold stale, to_micros in Hs.
    cbn [newcomer dr_last_seen rt_device_retention short_retention] in Hs.
    pose proof (Z.mul_div_le (horizon - seconds 5) 1000). unfold seconds in *. lia.
  - intros k x Hx _. exact Hx.
Qed.

Abbreviation short_task :=
  (@RetentionService_spawn map_redis (calm_env toy_clock) toy_scan short_retention [newcomer_arrives; newcomer_arrives] []
     stale_world).

Lemma retention_keeps_up_witness :
  none_stale dr_last_seen (seconds 5) (t_devices (w_pg short_task.2)).
Proof.
  assert (Hn : short_task.1.1 = 2%nat) by (vm_compute; reflexivity).
  assert (Hc : (@env_clock (calm_env toy_clock) (w_tick short_task.2) <? seconds 60) = true) by (vm_compute; reflexivity).
  assert (Hb : (Z.of_nat (stale_count dr_last_seen (@env_clock (calm_env toy_clock) (w_tick short_task.2) - seconds 5)
    (t_devices two_devices)) <? 100000) = true) by (vm_compute; reflexivity).
  pose proof (@retention_keeps_up map_redis (calm_env toy_clock) toy_scan short_retention toy_clock_monotone
    [newcomer_arrives; newcomer_arrives] [] stale_world) as H.
  destruct short_task as [[n mets] w']. cbn [fst snd] in *. subst n.
  apply Z.ltb_lt in Hc, Hb.
  destruct H as [H _].
  - exact (conj (wf_devices _ two_devices_wf) (wf_alerts _ two_devices_wf)).
  - cbn [others_ok]. split; [by apply newcomer_ok|].
    destruct (RetentionService_sweep _ _ _ _) as [[r1 m1] w1]. split; [by apply newcomer_ok|].
    by destruct (RetentionService_sweep _ _ _ _) as [[r2 m2] w2].
  - apply H. cbn [rt_device_retention short_retention]. etrans; [exact Hb|reflexivity].
Defined.
