(* ===== verification/DeviceService.v ===== *)
(** * Devices on the coordinator

    crates/api-coordinator/src/services/device_service.rs: registration,
    location updates, heartbeats, tickets, revocation and deletion, on top of
    the database, the Redis stores and the control channel. *)

From S2P Require Import Prelude F64 Str Errors Metrics Geo Domain Auth Configs Registry Redis World.
From S2P Require Import Stores Lease Db Nats Worker Replay Fanout Ws.

Open Scope Z_scope.

(** The signer and the times to live; the stores and clients of the source are
    operations on the [World]. *)
Record DeviceServiceParts {J : Jwt} : Type := MkParts {
  dp_signer : TokenSigner;
  dp_location_ttl_secs : Z;
  dp_revocation_ttl_secs : Z;
  dp_ws_ticket_ttl_secs : Z;
}.

Record LocationUpdate : Type := MkLocationUpdate {
  lu_shard_prefix : string; lu_shard_changed : bool; lu_ws_url : option string;
}.

Record WsTicket : Type := MkWsTicket {
  wt_ticket : string; wt_shard_prefix : string; wt_ws_url : option string; wt_expires_in_secs : Z;
}.

(** [Result::unwrap_or(None)]. *)
Definition flat_ok {A} (r : result (option A) AppError) : option A :=
  match r with Ok o => o | Err _ => None end.

Section DeviceService.
Context {R : RedisServer} {E : Env} {UC : UuidCodec} {LC : LocRecordCodec} {W : Wire} {G : Geohash}
  {J : Jwt}.
Context (p : DeviceServiceParts).

Definition location_record (device : Device) : DeviceLocationRecord :=
  MkLocRecord (lat (dev_location device)) (lon (dev_location device)) (dev_shard_prefix device).

Definition publish_location (device : Device) : MR unit :=
  DeviceLocationStore_set (dev_id device) (location_record device) (dp_location_ttl_secs p).

(** Best effort: a failure is only logged. *)
Definition notify_device (device_id : Uuid) (message : ServerMessage) : M unit :=
  let! _ := publish_control device_id message in mret_ ().

Definition DeviceService_register (la lo : f64) : MR (Device * string) :=
  match Location_new la lo with
  | Err e => mret_ (Err e)
  | Ok location =>
    let! id := new_uuid in
    let! now := utc_now in
    match Device_register id now location with
    | Err e => mret_ (Err e)
    | Ok device =>
      let!? _ := DeviceRepository_insert device in
      let! published := publish_location device in
      match published with
      | Err e =>
        (* a failed roll-back is only logged *)
        let! _ := DeviceRepository_delete (dev_id device) in
        mret_ (Err e)
      | Ok _ =>
        let! issued_at := utc_now in
        mret_ match TokenSigner_issue (dp_signer p) issued_at (dev_id device) with
              | Ok token => Ok (device, token)
              | Err e => Err e
              end
      end
    end
  end.

(** [moved && device.update_location(..)?]: the device afterwards, whether it
    moved, and whether its shard changed. *)
Definition apply_move (now : DateTime) (device : Device) (new_location : Location)
    : result (Device * bool * bool) AppError :=
  let moved := negb (Location_eqb new_location (dev_location device)) in
  if moved then
    let? (device', changed) := Device_update_location now device new_location in
    Ok (device', true, changed)
  else Ok (device, false, false).

Definition DeviceService_update_location (device_id : Uuid) (la lo : f64) : MR LocationUpdate :=
  let!? device := DeviceRepository_find_by_id device_id in
  match Location_new la lo with
  | Err e => mret_ (Err e)
  | Ok new_location =>
    let! now := utc_now in
    match apply_move now device new_location with
    | Err e => mret_ (Err e)
    | Ok (device, moved, shard_changed) =>
      let!? _ := DeviceRepository_update_location (dev_id device) (dev_location device)
                   (dev_geohash device) (dev_shard_prefix device) in
      let!? _ := publish_location device in
      if (shard_changed : bool) then
        let! url := ShardRegistry_lookup_shard (dev_shard_prefix device) in
        let ws_url := flat_ok url in
        let! _ := notify_device device_id (ShardChanged (dev_shard_prefix device) ws_url) in
        mret_ (Ok (MkLocationUpdate (dev_shard_prefix device) shard_changed ws_url))
      else if (moved : bool) then
        let! _ := notify_device device_id (LocationUpdated (lat new_location) (lon new_location)) in
        mret_ (Ok (MkLocationUpdate (dev_shard_prefix device) shard_changed None))
      else mret_ (Ok (MkLocationUpdate (dev_shard_prefix device) shard_changed None))
    end
  end.

Definition DeviceService_heartbeat (device_id : Uuid) : MR unit :=
  let!? device := DeviceRepository_find_by_id device_id in
  let!? _ := DeviceRepository_touch (dev_id device) in
  publish_location device.

Definition DeviceService_issue_ws_ticket (device_id : Uuid) : MR WsTicket :=
  let!? device := DeviceRepository_find_by_id device_id in
  let!? _ := publish_location device in
  let! u1 := new_uuid in
  let! u2 := new_uuid in
  let ticket := new_ws_ticket u1 u2 in
  let!? _ := WsTicketStore_issue ticket device_id (dp_ws_ticket_ttl_secs p) in
  let! url := ShardRegistry_lookup_shard (dev_shard_prefix device) in
  mret_ (Ok (MkWsTicket ticket (dev_shard_prefix device) (flat_ok url) (dp_ws_ticket_ttl_secs p))).

Definition DeviceService_revoke (device_id : Uuid) : MR unit :=
  let!? _ := DeviceRepository_find_by_id device_id in
  let!? _ := RevocationStore_revoke device_id (dp_revocation_ttl_secs p) in
  let! _ := notify_device device_id Revoked in
  mret_ (Ok ()).

Definition DeviceService_delete (device_id : Uuid) : MR unit :=
  let!? _ := RevocationStore_revoke device_id (dp_revocation_ttl_secs p) in
  let!? existed := DeviceRepository_delete device_id in
  let! _ := DeviceLocationStore_delete device_id in
  let! _ := notify_device device_id Revoked in
  mret_ (if (existed : bool) then Ok () else Err (DeviceNotFound (uuid_to_string device_id))).
End DeviceService.

(** ** Theorems *)

Section DeviceTheorems.
Context {R : RedisServer} {view : Z → string → rdb → option entry} {RL : RedisLaws R view}.
Context {E : Env} {UC : UuidCodec} {LC : LocRecordCodec} {W : Wire} {G : Geohash} {J : Jwt}.
Context (p : DeviceServiceParts).

Abbreviation at_ w := (env_clock (w_tick w)).

(** A command on another key, whatever its outcome. *)
Lemma redis_call_foreign {A} key (f : Z → rdb → A * rdb) w :
  (∀ t r, foreign key t r t (f t r).2) → clock_monotone →
  let w' := (redis_call f w).2 in
  w_pg w' = w_pg w ∧ w_tick w' = S (w_tick w) ∧
  foreign key (at_ w) (w_redis w) (at_ w') (w_redis w').
Proof.
  intros Hf Hm w'. pose proof (redis_call_cases f w) as Hc. unfold w'.
  destruct (redis_call f w) as [r w1]. destruct Hc as (Hpg & _ & _ & Ht & Hr). cbn [snd].
  split_and!; [done|done|].
  assert (Hw : foreign key (at_ w) (w_redis w) (at_ w) (w_redis w1)).
  { destruct r; [specialize (Hf (at_ w) (w_redis w)); by rewrite Hr in Hf|].
    destruct Hr as [_ [-> | ->]]; [by apply foreign_wait|apply Hf]. }
  eapply foreign_seq; [exact Hw|]. apply foreign_wait. rewrite Ht. apply Hm.
Qed.

(** Redis is untouched by a statement and by a publish; time passes. *)
Lemma pg_call_foreign {A} key (f : DateTime → Pg → A * Pg) w :
  clock_monotone →
  let w' := (pg_call f w).2 in
  w_tick w' = S (w_tick w) ∧ foreign key (at_ w) (w_redis w) (at_ w') (w_redis w').
Proof.
  intros Hm w'. pose proof (pg_call_cases f w) as Hc. unfold w'.
  destruct (pg_call f w) as [r w1]. destruct Hc as (Hr & _ & _ & Ht & _). cbn [snd].
  split; [done|]. rewrite Hr, Ht. apply foreign_wait, Hm.
Qed.

Lemma publish_foreign key subject payload w :
  clock_monotone →
  let w' := (publish subject payload w).2 in
  w_pg w' = w_pg w ∧ foreign key (at_ w) (w_redis w) (at_ w') (w_redis w').
Proof.
  intros Hm w'. unfold w', publish, call. destruct (env_fault (w_tick w)); cbn;
    (split; [done|]); apply foreign_wait, Hm.
Qed.

(** C32: A deletion revokes first. Once the revocation was written, the device's
    token is useless until the revocation expires, even if the deletion of the
    row, of the location record or the notification fails afterwards; and if the
    revocation could not be written, no row is deleted. *)
Theorem delete_revokes_first d w r w' later :
  clock_monotone → 0 < dp_revocation_ttl_secs p →
  DeviceService_delete p d w = (r, w') →
  (∃ why, r = Err (Cache why) ∧ w_pg w' = w_pg w) ∨
  (at_ w' ≤ later < at_ w + ttl_ns (dp_revocation_ttl_secs p) →
   cmd_exists later (RevocationStore_key d) (w_redis w') = true).
Proof.
  intros Hm Httl. unfold DeviceService_delete. rewrite mbind_ok_run.
  pose proof (redis_call_cases (λ now r, ((), cmd_set now (RevocationStore_key d) "1"
    (Some (dp_revocation_ttl_secs p)) r)) w) as Hc.
  destruct (RevocationStore_revoke d (dp_revocation_ttl_secs p) w) as [[[]|e] w1] eqn:Hrev;
    unfold RevocationStore_revoke in Hrev; rewrite Hrev in Hc; cbn [fst snd].
  2:{ intros [= <- <-]. left. destruct Hc as (Hpg & _ & _ & _ & [why ->] & _). eauto. }
  destruct Hc as (_ & _ & _ & Ht1 & _). intros Hrun. right. intros [Hle Hlt].
  assert (Hfor : foreign (RevocationStore_key d) (at_ w) (w_redis w1) later (w_redis w')).
  { eapply foreign_seq; [apply foreign_wait, Hm|]. rewrite <- Ht1.
    revert Hrun. rewrite mbind_ok_run. unfold DeviceRepository_delete.
    rewrite mbind_ok_run.
    destruct (pg_call_foreign (RevocationStore_key d) (λ _, stmt_delete_device d) w1 Hm) as [_ F2].
    destruct (pg_call _ w1) as [[rows|e] w2]; cbn [fst snd mret_] in *.
    2:{ intros [= <- <-]. eapply foreign_seq; [exact F2|by apply foreign_wait]. }
    rewrite mbind_run. unfold DeviceLocationStore_delete.
    destruct (redis_call_foreign (RevocationStore_key d)
      (λ now r, ((), (cmd_del now (DeviceLocationStore_key d) r).2)) w2) as (_ & _ & F3);
      [intros t r0; apply foreign_del; done|done|].
    destruct (redis_call _ w2) as [x w3]. cbn [fst snd] in *. rewrite mbind_run.
    unfold notify_device. rewrite mbind_run. unfold publish_control.
    destruct (publish_foreign (RevocationStore_key d) (control_subject d)
      (server_message_json Revoked) w3 Hm) as [_ F4].
    destruct (publish _ _ w3) as [y w4]. cbn [fst snd mret_] in *. intros [= _ <-].
    eapply foreign_seq; [exact F2|]. eapply foreign_seq; [exact F3|].
    eapply foreign_seq; [exact F4|by apply foreign_wait]. }
  rewrite (revoke_foreign d (dp_revocation_ttl_secs p) w w1 later (w_redis w')) by done.
  by apply Z.ltb_lt.
Qed.

(** The row after a location update at time [t]. *)
Definition moved_row (row : DeviceRow) (device : Device) (t : DateTime) : DeviceRow :=
  MkDeviceRow (dr_id row) (lat (dev_location device)) (lon (dev_location device))
    (dev_geohash device) (dev_shard_prefix device) (dr_registered_at row) (to_micros t).

(** What a location update tells the device's worker. *)
Definition move_notice (device : Device) (loc : Location) (moved changed : bool) (url : option string)
    : list (string * Bytes) :=
  if changed then [(control_subject (dev_id device),
                    server_message_json (ShardChanged (dev_shard_prefix device) url))]
  else if moved then [(control_subject (dev_id device),
                       server_message_json (LocationUpdated (lat loc) (lon loc)))]
  else [].

(** A row read as a device keeps its identifier. *)
Lemma Device_try_from_id row device : Device_try_from row = Ok device → dev_id device = dr_id row.
Proof. unfold Device_try_from. destruct (Location_new _ _); [|done]. by intros [= <-]. Qed.

Lemma apply_move_id now device loc device' moved changed :
  apply_move now device loc = Ok (device', moved, changed) →
  dev_id device' = dev_id device ∧ (changed = true → moved = true).
Proof.
  unfold apply_move. destruct (negb _).
  - destruct (Device_update_location now device loc) as [[d c]|] eqn:Hu; [|done].
    intros [= <- <- <-]. by apply Device_update_location_wf in Hu as (_ & ? & _).
  - intros [= <- <- <-]. done.
Qed.

(** What the device's worker is told, at most: the notice is sent, or a call of the
    notification fails. *)
Lemma notify_published d m w :
  w_pg (notify_device d m w).2 = w_pg w ∧ w_redis (notify_device d m w).2 = w_redis w ∧
  (w_published (notify_device d m w).2 = w_published w ++ [(control_subject d, server_message_json m)] ∨
   w_published (notify_device d m w).2 = w_published w ∧ env_fault (w_tick w) ≠ Works).
Proof.
  unfold notify_device. rewrite mbind_run. cbn [snd mret_]. unfold publish_control, publish, call.
  destruct (env_fault (w_tick w)); cbn; split_and!; auto.
Qed.

(** A failed call: no success, and not every call worked. *)
Ltac refused :=
  split; [intros Hall; exfalso; match goal with H : env_fault _ ≠ Works |- _ => apply H, Hall end|done].


Lemma Location_eqb_refl la lo loc : Location_new la lo = Ok loc → Location_eqb loc loc = true.
Proof.
  intros Hl. destruct (Location_new_spec la lo) as [(_ & Hn & Ha & Ho)|[_ Hn]]; rewrite Hn in Hl; [|done].
  injection Hl as <-. unfold Location_eqb. simpl.
  by rewrite !f64_eqb_refl by (by apply finite_not_nan).
Qed.

(** An update to the position the row already has publishes nothing. *)
Lemma update_location_unmoved d la lo loc w row device :
  (∀ n, (n < 4)%nat → env_fault (n + w_tick w) = Works) →
  t_devices (w_pg w) !! d = Some row → Device_try_from row = Ok device → dr_id row = d →
  Location_new la lo = Ok loc → dev_location device = loc →
  let '(r, w') := DeviceService_update_location p d la lo w in
  r = Ok (MkLocationUpdate (dev_shard_prefix device) false None) ∧ w_published w' = w_published w.
Proof.
  intros Hw Hrow Hdev Hid Hloc Hsame.
  pose proof (Hw 0%nat ltac:(lia)) as F0. pose proof (Hw 1%nat ltac:(lia)) as F1.
  pose proof (Hw 2%nat ltac:(lia)) as F2. pose proof (Hw 3%nat ltac:(lia)) as F3.
  cbn [Nat.add] in F0, F1, F2, F3.
  unfold DeviceService_update_location, DeviceRepository_find_by_id. repeat run_step.
  rewrite Hrow, Hdev, Hloc. repeat run_step.
  unfold apply_move. rewrite Hsame, (Location_eqb_refl la lo loc Hloc). cbn [negb].
  unfold DeviceRepository_update_location.
  rewrite (Device_try_from_id row device Hdev), Hid. repeat run_step.
  unfold stmt_update_device. rewrite Hrow. cbn [fst snd Z.eqb negb].
  unfold publish_location, DeviceLocationStore_set. repeat run_step. done.
Qed.

(** An update whose record cannot be written leaves the moved row behind. *)
Lemma update_location_half d la lo loc w row device device' moved changed why :
  (∀ n, (n < 3)%nat → env_fault (n + w_tick w) = Works) →
  env_fault (3 + w_tick w) = FailsBefore why →
  t_devices (w_pg w) !! d = Some row → Device_try_from row = Ok device → dr_id row = d →
  Location_new la lo = Ok loc →
  apply_move (env_clock (1 + w_tick w)) device loc = Ok (device', moved, changed) →
  let '(r, w') := DeviceService_update_location p d la lo w in
  r = Err (Cache why) ∧ w_published w' = w_published w ∧ w_tick w' = (4 + w_tick w)%nat ∧
  t_devices (w_pg w') !! d = Some (moved_row row device' (env_clock (2 + w_tick w))).
Proof.
  intros Hw Hfail Hrow Hdev Hid Hloc Hmove.
  pose proof (Hw 0%nat ltac:(lia)) as F0. pose proof (Hw 1%nat ltac:(lia)) as F1.
  pose proof (Hw 2%nat ltac:(lia)) as F2. cbn [Nat.add] in F0, F1, F2, Hfail, Hmove |- *.
  assert (dev_id device' = d) as Hd'.
  { apply apply_move_id in Hmove as [-> _]. by rewrite (Device_try_from_id row). }
  unfold DeviceService_update_location, DeviceRepository_find_by_id. repeat run_step.
  rewrite Hrow, Hdev, Hloc. repeat run_step. rewrite Hmove. cbn beta iota.
  unfold DeviceRepository_update_location. rewrite Hd'. repeat run_step.
  unfold stmt_update_device. rewrite Hrow. cbn [fst snd Z.eqb].
  unfold publish_location, DeviceLocationStore_set.
  repeat run_step. rewrite (redis_call_fails _ _ why) by done. cbn [fst snd w_published w_tick w_pg tick set_tick set_pg set_devices t_devices].
  split_and!; [done..|]. apply lookup_insert_eq.
Qed.

(** The notice of a shard change can be lost. If the location record cannot
    be written after the row was, the request fails; when the client repeats it,
    the row already holds the new position, so the answer says that the shard
    did not change and no control message is published by either request,
    although the device's shard is a new one and its socket is still on the
    worker of the old shard. *)
Theorem shard_change_notice_lost d la lo loc w row device device' why :
  env_fault (S (S (S (w_tick w)))) = FailsBefore why →
  (∀ n, n ≠ S (S (S (w_tick w))) → env_fault n = Works) →
  pg_wf (w_pg w) → t_devices (w_pg w) !! d = Some row → Device_try_from row = Ok device →
  Location_new la lo = Ok loc →
  apply_move (env_clock (S (w_tick w))) device loc = Ok (device', true, true) →
  let '(r1, w1) := DeviceService_update_location p d la lo w in
  let '(r2, w2) := DeviceService_update_location p d la lo w1 in
  r1 = Err (Cache why) ∧
  r2 = Ok (MkLocationUpdate (dev_shard_prefix device') false None) ∧
  dev_shard_prefix device' ≠ dr_shard_prefix row ∧
  w_published w2 = w_published w.
Proof.
  intros Hfail Hf Hwf Hrow Hdev Hloc Hmove.
  pose proof (wf_devices _ Hwf _ _ Hrow) as Hid.
  pose proof (update_location_half d la lo loc w row device device' true true why
    ltac:(intros; apply Hf; lia) Hfail Hrow Hdev Hid Hloc Hmove) as H1.
  destruct (DeviceService_update_location p d la lo w) as [r1 w1].
  destruct H1 as (-> & Hpub1 & Ht1 & Hrow1).
  unfold apply_move in Hmove. destruct (negb _); [|done].
  destruct (Device_update_location _ device loc) as [[dd c]|] eqn:Hu; [|done].
  injection Hmove as -> ->. apply Device_update_location_wf in Hu as (_ & _ & Hl & _ & _ & Hc).
  assert (Hshard : dev_shard_prefix device = dr_shard_prefix row).
  { unfold Device_try_from in Hdev. destruct (Location_new (dr_lat row) _); [|done].
    by injection Hdev as <-. }
  pose proof (update_location_unmoved d la lo loc w1 _
    (MkDevice d loc (dev_geohash device') (dev_shard_prefix device') (dr_registered_at row)
       (to_micros (env_clock (2 + w_tick w))))
    ltac:(intros; apply Hf; lia) Hrow1) as H2.
  destruct (DeviceService_update_location p d la lo w1) as [r2 w2].
  assert (Hn : Location_new (lat loc) (lon loc) = Ok loc).
  { destruct (Location_new_spec la lo) as [(_ & Hok & _)|[_ Hbad]]; [|congruence].
    rewrite Hok in Hloc. injection Hloc as <-. done. }
  destruct H2 as [-> Hpub2]; [|done|done|done|].
  - unfold Device_try_from, moved_row. cbn. rewrite Hl, Hn, Hid. done.
  - split_and!; [done|done| |congruence]. rewrite <- Hshard. by apply Hc.
Qed.

(** A registration is all or nothing towards Redis. When the two statements
    work, a successful registration has stored the device, whose geohash and
    shard are those of its position, under a fresh identifier, and its location
    record; if the record could not be written, the tables are as before. (Only
    a failure to sign the token would leave the device behind.) *)
Theorem register_rolls_back la lo w :
  env_fault (2 + w_tick w) = Works → env_fault (4 + w_tick w) = Works →
  t_devices (w_pg w) !! env_uuid (w_tick w) = None → 0 < dp_location_ttl_secs p →
  let t3 := env_clock (3 + w_tick w) in
  let '(r, w') := DeviceService_register p la lo w in
  match r with
  | Ok (d, token) =>
    t_devices (w_pg w') = <[dev_id d := DeviceRow_of d]> (t_devices (w_pg w)) ∧
    device_wf d ∧ dev_id d = env_uuid (w_tick w) ∧ dev_location d = MkLocation la lo ∧
    view t3 (DeviceLocationStore_key (dev_id d)) (w_redis w')
      = Some (RStr (loc_record_json (location_record d)),
              Some (t3 + ttl_ns (dp_location_ttl_secs p)))
  | Err e => w_pg w' = w_pg w ∨ ∃ t d, TokenSigner_issue (dp_signer p) t d = Err e
  end.
Proof.
  intros F2 F4 Hfresh Httl t3. cbn [Nat.add] in *. unfold DeviceService_register.
  destruct (Location_new_spec la lo) as [(_ & -> & _)|[_ ->]]; [|by left].
  repeat run_step.
  destruct (Device_register _ _ _) as [d|e] eqn:Hreg; [|by left].
  apply Device_register_wf in Hreg as (Hwf & Hid & Hloc & _ & _).
  unfold DeviceRepository_insert, pg_stmt. repeat run_step.
  unfold stmt_insert_device. cbn [dr_id DeviceRow_of]. rewrite Hid, Hfresh.
  cbn [map_err fst snd]. repeat run_step. unfold publish_location, DeviceLocationStore_set.
  match goal with |- context [redis_call ?f ?w0] =>
    pose proof (redis_call_cases f w0) as Hc; destruct (redis_call f w0) as [[[]|e] w3] end;
    destruct Hc as (Hpg & _ & _ & Ht & Hr); cbn [fst snd];
    cbn [w_tick w_pg w_redis tick set_tick set_pg] in Hpg, Ht, Hr.
  - repeat run_step. destruct (TokenSigner_issue _ _ _) as [token|e] eqn:Hsig; [|right; eauto].
    rewrite Hpg. injection Hr as Hr. cbn [w_redis tick set_tick].
    split_and!; [by rewrite Hid|done|done|done|].
    rewrite <- Hr. fold t3. rewrite Hid, view_set, decide_True by (done || naive_solver). done.
  - unfold DeviceRepository_delete. repeat run_step. rewrite pg_call_works by (by rewrite Ht).
    cbn [fst snd mret_]. left. rewrite Hpg. unfold stmt_delete_device. cbn [t_devices set_devices].
    rewrite lookup_insert_eq. cbn [fst snd w_pg set_pg]. unfold set_devices. cbn.
    rewrite delete_insert_id by done. by destruct (w_pg w).
Qed.

(** *** From a ticket to a connection *)

Lemma ticket_is_shaped u1 u2 : is_ticket_shaped (new_ws_ticket u1 u2) = true.
Proof.
  unfold is_ticket_shaped, new_ws_ticket, uuid_simple.
  rewrite str_len_app, !hex_digits_len. cbn [Z.of_nat]. rewrite str_forallb_app.
  by rewrite !hex_digits_hex.
Qed.

(** A key that is not live stays so while others are set. *)
Lemma view_none_set t t' k j v ttl r :
  t ≤ t' → j ≠ k → (∀ x, ttl = Some x → 0 < x) →
  view t k r = None → view t' k (cmd_set t' j v ttl r) = None.
Proof. intros Ht Hj Httl Hv. by rewrite view_set, decide_False, (view_later t), Hv by done. Qed.

Lemma view_str_later t t' k s dl r :
  t ≤ t' < dl → view t k r = Some (RStr s, Some dl) → view t' k r = Some (RStr s, Some dl).
Proof.
  intros [Ht Hd] Hv. rewrite (view_later t), Hv by done. unfold expired. cbn [snd].
  by rewrite (proj2 (Z.leb_gt _ _)) by lia.
Qed.

Context {UL : UuidCodecLaws UC} {LL : LocRecordLaws LC}.

(** The server after a ticket was issued: the location record, then the ticket. *)
Definition issued_redis (device : Device) (ticket : string) (t1 t4 : Z) (r : rdb) : rdb :=
  cmd_set t4 (WsTicketStore_key ticket) (uuid_to_string (dev_id device))
    (Some (dp_ws_ticket_ttl_secs p))
    (cmd_set t1 (DeviceLocationStore_key (dev_id device)) (loc_record_json (location_record device))
       (Some (dp_location_ttl_secs p)) r).

Lemma issue_ws_ticket_works d w row device :
  (∀ n, env_fault n = Works) →
  t_devices (w_pg w) !! d = Some row → Device_try_from row = Ok device → dr_id row = d →
  let ticket := new_ws_ticket (env_uuid (2 + w_tick w)) (env_uuid (3 + w_tick w)) in
  let '(r, w') := DeviceService_issue_ws_ticket p d w in
  (∃ url, r = Ok (MkWsTicket ticket (dev_shard_prefix device) url (dp_ws_ticket_ttl_secs p))) ∧
  w_tick w' = (6 + w_tick w)%nat ∧
  w_redis w' = issued_redis device ticket (env_clock (1 + w_tick w)) (env_clock (4 + w_tick w))
                 (w_redis w).
Proof.
  intros Hf Hrow Hdev Hid ticket. pose proof (Device_try_from_id row device Hdev) as Hdid.
  unfold DeviceService_issue_ws_ticket, DeviceRepository_find_by_id. repeat run_step.
  rewrite Hrow, Hdev. unfold publish_location, DeviceLocationStore_set. repeat run_step.
  unfold WsTicketStore_issue, ShardRegistry_lookup_shard. repeat run_step.
  unfold issued_redis. rewrite Hdid, Hid. split_and!; [by eexists|done|done].
Qed.

(** C34: A device that asked for a ticket gets in. When the calls work, the clock
    does not run backwards, the ticket and the location record have not expired,
    and the device's position is still a valid one after it went through JSON, the
    ticket the coordinator issues to a device that is not revoked is accepted by
    the worker that owns the device's shard, with the shard of the coordinator's
    row and the position as read, whether or not the client names the shard. *)
Theorem ticket_gets_in wk d w row device hint rec loc :
  clock_monotone → (∀ n, env_fault n = Works) → pg_wf (w_pg w) →
  t_devices (w_pg w) !! d = Some row → Device_try_from row = Ok device →
  0 < dp_location_ttl_secs p → 0 < dp_ws_ticket_ttl_secs p →
  view (at_ w) (RevocationStore_key d) (w_redis w) = None →
  reread_record (location_record device) = Some rec → DeviceLocationRecord_location rec = Ok loc →
  owned wk (dev_shard_prefix device) = true →
  hint = None ∨ hint = Some (dev_shard_prefix device) →
  env_clock (8 + w_tick w) < env_clock (1 + w_tick w) + ttl_ns (dp_location_ttl_secs p) →
  env_clock (6 + w_tick w) < env_clock (4 + w_tick w) + ttl_ns (dp_ws_ticket_ttl_secs p) →
  let '(r, w') := DeviceService_issue_ws_ticket p d w in
  ∃ tk, r = Ok tk ∧ wt_shard_prefix tk = dev_shard_prefix device ∧
    (authorize wk d (MkParams (wt_ticket tk) hint) w').1
      = Ok (MkAuthorized (dev_shard_prefix device) loc).
Proof.
  intros Hm Hf Hwf Hrow Hdev Hl Ht Hrev Hread Hloc0 Hown Hhint Hloc Htick.
  assert (Hsh : lr_shard_prefix rec = dev_shard_prefix device) by (by apply reread_record_shard in Hread).
  pose proof (wf_devices _ Hwf _ _ Hrow) as Hid.
  pose proof (issue_ws_ticket_works d w row device Hf Hrow Hdev Hid) as Hiss. cbv zeta in Hiss.
  assert (dev_id device = d) as Hdid by (by rewrite (Device_try_from_id row)).
  destruct (DeviceService_issue_ws_ticket p d w) as [r w'].
  destruct Hiss as ([url ->] & Hw' & Hr'). eexists. split; [done|]. split; [done|].
  set (ticket := new_ws_ticket _ _) in *. cbn [wt_ticket].
  pose proof (clock_le (E:=E) Hm) as Hle. unfold issued_redis in Hr'. rewrite Hdid in Hr'.
  set (t1 := env_clock (1 + w_tick w)) in *. set (t4 := env_clock (4 + w_tick w)) in *.
  set (r1 := cmd_set t1 _ _ _ (w_redis w)) in *.
  assert (H14 : t1 ≤ t4) by (apply Hle; lia).
  assert (Vt : view t4 (WsTicketStore_key ticket) (w_redis w')
    = Some (RStr (uuid_to_string d), Some (t4 + ttl_ns (dp_ws_ticket_ttl_secs p)))).
  { rewrite Hr', view_set, decide_True by (done || naive_solver). done. }
  assert (Vl : view t4 (DeviceLocationStore_key d) (w_redis w')
    = Some (RStr (loc_record_json (location_record device)),
            Some (t1 + ttl_ns (dp_location_ttl_secs p)))).
  { rewrite Hr', view_set, decide_False by (done || naive_solver). apply (view_str_later t1).
    - assert (t4 ≤ env_clock (8 + w_tick w)) by (apply Hle; lia). lia.
    - unfold r1. rewrite view_set, decide_True by (done || naive_solver). done. }
  assert (Vr : view t4 (RevocationStore_key d) (w_redis w') = None).
  { rewrite Hr'. apply (view_none_set t1); [done|done|naive_solver|].
    apply (view_none_set (at_ w)); [apply Hle; lia|done|naive_solver|done]. }
  assert (H46 : t4 ≤ at_ w') by (rewrite Hw'; apply Hle; lia).
  rewrite <- Hsh in *.
  eapply (authorize_accepts Hm wk d ticket hint w' (uuid_to_string d) _
    (loc_record_json (location_record device)) _ rec loc);
    [done|apply ticket_is_shaped| |apply uuid_parse_to_string| | | |by apply parse_loc_record_json
    |done|done|done].
  - apply (view_str_later t4); [split; [done|by rewrite Hw']|exact Vt].
  - by rewrite (view_later t4), Vr.
  - apply (view_str_later t4); [|exact Vl].
    assert (at_ w' ≤ env_clock (8 + w_tick w)) by (rewrite Hw'; apply Hle; lia). lia.
  - rewrite Hw'. done.
Qed.
End DeviceTheorems.

(** ** Witnesses *)

Definition sample_parts : @DeviceServiceParts plain_jwt := @MkParts plain_jwt plain_signer 86400 3600 30.

(** Device 3 on shard [tiny]; ten degrees further east lies shard [u4pr]. *)
Definition dev3 : Uuid := uuid_of_N 3.
Definition sample_row : DeviceRow :=
  MkDeviceRow dev3 (f64_of_Z 10) f64_zero "tiny" "tiny" 5000 5000.
Definition sample_device : Device :=
  MkDevice dev3 (MkLocation (f64_of_Z 10) f64_zero) "tiny" "tiny" 5000 5000.
Definition sample_pg : Pg := MkPg {[dev3 := sample_row]} ∅ ∅.
Definition device_world : @World map_redis := @MkWorld map_redis 0 ∅ sample_pg [] [].

Lemma sample_pg_wf : pg_wf sample_pg.
Proof.
  split; simpl; try (intros *; by rewrite lookup_empty).
  intros k r [<- <-]%lookup_singleton_Some. done.
Qed.

Lemma sample_pg_row : t_devices sample_pg !! dev3 = Some sample_row.
Proof. apply lookup_singleton_eq. Qed.

Lemma delete_revokes_first_witness :
  let w' := (@DeviceService_delete map_redis (calm_env toy_clock) binary_uuids plain_wire plain_jwt
               sample_parts dev3 device_world).2 in
  cmd_exists (seconds 100) (@RevocationStore_key binary_uuids dev3) (w_redis w') = true.
Proof.
  intros w'. unfold w'. clear w'.
  destruct (@DeviceService_delete map_redis (calm_env toy_clock) binary_uuids plain_wire plain_jwt
    sample_parts dev3 device_world) as [r w'] eqn:Hd.
  assert (Hr : r = Ok ()).
  { change r with (r, w').1. rewrite <- Hd. vm_compute. reflexivity. }
  assert (Ht : w_tick w' = 4%nat).
  { change w' with (r, w').2. rewrite <- Hd. vm_compute. reflexivity. }
  destruct (@delete_revokes_first map_redis map_view map_redis_laws (calm_env toy_clock) binary_uuids
    plain_wire plain_jwt sample_parts dev3 device_world r w' (seconds 100) toy_clock_monotone eq_refl Hd)
    as [(why & Hbad & _)|Hok]; [congruence|].
  apply Hok. rewrite Ht. split; vm_compute; congruence.
Defined.


(** A server that loses the fourth call. *)
Definition lossy_env : Env := {|
  env_fault := λ n, if decide (n = 3%nat) then FailsBefore "timeout" else Works;
  env_clock := toy_clock; env_uuid := λ n, uuid_of_N (N.of_nat n);
|}.

Lemma shard_change_notice_lost_witness :
  let run := @DeviceService_update_location map_redis lossy_env binary_uuids plain_loc_codec
    plain_wire toy_geohash plain_jwt sample_parts dev3 (f64_of_Z 10) (f64_of_Z 10) in
  (run device_world).1 = Err (Cache "timeout") ∧
  (run (run device_world).2).1 = Ok (MkLocationUpdate "u4pr" false None).
Proof.
  pose proof (@shard_change_notice_lost map_redis lossy_env binary_uuids plain_loc_codec plain_wire
    toy_geohash plain_jwt sample_parts dev3 (f64_of_Z 10) (f64_of_Z 10) toy_center device_world
    sample_row sample_device (MkDevice dev3 toy_center "u4pruyd" "u4pr" 5000 (toy_clock 1)) "timeout")
    as H.
  specialize (H eq_refl).
  specialize (H ltac:(intros n Hn; cbn [lossy_env env_fault]; by rewrite decide_False)).
  specialize (H sample_pg_wf sample_pg_row eq_refl eq_refl eq_refl).
  cbv zeta. destruct (DeviceService_update_location _ _ _ _ device_world) as [r1 w1]. cbn [fst snd].
  destruct (DeviceService_update_location _ _ _ _ w1) as [r2 w2]. cbn [fst].
  destruct H as (-> & -> & _). by split.
Defined.

Lemma register_rolls_back_witness :
  let '(r, w') := @DeviceService_register map_redis lossy_env binary_uuids plain_loc_codec
    toy_geohash plain_jwt sample_parts (f64_of_Z 10) (f64_of_Z 10) device_world in
  match r with
  | Ok _ => True
  | Err e => w_pg w' = sample_pg ∨ ∃ t d, @TokenSigner_issue plain_jwt binary_uuids plain_signer t d = Err e
  end.
Proof.
  pose proof (@register_rolls_back map_redis map_view map_redis_laws lossy_env binary_uuids
    plain_loc_codec toy_geohash plain_jwt sample_parts (f64_of_Z 10) (f64_of_Z 10) device_world
    eq_refl eq_refl eq_refl eq_refl) as H.
  cbv zeta in H. destruct (DeviceService_register _ _ _ _) as [[[d tok]|e] w']; [exact I|exact H].
Defined.

Definition tiny_worker : Worker :=
  MkWorker (MkWorkerConfig false "" "" 1 ["tiny"] "" 30 (MkLimit 1 1) false false [] false 1 1 "me")
    ConnectionRegistry_new [] 0 1 true.

Lemma ticket_gets_in_witness :
  ∃ tk, (@DeviceService_issue_ws_ticket map_redis (calm_env toy_clock) binary_uuids plain_loc_codec
           plain_jwt sample_parts dev3 device_world).1 = Ok tk ∧
    wt_shard_prefix tk = "tiny".
Proof.
  pose proof (@ticket_gets_in map_redis map_view map_redis_laws (calm_env toy_clock) binary_uuids
    plain_loc_codec plain_jwt sample_parts binary_uuids_laws plain_loc_codec_laws tiny_worker dev3
    device_world sample_row sample_device (Some "tiny") (location_record sample_device) (dev_location sample_device)
    toy_clock_monotone (λ _, eq_refl) sample_pg_wf
    sample_pg_row eq_refl eq_refl eq_refl eq_refl eq_refl eq_refl eq_refl (or_intror eq_refl) eq_refl eq_refl) as H.
  destruct (DeviceService_issue_ws_ticket _ _ _) as [r w']. destruct H as (tk & -> & Hs & _).
  exists tk. by split.
Defined.
