(* ===== verification/Requests.v ===== *)
(** * Requests running at the same time

    The operations of DeviceService (crates/api-coordinator/src/services/
    device_service.rs), the authorization of connections (crates/fanout-worker/
    src/ws.rs) and the purge of inactive devices (crates/infra/src/db.rs), cut at
    their calls. Any number of coordinators, workers and clients run them at the
    same time. The first theorem says that the cut computations are those of
    [DeviceService] and [Ws]; the others are about all interleavings. *)

From S2P Require Import Prelude F64 Str Errors Metrics Geo Domain Auth Configs Registry Redis World.
From S2P Require Import Interleave Stores Lease Db Nats Worker Replay Fanout Ws DeviceService.

Open Scope Z_scope.

Inductive Req : Type :=
| QRegister (la lo : f64)
| QUpdateLocation (d : Uuid) (la lo : f64)
| QHeartbeat (d : Uuid)
| QTicket (d : Uuid)
| QRevoke (d : Uuid)
| QDelete (d : Uuid)
| QPurge (cutoff : DateTime) (batch : Z)
| QConnect (wk : Worker) (d : Uuid) (params : ConnectParams).

Inductive Rep : Type :=
| PRegister (r : result (Device * string) AppError)
| PUpdate (r : result LocationUpdate AppError)
| PUnit (r : result unit AppError)
| PTicket (r : result WsTicket AppError)
| PPurge (r : result Z AppError)
| PConnect (ticket : string) (d : Uuid) (r : result Authorized Rejection).

Section Requests.
Context {R : RedisServer} {E : Env} {UC : UuidCodec} {LC : LocRecordCodec} {F : Rfc3339} {W : Wire}
  {G : Geohash} {J : Jwt} {S : TableScan}.
Context (p : DeviceServiceParts).

(** ** The requests as the services define them *)

Definition run_req (q : Req) : M Rep :=
  match q with
  | QRegister la lo => let! r := DeviceService_register p la lo in mret_ (PRegister r)
  | QUpdateLocation d la lo =>
    let! r := DeviceService_update_location p d la lo in mret_ (PUpdate r)
  | QHeartbeat d => let! r := DeviceService_heartbeat p d in mret_ (PUnit r)
  | QTicket d => let! r := DeviceService_issue_ws_ticket p d in mret_ (PTicket r)
  | QRevoke d => let! r := DeviceService_revoke p d in mret_ (PUnit r)
  | QDelete d => let! r := DeviceService_delete p d in mret_ (PUnit r)
  | QPurge cutoff batch => let! r := DeviceRepository_purge_inactive cutoff batch in mret_ (PPurge r)
  | QConnect wk d params => let! r := authorize wk d params in mret_ (PConnect (cp_ticket params) d r)
  end.

(** ** The same, cut at the calls *)

Definition notify_proc {A} (d : Uuid) (m : ServerMessage) (k : Proc A) : Proc A :=
  do! _ := publish_control d m in k.

Definition register_proc (la lo : f64) : Proc (result (Device * string) AppError) :=
  match Location_new la lo with
  | Err e => PRet (Err e)
  | Ok location =>
    do! id := new_uuid in
    do! now := utc_now in
    match Device_register id now location with
    | Err e => PRet (Err e)
    | Ok device =>
      do!? _ := DeviceRepository_insert device in
      do! published := publish_location p device in
      match published with
      | Err e => do! _ := DeviceRepository_delete (dev_id device) in PRet (Err e)
      | Ok _ =>
        do! issued_at := utc_now in
        PRet match TokenSigner_issue (dp_signer p) issued_at (dev_id device) with
             | Ok token => Ok (device, token)
             | Err e => Err e
             end
      end
    end
  end.

Definition update_location_proc (d : Uuid) (la lo : f64) : Proc (result LocationUpdate AppError) :=
  do!? device := DeviceRepository_find_by_id d in
  match Location_new la lo with
  | Err e => PRet (Err e)
  | Ok new_location =>
    do! now := utc_now in
    match apply_move now device new_location with
    | Err e => PRet (Err e)
    | Ok (device, moved, shard_changed) =>
      do!? _ := DeviceRepository_update_location (dev_id device) (dev_location device)
                  (dev_geohash device) (dev_shard_prefix device) in
      do!? _ := publish_location p device in
      if (shard_changed : bool) then
        do! url := ShardRegistry_lookup_shard (dev_shard_prefix device) in
        notify_proc d (ShardChanged (dev_shard_prefix device) (flat_ok url))
          (PRet (Ok (MkLocationUpdate (dev_shard_prefix device) shard_changed (flat_ok url))))
      else if (moved : bool) then
        notify_proc d (LocationUpdated (lat new_location) (lon new_location))
          (PRet (Ok (MkLocationUpdate (dev_shard_prefix device) shard_changed None)))
      else PRet (Ok (MkLocationUpdate (dev_shard_prefix device) shard_changed None))
    end
  end.

Definition heartbeat_proc (d : Uuid) : Proc (result unit AppError) :=
  do!? device := DeviceRepository_find_by_id d in
  do!? _ := DeviceRepository_touch (dev_id device) in
  atom (publish_location p device).

Definition ticket_proc (d : Uuid) : Proc (result WsTicket AppError) :=
  do!? device := DeviceRepository_find_by_id d in
  do!? _ := publish_location p device in
  do! u1 := new_uuid in
  do! u2 := new_uuid in
  let ticket := new_ws_ticket u1 u2 in
  do!? _ := WsTicketStore_issue ticket d (dp_ws_ticket_ttl_secs p) in
  do! url := ShardRegistry_lookup_shard (dev_shard_prefix device) in
  PRet (Ok (MkWsTicket ticket (dev_shard_prefix device) (flat_ok url) (dp_ws_ticket_ttl_secs p))).

Definition revoke_proc (d : Uuid) : Proc (result unit AppError) :=
  do!? _ := DeviceRepository_find_by_id d in
  do!? _ := RevocationStore_revoke d (dp_revocation_ttl_secs p) in
  notify_proc d Revoked (PRet (Ok ())).

Definition delete_proc (d : Uuid) : Proc (result unit AppError) :=
  do!? _ := RevocationStore_revoke d (dp_revocation_ttl_secs p) in
  do!? existed := DeviceRepository_delete d in
  do! _ := DeviceLocationStore_delete d in
  notify_proc d Revoked
    (PRet (if (existed : bool) then Ok () else Err (DeviceNotFound (uuid_to_string d)))).

(** [map_err(unavailable)?] on one call of the authorization. *)
Definition or_unavailable_proc {A B} (m : MR A) (k : A → Proc (result B Rejection))
    : Proc (result B Rejection) :=
  do! r := m in match r with Ok a => k a | Err _ => PRet (Err unavailable) end.

Definition authorize_proc (wk : Worker) (d : Uuid) (params : ConnectParams)
    : Proc (result Authorized Rejection) :=
  or_unavailable_proc (WsTicketStore_consume (cp_ticket params)) (λ consumed,
  match consumed with
  | None =>
    PRet (Err (Rejection_new 401 "invalid_ticket" "the ticket is invalid, expired or already used"))
  | Some ticket_device =>
    if negb (bool_decide (ticket_device = d)) then
      PRet (Err (Rejection_new 403 "ticket_device_mismatch"
                   "the ticket was issued for a different device"))
    else
    or_unavailable_proc (RevocationStore_is_revoked d) (λ revoked,
    if (revoked : bool) then PRet (Err (Rejection_new 401 "revoked" "this device has been revoked"))
    else
    or_unavailable_proc (DeviceLocationStore_get d) (λ found,
    match found with
    | None =>
      PRet (Err (Rejection_new 409 "location_unknown"
                   "the device's location is not known; request a new ticket"))
    | Some record =>
      match DeviceLocationRecord_location record with
      | Err _ =>
        PRet (Err (Rejection_new 409 "location_unknown"
                     "the device's stored location is invalid; request a new ticket"))
      | Ok location =>
        let shard := lr_shard_prefix record in
        if negb (owned wk shard) then
          do! url := ShardRegistry_lookup_shard shard in
          PRet (Err (MkRejection 421 "wrong_shard"
            ("this worker does not own shard " +:+ shard +:+ "; connect to the worker that does")
            (match url with Ok u => u | Err _ => None end)))
        else if match cp_shard_prefix params with
                | Some claimed => negb (bool_decide (claimed = shard))
                | None => false
                end then
          PRet (Err (Rejection_new 421 "stale_shard_hint"
            ("the device is in shard " +:+ shard +:+ ", not " +:+
             default "" (cp_shard_prefix params) +:+ "; request a new ticket")))
        else PRet (Ok (MkAuthorized shard location))
      end
    end))
  end).

Definition req_proc (q : Req) : Proc Rep :=
  match q with
  | QRegister la lo => pbind (register_proc la lo) (λ r, PRet (PRegister r))
  | QUpdateLocation d la lo => pbind (update_location_proc d la lo) (λ r, PRet (PUpdate r))
  | QHeartbeat d => pbind (heartbeat_proc d) (λ r, PRet (PUnit r))
  | QTicket d => pbind (ticket_proc d) (λ r, PRet (PTicket r))
  | QRevoke d => pbind (revoke_proc d) (λ r, PRet (PUnit r))
  | QDelete d => pbind (delete_proc d) (λ r, PRet (PUnit r))
  | QPurge cutoff batch =>
    do! r := DeviceRepository_purge_inactive cutoff batch in PRet (PPurge r)
  | QConnect wk d params =>
    pbind (authorize_proc wk d params) (λ r, PRet (PConnect (cp_ticket params) d r))
  end.

(** ** The cut is faithful *)

Lemma register_proc_solo la lo w :
  solo (register_proc la lo) w = DeviceService_register p la lo w.
Proof. unfold register_proc, DeviceService_register. cut. Qed.

Lemma update_location_proc_solo d la lo w :
  solo (update_location_proc d la lo) w = DeviceService_update_location p d la lo w.
Proof.
  unfold update_location_proc, DeviceService_update_location, notify_proc, notify_device. cut.
Qed.

Lemma heartbeat_proc_solo d w : solo (heartbeat_proc d) w = DeviceService_heartbeat p d w.
Proof.
  unfold heartbeat_proc, DeviceService_heartbeat. cut. apply solo_atom.
Qed.

Lemma ticket_proc_solo d w : solo (ticket_proc d) w = DeviceService_issue_ws_ticket p d w.
Proof. unfold ticket_proc, DeviceService_issue_ws_ticket. cut. Qed.

Lemma revoke_proc_solo d w : solo (revoke_proc d) w = DeviceService_revoke p d w.
Proof. unfold revoke_proc, DeviceService_revoke, notify_proc, notify_device. cut. Qed.

Lemma delete_proc_solo d w : solo (delete_proc d) w = DeviceService_delete p d w.
Proof. unfold delete_proc, DeviceService_delete, notify_proc, notify_device. cut. Qed.

Lemma authorize_proc_solo wk d params w : solo (authorize_proc wk d params) w = authorize wk d params w.
Proof. unfold authorize_proc, authorize, or_unavailable_proc, or_unavailable. cut. Qed.

(** Cut at their calls and run without interference, the requests are the
    operations of the device service, the authorization of a connection and the
    purge statement: same reply and same world, for every environment. *)
Theorem requests_cut_faithfully q w : solo (req_proc q) w = run_req q w.
Proof.
  destruct q; cbn [req_proc run_req]; rewrite ?solo_bind, ?mbind_run;
    rewrite ?register_proc_solo, ?update_location_proc_solo, ?heartbeat_proc_solo, ?ticket_proc_solo,
      ?revoke_proc_solo, ?delete_proc_solo, ?authorize_proc_solo; try done.
  by rewrite solo_call.
Qed.
End Requests.

(** ** What every interleaving keeps *)

Section Invariants.
Context {R : RedisServer} {view : Z → string → rdb → option entry} {RL : RedisLaws R view}.
Context {E : Env} {UC : UuidCodec} {LC : LocRecordCodec} {LL : LocRecordLaws LC} {F : Rfc3339} {W : Wire}
  {G : Geohash} {J : Jwt} {S : TableScan}.
Context (p : DeviceServiceParts).
Hypothesis clock_mono : clock_monotone.
Hypothesis ttls : 0 < dp_location_ttl_secs p ∧ 0 < dp_revocation_ttl_secs p ∧ 0 < dp_ws_ticket_ttl_secs p.

Abbreviation at_ w := (env_clock (w_tick w)).

(** *** Self-consistent stores *)

(** A row is stored under its key, can be read back, and its geohash and shard
    are those of its position. *)
Definition rows_wf (t : Pg) : Prop :=
  ∀ id row, t_devices t !! id = Some row →
    dr_id row = id ∧ ∃ device, Device_try_from row = Ok device ∧ device_wf device.

(** A location record is the text of a valid position and of its shard. (Who reads
    it gets this shard, and the position up to the precision of doubles in JSON.) *)
Definition record_wf (s : string) : Prop :=
  ∃ rec loc g, s = loc_record_json rec ∧ DeviceLocationRecord_location rec = Ok loc ∧
    encode_location loc = Ok g ∧ lr_shard_prefix rec = shard_prefix_of g.

(** [read] is what is read where [written] was written. *)
Definition reread_position (written read : Location) : Prop :=
  record_f64 (lat written) = Some (lat read) ∧ record_f64 (lon written) = Some (lon read).

Definition records_wf (now : Z) (r : rdb) : Prop :=
  ∀ d e, view now (DeviceLocationStore_key d) r = Some e → ∃ s, e.1 = RStr s ∧ record_wf s.

Definition stores_wf (w : World) : Prop := rows_wf (w_pg w) ∧ records_wf (at_ w) (w_redis w).

Lemma records_foreign now r later r' :
  (∀ d, foreign (DeviceLocationStore_key d) now r later r') → records_wf now r → records_wf later r'.
Proof.
  intros Hf Hr d e' Hv. destruct (foreign_view _ _ _ _ _ (Hf d)) as [_ Hview].
  rewrite Hview in Hv. destruct (view now (DeviceLocationStore_key d) r) as [e|] eqn:He; [|done].
  cbn in Hv. destruct (expired later e); [done|]. injection Hv as ->. by eapply Hr.
Qed.

Lemma records_set now d s ttl r :
  0 < ttl → record_wf s → records_wf now r →
  records_wf now (cmd_set now (DeviceLocationStore_key d) s (Some ttl) r).
Proof.
  intros Ht Hs Hr d' e. rewrite view_set by naive_solver. case_decide; [|apply Hr].
  intros [= <-]. eauto.
Qed.

Lemma Location_new_again la lo loc :
  Location_new la lo = Ok loc → Location_new (lat loc) (lon loc) = Ok loc.
Proof.
  intros Hn. destruct (Location_new_spec la lo) as [(_ & Hok & _)|[_ Hbad]]; [|congruence].
  rewrite Hok in Hn. by injection Hn as <-.
Qed.

(** A device as the services hold it: consistent, at a valid position. *)
Definition device_ok (device : Device) : Prop :=
  device_wf device ∧
  Location_new (lat (dev_location device)) (lon (dev_location device)) = Ok (dev_location device).

Lemma location_record_wf device :
  device_ok device → record_wf (loc_record_json (location_record device)).
Proof.
  intros [[He Hs] Hn]. by exists (location_record device), (dev_location device), (dev_geohash device).
Qed.

(** A call keeps both stores when its effect does. *)
Lemma redis_call_stores {A} (f : Z → rdb → A * rdb) w :
  (∀ now r, records_wf now r → records_wf now (f now r).2) →
  stores_wf w → stores_wf (redis_call f w).2.
Proof.
  intros Hf [Hp Hr]. pose proof (redis_call_cases f w) as Hc.
  destruct (redis_call f w) as [x w']. destruct Hc as (Hpg & _ & _ & Ht & Hx). cbn [snd].
  unfold stores_wf. rewrite Hpg, Ht. split; [done|].
  assert (Hw : records_wf (at_ w) (w_redis w')).
  { destruct x; [specialize (Hf _ _ Hr); by rewrite Hx in Hf|]. destruct Hx as [_ [-> | ->]]; auto. }
  eapply records_foreign; [|exact Hw]. intros d. apply foreign_wait, clock_mono.
Qed.

Lemma pg_call_stores {A} (f : DateTime → Pg → A * Pg) w :
  (∀ now t, rows_wf t → rows_wf (f now t).2) → stores_wf w → stores_wf (pg_call f w).2.
Proof.
  intros Hf [Hp Hr]. pose proof (pg_call_cases f w) as Hc.
  destruct (pg_call f w) as [x w']. destruct Hc as (Hrd & _ & _ & Ht & Hx). cbn [snd].
  unfold stores_wf. rewrite Hrd, Ht. split.
  - destruct x; [specialize (Hf (at_ w) _ Hp); by rewrite Hx in Hf|]. destruct Hx as [_ [-> | ->]]; auto.
  - eapply records_foreign; [|exact Hr]. intros d. apply foreign_wait, clock_mono.
Qed.

Lemma tick_stores w : stores_wf w → stores_wf (tick w).
Proof.
  intros [Hp Hr]. split; [done|]. eapply records_foreign; [|exact Hr].
  intros d. apply foreign_wait, clock_mono.
Qed.

Lemma publish_stores subject payload w : stores_wf w → stores_wf (publish subject payload w).2.
Proof.
  intros [Hp Hr]. destruct (publish_foreign "" subject payload w clock_mono) as [Hpg _].
  split; [by rewrite Hpg|]. eapply records_foreign; [|exact Hr].
  intros d. apply publish_foreign, clock_mono.
Qed.

(** *** The statements on the devices *)

Lemma row_of_ok device :
  device_ok device → ∃ device', Device_try_from (DeviceRow_of device) = Ok device' ∧ device_wf device'.
Proof.
  intros [[He Hs] Hn]. unfold Device_try_from. cbn. rewrite Hn. eexists. split; [done|]. by split.
Qed.

Lemma rows_insert t id row device :
  dr_id row = id → Device_try_from row = Ok device → device_wf device →
  rows_wf t → rows_wf (set_devices (<[id := row]> (t_devices t)) t).
Proof.
  intros Hid Hd Hwf Ht id' row'. cbn. rewrite lookup_insert_Some. intros [[<- <-]|[_ Hr]]; eauto.
Qed.

Lemma rows_shrink t m : m ⊆ t_devices t → rows_wf t → rows_wf (set_devices m t).
Proof. intros Hm Ht id row Hr. apply Ht. by eapply lookup_weaken. Qed.

Lemma insert_rows device t : device_ok device → rows_wf t → rows_wf (stmt_insert_device (DeviceRow_of device) t).2.
Proof.
  intros Hd Ht. unfold stmt_insert_device. destruct (t_devices t !! _); [done|].
  destruct (row_of_ok device Hd) as (d' & ? & ?). by eapply rows_insert.
Qed.

Lemma update_rows id f t :
  (∀ row device, Device_try_from row = Ok device → device_wf device →
     dr_id (f row) = dr_id row ∧ ∃ device', Device_try_from (f row) = Ok device' ∧ device_wf device') →
  rows_wf t → rows_wf (stmt_update_device id f t).2.
Proof.
  intros Hf Ht. unfold stmt_update_device. destruct (t_devices t !! id) as [row|] eqn:Hr; [|done].
  destruct (Ht _ _ Hr) as (Hid & device & Hd & Hwf).
  destruct (Hf _ _ Hd Hwf) as (Hid' & device' & Hd' & Hwf'). eapply rows_insert; [congruence|done..].
Qed.

Lemma delete_rows id t : rows_wf t → rows_wf (stmt_delete_device id t).2.
Proof.
  intros Ht. unfold stmt_delete_device. destruct (t_devices t !! id); [|done].
  apply rows_shrink; [apply delete_subseteq|done].
Qed.

Lemma purge_rows cutoff batch t : rows_wf t → rows_wf (stmt_purge_inactive cutoff batch t).2.
Proof. intros Ht. apply rows_shrink; [apply map_filter_subseteq|done]. Qed.

Lemma find_ok d w device :
  stores_wf w → (DeviceRepository_find_by_id d w).1 = Ok device → device_ok device ∧ dev_id device = d.
Proof.
  intros [Hp _]. unfold DeviceRepository_find_by_id. rewrite mbind_ok_run.
  pose proof (pg_call_cases (λ _ t, (t_devices t !! d, t)) w) as Hc. unfold pg_read.
  destruct (pg_call _ w) as [[row|e] w']; [|done]. destruct Hc as (_ & _ & _ & _ & [= <- _]).
  cbn [fst mret_]. destruct (t_devices (w_pg w) !! d) as [row|] eqn:Hr; [|done].
  destruct (Hp _ _ Hr) as (Hid & device' & Hd & Hwf). intros Hd'. rewrite Hd in Hd'.
  injection Hd' as ->. split; [split; [done|]|by rewrite (Device_try_from_id row)].
  unfold Device_try_from in Hd. destruct (Location_new (dr_lat row) _) as [loc|] eqn:Hl; [|done].
  injection Hd as <-. by eapply Location_new_again.
Qed.

Lemma register_ok id now la lo loc device :
  Location_new la lo = Ok loc → Device_register id now loc = Ok device → device_ok device.
Proof.
  intros Hl (Hwf & _ & Hloc & _)%Device_register_wf. split; [done|]. rewrite Hloc.
  by eapply Location_new_again.
Qed.

Lemma apply_move_ok now device la lo loc device' moved changed :
  device_ok device → Location_new la lo = Ok loc →
  apply_move now device loc = Ok (device', moved, changed) → device_ok device'.
Proof.
  intros Hd Hl. unfold apply_move. destruct (negb _).
  - destruct (Device_update_location now device loc) as [[d' c]|] eqn:Hu; [|done].
    intros [= <- _ _]. apply Device_update_location_wf in Hu as (Hwf & _ & Hloc & _).
    split; [done|]. rewrite Hloc. by eapply Location_new_again.
  - by intros [= <- _ _].
Qed.

(** *** The calls *)

Lemma after_pure {A B} (m : MR A) (g : A → result B AppError) w :
  (mbind_ok m (λ a, mret_ (g a)) w).2 = (m w).2.
Proof. rewrite mbind_ok_run. by destruct (m w).1. Qed.

Lemma read_stores {A} (f : Z → rdb → A) w : stores_wf w → stores_wf (redis_read f w).2.
Proof. apply redis_call_stores. done. Qed.

Lemma set_other_stores k v ttl w :
  0 < ttl → (∀ d, k ≠ DeviceLocationStore_key d) →
  stores_wf w → stores_wf (redis_call (λ now r, ((), cmd_set now k v (Some ttl) r)) w).2.
Proof.
  intros Ht Hk. apply redis_call_stores. intros now r. apply records_foreign.
  intros d. apply foreign_set; [done|naive_solver].
Qed.

Lemma publish_location_stores device w :
  device_ok device → stores_wf w → stores_wf (publish_location p device w).2.
Proof.
  intros Hd. apply redis_call_stores. intros now r. apply records_set; [apply ttls|].
  by apply location_record_wf.
Qed.

Lemma delete_location_stores d w : stores_wf w → stores_wf (DeviceLocationStore_delete d w).2.
Proof.
  apply redis_call_stores. intros now r Hr d' e. cbn. rewrite view_del. case_decide; [done|apply Hr].
Qed.

Lemma consume_stores ticket w : stores_wf w → stores_wf (WsTicketStore_consume ticket w).2.
Proof.
  unfold WsTicketStore_consume. destruct (negb _); [done|]. rewrite after_pure.
  apply redis_call_stores. intros now r. unfold CONSUME_LUA. destruct (cmd_get _ _ _); [|done].
  apply records_foreign. intros d. apply foreign_del. discriminate.
Qed.

Lemma update_location_stores device w :
  device_ok device → stores_wf w →
  stores_wf (DeviceRepository_update_location (dev_id device) (dev_location device)
    (dev_geohash device) (dev_shard_prefix device) w).2.
Proof.
  intros [[He Hs] Hn] Hw. unfold DeviceRepository_update_location. rewrite after_pure.
  apply pg_call_stores; [|done]. intros now t. apply update_rows. intros row d' _ _. split; [done|].
  unfold Device_try_from. cbn. rewrite Hn. eexists. split; [done|]. by split.
Qed.

Lemma touch_stores id w : stores_wf w → stores_wf (DeviceRepository_touch id w).2.
Proof.
  unfold DeviceRepository_touch. rewrite after_pure. apply pg_call_stores. intros now t.
  apply update_rows. intros row device Hd [He Hs]. split; [done|]. unfold Device_try_from in *. cbn.
  destruct (Location_new (dr_lat row) _); [|done]. eexists. split; [done|].
  injection Hd as <-. by split.
Qed.

Lemma other_calls_stores d message ticket shard (w : World) :
  stores_wf w →
  stores_wf (publish_control d message w).2 ∧
  stores_wf (RevocationStore_revoke d (dp_revocation_ttl_secs p) w).2 ∧
  stores_wf (WsTicketStore_issue ticket d (dp_ws_ticket_ttl_secs p) w).2 ∧
  stores_wf (RevocationStore_is_revoked d w).2 ∧ stores_wf (ShardRegistry_lookup_shard shard w).2 ∧
  stores_wf (DeviceLocationStore_get d w).2 ∧ stores_wf (DeviceRepository_find_by_id d w).2 ∧
  stores_wf (DeviceRepository_delete d w).2.
Proof.
  intros Hw. destruct ttls as (_ & Hrev & Htick). split_and!.
  - by apply publish_stores.
  - by apply set_other_stores.
  - by apply set_other_stores.
  - by apply read_stores.
  - by apply read_stores.
  - unfold DeviceLocationStore_get. rewrite after_pure. by apply read_stores.
  - unfold DeviceRepository_find_by_id. rewrite after_pure. by apply pg_call_stores.
  - unfold DeviceRepository_delete. rewrite after_pure. apply pg_call_stores; [|done].
    intros now t. apply delete_rows.
Qed.

Lemma insert_stores device w :
  device_ok device → stores_wf w → stores_wf (DeviceRepository_insert device w).2.
Proof.
  intros Hd Hw. unfold DeviceRepository_insert, pg_stmt. rewrite after_pure.
  apply pg_call_stores; [|done]. intros now t. by apply insert_rows.
Qed.

(** Walks through a cut computation; the calls are left to [call]. *)
Ltac walk call :=
  repeat match goal with
  | |- keeps _ _ (PRet _) => cbn
  | |- keeps _ _ (pbind_ok _ _) => apply keeps_ok; [intros ?w ?Hw|done|intros ?w ?b ?Hw ?Hok]
  | |- keeps _ _ (PCall _ _) => apply keeps_atom; [intros ?w ?Hw|intros ?w ?b ?Hw ?Hok]
  | |- keeps _ _ (match ?x with _ => _ end) =>
      first [is_var x; destruct x | let H := fresh "Hx" in destruct x eqn:H]
  | |- keeps _ _ (if ?x then _ else _) => destruct x
  end; try call; try done.

Ltac stores_call :=
  idtac; match goal with
  | |- stores_wf (publish_location _ _ _).2 => apply publish_location_stores; [|assumption]
  | |- stores_wf (DeviceRepository_update_location _ _ _ _ _).2 => apply update_location_stores; [|assumption]
  | |- stores_wf (DeviceRepository_insert _ _).2 => apply insert_stores; [|assumption]
  | |- stores_wf (DeviceRepository_touch _ _).2 => by apply touch_stores
  | |- stores_wf (DeviceLocationStore_delete _ _).2 => by apply delete_location_stores
  | |- stores_wf (WsTicketStore_consume _ _).2 => by apply consume_stores
  | |- stores_wf (utc_now _).2 => by apply tick_stores
  | |- stores_wf (new_uuid _).2 => by apply tick_stores
  | |- stores_wf (publish_control ?d ?m _).2 => by apply (other_calls_stores d m "" "")
  | |- stores_wf (RevocationStore_revoke ?d _ _).2 => by apply (other_calls_stores d Revoked "" "")
  | |- stores_wf (WsTicketStore_issue ?t ?d _ _).2 => by apply (other_calls_stores d Revoked t "")
  | |- stores_wf (RevocationStore_is_revoked ?d _).2 => by apply (other_calls_stores d Revoked "" "")
  | |- stores_wf (ShardRegistry_lookup_shard ?s _).2 =>
      by apply (other_calls_stores (uuid_of_N 0) Revoked "" s)
  | |- stores_wf (DeviceLocationStore_get ?d _).2 => by apply (other_calls_stores d Revoked "" "")
  | |- stores_wf (DeviceRepository_find_by_id ?d _).2 => by apply (other_calls_stores d Revoked "" "")
  | |- stores_wf (DeviceRepository_delete ?d _).2 => by apply (other_calls_stores d Revoked "" "")
  end.

(** What the lookup of a device gave. *)
Ltac found :=
  match goal with H : (DeviceRepository_find_by_id _ _).1 = Ok _ |- _ =>
    apply find_ok in H as [? _]; [|assumption] end.

(** What the answers promise: a registered device is consistent, and the shard of
    an accepted connection is that of the position that was stored, and its
    position what is read of that. *)
Definition rep_ok (r : Rep) : Prop :=
  match r with
  | PRegister (Ok (device, _)) => device_ok device
  | PConnect _ _ (Ok auth) =>
    ∃ loc g, reread_position loc (au_location auth) ∧
      encode_location loc = Ok g ∧ au_shard_prefix auth = shard_prefix_of g
  | _ => True
  end.

Lemma record_location rec loc :
  DeviceLocationRecord_location rec = Ok loc → lat loc = lr_lat rec ∧ lon loc = lr_lon rec.
Proof.
  unfold DeviceLocationRecord_location. intros Hl.
  destruct (Location_new_spec (lr_lat rec) (lr_lon rec)) as [(_ & Hn & _)|[_ Hn]]; rewrite Hn in Hl; [|done].
  by injection Hl as <-.
Qed.

Lemma location_get_ok d w rec :
  stores_wf w → (DeviceLocationStore_get d w).1 = Ok (Some rec) →
  ∃ loc g, encode_location loc = Ok g ∧ lr_shard_prefix rec = shard_prefix_of g ∧
    ∀ read, DeviceLocationRecord_location rec = Ok read → reread_position loc read.
Proof.
  intros [_ Hr]. destruct (DeviceLocationStore_get d w) as [r w'] eqn:Hg. cbn. intros ->.
  apply location_get_Ok in Hg as [(s & Hs & Hp) _].
  apply (get_Some_view (view := view)) in Hs as [dl Hv]; [|intros e He; destruct (Hr d e He) as (?&?&?); eauto].
  destruct (Hr d _ Hv) as (s' & [= <-] & rec' & loc & g & -> & Hloc & Hg & Hsh).
  apply parse_loc_record_json in Hp. unfold reread_record in Hp.
  destruct (record_f64 (lr_lat rec')) as [la|] eqn:Hla; [|done]. cbn in Hp.
  destruct (record_f64 (lr_lon rec')) as [lo|] eqn:Hlo; [|done]. cbn in Hp. injection Hp as <-.
  exists loc, g. split; [done|]. split; [done|]. intros read Hread.
  apply record_location in Hloc as [H1 H2]. apply record_location in Hread as [H3 H4].
  unfold reread_position. rewrite H1, H2, H3, H4. done.
Qed.

Lemma req_keeps_stores q : keeps stores_wf rep_ok (req_proc p q).
Proof.
  destruct q; cbn [req_proc]; try apply keeps_bind_ret.
  - unfold register_proc. walk stores_call; try (by eapply register_ok).
    unfold compose. destruct (TokenSigner_issue _ _ _); cbn; [by eapply register_ok|done].
  - unfold update_location_proc, notify_proc. walk stores_call; found; eapply apply_move_ok; eassumption.
  - unfold heartbeat_proc, atom. walk stores_call; by found.
  - unfold ticket_proc. walk stores_call; by found.
  - unfold revoke_proc, notify_proc. walk stores_call.
  - unfold delete_proc, notify_proc. walk stores_call.
  - apply keeps_atom; [|done]. intros w. apply pg_call_stores. intros now t. apply purge_rows.
  - unfold authorize_proc, or_unavailable_proc. walk stores_call;
      match goal with H : (DeviceLocationStore_get _ _).1 = Ok _ |- _ =>
        apply location_get_ok in H as (loc & g & ? & ? & Hread); [|done] end;
      exists loc, g; split_and!; [by apply Hread|done|done].
Qed.

Definition is_req (c : Proc Rep) : Prop := ∃ q, c = req_proc p q.

(** C18: However requests interleave, every store stays consistent with itself.
    Start any number of requests, let more arrive at any time, and let their calls
    take place in any order, fail, or lose their replies: every row can be read
    and has the geohash and the shard of its position, every location record is the
    text of a valid position with the shard of this position, a registered device
    is returned consistent, and an accepted connection has the shard of the position
    that was stored for it, whose reading is its position. *)
Theorem interleaved_stores_consistent qs w s' :
  stores_wf w → reaches is_req (req_proc p <$> qs, w) s' →
  stores_wf s'.2 ∧ Forall rep_ok (outcomes s').
Proof.
  intros Hw Hr. eapply pool_outcomes; [exact Hr| | |done].
  - intros c [q ->]. apply req_keeps_stores.
  - apply Forall_fmap, Forall_true. intros q. apply req_keeps_stores.
Qed.

(** *** Keys a request leaves alone *)

Definition quiet {B} (key : string) (m : M B) : Prop :=
  ∀ w, (w_tick w ≤ w_tick (m w).2)%nat ∧
       foreign key (at_ w) (w_redis w) (at_ (m w).2) (w_redis (m w).2).

(** No call from the [n]-th on touches the key. *)
Fixpoint calm {A} (n : nat) (key : string) (c : Proc A) : Prop :=
  match c with
  | PRet _ => True
  | PCall m k => quiet key m ∧ ∀ w, (n ≤ w_tick w)%nat → calm n key (k (m w).1)
  end.

(** The keys a request may write or delete from the [n]-th call on. *)
Definition touches (n : nat) (key : string) (q : Req) : Prop :=
  match q with
  | QRegister _ _ | QUpdateLocation _ _ _ | QHeartbeat _ => ∃ d, key = DeviceLocationStore_key d
  | QTicket _ => (∃ d, key = DeviceLocationStore_key d) ∨
      ∃ i j, (n ≤ i)%nat ∧ (n ≤ j)%nat ∧ key = WsTicketStore_key (new_ws_ticket (env_uuid i) (env_uuid j))
  | QRevoke d => key = RevocationStore_key d
  | QDelete d => key = RevocationStore_key d ∨ key = DeviceLocationStore_key d
  | QPurge _ _ => False
  | QConnect _ _ params => key = WsTicketStore_key (cp_ticket params)
  end.

Lemma calm_bind_ret {A B} n key (c : Proc A) (g : A → B) :
  calm n key c → calm n key (pbind c (λ a, PRet (g a))).
Proof. induction c as [a|C m k IH]; cbn; [done|]. intros [Hm Hk]. split; auto. Qed.

Lemma quiet_now {B} key (m : M B) w :
  quiet key m → (w_tick w ≤ w_tick (m w).2)%nat ∧ at_ w ≤ at_ (m w).2 ∧
    view (at_ (m w).2) key (w_redis (m w).2) = aged (at_ (m w).2) (view (at_ w) key (w_redis w)).
Proof. intros Hq. destruct (Hq w) as [Ht Hf]. by apply foreign_view in Hf as [Hle Hv]. Qed.

Lemma quiet_redis {A} key (f : Z → rdb → A * rdb) :
  (∀ t r, foreign key t r t (f t r).2) → quiet key (redis_call f).
Proof.
  intros Hf w. destruct (redis_call_foreign key f w Hf clock_mono) as (_ & Ht & Hfo).
  split; [rewrite Ht; lia|done].
Qed.

Lemma quiet_set key k v ttl :
  k ≠ key → 0 < ttl → quiet key (redis_call (λ now r, ((), cmd_set now k v (Some ttl) r))).
Proof. intros Hk Ht. apply quiet_redis. intros t r. apply foreign_set; [done|naive_solver]. Qed.

Lemma quiet_read {A} key (f : Z → rdb → A) : quiet key (redis_read f).
Proof. apply quiet_redis. intros t r. by apply foreign_wait. Qed.

Lemma quiet_pg {A} key (f : DateTime → Pg → A * Pg) : quiet key (pg_call f).
Proof.
  intros w. destruct (pg_call_foreign key f w clock_mono) as [Ht Hfo]. split; [rewrite Ht; lia|done].
Qed.

Lemma quiet_pure {A B} key (m : MR A) (g : A → result B AppError) :
  quiet key m → quiet key (mbind_ok m (λ a, mret_ (g a))).
Proof. intros Hm w. rewrite after_pure. apply Hm. Qed.

Lemma quiet_publish key d m : quiet key (publish_control d m).
Proof.
  intros w. split; [|by apply publish_foreign].
  unfold publish_control, publish, call. destruct (env_fault (w_tick w)); cbn; lia.
Qed.

Lemma quiet_tick key : quiet key utc_now ∧ quiet key new_uuid.
Proof. split; intros w; (split; [cbn; lia|apply foreign_wait, clock_mono]). Qed.

Ltac quiet_call :=
  idtac; lazymatch goal with
  | |- quiet _ (publish_control _ _) => apply quiet_publish
  | |- quiet _ utc_now => apply quiet_tick
  | |- quiet _ new_uuid => apply quiet_tick
  | |- quiet _ (DeviceRepository_find_by_id _) => apply quiet_pure, quiet_pg
  | |- quiet _ (DeviceRepository_update_location _ _ _ _) => apply quiet_pure, quiet_pg
  | |- quiet _ (DeviceRepository_touch _) => apply quiet_pure, quiet_pg
  | |- quiet _ (DeviceRepository_insert _) => apply quiet_pure, quiet_pg
  | |- quiet _ (DeviceRepository_delete _) => apply quiet_pure, quiet_pg
  | |- quiet _ (DeviceRepository_purge_inactive _ _) => apply quiet_pg
  | |- quiet _ (ShardRegistry_lookup_shard _) => apply quiet_read
  | |- quiet _ (RevocationStore_is_revoked _) => apply quiet_read
  | |- quiet _ (DeviceLocationStore_get _) => apply quiet_pure, quiet_read
  | |- quiet _ (publish_location _ _) => apply quiet_set
  | |- quiet _ (WsTicketStore_issue _ _ _) => apply quiet_set
  | |- quiet _ (RevocationStore_revoke _ _) => apply quiet_set
  end.

Lemma calm_ok {A B} n key (m : MR B) (k : B → Proc (result A AppError)) :
  quiet key m → (∀ b, calm n key (k b)) → calm n key (pbind_ok m k).
Proof. intros Hm Hk. split; [done|]. intros w _. by destruct (m w).1. Qed.

Ltac calm_walk :=
  repeat match goal with
  | |- calm _ _ (PRet _) => exact I
  | |- calm _ _ (pbind_ok _ _) => apply calm_ok; [|intros ?b]
  | |- calm _ _ (PCall _ _) => split; [|intros ?w ?Hn; cbn [fst new_uuid utc_now]]
  | |- calm _ _ (match ?x with _ => _ end) => destruct x
  end; try quiet_call; try apply ttls.

Lemma req_calm n key q : ¬ touches n key q → calm n key (req_proc p q).
Proof.
  destruct q as [la lo|d la lo|d|d|d|d|cutoff batch|wk d params]; cbn [touches req_proc]; intros Ht;
    try apply calm_bind_ret.
  - unfold register_proc. calm_walk. contradict Ht. eauto.
  - unfold update_location_proc, notify_proc. calm_walk; contradict Ht; eauto.
  - unfold heartbeat_proc, atom. calm_walk; contradict Ht; eauto.
  - unfold ticket_proc. calm_walk; contradict Ht; [by left; eexists|right; eauto 6].
  - unfold revoke_proc, notify_proc. calm_walk. by contradict Ht.
  - unfold delete_proc, notify_proc. calm_walk; [by contradict Ht; left|].
    apply quiet_redis. intros t r. apply foreign_del. contradict Ht. by right.
  - calm_walk.
  - unfold authorize_proc, or_unavailable_proc. calm_walk.
    unfold WsTicketStore_consume. destruct (negb _).
    + intros w. split; [done|by apply foreign_wait].
    + apply quiet_pure, quiet_redis. intros t r. unfold CONSUME_LUA.
      destruct (cmd_get _ _ _); [apply foreign_del; by contradict Ht|by apply foreign_wait].
Qed.

(** *** One ticket, one connection *)

Section Ticket.
Context (ticket : string) (n : nat).
Hypothesis not_reissued : ∀ i j, (n ≤ i)%nat → (n ≤ j)%nat →
  new_ws_ticket (env_uuid i) (env_uuid j) ≠ ticket.

(** From the [n]-th call on; the ticket's key holds a string, if anything. *)
Definition ticket_is_str (w : World) : Prop :=
  (n ≤ w_tick w)%nat ∧ str_at (view := view) (at_ w) (WsTicketStore_key ticket) (w_redis w).

Definition got_in (r : Rep) : Prop :=
  match r with PConnect t _ (Ok _) => t = ticket | _ => False end.

Lemma quiet_ticket {B} (m : M B) w :
  quiet (WsTicketStore_key ticket) m → ticket_is_str w →
  ticket_is_str (m w).2 ∧ (ticket_gone (view := view) ticket w → ticket_gone (view := view) ticket (m w).2).
Proof.
  intros Hq [Hn Hs]. destruct (quiet_now _ m w Hq) as (Ht & _ & Hv).
  unfold ticket_is_str, str_at, ticket_gone in *. rewrite Hv. split.
  - split; [lia|]. intros e. destruct (view (at_ w) _ _) as [e'|]; [|done]. cbn. destruct (expired _ e'); [done|].
    intros [= <-]. by apply Hs.
  - by intros ->.
Qed.

Lemma calm_spent {A} (c : Proc A) :
  calm n (WsTicketStore_key ticket) c → spent ticket_is_str (ticket_gone (view := view) ticket) c.
Proof.
  induction c as [a|B m k IH]; cbn; [done|]. intros [Hq Hk] w Hs.
  destruct (quiet_ticket m w Hq Hs). destruct Hs. auto.
Qed.

Lemma calm_guarded (c : Proc Rep) :
  calm n (WsTicketStore_key ticket) c → keeps (λ _, True) (λ r, ¬ got_in r) c →
  guarded ticket_is_str (ticket_gone (view := view) ticket) got_in c.
Proof.
  induction c as [a|B m k IH]; cbn; [done|]. intros [Hq Hk] [_ Hl] w Hs.
  destruct (quiet_ticket m w Hq Hs). destruct Hs. split; [done|]. left. auto.
Qed.

(** The returns of a computation whose answers are all wrapped. *)
Lemma keeps_wrap {A} (c : Proc A) (g : A → Rep) :
  (∀ a, ¬ got_in (g a)) → keeps (λ _, True) (λ r, ¬ got_in r) (pbind c (λ a, PRet (g a))).
Proof. intros Hg. induction c as [a|B m k IH]; cbn; [apply Hg|]. split; auto. Qed.

Lemma ticket_key_inj a b : WsTicketStore_key a = WsTicketStore_key b → a = b.
Proof. unfold WsTicketStore_key. by intros [= ?]. Qed.

Lemma consume_tick w : (w_tick w ≤ w_tick (WsTicketStore_consume ticket w).2)%nat.
Proof.
  unfold WsTicketStore_consume. destruct (negb _); [done|]. rewrite after_pure.
  pose proof (redis_call_cases (CONSUME_LUA (WsTicketStore_key ticket)) w) as Hc.
  destruct (redis_call _ w). destruct Hc as (_ & _ & _ & Ht & _). cbn [snd]. lia.
Qed.

Lemma connect_guarded wk d params :
  guarded ticket_is_str (ticket_gone (view := view) ticket) got_in (req_proc p (QConnect wk d params)).
Proof.
  destruct (decide (cp_ticket params = ticket)) as [Ht|Hne].
  2:{ apply calm_guarded; [apply req_calm; intros He%ticket_key_inj; congruence|]. cbn [req_proc]. apply keeps_wrap.
      intros [a|e]; cbn; [done|by intros []]. }
  cbn [req_proc]. unfold authorize_proc, or_unavailable_proc at 1. rewrite Ht. cbn [pbind guarded].
  intros w [Hn Hs]. pose proof (consume_cases ticket w clock_mono Hs) as Hc.
  pose proof (consume_tick w) as Hct.
  destruct (WsTicketStore_consume ticket w) as [x w'] eqn:Hx. destruct Hc as (Hs' & Hok & Hno). cbn [fst snd].
  cbn [snd] in Hct. split; [split; [lia|done]|]. destruct x as [[d'|]|e]; cbn [pbind].
  - right. split_and!; [intros Hg; by apply Hno|by apply Hok|]. apply calm_spent, calm_bind_ret.
    unfold or_unavailable_proc. calm_walk.
  - left. split; [intros Hg; by apply Hno|cbn; by intros []].
  - left. split; [intros Hg; by apply Hno|cbn; by intros []].
Qed.

(** Only a connection attempt touches a ticket that is not issued again. *)
Lemma ticket_touched q : touches n (WsTicketStore_key ticket) q → ∃ wk d params, q = QConnect wk d params.
Proof.
  destruct q; cbn; [by intros [? [=]]..| |done|by intros [[=]|[=]]|done|eauto].
  intros [[? [=]]|(i & j & Hi & Hj & He%ticket_key_inj)]. by destruct (not_reissued i j Hi Hj).
Qed.

Lemma req_guarded q :
  guarded ticket_is_str (ticket_gone (view := view) ticket) got_in (req_proc p q).
Proof.
  destruct q; try apply connect_guarded;
    (apply calm_guarded; [apply req_calm; by intros (?&?&?&[=])%ticket_touched|]); cbn [req_proc];
    try (apply keeps_wrap; by intros ? []).
  split; [done|]. intros w _ [].
Qed.

(** C11: One ticket opens at most one connection, however the attempts interleave.
    Any number of workers and devices may present the ticket at the same time,
    while any other requests run, arrive, fail, or lose their replies: at most one
    of all attempts is accepted, provided the ticket is not drawn again later. *)
Theorem ticket_opens_one_connection_concurrently qs w s' i j d1 d2 a b :
  ticket_is_str w → reaches is_req (req_proc p <$> qs, w) s' →
  s'.1 !! i = Some (PRet (PConnect ticket d1 (Ok a))) →
  s'.1 !! j = Some (PRet (PConnect ticket d2 (Ok b))) → i = j.
Proof.
  intros Hs Hr Ha Hb.
  eapply (at_most_one_winner ticket_is_str (ticket_gone (view := view) ticket) got_in is_req
            (req_proc p <$> qs, w) s'); [| |exact Hs|exact Hr|exact Ha|exact Hb|done..].
  - intros c [q ->]. apply req_guarded.
  - apply Forall_fmap, Forall_true. intros q. apply req_guarded.
Qed.
End Ticket.

(** *** Revocation *)

Section Revoked.
Context (d : Uuid) (deadline : Z).

(** The device is revoked until [deadline] at least, and a revocation written now
    would not end earlier. *)
Definition in_force (w : World) : Prop :=
  deadline ≤ at_ w + ttl_ns (dp_revocation_ttl_secs p) ∧
  ∃ v t, view (at_ w) (RevocationStore_key d) (w_redis w) = Some (v, Some t) ∧ deadline ≤ t.

Definition let_in (r : Rep) : Prop :=
  match r with PConnect _ d' (Ok _) => d' = d | _ => False end.

(** Up to the deadline every call keeps the revocation, and the device does not
    get in. *)
Fixpoint shut_out (c : Proc Rep) : Prop :=
  match c with
  | PRet r => ¬ let_in r
  | PCall m k => ∀ w, at_ (m w).2 < deadline → in_force w →
                   in_force (m w).2 ∧ shut_out (k (m w).1)
  end.

Lemma in_force_quiet {B} (m : M B) w :
  quiet (RevocationStore_key d) m → at_ (m w).2 < deadline → in_force w → in_force (m w).2.
Proof.
  intros Hq Hlt (Hd & v & t & Hv & Ht). destruct (quiet_now _ m w Hq) as (_ & Hle & Hview).
  split; [lia|]. exists v, t. rewrite Hview, Hv. cbn. unfold expired. cbn.
  by rewrite (proj2 (Z.leb_gt _ _)) by lia.
Qed.

Lemma in_force_revoke w :
  in_force w → at_ (RevocationStore_revoke d (dp_revocation_ttl_secs p) w).2 < deadline →
  in_force (RevocationStore_revoke d (dp_revocation_ttl_secs p) w).2.
Proof.
  intros Hw Hlt. unfold RevocationStore_revoke in *.
  pose proof (redis_call_cases (λ now r, ((), cmd_set now (RevocationStore_key d) "1"
    (Some (dp_revocation_ttl_secs p)) r)) w) as Hc.
  destruct (redis_call _ w) as [x w']. destruct Hc as (_ & _ & _ & Htick & Hx). cbn [snd] in *.
  assert (Hle : at_ w ≤ at_ w') by (rewrite Htick; apply clock_mono).
  destruct Hw as (Hd & v & t & Hv & Ht). destruct ttls as (_ & Httl & _).
  assert (Hcase : w_redis w' = w_redis w ∨ w_redis w' = cmd_set (at_ w) (RevocationStore_key d) "1"
    (Some (dp_revocation_ttl_secs p)) (w_redis w)).
  { destruct x; [injection Hx as <-; by right|]. destruct Hx as [_ [-> | ->]]; eauto. }
  split; [lia|]. rewrite (view_later (at_ w)) by done. destruct Hcase as [-> | ->].
  - rewrite Hv. unfold expired. cbn. rewrite (proj2 (Z.leb_gt _ _)) by lia. eauto.
  - rewrite view_set, decide_True by naive_solver. cbn. unfold expired. cbn.
    rewrite (proj2 (Z.leb_gt _ _)) by lia. eauto.
Qed.

Lemma calm_shut_out c :
  calm 0 (RevocationStore_key d) c → keeps (λ _, True) (λ r, ¬ let_in r) c → shut_out c.
Proof.
  induction c as [r|B m k IH]; cbn; [done|]. intros [Hq Hk] [_ Hl] w Hlt Hw.
  split; [by apply in_force_quiet|auto with lia].
Qed.

Lemma wrap_shut_out {A} (c : Proc A) (g : A → Rep) :
  (∀ a, ¬ let_in (g a)) → keeps (λ _, True) (λ r, ¬ let_in r) (pbind c (λ a, PRet (g a))).
Proof. intros Hg. induction c as [a|B m k IH]; cbn; [apply Hg|]. split; auto. Qed.

Lemma connect_shut_out wk d' params : shut_out (req_proc p (QConnect wk d' params)).
Proof.
  destruct (decide (d' = d)) as [->|Hne].
  2:{ apply calm_shut_out; [apply req_calm; by intros [=]|]. cbn [req_proc]. apply wrap_shut_out.
      intros [a|e]; cbn; [done|by intros []]. }
  cbn [req_proc]. unfold authorize_proc, or_unavailable_proc at 1. cbn [pbind shut_out].
  assert (Hcalm : calm 0 (RevocationStore_key d) (req_proc p (QConnect wk d params)))
    by (apply req_calm; by intros [=]).
  intros w Hlt Hw. split; [apply in_force_quiet; [apply Hcalm|done..]|].
  destruct (WsTicketStore_consume _ w).1 as [[d2|]|e]; cbn [pbind shut_out]; [|by intros []..].
  destruct (negb _); cbn [pbind shut_out]; [by intros []|]. unfold or_unavailable_proc at 1.
  cbn [pbind shut_out]. intros w2 Hlt2 Hw2. split; [by apply in_force_quiet; [apply quiet_read|..]|].
  destruct (RevocationStore_is_revoked d w2) as [[b|e] w3] eqn:Hr; cbn [fst pbind shut_out]; [|by intros []].
  apply redis_read_Ok in Hr as [-> _]. rewrite exists_view. destruct Hw2 as (_ & v & t & -> & _).
  rewrite bool_decide_eq_true_2 by eauto. cbn. by intros [].
Qed.

(** The same key may be that of another identifier only if it prints the same. *)
Lemma revoke_first_shut_out {A} d' (k : () → Proc (result A AppError)) (g : result A AppError → Rep) :
  RevocationStore_key d = RevocationStore_key d' →
  (∀ a, ¬ let_in (g a)) → (∀ u, calm 0 (RevocationStore_key d) (k u)) →
  shut_out (pbind (pbind_ok (RevocationStore_revoke d' (dp_revocation_ttl_secs p)) k)
              (λ r, PRet (g r))).
Proof.
  intros He Hg Hk. unfold RevocationStore_revoke. rewrite <- He.
  fold (RevocationStore_revoke d (dp_revocation_ttl_secs p)).
  cbn. intros w Hlt Hw. split; [by apply in_force_revoke|].
  destruct (RevocationStore_revoke _ _ w).1; cbn; [|apply Hg].
  apply calm_shut_out; [by apply calm_bind_ret|by apply wrap_shut_out].
Qed.

Lemma req_shut_out q : shut_out (req_proc p q).
Proof.
  destruct q as [la lo|d' la lo|d'|d'|d'|d'|cutoff batch|wk d' params]; try apply connect_shut_out.
  all: try (apply calm_shut_out; [apply req_calm; cbn; by first [intros [? [=]]
    | intros [[? [=]]|(?&?&_&_&[=])] | intros []]|cbn [req_proc]; apply wrap_shut_out; by intros ? []]).
  - destruct (decide (RevocationStore_key d = RevocationStore_key d')) as [He|Hne].
    2:{ apply calm_shut_out; [by apply req_calm|]. apply wrap_shut_out. by intros ? []. }
    cbn. intros w Hlt Hw. split; [by apply in_force_quiet; [apply quiet_pure, quiet_pg|..]|].
    destruct (DeviceRepository_find_by_id d' w).1; [|by intros []].
    apply revoke_first_shut_out; [done|by intros ? []|]. intros _. unfold notify_proc. calm_walk.
  - destruct (decide (RevocationStore_key d = RevocationStore_key d')) as [He|Hne].
    2:{ apply calm_shut_out; [apply req_calm; by intros [?|[=]]|]. apply wrap_shut_out. by intros ? []. }
    apply revoke_first_shut_out; [done|by intros ? []|]. intros _. unfold notify_proc. calm_walk.
    apply quiet_redis. intros t r. by apply foreign_del.
  - cbn. intros w Hlt Hw. split; [by apply in_force_quiet; [apply quiet_pg|..]|]. by intros [].
Qed.

(** Along a run: time does not go backwards, so before the deadline the revocation
    was in force at every step, and every member is still shut out. *)
Definition all_shut_out (s : Pool Rep) : Prop :=
  Forall (calm 0 "") s.1 ∧ (at_ s.2 < deadline → in_force s.2 ∧ Forall shut_out s.1).

Lemma req_all_shut_out q : calm 0 "" (req_proc p q) ∧ shut_out (req_proc p q).
Proof.
  split; [apply req_calm|apply req_shut_out].
  destruct q; cbn; [by intros [? [=]]..| |by intros [=]|by intros [[=]|[=]]|by intros []|by intros [=]].
  by intros [[? [=]]|(?&?&_&_&[=])].
Qed.

Lemma all_shut_out_step s s' : cstep is_req s s' → all_shut_out s → all_shut_out s'.
Proof.
  intros Hs [Hc Hl]. destruct Hs as [i B m k l w Hi|c l w [q ->]]; unfold all_shut_out; cbn [fst snd] in *.
  - assert (Hci : calm 0 "" (PCall m k)) by (by eapply Forall_lookup_1). destruct Hci as [Hq Hk].
    destruct (quiet_now _ m w Hq) as (_ & Hle & _).
    split; [apply Forall_insert; [done|apply Hk; lia]|]. intros Hlt. destruct Hl as [Hin Hso]; [lia|].
    assert (Hsi : shut_out (PCall m k)) by (by eapply Forall_lookup_1).
    destruct (Hsi w Hlt Hin). split; [done|by apply Forall_insert].
  - destruct (req_all_shut_out q). split; [apply Forall_app; auto|].
    intros Hlt. destruct (Hl Hlt). split; [done|apply Forall_app; auto].
Qed.

(** C15: A revoked device stays out, whatever runs at the same time. From the moment
    its revocation is in force, and until its deadline, no interleaving of
    requests, repeated revocations and deletions of the same device included,
    ends the revocation, and no connection attempt of the device that starts is
    accepted by any worker. *)
Theorem revoked_device_shut_out_concurrently qs w s' :
  in_force w → reaches is_req (req_proc p <$> qs, w) s' → at_ s'.2 < deadline →
  in_force s'.2 ∧ ∀ ticket auth, PConnect ticket d (Ok auth) ∉ outcomes s'.
Proof.
  intros Hw Hr Hlt.
  assert (Hs : all_shut_out (req_proc p <$> qs, w)).
  { split; [|intros _; split; [done|]]; apply Forall_fmap, Forall_true; apply req_all_shut_out. }
  assert (Hs' : all_shut_out s').
  { clear Hlt Hw. induction Hr as [|s1 s2 s3 H12 _ IH]; [done|]. by eapply IH, all_shut_out_step. }
  destruct Hs' as [_ Hs']. destruct (Hs' Hlt) as [Hin Hso]. split; [done|].
  intros ticket auth Ha. unfold outcomes in Ha.
  apply list_elem_of_omap in Ha as ([a'|] & Hel & Hout); [|done]. injection Hout as ->.
  rewrite Forall_forall in Hso. by apply (Hso _ Hel).
Qed.
End Revoked.
End Invariants.

(** ** Witnesses *)

Definition plain_ttls : 0 < 86400 ∧ 0 < 3600 ∧ 0 < 30 := conj eq_refl (conj eq_refl eq_refl).

Abbreviation plain_proc := (@req_proc map_redis (calm_env toy_clock) binary_uuids plain_loc_codec plain_wire
  toy_geohash plain_jwt toy_scan sample_parts).

(** A ticket, a move to another shard and a deletion of device 3, call by call. *)
Definition mixed_requests : list Req := [QTicket dev3; QUpdateLocation dev3 (f64_of_Z 10) (f64_of_Z 10); QDelete dev3].

Lemma sample_stores_wf : @stores_wf map_redis map_view (calm_env toy_clock) binary_uuids plain_loc_codec
  toy_geohash device_world.
Proof.
  split.
  - intros id row. unfold device_world. cbn. intros [<- <-]%lookup_singleton_Some. split; [done|].
    by exists sample_device.
  - intros d e He. discriminate He.
Qed.

Lemma interleaved_stores_consistent_witness :
  let s := run_pool [0; 1; 2; 0; 1; 2; 0; 1; 2; 0; 1; 2; 0; 1; 0; 1]%nat (plain_proc <$> mixed_requests, device_world) in
  length (outcomes s) = 3%nat ∧
  @stores_wf map_redis map_view (calm_env toy_clock) binary_uuids plain_loc_codec toy_geohash s.2.
Proof.
  cbv zeta. split; [vm_compute; reflexivity|].
  apply (@interleaved_stores_consistent map_redis map_view map_redis_laws (calm_env toy_clock) binary_uuids
    plain_loc_codec plain_loc_codec_laws plain_wire toy_geohash plain_jwt toy_scan sample_parts
    toy_clock_monotone plain_ttls mixed_requests device_world); [exact sample_stores_wf|].
  apply run_pool_reaches.
Defined.

(** The environment in which the ticket drawn by the calls 2 and 3 is not drawn again. *)
Definition ticket_env : Env := {|
  env_fault := λ _, Works; env_clock := toy_clock; env_uuid := λ n, uuid_of_N (N.of_nat (n `min` 6));
|}.
Definition issued_world : @World map_redis :=
  (@DeviceService_issue_ws_ticket map_redis ticket_env binary_uuids plain_loc_codec plain_jwt
     sample_parts dev3 device_world).2.
Definition issued_ticket : string := new_ws_ticket (uuid_of_N 2) (uuid_of_N 3).
Definition attempt : Req := QConnect tiny_worker dev3 (MkParams issued_ticket None).

(** Two clients present the same ticket at the same time. *)
Definition two_attempts :=
  @run_pool map_redis _ [0; 1; 0; 1; 0; 1]%nat
    (@req_proc map_redis ticket_env binary_uuids plain_loc_codec plain_wire toy_geohash plain_jwt toy_scan
       sample_parts <$> [attempt; attempt], issued_world).

Definition got_in_at (s : @Pool map_redis Rep) (i : nat) : bool :=
  match s.1 !! i with
  | Some (PRet (PConnect ticket _ (Ok _))) => bool_decide (ticket = issued_ticket)
  | _ => false
  end.

Lemma got_in_at_true s i :
  got_in_at s i = true → ∃ d a, s.1 !! i = Some (PRet (PConnect issued_ticket d (Ok a))).
Proof.
  unfold got_in_at. destruct (s.1 !! i) as [[[| | | | |t d0 [a|]]|]|]; try done.
  intros ->%bool_decide_eq_true_1. eauto.
Qed.

Lemma two_attempts_reached :
  reaches (@is_req map_redis ticket_env binary_uuids plain_loc_codec plain_wire toy_geohash plain_jwt
             toy_scan sample_parts)
    (@req_proc map_redis ticket_env binary_uuids plain_loc_codec plain_wire toy_geohash plain_jwt toy_scan
       sample_parts <$> [attempt; attempt], issued_world) two_attempts.
Proof. apply run_pool_reaches. Qed.

Lemma issued_ticket_is_str : @ticket_is_str map_redis map_view ticket_env issued_ticket 6 issued_world.
Proof.
  split; [vm_compute; reflexivity|]. intros e He.
  assert (Hs : match map_view (@env_clock ticket_env (w_tick issued_world))
                       (WsTicketStore_key issued_ticket) (w_redis issued_world) with
               | Some (RStr _, _) => true | _ => false end = true) by (vm_compute; reflexivity).
  destruct e as [[s|h] dl]; [by eexists|rewrite He in Hs; discriminate Hs].
Qed.

Lemma issued_ticket_unique i j : (6 ≤ i)%nat → (6 ≤ j)%nat →
  new_ws_ticket (@env_uuid ticket_env i) (@env_uuid ticket_env j) ≠ issued_ticket.
Proof.
  intros Hi Hj. cbn [ticket_env env_uuid]. rewrite !Nat.min_r by done. vm_compute. discriminate.
Qed.

Lemma first_got_in : got_in_at two_attempts 0 = true.
Proof. vm_compute. reflexivity. Qed.

Lemma ticket_opens_one_connection_concurrently_witness :
  got_in_at two_attempts 0 = true ∧ ∀ j d b,
    two_attempts.1 !! j = Some (PRet (PConnect issued_ticket d (Ok b))) → j = 0%nat.
Proof.
  pose proof first_got_in as H0. split; [exact H0|].
  intros j d b Hj. symmetry. destruct (got_in_at_true _ _ H0) as (d0 & a & Ha).
  apply (@ticket_opens_one_connection_concurrently map_redis map_view map_redis_laws ticket_env
    binary_uuids plain_loc_codec plain_wire toy_geohash plain_jwt toy_scan sample_parts
    toy_clock_monotone plain_ttls issued_ticket 6) with (qs := [attempt; attempt]) (w := issued_world)
    (s' := two_attempts) (d1 := d0) (d2 := d) (a := a) (b := b).
  - exact issued_ticket_unique.
  - exact issued_ticket_is_str.
  - exact two_attempts_reached.
  - exact Ha.
  - exact Hj.
Defined.

(** Device 3 is revoked; then it asks for a ticket, presents it, and is deleted. *)
Definition revoked_world : @World map_redis :=
  (@DeviceService_revoke map_redis (calm_env toy_clock) binary_uuids plain_wire plain_jwt
     sample_parts dev3 issued_world).2.

Lemma revoked_device_shut_out_concurrently_witness :
  let s := run_pool [0; 1; 2; 0; 1; 2; 0; 1; 2; 0; 1; 2; 0; 0]%nat
             (plain_proc <$> [QTicket dev3; attempt; QDelete dev3], revoked_world) in
  (length (outcomes s) = 3%nat ∧ env_clock (Env := calm_env toy_clock) (w_tick s.2) < seconds 1000) ∧
  ∀ ticket auth, PConnect ticket dev3 (Ok auth) ∉ outcomes s.
Proof.
  cbv zeta. split; [vm_compute; by split|].
  apply (@revoked_device_shut_out_concurrently map_redis map_view map_redis_laws (calm_env toy_clock)
    binary_uuids plain_loc_codec plain_wire toy_geohash plain_jwt toy_scan sample_parts
    toy_clock_monotone plain_ttls dev3 (seconds 1000) [QTicket dev3; attempt; QDelete dev3] revoked_world).
  - split; [vm_compute; discriminate|]. eexists _, _. split; [vm_compute; reflexivity|].
    vm_compute. discriminate.
  - apply run_pool_reaches.
  - vm_compute. reflexivity.
Defined.
