(* ===== verification/RequestRaces.v ===== *)
(** * Races between requests

    Two runs of [Requests] in which the stores end up in disagreement, though
    every call works and every request answers with success: a heartbeat writes
    back the location record of a device that was deleted, or that moved, since
    it read the row. *)

From S2P Require Import Prelude F64 Str Errors Metrics Geo Domain Auth Configs Registry Redis World.
From S2P Require Import Interleave Stores Lease Db Nats Worker Replay Fanout Ws DeviceService Requests.

Open Scope Z_scope.

Section Races.
Context {R : RedisServer} {view : Z → string → rdb → option entry} {RL : RedisLaws R view}.
Context {E : Env} {UC : UuidCodec} {LC : LocRecordCodec} {F : Rfc3339} {W : Wire}
  {G : Geohash} {J : Jwt} {S : TableScan}.
Context (p : DeviceServiceParts).
Hypothesis works : ∀ n, env_fault n = Works.
Hypothesis ttl_pos : 0 < dp_location_ttl_secs p.

Lemma run_pool_cons {A} i rest (s : Pool A) : run_pool (i :: rest) s = run_pool rest (step_at i s).
Proof. done. Qed.

(** The statements on a row that is there. *)
Lemma update_found d row f t :
  t_devices t !! d = Some row →
  stmt_update_device d f t = (1, set_devices (<[d := f row]> (t_devices t)) t).
Proof. unfold stmt_update_device. by intros ->. Qed.

Lemma delete_found d row t :
  t_devices t !! d = Some row → stmt_delete_device d t = (1, set_devices (delete d (t_devices t)) t).
Proof. unfold stmt_delete_device. by intros ->. Qed.

(** The next turn of a run. *)
Ltac turn :=
  rewrite run_pool_cons; unfold step_at at 1; cbn [fst snd lookup list_lookup insert list_insert];
  unfold DeviceRepository_find_by_id, DeviceRepository_touch, DeviceRepository_delete,
    DeviceRepository_update_location, RevocationStore_revoke, DeviceLocationStore_delete,
    publish_location, DeviceLocationStore_set, ShardRegistry_lookup_shard, publish_control, publish;
  repeat run_step;
  cbn [pbind fst snd utc_now tick set_tick w_tick w_redis w_pg w_published w_stream].

(** The record a heartbeat or a location update of [device] leaves at time [t]. *)
Definition holds_record (device : Device) (t : Z) (r : rdb) : Prop :=
  view t (DeviceLocationStore_key (dev_id device)) r
  = Some (RStr (loc_record_json (location_record device)), Some (t + ttl_ns (dp_location_ttl_secs p))).

Lemma published_holds device t r :
  holds_record device t (cmd_set t (DeviceLocationStore_key (dev_id device))
    (loc_record_json (location_record device)) (Some (dp_location_ttl_secs p)) r).
Proof. unfold holds_record. rewrite view_set, decide_True by (done || naive_solver). done. Qed.

(** The heartbeat reads and touches the row; the deletion revokes, deletes the row
    and the record, and notifies the device; the heartbeat writes the record. *)
Definition heartbeat_and_delete : list nat := [0; 0; 1; 1; 1; 1; 0]%nat.

(** C36: The location record of a deleted device can come back. A heartbeat that has
    read the row before a deletion, and writes the location record after it, leaves
    the deleted device's position in Redis for another [location_ttl_secs], though
    both requests succeed and the row is gone. *)
Theorem deleted_location_written_back d w row device :
  t_devices (w_pg w) !! d = Some row → dr_id row = d → Device_try_from row = Ok device →
  let '(l, w') := run_pool heartbeat_and_delete
                    ([req_proc p (QHeartbeat d); req_proc p (QDelete d)], w) in
  outcomes (l, w') = [PUnit (Ok ()); PUnit (Ok ())] ∧
  t_devices (w_pg w') !! d = None ∧
  holds_record device (env_clock (6 + w_tick w)) (w_redis w').
Proof.
  intros Hrow Hid Hdev. unfold heartbeat_and_delete.
  assert (Hd : dev_id device = d) by (by rewrite (Device_try_from_id row)).
  cbn [req_proc pbind]. unfold heartbeat_proc, delete_proc, atom, pbind_ok, notify_proc. cbn [pbind].
  turn. rewrite Hrow, Hdev. cbn [pbind].
  turn. rewrite Hd, (update_found d row) by done. cbn [pbind fst snd Z.eqb].
  turn.
  turn. erewrite (delete_found d) by apply lookup_insert_eq.
  turn. turn. turn. rewrite <- Hd. split_and!; [done|cbn; apply lookup_delete_eq|apply published_holds].
Qed.

(** The heartbeat reads the row; the update runs to its end; the heartbeat touches
    the row and writes the record. *)
Definition heartbeat_and_move : list nat := [0; 1; 1; 1; 1; 1; 1; 0; 0]%nat.

(** A heartbeat can undo a shard change in Redis. When a heartbeat has read the
    row before a location update that moves the device to another shard, and
    writes the location record after it, the row and the notice to the device name
    the new shard, but the record, which is what the workers check connections
    against, names the old position and shard again. *)
Theorem moved_location_written_back d la lo loc w row device device' moved :
  t_devices (w_pg w) !! d = Some row → dr_id row = d → Device_try_from row = Ok device →
  Location_new la lo = Ok loc →
  apply_move (env_clock (2 + w_tick w)) device loc = Ok (device', moved, true) →
  let '(l, w') := run_pool heartbeat_and_move
                    ([req_proc p (QHeartbeat d); req_proc p (QUpdateLocation d la lo)], w) in
  (∃ url, outcomes (l, w') = [PUnit (Ok ()); PUpdate (Ok (MkLocationUpdate (dev_shard_prefix device') true url))] ∧
     w_published w' = w_published w ++ move_notice device' loc moved true url) ∧
  (∃ row', t_devices (w_pg w') !! d = Some row' ∧ dr_shard_prefix row' = dev_shard_prefix device') ∧
  holds_record device (env_clock (8 + w_tick w)) (w_redis w').
Proof.
  intros Hrow Hid Hdev Hloc Hmove. cbn [Nat.add] in *. unfold heartbeat_and_move.
  assert (Hd : dev_id device = d) by (by rewrite (Device_try_from_id row)).
  cbn [req_proc pbind]. unfold heartbeat_proc, update_location_proc, atom, pbind_ok, notify_proc. cbn [pbind].
  turn. rewrite Hrow, Hdev. cbn [pbind].
  turn. rewrite Hrow, Hdev, Hloc. cbn [pbind].
  turn. rewrite Hmove. cbn [pbind].
  pose proof (apply_move_id _ _ _ _ _ _ Hmove) as [Hd' _].
  turn. rewrite Hd', Hd, (update_found d row) by done. cbn [pbind fst snd Z.eqb].
  turn. turn. turn.
  turn. erewrite (update_found d) by apply lookup_insert_eq. cbn [pbind fst snd Z.eqb].
  turn. rewrite <- Hd. split_and!.
  - eexists. split; [done|]. unfold move_notice. by rewrite Hd'.
  - eexists. split; [apply lookup_insert_eq|done].
  - apply published_holds.
Qed.
End Races.

(** ** Witnesses *)

Lemma deleted_location_written_back_witness :
  let '(l, w') := run_pool heartbeat_and_delete (plain_proc <$> [QHeartbeat dev3; QDelete dev3], device_world) in
  outcomes (l, w') = [PUnit (Ok ()); PUnit (Ok ())] ∧
  t_devices (w_pg w') !! dev3 = None ∧
  @holds_record map_redis map_view binary_uuids plain_loc_codec plain_jwt sample_parts sample_device
    (toy_clock 6) (w_redis w').
Proof.
  exact (@deleted_location_written_back map_redis map_view map_redis_laws (calm_env toy_clock) binary_uuids
    plain_loc_codec plain_wire toy_geohash plain_jwt toy_scan sample_parts (λ _, eq_refl) eq_refl dev3
    device_world sample_row sample_device sample_pg_row eq_refl eq_refl).
Defined.

Lemma moved_location_written_back_witness :
  let '(l, w') := run_pool heartbeat_and_move
    (plain_proc <$> [QHeartbeat dev3; QUpdateLocation dev3 (f64_of_Z 10) (f64_of_Z 10)], device_world) in
  (∃ row', t_devices (w_pg w') !! dev3 = Some row' ∧ dr_shard_prefix row' = "u4pr") ∧
  @holds_record map_redis map_view binary_uuids plain_loc_codec plain_jwt sample_parts sample_device
    (toy_clock 8) (w_redis w') ∧ dev_shard_prefix sample_device = "tiny".
Proof.
  pose proof (@moved_location_written_back map_redis map_view map_redis_laws (calm_env toy_clock) binary_uuids
    plain_loc_codec plain_wire toy_geohash plain_jwt toy_scan sample_parts (λ _, eq_refl) eq_refl dev3
    (f64_of_Z 10) (f64_of_Z 10) toy_center device_world sample_row sample_device
    (MkDevice dev3 toy_center "u4pruyd" "u4pr" 5000 (toy_clock 2)) true
    sample_pg_row eq_refl eq_refl eq_refl eq_refl) as H.
  cbv [fmap list_fmap]. destruct (run_pool heartbeat_and_move _) as [l w']. destruct H as (_ & H1 & H2). done.
Defined.
