(* ===== verification/Dispatch.v ===== *)
(** * Dispatching alerts

    crates/api-coordinator/src/services/alert_dispatch_service.rs: an alert is
    validated, routed, stored, published to every target shard and summarized.
    The publisher is a trait of the source and the class [AlertPublisher] here.

    [buffer_unordered] runs up to [MAX_PARALLEL_SHARDS] futures at once and
    yields their results as they complete. The order of completion is the class
    [Unordered]; the shards' calls take place in that order. *)

From S2P Require Import Prelude F64 Str Errors Metrics Geo Domain Auth Configs Registry Redis World.
From S2P Require Import Stores Lease Db Nats Worker Replay Fanout Ws DeviceService.

Open Scope Z_scope.

Definition MAX_PARALLEL_SHARDS : Z := 16.

Class Unordered : Type := {
  completion : list string → list string;
  completion_perm l : completion l ≡ₚ l;
}.

(** The [AlertPublisher] trait and its JetStream implementation. *)
Class AlertPublisher {R : RedisServer} : Type := {
  ap_publish : string → Bytes → MR unit;
}.

Definition JetStreamPublisher {R : RedisServer} {E : Env} {J : JetStream} : AlertPublisher := {|
  ap_publish := λ subject payload, let!? _ := publish_durable subject payload in mret_ (Ok ());
|}.

Record ShardDispatch : Type := MkDispatch {
  sd_shard_prefix : string; sd_devices_in_shard : Z; sd_devices_in_radius : Z;
}.

Record DispatchResult : Type := MkResult {
  dr_alert_id : string;
  dr_shards_targeted : Z;
  dr_shards_published : Z;
  dr_devices_in_radius : Z;
  dr_devices_in_targeted_shards : Z;
  dr_total_devices_notified : Z;
  dr_per_shard : list ShardDispatch;
  dr_failed_shards : list string;
}.

Definition DispatchResult_is_partial (self : DispatchResult) : bool :=
  negb (bool_decide (dr_failed_shards self = [])).

Definition by_prefix (a b : ShardDispatch) : Prop := str_le (sd_shard_prefix a) (sd_shard_prefix b).
Global Instance by_prefix_dec : RelDecision by_prefix.
Proof. intros a b. unfold by_prefix, str_le. apply _. Defined.

Definition sum_of (f : ShardDispatch → Z) (l : list ShardDispatch) : Z :=
  foldr (λ s n, f s + n) 0 l.

Definition summarize `{UuidCodec} (alert_id : AlertId) (shards_targeted : Z)
    (published : list ShardDispatch) (failed_shards : list string) : DispatchResult :=
  let published := merge_sort by_prefix published in
  let failed_shards := merge_sort str_le failed_shards in
  let devices_in_radius := sum_of sd_devices_in_radius published in
  let devices_in_targeted_shards := sum_of sd_devices_in_shard published in
  MkResult (uuid_to_string alert_id) shards_targeted (Z.of_nat (length published))
    devices_in_radius devices_in_targeted_shards devices_in_radius published failed_shards.

Record AlertDetails : Type := MkDetails {
  ad_alert : Alert; ad_deliveries : list DeliveryRecord; ad_live_stats : option AlertStats;
}.

(** The loop that separates the outcomes. *)
Fixpoint split_outcomes (l : list (string * result unit AppError)) : list string * list string :=
  match l with
  | [] => ([], [])
  | (prefix, outcome) :: l =>
    let '(ok, failed) := split_outcomes l in
    match outcome with Ok _ => (prefix :: ok, failed) | Err _ => (ok, prefix :: failed) end
  end.

Section Dispatch.
Context {R : RedisServer} {E : Env} {UC : UuidCodec} {L : Libm} {FF : FloatFmt} {G : Geohash}
  {HO : HashOrder} {P : PgMath} {S : TableScan} {W : Wire} {MO : MapOrder string Z} {U : Unordered}
  {AP : AlertPublisher}.

(** The futures, in the order of their completion. *)
Fixpoint publish_each (prefixes : list string) (payload : Bytes)
    : M (list (string * result unit AppError)) :=
  match prefixes with
  | [] => mret_ []
  | prefix :: rest =>
    let! result := ap_publish (nats_subject_for_prefix prefix) payload in
    let! outcomes := publish_each rest payload in
    mret_ ((prefix, result) :: outcomes)
  end.

Definition publish_to_shards (prefixes : list string) (payload : Bytes)
    : M (list (string * result unit AppError)) :=
  publish_each (completion prefixes) payload.

(** Counting and the audit row of one published shard; failures are logged. *)
Definition record_shard (alert : Alert) (prefix : string) : M ShardDispatch :=
  let! c := DeviceRepository_count_in_shard_and_radius prefix (al_center alert)
              (al_radius_meters alert) in
  let counts := match c with Ok counts => counts | Err _ => MkCounts 0 0 end in
  let! _ := AlertRepository_record_shard_delivery (al_id alert) prefix counts in
  mret_ (MkDispatch prefix (in_shard_count counts) (in_radius_count counts)).

Fixpoint record_each (alert : Alert) (prefixes : list string) : M (list ShardDispatch) :=
  match prefixes with
  | [] => mret_ []
  | prefix :: rest =>
    let! sd := record_shard alert prefix in
    let! sds := record_each alert rest in
    mret_ (sd :: sds)
  end.

Definition dispatch_metrics (result : DispatchResult) (elapsed : Z) (m : MetricRegistry)
    : MetricRegistry :=
  let m := counter_add "pulsegrid_alerts_dispatched_total" 1 m in
  let m := counter_add "pulsegrid_alert_shards_published_total" (dr_shards_published result) m in
  let m := counter_add "pulsegrid_alert_shard_failures_total"
             (Z.of_nat (length (dr_failed_shards result))) m in
  let m := if DispatchResult_is_partial result
           then counter_add "pulsegrid_alerts_partial_total" 1 m else m in
  observe "pulsegrid_alert_dispatch_duration_seconds" (as_secs_f64 elapsed) m.

(** Publishing, counting and summarizing a stored alert. *)
Definition fan_out_alert (alert : Alert) (shard_prefixes : list string) : M DispatchResult :=
  let! outcomes := publish_to_shards shard_prefixes (alert_json alert) in
  let '(ok_prefixes, failed_shards) := split_outcomes outcomes in
  let! published := record_each alert (completion ok_prefixes) in
  mret_ (summarize (al_id alert) (Z.of_nat (length shard_prefixes)) published failed_shards).

(** [elapsed] is what the stopwatch shows at the end. *)
Definition AlertDispatchService_dispatch (metrics : MetricRegistry) (elapsed : Z)
    (la lo radius_meters : f64) (severity : AlertSeverity) (title message : string)
    : M (result DispatchResult AppError * MetricRegistry) :=
  match Location_new la lo with
  | Err e => mret_ (Err e, metrics)
  | Ok center =>
    let! id := new_uuid in
    let! now := utc_now in
    match Alert_new id now center radius_meters severity title message with
    | Err e => mret_ (Err e, metrics)
    | Ok alert =>
      match Alert_target_shard_prefixes alert with
      | Err e => mret_ (Err e, metrics)
      | Ok shard_prefixes =>
        let! stored := AlertRepository_insert_alert alert in
        match stored with
        | Err e => mret_ (Err e, metrics)
        | Ok _ =>
          let! result := fan_out_alert alert shard_prefixes in
          mret_ (Ok result, dispatch_metrics result elapsed metrics)
        end
      end
    end
  end.

Definition AlertDispatchService_alert_details (id : AlertId) : MR AlertDetails :=
  let!? alert := AlertRepository_get_alert id in
  let!? deliveries := AlertRepository_list_deliveries id in
  let! stats := AlertStatsStore_get id in
  let live_stats := match stats with Ok s => s | Err _ => None end in
  mret_ (Ok (MkDetails alert deliveries live_stats)).

Definition AlertDispatchService_recent (limit : Z) : MR (list Alert) :=
  AlertRepository_recent_alerts limit.
End Dispatch.

(** ** Sorting by shard *)

Global Instance by_prefix_total : Total by_prefix.
Proof. intros a b. apply (str_le_total (sd_shard_prefix a) (sd_shard_prefix b)). Qed.
Global Instance by_prefix_trans : Transitive by_prefix.
Proof. intros a b c. apply (str_le_trans (sd_shard_prefix a)). Qed.

Lemma sum_of_perm f l l' : l ≡ₚ l' → sum_of f l = sum_of f l'.
Proof. induction 1; simpl; lia. Qed.

(** Two entries of one prefix list with distinct prefixes are the same entry. *)
Lemma same_prefix_eq (l : list ShardDispatch) x y :
  NoDup (sd_shard_prefix <$> l) → x ∈ l → y ∈ l → sd_shard_prefix x = sd_shard_prefix y → x = y.
Proof.
  induction l as [|z l IH]; [intros _ []%not_elem_of_nil|].
  rewrite fmap_cons, NoDup_cons, !elem_of_cons. intros [Hz Hnd] Hx Hy Heq.
  assert (Hl : ∀ t, t ∈ l → sd_shard_prefix t ≠ sd_shard_prefix z).
  { intros t Ht He. apply Hz. rewrite <- He. by apply list_elem_of_fmap_2. }
  destruct Hx as [-> | Hx], Hy as [-> | Hy]; [done|naive_solver..|by apply IH].
Qed.

(** The summary of a dispatch does not depend on the order in which the
    shards completed: the same outcomes in any order give the same answer, and
    in it the shards are sorted. *)
Theorem summarize_order_independent `{UuidCodec} id n pub pub' failed failed' :
  NoDup (sd_shard_prefix <$> pub) → pub ≡ₚ pub' → failed ≡ₚ failed' →
  summarize id n pub failed = summarize id n pub' failed' ∧
  Sorted by_prefix (dr_per_shard (summarize id n pub failed)) ∧
  Sorted str_le (dr_failed_shards (summarize id n pub failed)).
Proof.
  intros Hnd Hp Hf. split; [|split; [apply Sorted_merge_sort; apply _|apply Sorted_merge_sort; apply _]].
  assert (Hs : merge_sort by_prefix pub = merge_sort by_prefix pub').
  { apply (Sorted_unique_strong by_prefix).
    - intros x y Hx Hy Hxy Hyx. rewrite merge_sort_Permutation in Hx, Hy. rewrite <- Hp in Hy.
      apply (same_prefix_eq pub); [done..|]. by apply (anti_symm str_le).
    - apply Sorted_merge_sort; apply _.
    - apply Sorted_merge_sort; apply _.
    - by rewrite !merge_sort_Permutation. }
  assert (Hg : merge_sort str_le failed = merge_sort str_le failed').
  { apply (Sorted_unique str_le).
    - apply Sorted_merge_sort; apply _.
    - apply Sorted_merge_sort; apply _.
    - by rewrite !merge_sort_Permutation. }
  unfold summarize. by rewrite Hs, Hg.
Qed.

(** ** Dispatch *)

Section DispatchTheorems.
Context {R : RedisServer} {E : Env} {UC : UuidCodec} {L : Libm} {FF : FloatFmt} {G : Geohash}
  {HO : HashOrder} {P : PgMath} {S : TableScan} {W : Wire} {U : Unordered}.

Lemma publish_each_fst {AP : AlertPublisher} ps payload w : (publish_each ps payload w).1.*1 = ps.
Proof.
  revert w. induction ps as [|q ps IH]; intros w; [done|]. cbn [publish_each].
  rewrite !mbind_run. cbn [mret_ fst]. rewrite fmap_cons. cbn [fst]. f_equal. apply IH.
Qed.

Lemma split_outcomes_perm l :
  (split_outcomes l).1 ++ (split_outcomes l).2 ≡ₚ l.*1 ∧
  ∀ q, q ∈ (split_outcomes l).1 → (q, Ok ()) ∈ l.
Proof.
  induction l as [|[q o] l [IH1 IH2]]; [split; [done|intros q []%not_elem_of_nil]|].
  rewrite fmap_cons. cbn [split_outcomes fst].
  destruct (split_outcomes l) as [ok failed]. cbn [fst snd] in *. destruct o as [[]|e]; cbn [fst snd].
  - split; [by rewrite <- IH1|]. intros x. rewrite !elem_of_cons. naive_solver.
  - split; [by rewrite <- IH1, Permutation_middle|]. intros x Hx. right. auto.
Qed.

Lemma record_each_prefixes alert ps w : sd_shard_prefix <$> (record_each alert ps w).1 = ps.
Proof.
  revert w. induction ps as [|q ps IH]; intros w; [done|]. cbn [record_each].
  rewrite !mbind_run. cbn [mret_ fst]. rewrite fmap_cons. f_equal; [|apply IH].
  unfold record_shard. by rewrite !mbind_run.
Qed.

(** Every shard is in the summary once. *)
Lemma fan_out_partition {AP : AlertPublisher} alert ps w :
  let res := (fan_out_alert alert ps w).1 in
  (sd_shard_prefix <$> dr_per_shard res) ++ dr_failed_shards res ≡ₚ ps ∧
  dr_shards_targeted res = Z.of_nat (length ps) ∧
  dr_shards_published res = Z.of_nat (length (dr_per_shard res)).
Proof.
  unfold fan_out_alert, publish_to_shards. rewrite mbind_run.
  pose proof (publish_each_fst (completion ps) (alert_json alert) w) as H1.
  destruct (publish_each _ _ w) as [outcomes w1]. cbn [fst snd] in *.
  destruct (split_outcomes_perm outcomes) as [H2 _].
  destruct (split_outcomes outcomes) as [ok failed]. cbn [fst snd] in *.
  rewrite mbind_run. pose proof (record_each_prefixes alert (completion ok) w1) as H3.
  destruct (record_each _ _ w1) as [pub w2]. cbn [fst snd mret_] in *.
  unfold summarize. cbn [dr_per_shard dr_failed_shards dr_shards_targeted dr_shards_published].
  split_and!; [|done|done].
  rewrite !merge_sort_Permutation, H3, completion_perm, H2, H1. apply completion_perm.
Qed.

(** A dispatch accounts for every shard. When an alert is accepted, each of
    the shards it targets appears exactly once in the answer, as published or as
    failed, the totals agree with these lists, and the answer is partial exactly
    when some shard failed. *)
Theorem dispatch_partitions {AP : AlertPublisher} mets el la lo r sev title msg w res mets' w' :
  AlertDispatchService_dispatch mets el la lo r sev title msg w = ((Ok res, mets'), w') →
  ∃ alert ps,
    Alert_target_shard_prefixes alert = Ok ps ∧ al_center alert = MkLocation la lo ∧
    al_radius_meters alert = r ∧
    (sd_shard_prefix <$> dr_per_shard res) ++ dr_failed_shards res ≡ₚ ps ∧
    dr_shards_targeted res = Z.of_nat (length ps) ∧
    dr_shards_targeted res = dr_shards_published res + Z.of_nat (length (dr_failed_shards res)) ∧
    (DispatchResult_is_partial res = true ↔ dr_shards_published res < dr_shards_targeted res).
Proof.
  unfold AlertDispatchService_dispatch.
  destruct (Location_new_spec la lo) as [(_ & -> & _)|[_ ->]]; [|done]. rewrite !mbind_run.
  cbn [fst snd utc_now new_uuid].
  destruct (Alert_new _ _ _ r sev title msg) as [alert|] eqn:Ha; [|done].
  apply Alert_new_Ok in Ha as (-> & _ & _).
  destruct (Alert_target_shard_prefixes _) as [ps|] eqn:Hps; [|done]. rewrite mbind_run.
  destruct (AlertRepository_insert_alert _ _) as [[[]|] w1]; cbn [fst snd]; [|done].
  rewrite mbind_run. destruct (fan_out_partition (MkAlert (env_uuid (w_tick w)) (MkLocation la lo) r sev
    title msg (env_clock (Datatypes.S (w_tick w)))) ps w1) as (Hperm & Ht & Hn).
  destruct (fan_out_alert _ ps w1) as [res0 w2]. cbn [fst snd mret_] in *. intros [= <- _ _].
  pose proof (Permutation_length Hperm) as Hlen. rewrite length_app, length_fmap in Hlen.
  eexists _, ps. split_and!; [exact Hps|done|done|done|done|lia|].
  unfold DispatchResult_is_partial. rewrite Ht, Hn.
  destruct (bool_decide_reflect (dr_failed_shards res0 = [])) as [Hz|Hz]; cbn [negb].
  - rewrite Hz in Hlen. cbn [length] in Hlen. split; [done|lia].
  - destruct (dr_failed_shards res0); [done|]. cbn [length] in Hlen. split; [lia|done].
Qed.

Lemma dispatch_refused {AP : AlertPublisher} mets el la lo r sev title msg w e mets' w' :
  AlertDispatchService_dispatch mets el la lo r sev title msg w = ((Err e, mets'), w') →
  mets' = mets ∧ w_published w' = w_published w ∧ w_stream w' = w_stream w ∧
  w_redis w' = w_redis w ∧ (w_pg w' = w_pg w ∨ ∃ why, e = Database why).
Proof.
  unfold AlertDispatchService_dispatch.
  destruct (Location_new_spec la lo) as [(_ & -> & _)|[_ ->]]; [|intros [= <- <- <-]; eauto 6].
  rewrite !mbind_run. cbn [fst snd utc_now new_uuid].
  destruct (Alert_new _ _ _ r sev title msg) as [alert|]; [|intros [= <- <- <-]; eauto 6].
  destruct (Alert_target_shard_prefixes _) as [ps|]; [|intros [= <- <- <-]; eauto 6].
  rewrite mbind_run. unfold AlertRepository_insert_alert, pg_stmt. rewrite mbind_ok_run.
  match goal with |- context [pg_call ?f ?w0] =>
    pose proof (pg_call_cases f w0) as Hc; destruct (pg_call f w0) as [[a|e'] w1] end;
    destruct Hc as (Hr & Hp & Hs & _ & Hq); cbn [fst snd] in *.
  - destruct a as [[]|e']; cbn [map_err mret_ fst snd].
    + rewrite mbind_run. destruct (fan_out_alert _ _ _). by intros [= ?].
    + intros [= <- <- <-]. split_and!; [done..|right; eauto].
  - intros [= <- <- <-]. destruct Hq as [[why ->] _]. split_and!; [done..|right; eauto].
Qed.

(** A request that is refused leaves nothing behind. If the position, the
    alert or its routing is rejected, nothing is stored and nothing is published;
    if the row cannot be stored, nothing is published; the metrics are unchanged
    in every case. *)
Theorem refused_dispatch_leaves_nothing {AP : AlertPublisher} mets el la lo r sev title msg w e mets' w' :
  AlertDispatchService_dispatch mets el la lo r sev title msg w = ((Err e, mets'), w') →
  mets' = mets ∧ w_published w' = w_published w ∧ w_stream w' = w_stream w ∧
  w_redis w' = w_redis w ∧ (w_pg w' = w_pg w ∨ ∃ why, e = Database why).
Proof. apply dispatch_refused. Qed.

(** *** Through JetStream *)

Context {J : JetStream}.

Definition stored_in (w : World) (q : string) (payload : Bytes) : Prop :=
  ∃ m, m ∈ w_stream w ∧ sm_subject m = alert_subject q ∧ sm_payload m = payload.

Lemma publish_each_jetstream ps payload w :
  let '(outs, w') := publish_each (AP := JetStreamPublisher) ps payload w in
  w_pg w' = w_pg w ∧ (∀ m, m ∈ w_stream w → m ∈ w_stream w') ∧
  ∀ q, (q, Ok ()) ∈ outs → stored_in w' q payload.
Proof.
  revert w. induction ps as [|q ps IH]; intros w.
  { split_and!; [done..|]. intros q []%not_elem_of_nil. }
  cbn [publish_each]. rewrite !mbind_run. cbn [ap_publish JetStreamPublisher].
  rewrite mbind_ok_run. unfold publish_durable, call.
  set (w1 := set_stream _ _). set (msg := MkStreamMsg _ _ _) in w1.
  assert (Hgen : ∀ (r : result unit AppError) w0, (w0 = tick w ∨ w0 = w1) → (r = Ok () → w0 = w1) →
    let '(outs, w') := publish_each (AP := JetStreamPublisher) ps payload w0 in
    w_pg w' = w_pg w ∧ (∀ m, m ∈ w_stream w → m ∈ w_stream w') ∧
    ∀ x, (x, Ok ()) ∈ (q, r) :: outs → stored_in w' x payload).
  { intros r w0 Hw0 Hok. specialize (IH w0). destruct (publish_each ps payload w0) as [outs w'].
    destruct IH as (Hpg & Hin & Hst). split_and!.
    - rewrite Hpg. by destruct Hw0 as [-> | ->].
    - intros m Hm. apply Hin. destruct Hw0 as [-> | ->]; [done|]. apply elem_of_app. by left.
    - intros x [[= <- <-]|Hx]%elem_of_cons; [|by apply Hst].
      exists msg. split_and!; [|done|done]. apply Hin. rewrite Hok by done.
      apply elem_of_app. right. by apply list_elem_of_singleton. }
  destruct (env_fault (w_tick w)) as [|why|why]; cbn [fst snd mret_].
  - specialize (Hgen (Ok ()) w1). destruct (publish_each _ _ w1). apply Hgen; auto.
  - specialize (Hgen (Err (Messaging why)) (tick w)). destruct (publish_each _ _ (tick w)).
    apply Hgen; [by left|done].
  - specialize (Hgen (Err (Messaging why)) w1). destruct (publish_each _ _ w1).
    apply Hgen; [by right|done].
Qed.

Lemma insert_delivery_alerts a row t : t_alerts (stmt_insert_delivery a row t).2 = t_alerts t.
Proof. unfold stmt_insert_delivery. by repeat case_match. Qed.

Lemma record_shard_frame alert q w :
  let w' := (record_shard alert q w).2 in
  w_stream w' = w_stream w ∧ t_alerts (w_pg w') = t_alerts (w_pg w).
Proof.
  unfold record_shard. rewrite !mbind_run. cbn [mret_ snd].
  assert (Hcount : ∀ w0, let w' := (DeviceRepository_count_in_shard_and_radius q (al_center alert)
    (al_radius_meters alert) w0).2 in w_stream w' = w_stream w0 ∧ w_pg w' = w_pg w0).
  { intros w0. unfold DeviceRepository_count_in_shard_and_radius.
    destruct (circle_or_panic _ _) as [c|]; [|done]. unfold pg_read.
    pose proof (pg_call_cases (λ _ t, (count_shard_and_circle q c t, t)) w0) as Hc.
    destruct (pg_call _ w0) as [[a|e] w1]; destruct Hc as (_ & _ & Hs & _ & Hp); cbn [snd].
    - split; [done|]. by injection Hp.
    - split; [done|]. by destruct Hp as [_ [-> | ->]]. }
  destruct (Hcount w) as [Hs Hp]. rewrite <- Hs, <- Hp.
  generalize (match (DeviceRepository_count_in_shard_and_radius q (al_center alert)
    (al_radius_meters alert) w).1 with Ok counts => counts | Err _ => MkCounts 0 0 end).
  generalize (DeviceRepository_count_in_shard_and_radius q (al_center alert)
    (al_radius_meters alert) w).2. clear. intros w c.
  unfold AlertRepository_record_shard_delivery, pg_stmt. rewrite !mbind_run, mbind_ok_run.
  match goal with |- context [pg_call ?f ?w0] =>
    pose proof (pg_call_cases f w0) as Hc; destruct (pg_call f w0) as [[a|e'] w1] end;
    destruct Hc as (_ & _ & Hs & _ & Hq); cbn [fst snd utc_now new_uuid] in *.
  - split; [done|]. apply (f_equal (t_alerts ∘ snd)) in Hq. unfold compose in Hq.
    rewrite insert_delivery_alerts in Hq. by cbn [snd] in Hq.
  - split; [done|]. destruct Hq as [_ [-> | ->]]; [done|]. apply insert_delivery_alerts.
Qed.

Lemma record_each_frame alert ps w :
  let w' := (record_each alert ps w).2 in
  w_stream w' = w_stream w ∧ t_alerts (w_pg w') = t_alerts (w_pg w).
Proof.
  revert w. induction ps as [|q ps IH]; intros w; [done|]. cbn [record_each].
  rewrite !mbind_run. cbn [mret_ snd]. destruct (record_shard_frame alert q w) as [H1 H2].
  destruct (IH (record_shard alert q w).2) as [H3 H4]. split; congruence.
Qed.

(** The alert that an accepted request made, and where it is. *)
Lemma dispatch_durable mets el la lo r sev title msg w res mets' w' :
  AlertDispatchService_dispatch (AP := JetStreamPublisher) mets el la lo r sev title msg w
    = ((Ok res, mets'), w') →
  ∃ alert, Location_new la lo = Ok (MkLocation la lo) ∧
    alert = MkAlert (env_uuid (w_tick w)) (MkLocation la lo) r sev title msg
              (env_clock (Datatypes.S (w_tick w))) ∧
    t_alerts (w_pg w') !! al_id alert = Some (AlertRow_of alert) ∧
    ∀ sd, sd ∈ dr_per_shard res → stored_in w' (sd_shard_prefix sd) (alert_json alert).
Proof.
  unfold AlertDispatchService_dispatch.
  destruct (Location_new_spec la lo) as [(_ & -> & _)|[_ ->]]; [|done]. rewrite !mbind_run.
  cbn [fst snd utc_now new_uuid].
  destruct (Alert_new _ _ _ r sev title msg) as [alert|] eqn:Ha; [|done].
  apply Alert_new_Ok in Ha as (Hal & _ & _).
  destruct (Alert_target_shard_prefixes _) as [ps|]; [|done]. rewrite mbind_run.
  destruct (AlertRepository_insert_alert alert _) as [[[]|] w1] eqn:Hins; cbn [fst snd]; [|done].
  assert (Hrow : t_alerts (w_pg w1) !! al_id alert = Some (AlertRow_of alert)).
  { revert Hins. unfold AlertRepository_insert_alert, pg_stmt. rewrite mbind_ok_run.
    match goal with |- context [pg_call ?f ?w0] =>
      pose proof (pg_call_cases f w0) as Hc; destruct (pg_call f w0) as [[a|e'] w2] end; [|done].
    destruct Hc as (_ & _ & _ & _ & Hq). cbn [fst snd mret_]. unfold stmt_insert_alert in Hq.
    cbn [ar_id AlertRow_of] in Hq. destruct (t_alerts _ !! al_id alert); simplify_eq/=; [done|].
    intros [= <-]. rewrite <- H0. apply lookup_insert_eq. }
  rewrite mbind_run. cbn [mret_].
  unfold fan_out_alert, publish_to_shards. rewrite !mbind_run.
  pose proof (publish_each_jetstream (completion ps) (alert_json alert) w1) as Hpub.
  destruct (publish_each _ _ w1) as [outs w2]. destruct Hpub as (Hpg & _ & Hst). cbn [fst snd] in *.
  destruct (split_outcomes_perm outs) as [_ Hok]. destruct (split_outcomes outs) as [ok failed].
  rewrite mbind_run. cbn [fst] in Hok.
  pose proof (record_each_prefixes alert (completion ok) w2) as Hpre.
  destruct (record_each_frame alert (completion ok) w2) as [Hs2 Ha2].
  destruct (record_each _ _ w2) as [pub w3]. cbn [fst snd mret_] in *. intros [= <- _ <-].
  exists alert. subst alert. split_and!; [done|done|by rewrite Ha2, Hpg|].
  intros sd Hsd. unfold summarize in Hsd. cbn [dr_per_shard] in Hsd.
  rewrite merge_sort_Permutation in Hsd. apply (list_elem_of_fmap_2 sd_shard_prefix) in Hsd.
  rewrite Hpre, completion_perm in Hsd. destruct (Hst _ (Hok _ Hsd)) as (m & Hm & ? & ?).
  exists m. by rewrite Hs2.
Qed.

(** What a dispatch reports as published is durable. With the JetStream
    publisher, an accepted alert is stored in the database, and for every shard
    the answer lists as published the alert's JSON is in the stream under that
    shard's subject, so that a later replay finds it; whatever calls failed on
    the way. *)
Theorem dispatched_alert_is_durable mets el la lo r sev title msg w res mets' w' :
  AlertDispatchService_dispatch (AP := JetStreamPublisher) mets el la lo r sev title msg w
    = ((Ok res, mets'), w') →
  ∃ alert, al_id alert = env_uuid (w_tick w) ∧ al_title alert = title ∧
    t_alerts (w_pg w') !! al_id alert = Some (AlertRow_of alert) ∧
    ∀ sd, sd ∈ dr_per_shard res → stored_in w' (sd_shard_prefix sd) (alert_json alert).
Proof.
  intros (alert & _ & -> & Hrow & Hst)%dispatch_durable. eexists. split_and!; [..|exact Hst]; done.
Qed.
End DispatchTheorems.

(** ** Witnesses *)

(** The last shard completes first. *)
Program Definition last_first : Unordered := {| completion := reverse |}.
Next Obligation. intros l. apply reverse_Permutation. Qed.

Definition toy_pgmath : PgMath := {|
  pg_sin := λ x, x; pg_cos := λ x, x; pg_asin := λ x, x; pg_power := λ x _, x; pg_radians := λ x, x;
|}.

Lemma summarize_order_independent_witness :
  @summarize binary_uuids (uuid_of_N 1) 3 [MkDispatch "b" 2 1; MkDispatch "a" 5 0] ["d"] =
  @summarize binary_uuids (uuid_of_N 1) 3 [MkDispatch "a" 5 0; MkDispatch "b" 2 1] ["d"].
Proof.
  apply (@summarize_order_independent binary_uuids (uuid_of_N 1) 3
    [MkDispatch "b" 2 1; MkDispatch "a" 5 0] [MkDispatch "a" 5 0; MkDispatch "b" 2 1] ["d"] ["d"]).
  - apply (bool_decide_unpack (NoDup ["b"; "a"])). vm_compute. exact I.
  - apply perm_swap.
  - done.
Defined.

(** An alert of 40 km around a point near the border of two shards; the fourth
    call, the first publish, fails. *)
Abbreviation sample_dispatch := (
  @AlertDispatchService_dispatch map_redis lossy_env binary_uuids toy_libm trivial_fmt toy_geohash
    toy_order toy_pgmath plain_wire last_first
    (@JetStreamPublisher map_redis lossy_env list_jetstream) [] 7 (f64_of_Z 10) (f64_of_Z 10)
    (f64_of_Z 40000) Critical "flood" "move" toy_world).

Lemma sample_dispatch_ok : is_ok sample_dispatch.1.1 = true.
Proof. vm_compute. reflexivity. Qed.

Lemma dispatch_partitions_witness :
  ∃ res, sample_dispatch.1.1 = Ok res ∧
    (DispatchResult_is_partial res = true ↔ dr_shards_published res < dr_shards_targeted res).
Proof.
  pose proof sample_dispatch_ok as Hr.
  destruct sample_dispatch as [[[res|e] mets'] w'] eqn:Hd; [|done]. exists res. split; [done|].
  destruct (@dispatch_partitions map_redis lossy_env binary_uuids toy_libm trivial_fmt toy_geohash
    toy_order toy_pgmath plain_wire last_first _ _ _ _ _ _ _ _ _ _ res mets' w' Hd)
    as (alert & ps & _ & _ & _ & _ & _ & _ & Hp). exact Hp.
Defined.

Lemma dispatched_alert_is_durable_witness :
  ∃ res alert, sample_dispatch.1.1 = Ok res ∧
    ∀ sd, sd ∈ dr_per_shard res →
      stored_in sample_dispatch.2 (sd_shard_prefix sd) (@alert_json plain_wire alert).
Proof.
  pose proof sample_dispatch_ok as Hr.
  destruct sample_dispatch as [[[res|e] mets'] w'] eqn:Hd; [|done].
  destruct (@dispatched_alert_is_durable map_redis lossy_env binary_uuids toy_libm trivial_fmt
    toy_geohash toy_order toy_pgmath plain_wire last_first list_jetstream _ _ _ _ _ _ _ _ _ res mets' w' Hd)
    as (alert & _ & _ & _ & Hs). exists res, alert. split; [done|exact Hs].
Defined.

(** Two shards are targeted; the one that completes first loses its publish and
    is reported. *)
Example sample_dispatch_failed :
  dr_failed_shards <$> result_ok sample_dispatch.1.1 = Some ["u4px"].
Proof. vm_compute. reflexivity. Qed.

Abbreviation sample_refusal := (
  @AlertDispatchService_dispatch map_redis (calm_env toy_clock) binary_uuids toy_libm trivial_fmt
    toy_geohash toy_order toy_pgmath plain_wire last_first
    (@JetStreamPublisher map_redis (calm_env toy_clock) list_jetstream) [] 7 (f64_of_Z 10)
    (f64_of_Z 10) f64_zero Critical "flood" "move" toy_world).

Lemma sample_refusal_err : is_ok sample_refusal.1.1 = false.
Proof. vm_compute. reflexivity. Qed.

Lemma refused_dispatch_leaves_nothing_witness : w_stream sample_refusal.2 = [].
Proof.
  pose proof sample_refusal_err as Hr.
  destruct sample_refusal as [[[res|e] mets'] w'] eqn:Hd; [done|].
  apply (@refused_dispatch_leaves_nothing map_redis (calm_env toy_clock) binary_uuids toy_libm
    trivial_fmt toy_geohash toy_order toy_pgmath plain_wire last_first _ _ _ _ _ _ _ _ _ _ e mets' w' Hd).
Defined.
