(* ===== verification/Http.v ===== *)
(** * The coordinator's HTTP layer

    crates/api-coordinator/src/handlers, extractors, routes, middleware, the
    layer of metrics.rs and the state and routers of lib.rs. A handler is a
    computation on the [World] that also threads the metrics. What axum and the
    validator derive do with a request (reading headers, bodies, queries and
    paths, answering what no route takes) and the token bucket of
    tower_governor are parameters. *)

From S2P Require Import Prelude F64 Str Errors Metrics Geo Domain Auth Configs Registry Redis World.
From S2P Require Import Stores Lease Db Nats Routing Worker Fanout Retention DeviceService Dispatch.
From stdpp Require Import pretty.

Open Scope Z_scope.

(** ** Requests and responses *)

Record RegisterDeviceRequest : Type := MkRegisterReq { rd_lat : f64; rd_lon : f64 }.
Record RegisterDeviceResponse : Type := MkRegisterResp {
  rp_device_id : string; rp_token : string; rp_shard_prefix : string; rp_ws_url : option string;
}.
Record UpdateLocationRequest : Type := MkUpdateReq { ul_lat : f64; ul_lon : f64 }.
Record DispatchAlertRequest : Type := MkDispatchReq {
  da_lat : f64; da_lon : f64; da_radius_meters : f64; da_severity : AlertSeverity;
  da_title : string; da_message : string;
}.
Record DevicesQuery : Type := MkDevicesQuery {
  dq_lat : f64; dq_lon : f64; dq_radius_meters : f64; dq_limit : option Z;
}.
Record DevicesResponse : Type := MkDevicesResp {
  dv_devices : list DeviceSummary; dv_truncated : bool; dv_limit : Z;
}.

(** What a response carries, before it is serialized. [UpdateLocationResponse]
    and [WsTicketResponse] have the fields of the services' results. *)
Inductive Body : Type :=
| BEmpty
| BText (s : string)
| BError (message : string)
| BRegistered (r : RegisterDeviceResponse)
| BLocation (u : LocationUpdate)
| BTicket (t : WsTicket)
| BDispatched (r : DispatchResult)
| BAlerts (l : list Alert)
| BDetails (d : AlertDetails)
| BDevices (d : DevicesResponse)
| BReady (status postgres redis nats : string)
| BStream.

Record Response : Type := MkResponse { rs_status : Z; rs_headers : Headers; rs_body : Body }.

Definition set_resp_headers (h : Headers) (r : Response) : Response :=
  MkResponse (rs_status r) h (rs_body r).

(** ** What axum, http, validator and tower_governor do *)

Class HttpLib : Type := {
  (** [HeaderValue::to_str] and [HeaderValue::from_str] *)
  header_to_str : string → option string;
  header_from_str : string → option string;
  (** the bearer token of the Authorization header, when it has one *)
  bearer_token : Headers → option string;
  (** the [Json], [Query] and [Path] extractors, or the rejection they answer with *)
  json_register : Request → result RegisterDeviceRequest Response;
  json_location : Request → result UpdateLocationRequest Response;
  json_dispatch : Request → result DispatchAlertRequest Response;
  query_limit : Request → result (option Z) Response;
  query_devices : Request → result DevicesQuery Response;
  path_uuid : string → result Uuid Response;
  (** the answer to a request that no route takes *)
  unrouted : Request → Response;
  (** [#[validate(range(..))]], [#[validate(length(..))]] and the text of the
      errors of the named fields *)
  validate_range : Z → Z → f64 → bool;
  validate_length : Z → Z → string → bool;
  validation_text : list string → string;
  (** what the limiter answers to the request at this moment, if it refuses it *)
  governor_refuses : Governor → nat → Request → option Response;
}.

(** Header values made of visible characters are readable text and the other
    way round. *)
Definition visible (c : Ascii.ascii) : bool := in_range 32 126 c.

Class HttpLibLaws (H : HttpLib) : Prop := {
  header_visible s : str_forallb visible s = true →
    header_from_str s = Some s ∧ header_to_str s = Some s;
}.

(** [Uuid::to_string]: 36 characters, hexadecimal digits and hyphens. *)
Definition uuid_char (c : Ascii.ascii) : bool := is_ascii_alphanumeric c || Ascii.eqb c "-".

Class UuidShape (UC : UuidCodec) : Prop := {
  uuid_shape u : str_len (uuid_to_string u) = 36 ∧ str_forallb uuid_char (uuid_to_string u) = true;
}.

(** ** The request identifier (middleware/request_id.rs) *)

Definition REQUEST_ID_HEADER : string := "x-request-id".
Definition MAX_REQUEST_ID_LEN : Z := 128.

Definition request_id_char (c : Ascii.ascii) : bool :=
  is_ascii_alphanumeric c || Ascii.eqb c "-" || Ascii.eqb c "_" || Ascii.eqb c "." || Ascii.eqb c ":".

Definition sanitize (raw : string) : option string :=
  if negb (str_is_empty raw) && (str_len raw <=? MAX_REQUEST_ID_LEN)
     && str_forallb request_id_char raw
  then Some raw else None.

Definition request_id_of {H : HttpLib} (headers : Headers) : option string :=
  (header_get REQUEST_ID_HEADER headers ≫= header_to_str) ≫= sanitize.

(** The identifier [make_span] puts on the log lines of a request. *)
Definition make_span {H : HttpLib} (request : Request) : string :=
  default "" (request_id_of (rq_headers request)).

(** ** Operator keys (extractors/operator_auth.rs) *)

Definition API_KEY_HEADER : string := "x-api-key".

Definition check {H : HttpLib} (headers : Headers) (keys : ApiKeys) : result unit AppError :=
  let presented := default "" (header_get API_KEY_HEADER headers ≫= header_to_str) in
  if ApiKeys_verify keys presented then Ok () else Err Unauthorized.

(** ** Limits of listings *)

(** [Option<i64>::unwrap_or(20).clamp(1, 100)]. *)
Definition clamp_limit (limit : option Z) : Z := clamp (default 20 limit) 1 100.

Definition MAX_DASHBOARD_DEVICES : Z := 500.

Definition clamp_device_limit (limit : option Z) : Z :=
  clamp (default MAX_DASHBOARD_DEVICES limit) 1 MAX_DASHBOARD_DEVICES.

(** ** Computations that count *)

Section Counting.
Context {R : RedisServer}.

(** A computation on the world and the metrics; [HR] may fail. *)
Definition HM (A : Type) : Type := MetricRegistry → M (A * MetricRegistry).
Definition HR (A : Type) : Type := HM (result A AppError).

Definition hret {A} (a : A) : HM A := λ m, mret_ (a, m).
Definition hbind {A B} (c : HM A) (k : A → HM B) : HM B := λ m,
  mbind_ (c m) (λ '(a, m'), k a m').
Definition hlift {A} (c : M A) : HM A := λ m, mbind_ c (λ a, mret_ (a, m)).

(** [?] on a fallible computation. *)
Definition hbind_ok {A B} (c : HR A) (k : A → HR B) : HR B :=
  hbind c (λ r, match r with Ok a => k a | Err e => hret (Err e) end).

Definition count_metric (f : MetricRegistry → MetricRegistry) : HM unit := λ m, mret_ ((), f m).
End Counting.

Notation "'let^' x ':=' c 'in' k" := (hbind c (λ x, k))
  (at level 10, x pattern, c at level 200, k at level 200) : rust_scope.
Notation "'let^?' x ':=' c 'in' k" := (hbind_ok c (λ x, k))
  (at level 10, x pattern, c at level 200, k at level 200) : rust_scope.

(** ** The state of the coordinator (lib.rs) *)

(** The fields that the handlers read; the clients and stores are operations on
    the [World], and the metrics are threaded. *)
Record AppState {J : Jwt} : Type := MkAppState {
  st_parts : DeviceServiceParts;
  st_retention : RetentionService;
  st_verifier : TokenVerifier;
  st_operator_keys : ApiKeys;
}.

(** The file system. *)
Class Startup : Type := { read_file : string → result string string }.

Section State.
Context {R : RedisServer} {E : Env} {J : Jwt} {SU : Startup} {PC : PoolConfig}.

Definition read_key (path : string) : result string AppError :=
  map_err (λ e, Config ("cannot read key file " +:+ path +:+ ": " +:+ e)) (read_file path).

Definition load_jwt (config : CoordinatorConfig) : result (TokenSigner * TokenVerifier) AppError :=
  match cc_jwt config with
  | JwtHs256 secret =>
    Ok (TokenSigner_hs256 secret (cc_token_ttl_hours config), TokenVerifier_hs256 secret)
  | JwtEdDsa private_key_path public_key_path =>
    let? private := read_key private_key_path in
    let? signer := TokenSigner_eddsa_from_pem private (cc_token_ttl_hours config) in
    let? public := read_key public_key_path in
    let? verifier := TokenVerifier_eddsa_from_pem public in
    Ok (signer, verifier)
  end.

(** Times to live, in u64 arithmetic. *)
Definition location_ttl_of (config : CoordinatorConfig) : Z :=
  u64_wrap (u64_wrap (cc_device_retention_days config + 1) * 86400).
Definition revocation_ttl_of (config : CoordinatorConfig) : Z :=
  u64_wrap (u64_wrap (cc_token_ttl_hours config * 3600) + 86400).

Definition pg_connect : MR unit := call Database (λ _ w, ((), w)).
Definition run_migrations : MR unit := call Database (λ _ w, ((), w)).

Definition coordinator_build_state (config : CoordinatorConfig) : MR AppState :=
  let!? _ := pg_connect in
  let!? _ := run_migrations in
  let!? _ := nats_connect in
  let!? _ := ensure_alert_stream (cc_alert_stream_max_age_secs config) in
  let!? _ := mret_ (build_pool (cc_redis_url config)) in
  let!? _ := redis_ping in
  let!? keys := mret_ (load_jwt config) in
  let '(signer, verifier) := keys in
  mret_ (Ok (MkAppState J
    (MkParts J signer (location_ttl_of config) (revocation_ttl_of config)
       (cc_ws_ticket_ttl_secs config))
    (RetentionService_new (cc_device_retention_days config) (cc_alert_retention_days config))
    verifier (cc_operator_keys config))).
End State.

(** ** Authentication of devices (extractors/auth_device.rs) *)

Section Http.
Context {R : RedisServer} {E : Env} {UC : UuidCodec} {L : Libm} {FF : FloatFmt} {G : Geohash}
  {HO : HashOrder} {P : PgMath} {S : TableScan} {W : Wire} {LC : LocRecordCodec}
  {MO : MapOrder string Z} {U : Unordered} {AP : AlertPublisher} {J : Jwt} {H : HttpLib}.
Context (st : AppState).

Definition AuthDevice_from_request_parts (headers : Headers) : MR Uuid :=
  match bearer_token headers with
  | None => mret_ (Err Unauthorized)
  | Some token =>
    let! now := utc_now in
    match TokenVerifier_verify (st_verifier st) now token with
    | Err _ => mret_ (Err Unauthorized)
    | Ok device_id =>
      let! revoked := RevocationStore_is_revoked device_id in
      mret_ match revoked with
            | Ok false => Ok device_id
            | Ok true => Err Unauthorized
            | Err _ => Err (ServiceUnavailable "authentication backend unavailable")
            end
    end
  end.

(** The operator check as an extractor (extractors/operator_auth.rs). *)
Definition OperatorAuth_from_request_parts (headers : Headers) : result unit AppError :=
  check headers (st_operator_keys st).

(** ** Validation of payloads *)

(** The fields that fail their rule, in the order of the struct. *)
Definition failing (rules : list (string * bool)) : list string :=
  (filter (λ nb, nb.2 = false) rules).*1.

Definition validated (rules : list (string * bool)) : result unit AppError :=
  match failing rules with
  | [] => Ok ()
  | bad => Err (Validation (validation_text bad))
  end.

Definition lat_rule (la : f64) : string * bool := ("lat", validate_range (-90) 90 la).
Definition lon_rule (lo : f64) : string * bool := ("lon", validate_range (-180) 180 lo).
Definition radius_rule (r : f64) : string * bool := ("radius_meters", validate_range 1 500000 r).

Definition RegisterDeviceRequest_validate (p : RegisterDeviceRequest) : result unit AppError :=
  validated [lat_rule (rd_lat p); lon_rule (rd_lon p)].

Definition UpdateLocationRequest_validate (p : UpdateLocationRequest) : result unit AppError :=
  validated [lat_rule (ul_lat p); lon_rule (ul_lon p)].

Definition DispatchAlertRequest_validate (p : DispatchAlertRequest) : result unit AppError :=
  validated [lat_rule (da_lat p); lon_rule (da_lon p); radius_rule (da_radius_meters p);
             ("title", validate_length 1 200 (da_title p));
             ("message", validate_length 1 2000 (da_message p))].

Definition DevicesQuery_validate (q : DevicesQuery) : result unit AppError :=
  validated [lat_rule (dq_lat q); lon_rule (dq_lon q); radius_rule (dq_radius_meters q)].

(** ** Device handlers (handlers/devices.rs) *)

Definition h_register (payload : RegisterDeviceRequest) : HR RegisterDeviceResponse :=
  let^? _ := hret (RegisterDeviceRequest_validate payload) in
  let^? dt := hlift (DeviceService_register (st_parts st) (rd_lat payload) (rd_lon payload)) in
  let '(device, token) := dt in
  let^ _ := count_metric (counter_add "pulsegrid_devices_registered_total" 1) in
  let^ url := hlift (ShardRegistry_lookup_shard (dev_shard_prefix device)) in
  hret (Ok (MkRegisterResp (uuid_to_string (dev_id device)) token (dev_shard_prefix device)
              (flat_ok url))).

Definition h_update_location (device_id : Uuid) (payload : UpdateLocationRequest)
    : HR LocationUpdate :=
  let^? _ := hret (UpdateLocationRequest_validate payload) in
  let^? update := hlift (DeviceService_update_location (st_parts st) device_id (ul_lat payload)
                           (ul_lon payload)) in
  let^ _ := (if lu_shard_changed update
             then count_metric (counter_add "pulsegrid_shard_changes_total" 1) else hret ()) in
  hret (Ok update).

Definition h_heartbeat (device_id : Uuid) : HR unit :=
  hlift (DeviceService_heartbeat (st_parts st) device_id).

Definition h_ws_ticket (device_id : Uuid) : HR WsTicket :=
  let^? ticket := hlift (DeviceService_issue_ws_ticket (st_parts st) device_id) in
  let^ _ := count_metric (counter_add "pulsegrid_ws_tickets_issued_total" 1) in
  hret (Ok ticket).

Definition h_delete_me (device_id : Uuid) : HR unit :=
  let^? _ := hlift (DeviceService_delete (st_parts st) device_id) in
  let^ _ := count_metric (counter_add "pulsegrid_devices_deleted_total" 1) in
  hret (Ok ()).

(** ** Administration (handlers/admin.rs) *)

Definition h_revoke_device (id : Uuid) : HR unit :=
  let^? _ := hlift (DeviceService_revoke (st_parts st) id) in
  let^ _ := count_metric (counter_add "pulsegrid_admin_revocations_total" 1) in
  hret (Ok ()).

Definition h_delete_device (id : Uuid) : HR unit :=
  let^? _ := hlift (DeviceService_delete (st_parts st) id) in
  let^ _ := count_metric (counter_add "pulsegrid_devices_deleted_total" 1) in
  hret (Ok ()).

(** ** Alerts (handlers/alerts.rs) *)

(** [elapsed] is what the service's stopwatch shows at the end. *)
Definition h_dispatch_alert (elapsed : Z) (payload : DispatchAlertRequest)
    : HR (Z * DispatchResult) :=
  let^? _ := hret (DispatchAlertRequest_validate payload) in
  let^? result := (λ m, AlertDispatchService_dispatch m elapsed (da_lat payload) (da_lon payload)
                          (da_radius_meters payload) (da_severity payload) (da_title payload)
                          (da_message payload)) in
  let status := if DispatchResult_is_partial result then 207 else 200 in
  hret (Ok (status, result)).

Definition h_list_alerts (limit : option Z) : HR (list Alert) :=
  hlift (AlertDispatchService_recent (clamp_limit limit)).

Definition h_get_alert (id : Uuid) : HR AlertDetails :=
  hlift (AlertDispatchService_alert_details id).

(** ** Dashboard (handlers/dashboard.rs) *)

Definition h_devices (query : DevicesQuery) : HR DevicesResponse :=
  let^? _ := hret (DevicesQuery_validate query) in
  let^? center := hret (Location_new (dq_lat query) (dq_lon query)) in
  let^? shard_prefixes := hret (shard_prefixes_for_radius center (dq_radius_meters query)) in
  let limit := clamp_device_limit (dq_limit query) in
  let^? found := hlift (DeviceRepository_list_in_circle shard_prefixes center
                          (dq_radius_meters query) (limit + 1)) in
  let truncated := limit <? Z.of_nat (length found) in
  hret (Ok (MkDevicesResp (take (Z.to_nat limit) found) truncated limit)).

(** ** Operations (handlers/ops.rs) *)

Definition pg_ping : MR unit := pg_read (λ _, ()).

Definition verdict (r : result unit AppError) : bool * string :=
  match r with Ok _ => (true, "ok") | Err _ => (false, "unavailable") end.

(** The two pings run together; [nats_connected] is the client's state. *)
Definition h_ready (nats_connected : bool) : HM Response :=
  let^ postgres := hlift pg_ping in
  let^ redis := hlift redis_ping in
  let '(pg_ok, pg) := verdict postgres in
  let '(redis_ok, rd) := verdict redis in
  let '(nats_ok, nt) := verdict (if nats_connected then Ok () else Err (Messaging "not connected")) in
  let all_ok := pg_ok && redis_ok && nats_ok in
  hret (MkResponse (if all_ok then 200 else 503) []
          (BReady (if all_ok then "ready" else "not_ready") pg rd nt)).

Definition h_metrics : HM Response := λ m,
  mret_ (MkResponse 200 [("content-type", "text/plain; version=0.0.4; charset=utf-8")]
           (BText (MetricRegistry_render m)), m).

(** ** Endpoints

    An endpoint runs its extractors in the order of the handler's arguments,
    then the handler, and turns an error into a response. *)

Definition into_response {A} (f : A → Response) (c : HR A) : HM Response :=
  let^ r := c in
  hret match r with
       | Ok a => f a
       | Err e => let '(status, message) := ApiError_into_response e in
                  MkResponse status [] (BError message)
       end.

Definition json_ok (b : Body) : Response := MkResponse 200 [] b.
Definition no_content (_ : unit) : Response := MkResponse 204 [] BEmpty.

(** An extractor whose rejection is already a response. *)
Definition extracted {A} (r : result A Response) (k : A → HM Response) : HM Response :=
  match r with Ok a => k a | Err rejection => hret rejection end.

Definition with_device (request : Request) (k : Uuid → HM Response) : HM Response :=
  let^ auth := hlift (AuthDevice_from_request_parts (rq_headers request)) in
  match auth with
  | Ok device_id => k device_id
  | Err e => into_response (A := unit) no_content (hret (Err e))
  end.

(** [require_operator]: the rest runs only behind a valid key. *)
Definition operator_layer (request : Request) (next : HM Response) : HM Response :=
  match check (rq_headers request) (st_operator_keys st) with
  | Ok _ => next
  | Err e => into_response (A := unit) no_content (hret (Err e))
  end.

(** The limiter of a group of routes, outside everything else of the group. *)
Definition limit_layer (limit : Limit) (limits : RateLimits) (request : Request)
    (next : HM Response) : HM Response :=
  match with_limit limit limits with
  | None => next
  | Some governor => λ m w,
      match governor_refuses governor (w_tick w) request with
      | Some refusal => hret refusal m w
      | None => next m w
      end
  end.

(** ** Routers (routes/*.rs) *)

(** The route with one captured identifier. *)
Definition on_id (k : Uuid → HM Response) (captures : list string) : HM Response :=
  extracted (path_uuid (default "" (head captures))) k.

Definition devices_router (limits : RateLimits) : Router (HM Response) :=
  let register_route := layer (limit_layer (rl_register limits) limits)
    [MkRoute POST ["devices"; "register"] (λ request _,
       extracted (json_register request) (λ payload,
         into_response (λ r, json_ok (BRegistered r)) (h_register payload)))] in
  let authenticated := layer (limit_layer (rl_location limits) limits)
    [MkRoute PUT ["devices"; "location"] (λ request _, with_device request (λ device_id,
       extracted (json_location request) (λ payload,
         into_response (λ u, json_ok (BLocation u)) (h_update_location device_id payload))));
     MkRoute POST ["devices"; "heartbeat"] (λ request _, with_device request (λ device_id,
       into_response no_content (h_heartbeat device_id)));
     MkRoute POST ["devices"; "ws-ticket"] (λ request _, with_device request (λ device_id,
       into_response (λ t, json_ok (BTicket t)) (h_ws_ticket device_id)));
     MkRoute DELETE ["devices"; "me"] (λ request _, with_device request (λ device_id,
       into_response no_content (h_delete_me device_id)))] in
  merge_routers register_route authenticated.

Definition alerts_router (elapsed : Z) (limits : RateLimits) : Router (HM Response) :=
  let dispatch := layer (limit_layer (rl_alerts limits) limits) (layer operator_layer
    [MkRoute POST ["alerts"] (λ request _, extracted (json_dispatch request) (λ payload,
       into_response (λ sr, MkResponse sr.1 [] (BDispatched sr.2))
         (h_dispatch_alert elapsed payload)))]) in
  let reads := layer (limit_layer (rl_location limits) limits) (layer operator_layer
    [MkRoute GET ["alerts"] (λ request _, extracted (query_limit request) (λ limit,
       into_response (λ l, json_ok (BAlerts l)) (h_list_alerts limit)));
     MkRoute GET ["alerts"; "{id}"] (λ _, on_id (λ id,
       into_response (λ d, json_ok (BDetails d)) (h_get_alert id)))]) in
  merge_routers dispatch reads.

Definition admin_router (limits : RateLimits) : Router (HM Response) :=
  layer (limit_layer (rl_location limits) limits) (layer operator_layer
    [MkRoute POST ["admin"; "devices"; "{id}"; "revoke"] (λ _, on_id (λ id,
       into_response no_content (h_revoke_device id)));
     MkRoute DELETE ["admin"; "devices"; "{id}"] (λ _, on_id (λ id,
       into_response no_content (h_delete_device id)))]).
End Http.

(** The files embedded in the binary. *)
Class Assets : Type := { INDEX_HTML : string; APP_JS : string; APP_CSS : string }.

Definition CSP : string :=
  "default-src 'none'; script-src 'self' https://cdnjs.cloudflare.com; style-src 'self' 'unsafe-inline' https://cdnjs.cloudflare.com; img-src 'self' data: https://tile.openstreetmap.org https://cdnjs.cloudflare.com; connect-src 'self'; base-uri 'none'; form-action 'none'; frame-ancestors 'none'".

Definition page {A : Assets} : Response :=
  MkResponse 200
    [("content-type", "text/html; charset=utf-8"); ("content-security-policy", CSP);
     ("x-content-type-options", "nosniff"); ("referrer-policy", "strict-origin-when-cross-origin");
     ("cache-control", "no-store")] (BText INDEX_HTML).

Definition app_js {A : Assets} : Response :=
  MkResponse 200
    [("content-type", "text/javascript; charset=utf-8"); ("x-content-type-options", "nosniff");
     ("cache-control", "no-cache")] (BText APP_JS).

Definition app_css {A : Assets} : Response :=
  MkResponse 200
    [("content-type", "text/css; charset=utf-8"); ("x-content-type-options", "nosniff");
     ("cache-control", "no-cache")] (BText APP_CSS).

(** ** The application (lib.rs) *)

(** What the stopwatches show at the end of a request, and whether the NATS
    client is connected. *)
Record Moment : Type := MkMoment {
  mo_dispatch_elapsed : Z; mo_http_elapsed : Z; mo_nats_connected : bool;
}.

Section App.
Context {R : RedisServer} {E : Env} {UC : UuidCodec} {L : Libm} {FF : FloatFmt} {G : Geohash}
  {HO : HashOrder} {P : PgMath} {S : TableScan} {W : Wire} {LC : LocRecordCodec}
  {MO : MapOrder string Z} {U : Unordered} {AP : AlertPublisher} {J : Jwt} {H : HttpLib}
  {A : Assets}.
Context (st : AppState) (mo : Moment).

(** The open pages, and the stream and the listing behind the operator key.
    [stream] only subscribes to the telemetry feed. *)
Definition dashboard_router (limits : RateLimits) : Router (HM Response) :=
  let public :=
    [MkRoute GET ["dashboard"] (λ _ _, hret page);
     MkRoute GET ["dashboard"; "app.js"] (λ _ _, hret app_js);
     MkRoute GET ["dashboard"; "app.css"] (λ _ _, hret app_css)] in
  let private := layer (operator_layer st)
    [MkRoute GET ["dashboard"; "stream"] (λ _ _,
       hret (MkResponse 200 [("content-type", "text/event-stream")] BStream));
     MkRoute GET ["dashboard"; "devices"] (λ request _, extracted (query_devices request) (λ q,
       into_response (λ d, json_ok (BDevices d)) (h_devices q)))] in
  layer (limit_layer (rl_location limits) limits) (merge_routers public private).

Definition ops_router : Router (HM Response) :=
  [MkRoute GET ["health"] (λ _ _, hret (json_ok (BText "ok")));
   MkRoute GET ["ready"] (λ _ _, h_ready (mo_nats_connected mo));
   MkRoute GET ["metrics"] (λ _ _, h_metrics)].

Definition routes (limits : RateLimits) : Router (HM Response) :=
  merge_routers (devices_router st limits)
    (merge_routers (alerts_router st (mo_dispatch_elapsed mo) limits)
       (merge_routers (admin_router st limits) (merge_routers (dashboard_router limits) ops_router))).

(** A request through the merged routers. A HEAD request runs the GET endpoint
    and gets its status and headers. *)
Definition serve (limits : RateLimits) (request : Request) : HM Response :=
  match rq_method request with
  | HEAD =>
    match find_route (routes limits) (set_method GET request) with
    | Some endpoint =>
      let^ r := endpoint in hret (MkResponse (rs_status r) (rs_headers r) BEmpty)
    | None => hret (unrouted request)
    end
  | _ =>
    match find_route (routes limits) request with
    | Some endpoint => endpoint
    | None => hret (unrouted request)
    end
  end.

(** metrics.rs *)
Definition status_class (status : Z) : string := pretty (status / 100) +:+ "xx".

Definition track_http (next : Request → HM Response) (request : Request) : HM Response :=
  let^ response := next request in
  let^ _ := count_metric (observe "pulsegrid_http_request_duration_seconds"
                            (as_secs_f64 (mo_http_elapsed mo))) in
  let^ _ := count_metric (vec_add "pulsegrid_http_requests_total"
                            (status_class (rs_status response)) 1) in
  hret response.

(** [None] is the panic of [expect]. *)
Definition request_id_middleware (next : Request → HM Response) (request : Request)
    : HM (option Response) :=
  let^ id := (match request_id_of (rq_headers request) with
              | Some id => hret id
              | None => let^ u := hlift new_uuid in hret (uuid_to_string u)
              end) in
  match header_from_str id with
  | None => hret None
  | Some value =>
    let request' := set_headers (header_insert REQUEST_ID_HEADER value (rq_headers request)) request in
    let^ response := next request' in
    hret (Some (set_resp_headers (header_insert REQUEST_ID_HEADER value (rs_headers response)) response))
  end.

Definition apply_http_layers (router : Request → HM Response) : Request → HM (option Response) :=
  request_id_middleware (track_http router).

Definition build_router (limits : RateLimits) : Request → HM (option Response) :=
  apply_http_layers (serve limits).
End App.
