(* ===== verification/HttpSpec.v ===== *)
(** * What the HTTP layer guarantees

    Theorems about [Http]: access control of the routes, revoked tokens, request
    identifiers, the counting of responses, and what a refused request leaves
    behind. *)

From S2P Require Import Prelude F64 Str Errors Metrics Geo Domain Auth Configs Registry Redis World.
From S2P Require Import Stores Lease Db Nats Routing Worker Fanout Retention DeviceService Dispatch Http.

Open Scope Z_scope.

(** ** The computations *)

Section Laws.
Context {R : RedisServer}.

Lemma hbind_run {A B} (c : HM A) (k : A → HM B) m w :
  hbind c k m w = k (c m w).1.1 (c m w).1.2 (c m w).2.
Proof. unfold hbind. rewrite mbind_run. by destruct (c m w) as [[a m'] w']. Qed.

Lemma hlift_run {A} (c : M A) m w : hlift c m w = (((c w).1, m), (c w).2).
Proof. unfold hlift. by rewrite mbind_run. Qed.

Lemma hbind_ok_run {A B} (c : HR A) (k : A → HR B) m w :
  hbind_ok c k m w =
    match (c m w).1.1 with
    | Ok a => k a (c m w).1.2 (c m w).2
    | Err e => ((Err e, (c m w).1.2), (c m w).2)
    end.
Proof. unfold hbind_ok. rewrite hbind_run. by destruct ((c m w).1.1). Qed.

(** [keeps name c]: the computation leaves the metric alone. *)
Definition keeps (name : string) {A} (c : HM A) : Prop :=
  ∀ m w, find_metric name (c m w).1.2 = find_metric name m.

Lemma keeps_hret name {A} (a : A) : keeps name (hret a).
Proof. done. Qed.

Lemma keeps_hlift name {A} (c : M A) : keeps name (hlift c).
Proof. intros m w. by rewrite hlift_run. Qed.

Lemma keeps_hbind name {A B} (c : HM A) (k : A → HM B) :
  keeps name c → (∀ a, keeps name (k a)) → keeps name (hbind c k).
Proof. intros Hc Hk m w. rewrite hbind_run, Hk. apply Hc. Qed.

Lemma keeps_hbind_ok name {A B} (c : HR A) (k : A → HR B) :
  keeps name c → (∀ a, keeps name (k a)) → keeps name (hbind_ok c k).
Proof.
  intros Hc Hk. apply keeps_hbind; [done|]. intros [a|e]; [apply Hk|apply keeps_hret].
Qed.

Lemma keeps_counter name other n :
  name ≠ other → keeps name (count_metric (counter_add other n)).
Proof. intros Hne m w. by apply find_update_other. Qed.

Lemma keeps_if name {A} (b : bool) (c d : HM A) :
  keeps name c → keeps name d → keeps name (if b then c else d).
Proof. by destruct b. Qed.

Lemma keeps_extracted name {A} (r : result A Response) (k : A → HM Response) :
  (∀ a, keeps name (k a)) → keeps name (extracted r k).
Proof. intros Hk. destruct r; [apply Hk|apply keeps_hret]. Qed.
End Laws.

(** A goal about all routes becomes one goal per route. *)
Ltac each_route :=
  unfold routes, devices_router, alerts_router, admin_router, dashboard_router, ops_router,
    merge_routers, layer;
  rewrite !Forall_app, !fmap_app, !Forall_app; cbn [fmap list_fmap];
  repeat match goal with
         | |- _ ∧ _ => split
         | |- Forall _ (_ :: _) => constructor
         | |- Forall _ [] => constructor
         end.

(** Everything but the clock is unchanged. *)
Definition same_data {R : RedisServer} (w w' : World) : Prop :=
  w_redis w' = w_redis w ∧ w_pg w' = w_pg w ∧ w_published w' = w_published w ∧
  w_stream w' = w_stream w.

Section Access.
Context {R : RedisServer} {E : Env} {UC : UuidCodec} {L : Libm} {FF : FloatFmt} {G : Geohash}
  {HO : HashOrder} {P : PgMath} {S : TableScan} {W : Wire} {LC : LocRecordCodec}
  {MO : MapOrder string Z} {U : Unordered} {AP : AlertPublisher} {J : Jwt} {H : HttpLib}
  {A : Assets}.
Context (st : AppState) (mo : Moment) (limits : RateLimits).

(** ** Counting *)

Lemma keeps_into_response name {B} (f : B → Response) (c : HR B) :
  keeps name c → keeps name (into_response f c).
Proof. intros Hc. apply keeps_hbind; [done|]. intros a. apply keeps_hret. Qed.

Lemma keeps_with_device name request k :
  (∀ d, keeps name (k d)) → keeps name (with_device st request k).
Proof.
  intros Hk. apply keeps_hbind; [apply keeps_hlift|]. intros [d|e]; [apply Hk|].
  apply keeps_into_response, keeps_hret.
Qed.

Lemma keeps_operator_layer name request e :
  keeps name e → keeps name (operator_layer st request e).
Proof.
  intros He. unfold operator_layer. destruct (check _ _); [done|].
  apply keeps_into_response, keeps_hret.
Qed.

Lemma keeps_limit_layer name limit request e :
  keeps name e → keeps name (limit_layer limit limits request e).
Proof.
  intros He. unfold limit_layer. destruct (with_limit _ _) as [g|]; [|done].
  intros m w. destruct (governor_refuses _ _ _); [done|apply He].
Qed.

Lemma keeps_dispatch name elapsed la lo r sev title msg :
  name ∉ ["pulsegrid_alerts_dispatched_total"; "pulsegrid_alert_shards_published_total";
          "pulsegrid_alert_shard_failures_total"; "pulsegrid_alerts_partial_total";
          "pulsegrid_alert_dispatch_duration_seconds"] →
  keeps name (λ m, AlertDispatchService_dispatch m elapsed la lo r sev title msg).
Proof.
  rewrite !not_elem_of_cons. intros (N1 & N2 & N3 & N4 & N5 & _) m w.
  unfold AlertDispatchService_dispatch.
  destruct (Location_new la lo) as [c|]; [|done]. rewrite !mbind_run.
  destruct (Alert_new _ _ _ _ _ _ _) as [al|]; [|done].
  destruct (Alert_target_shard_prefixes al) as [ps|]; [|done]. rewrite mbind_run.
  destruct (AlertRepository_insert_alert al _) as [[x|e] w1]; [|done]. cbn [fst snd].
  rewrite mbind_run. destruct (fan_out_alert al ps w1) as [res w2]. cbn [fst snd mret_].
  unfold dispatch_metrics, observe, counter_add. rewrite find_update_other by done.
  destruct (DispatchResult_is_partial res); by rewrite !find_update_other by done.
Qed.

(** ** Routing *)

(** A request is answered by axum or runs the endpoint of a route, for its own
    path, headers and body. *)
Lemma serve_cases request :
  (∀ m w, serve st mo limits request m w = ((unrouted request, m), w)) ∨
  ∃ request' (route : Route (HM Response)) captures, route ∈ routes st mo limits ∧
    takes request' route = Some captures ∧
    (request' = request ∨ request' = set_method GET request) ∧
    ∀ m w, ∃ body, serve st mo limits request m w =
      let '((r, m'), w') := ro_endpoint route request' captures m w in
      ((MkResponse (rs_status r) (rs_headers r) (body (rs_body r)), m'), w').
Proof.
  unfold serve.
  assert (Hmain : ∀ req e (f : HM Response → HM Response), find_route (routes st mo limits) req = Some e →
    (req = request ∨ req = set_method GET request) →
    (∀ m w, ∃ body, f e m w = let '((r, m'), w') := e m w in
       ((MkResponse (rs_status r) (rs_headers r) (body (rs_body r)), m'), w')) →
    ∃ request' (route : Route (HM Response)) captures, route ∈ routes st mo limits ∧
      takes request' route = Some captures ∧ (request' = request ∨ request' = set_method GET request) ∧
      ∀ m w, ∃ body, f e m w =
        let '((r, m'), w') := ro_endpoint route request' captures m w in
        ((MkResponse (rs_status r) (rs_headers r) (body (rs_body r)), m'), w')).
  { intros req e f (route & captures & Hin & Ht & ->)%find_route_Some Hreq Hf. eauto 10. }
  assert (Hid : ∀ (e : HM Response) m w, ∃ body : Body → Body, e m w = let '((r, m'), w') := e m w in
       ((MkResponse (rs_status r) (rs_headers r) (body (rs_body r)), m'), w')).
  { intros e m w. exists id. by destruct (e m w) as [[[] ?] ?]. }
  destruct (rq_method request); (destruct (find_route _ _) as [e|] eqn:Hf; [|by left]); right;
    [by eapply (Hmain _ e id); eauto| |by eapply (Hmain _ e id); eauto..].
  eapply (Hmain _ e (λ e, let^ r := e in hret (MkResponse (rs_status r) (rs_headers r) BEmpty))); [done|by right|].
  intros m w. exists (λ _, BEmpty). rewrite hbind_run. by destruct (e m w) as [[r m'] w'].
Qed.

(** ** Operators *)

(** The paths that only operators may use. *)
Definition operator_only (path : list string) : bool :=
  match path with
  | [] => false
  | first :: rest =>
    bool_decide (first = "alerts") || bool_decide (first = "admin")
    || bool_decide (first = "dashboard" ∧ (rest = ["stream"] ∨ rest = ["devices"]))
  end.

(** A refusal leaves the world and the metrics as they are. *)
Definition refused (request : Request) (e : HM Response) : Prop :=
  ∀ m w, ∃ response, e m w = ((response, m), w) ∧
    (rs_status response = 401 ∨ ∃ g t, governor_refuses g t request = Some response).

Definition presented_key (request : Request) : string :=
  default "" (header_get API_KEY_HEADER (rq_headers request) ≫= header_to_str).

Lemma refused_operator request e :
  presented_key request ∉ st_operator_keys st → refused request (operator_layer st request e).
Proof.
  intros Hk m w. unfold operator_layer, check. fold (presented_key request).
  rewrite ApiKeys_verify_spec, bool_decide_eq_false_2 by done.
  eexists. split; [reflexivity|]. by left.
Qed.

Lemma refused_limit limit request e :
  refused request e → refused request (limit_layer limit limits request e).
Proof.
  intros He m w. unfold limit_layer. destruct (with_limit _ _) as [g|]; [|apply He].
  destruct (governor_refuses g (w_tick w) request) as [resp|] eqn:Hg; [|apply He].
  exists resp. split; [done|]. eauto.
Qed.

Lemma operator_routes :
  Forall (λ route, ∀ request captures,
    takes request route = Some captures → operator_only (rq_path request) = true →
    presented_key request ∉ st_operator_keys st →
    refused request (ro_endpoint route request captures)) (routes st mo limits).
Proof.
  assert (Hopen : ∀ (route : Route (HM Response)) request captures,
    forallb (λ s, negb (is_capture s)) (ro_pattern route) = true →
    operator_only (ro_pattern route) = false → takes request route = Some captures →
    operator_only (rq_path request) = true → False).
  { intros route request captures Hl Ho ->%takes_literal; [|done]. congruence. }
  each_route;
    intros request captures Ht Hp Hk;
    first [by apply refused_limit, refused_operator
          |exfalso; eapply Hopen; [..|exact Ht|exact Hp]; reflexivity].
Qed.

(** C13: Without a valid operator key nothing behind the operator paths runs.
    Whatever the method, the body and the query, a request to the alert, the
    administration and the private dashboard paths that does not present a
    configured key gets 401, the limiter's refusal, or the answer for a request
    no route takes, and neither the data, the published messages nor the metrics
    of the handlers change. *)
Theorem operator_key_required request m w :
  operator_only (rq_path request) = true → presented_key request ∉ st_operator_keys st →
  ∃ response, serve st mo limits request m w = ((response, m), w) ∧
    (response = unrouted request ∨ rs_status response = 401 ∨
     ∃ g t request' refusal, governor_refuses g t request' = Some refusal ∧
       rs_status response = rs_status refusal).
Proof.
  intros Hp Hk. destruct (serve_cases request) as [Hu|(req & route & caps & Hin & Ht & Hreq & Hs)].
  { exists (unrouted request). rewrite Hu. auto. }
  destruct (proj1 (Forall_forall _ _) operator_routes route Hin req caps Ht) with (m := m) (w := w)
    as (resp & He & Hst); [by destruct Hreq as [->| ->]..|].
  destruct (Hs m w) as [body ->]. rewrite He. eexists. split; [reflexivity|]. right.
  destruct Hst as [?|(g & t & Hg)]; [by left|]. right. eauto 10.
Qed.

(** ** Devices *)

Definition device_only (path : list string) : bool :=
  bool_decide (path ∈ [["devices"; "location"]; ["devices"; "heartbeat"]; ["devices"; "ws-ticket"];
                       ["devices"; "me"]]).

(** The caller holds a token that verifies now, of a device that is not revoked
    when the list is read. *)
Definition authenticated (headers : Headers) (w : World) (d : Uuid) : Prop :=
  ∃ token, bearer_token headers = Some token ∧
    TokenVerifier_verify (st_verifier st) (env_clock (w_tick w)) token = Ok d ∧
    cmd_exists (env_clock (Datatypes.S (w_tick w))) (RevocationStore_key d) (w_redis w) = false.

Lemma AuthDevice_cases headers w :
  same_data w (AuthDevice_from_request_parts st headers w).2 ∧
  match (AuthDevice_from_request_parts st headers w).1 with
  | Ok d => authenticated headers w d
  | Err e => ApiError_status e = 401 ∨ ApiError_status e = 503
  end.
Proof.
  unfold AuthDevice_from_request_parts.
  destruct (bearer_token headers) as [token|] eqn:Hb; [|split; [done|by left]].
  rewrite mbind_run. cbn [utc_now fst snd].
  destruct (TokenVerifier_verify _ _ _) as [d|] eqn:Hv; [|split; [done|by left]].
  rewrite mbind_run. unfold RevocationStore_is_revoked, redis_read.
  pose proof (redis_call_cases (λ now r, (cmd_exists now (RevocationStore_key d) r, r)) (tick w)) as Hc.
  destruct (redis_call _ (tick w)) as [[b|e] w1]; cbn [fst snd mret_];
    destruct Hc as (Hpg & Hp & Hst & _ & Hr).
  - injection Hr as Hb1 Hr1. split; [done|]. destruct b; [by left|]. exists token. done.
  - destruct Hr as [_ Hr]. split; [|by right]. split; [by destruct Hr as [->| ->]|done].
Qed.

(** Either the caller is authenticated or nothing happens. *)
Definition device_guarded (request : Request) (e : HM Response) : Prop :=
  ∀ m w, (∃ d, authenticated (rq_headers request) w d) ∨
    ∃ response w', e m w = ((response, m), w') ∧ same_data w w' ∧
      (rs_status response = 401 ∨ rs_status response = 503 ∨
       ∃ g t, governor_refuses g t request = Some response).

Lemma guarded_device request k : device_guarded request (with_device st request k).
Proof.
  intros m w. unfold with_device. rewrite hbind_run, hlift_run. cbn [fst snd].
  destruct (AuthDevice_cases (rq_headers request) w) as [Hs Ha].
  destruct (AuthDevice_from_request_parts st (rq_headers request) w) as [[d|e] w1]; cbn [fst snd] in *.
  - left. by exists d.
  - right. unfold into_response. rewrite hbind_run. cbn [hret fst snd mret_ ApiError_into_response].
    eexists _, _. split; [reflexivity|]. split; [done|]. cbn [rs_status]. naive_solver.
Qed.

Lemma guarded_limit limit request e :
  device_guarded request e → device_guarded request (limit_layer limit limits request e).
Proof.
  intros He m w. unfold limit_layer. destruct (with_limit _ _) as [g|]; [|apply He].
  destruct (governor_refuses g (w_tick w) request) as [resp|] eqn:Hg; [|apply He].
  right. exists resp, w. split; [done|]. split; [done|]. eauto.
Qed.

Lemma device_routes :
  Forall (λ route, ∀ request captures,
    takes request route = Some captures → device_only (rq_path request) = true →
    device_guarded request (ro_endpoint route request captures)) (routes st mo limits).
Proof.
  assert (Hhead : ∀ (route : Route (HM Response)) request captures p ps,
    ro_pattern route = p :: ps → is_capture p = false → p ≠ "devices" →
    takes request route = Some captures → device_only (rq_path request) = true → False).
  { intros route request captures p ps Hpat Hc Hp. unfold takes. case_decide; [|done].
    rewrite Hpat. destruct (rq_path request) as [|s path] eqn:Hpath; [done|]. cbn [match_path].
    rewrite Hc. case_decide; [|done]. intros _ Hd%bool_decide_eq_true_1. set_solver. }
  each_route;
    intros request captures Ht Hp;
    first [by apply guarded_limit, guarded_device
          |exfalso; apply takes_literal in Ht; [|reflexivity]; rewrite Ht in Hp; discriminate Hp
          |exfalso; eapply Hhead; [..|exact Ht|exact Hp]; [reflexivity|reflexivity|discriminate]].
Qed.

(** C14: The device endpoints act only for an authenticated device. A request to
    them either carries a token that verifies, of a device that is not on the
    revocation list, or it gets 401, 503 when the list cannot be read, the
    limiter's refusal or the answer for a request no route takes, and then no
    data, message or metric of the handlers has changed. *)
Theorem device_token_required request m w :
  device_only (rq_path request) = true →
  (∃ d, authenticated (rq_headers request) w d) ∨
  ∃ response w', serve st mo limits request m w = ((response, m), w') ∧ same_data w w' ∧
    (response = unrouted request ∨ rs_status response = 401 ∨ rs_status response = 503 ∨
     ∃ g t request' refusal, governor_refuses g t request' = Some refusal ∧
       rs_status response = rs_status refusal).
Proof.
  intros Hp. destruct (serve_cases request) as [Hu|(req & route & caps & Hin & Ht & Hreq & Hs)].
  { right. exists (unrouted request), w. rewrite Hu. split; [done|]. split; [done|]. auto. }
  assert (Hh : rq_headers req = rq_headers request) by (by destruct Hreq as [->| ->]).
  destruct (proj1 (Forall_forall _ _) device_routes route Hin req caps Ht) with (m := m) (w := w)
    as [Hd|(resp & w' & He & Hsd & Hst)]; [by destruct Hreq as [->| ->]|left; by rewrite <- Hh|right].
  destruct (Hs m w) as [body ->]. rewrite He. eexists _, _. split; [reflexivity|]. split; [done|].
  right. destruct Hst as [?|[?|(g & t & Hg)]]; [by left|right; by left|]. right; right. eauto 10.
Qed.

(** ** Counting responses *)

Ltac keeping :=
  repeat match goal with
    | |- keeps _ (hret _) => apply keeps_hret
    | |- keeps _ (hlift _) => apply keeps_hlift
    | |- keeps _ (hbind _ _) => apply keeps_hbind; [|intros ?]
    | |- keeps _ (hbind_ok _ _) => apply keeps_hbind_ok; [|intros ?]
    | |- keeps _ (count_metric _) => apply keeps_counter; discriminate
    | |- keeps _ (extracted _ _) => apply keeps_extracted; intros ?
    | |- keeps _ (into_response _ _) => apply keeps_into_response
    | |- keeps _ (with_device _ _ _) => apply keeps_with_device; intros ?
    | |- keeps _ (operator_layer _ _ _) => apply keeps_operator_layer
    | |- keeps _ (limit_layer _ _ _ _) => apply keeps_limit_layer
    | |- keeps _ (λ m, AlertDispatchService_dispatch m _ _ _ _ _ _ _) =>
        apply keeps_dispatch; by apply (bool_decide_unpack (_ ∉ _))
    | |- keeps _ (match ?x with _ => _ end) => destruct x
    | |- keeps _ h_metrics => by intros ??
    end.

Lemma keeps_http_requests :
  Forall (λ route, ∀ request captures,
    keeps "pulsegrid_http_requests_total" (ro_endpoint route request captures)) (routes st mo limits).
Proof.
  each_route; intros request captures; cbn [ro_endpoint];
    unfold on_id, h_register, h_update_location, h_heartbeat, h_ws_ticket, h_delete_me,
      h_dispatch_alert, h_list_alerts, h_get_alert, h_revoke_device, h_delete_device, h_devices,
      h_ready; keeping.
Qed.

Lemma serve_keeps_http_requests request :
  keeps "pulsegrid_http_requests_total" (serve st mo limits request).
Proof.
  intros m w. destruct (serve_cases request) as [->|(req & route & caps & Hin & _ & _ & Hs)]; [done|].
  pose proof (proj1 (Forall_forall _ _) keeps_http_requests route Hin req caps m w) as Hk.
  destruct (Hs m w) as [body ->]. by destruct (ro_endpoint route req caps m w) as [[r m'] w'].
Qed.

(** C31: Every response is counted once, in the class of its status: after a
    request went through the application the counter of its class is one higher
    and those of the other classes are as before, whichever handler ran and
    however it ended. *)
Theorem responses_counted_once request m w v response m' w' :
  find_metric "pulsegrid_http_requests_total" m = Some (CVec v) →
  build_router st mo limits request m w = ((Some response, m'), w') →
  vec_total "pulsegrid_http_requests_total" (status_class (rs_status response)) m' =
    u64_wrap (vec_total "pulsegrid_http_requests_total" (status_class (rs_status response)) m + 1) ∧
  ∀ class, class ≠ status_class (rs_status response) →
    vec_total "pulsegrid_http_requests_total" class m' =
    vec_total "pulsegrid_http_requests_total" class m.
Proof.
  intros Hv. unfold build_router, apply_http_layers, request_id_middleware. rewrite hbind_run.
  set (c := match request_id_of _ with Some _ => _ | None => _ end).
  assert (Hc : (c m w).1.2 = m).
  { unfold c. destruct (request_id_of _); [done|]. by rewrite hbind_run, hlift_run. }
  destruct (c m w) as [[id m0] w0]. cbn [fst snd] in *. subst m0.
  destruct (header_from_str id) as [value|]; [|done]. rewrite hbind_run.
  set (request' := set_headers _ request). unfold track_http. rewrite !hbind_run.
  pose proof (serve_keeps_http_requests request' m w0) as Hk. rewrite Hv in Hk.
  destruct (serve st mo limits request' m w0) as [[r m1] w1].
  cbn [fst snd hret mret_ count_metric] in *. intros [= <- <- <-].
  cbn [rs_status set_resp_headers].
  assert (Hsame : ∀ class, vec_total "pulsegrid_http_requests_total" class m1 =
    vec_total "pulsegrid_http_requests_total" class m) by (intros; unfold vec_total; by rewrite Hk, Hv).
  assert (Hobs : ∀ x, find_metric "pulsegrid_http_requests_total"
    (observe "pulsegrid_http_request_duration_seconds" x m1) = Some (CVec v))
    by (intros; unfold observe; by rewrite find_update_other).
  split.
  - erewrite vec_total_add by apply Hobs. rewrite <- Hsame. unfold vec_total. by rewrite Hobs, Hk.
  - intros class Hne. rewrite <- Hsame. erewrite vec_total_add_other by done.
    unfold vec_total. by rewrite Hobs, Hk.
Qed.
End Access.

(** ** Request identifiers *)

Lemma str_forallb_mono f g s :
  (∀ c, f c = true → g c = true) → str_forallb f s = true → str_forallb g s = true.
Proof.
  intros Hfg. induction s as [|a s IH]; [done|]. cbn [str_forallb].
  intros [? ?]%andb_prop. by rewrite Hfg, IH.
Qed.

Lemma sanitize_Some raw id :
  sanitize raw = Some id ↔
  id = raw ∧ 1 ≤ str_len raw ≤ 128 ∧ str_forallb request_id_char raw = true.
Proof.
  unfold sanitize, MAX_REQUEST_ID_LEN.
  assert (He : negb (str_is_empty raw) = (1 <=? str_len raw)).
  { destruct raw; [done|]. unfold str_len. cbn [String.length str_is_empty negb].
    symmetry. apply Z.leb_le. lia. }
  rewrite He.
  destruct (Z.leb_spec 1 (str_len raw)), (Z.leb_spec (str_len raw) 128),
    (str_forallb request_id_char raw); cbn [andb]; naive_solver lia.
Qed.

(** By the 256 cases. *)
Lemma every_ascii (f : Ascii.ascii → bool) :
  forallb (λ n, f (Ascii.ascii_of_nat n)) (seq 0 256) = true → ∀ c, f c = true.
Proof.
  intros Hf c. rewrite <- (Ascii.ascii_nat_embedding c).
  rewrite forallb_forall in Hf. apply (Hf (Ascii.nat_of_ascii c)), in_seq.
  pose proof (Ascii.nat_ascii_bounded c). lia.
Qed.

Lemma request_id_visible c : request_id_char c = true → visible c = true.
Proof.
  intros Hc. pose proof (every_ascii (λ c, implb (request_id_char c) (visible c)) eq_refl c) as Hi.
  cbv beta in Hi. by rewrite Hc in Hi.
Qed.

Lemma uuid_char_request_id c : uuid_char c = true → request_id_char c = true.
Proof. unfold uuid_char, request_id_char. intros ->. done. Qed.

Section RequestIds.
Context {R : RedisServer} {E : Env} {UC : UuidCodec} {US : UuidShape UC} {H : HttpLib}
  {HL : HttpLibLaws H}.

Lemma sanitized_header id :
  sanitize id = Some id → header_from_str id = Some id ∧ header_to_str id = Some id.
Proof.
  intros (_ & _ & Hc)%sanitize_Some. apply header_visible.
  eapply str_forallb_mono; [apply request_id_visible|done].
Qed.

Lemma uuid_sanitized u : sanitize (uuid_to_string u) = Some (uuid_to_string u).
Proof.
  apply sanitize_Some. destruct (uuid_shape u) as [Hl Hc]. split_and!; [done|lia|lia|].
  eapply str_forallb_mono; [apply uuid_char_request_id|done].
Qed.

Lemma request_id_of_insert id h :
  sanitize id = Some id → request_id_of (header_insert REQUEST_ID_HEADER id h) = Some id.
Proof.
  intros Hs. unfold request_id_of, header_insert. cbn [header_get].
  rewrite decide_True by done. cbn [mbind option_bind].
  destruct (sanitized_header id Hs) as [_ ->]. done.
Qed.

(** Every request has a safe identifier. Around any router the middleware
    never panics; the identifier has 1 to 128 characters, all letters, digits or
    one of - _ . :, so it cannot add text to a log line; it is the caller's when
    that one is safe; and the log lines of the request and the response carry the
    same identifier. *)
Theorem request_id_safe mo (router : Request → HM Response) request m w :
  ∃ id w0,
    (1 ≤ str_len id ≤ 128 ∧ str_forallb request_id_char id = true) ∧
    (∀ given, request_id_of (rq_headers request) = Some given → id = given) ∧
    same_data w w0 ∧
    let request' := set_headers (header_insert REQUEST_ID_HEADER id (rq_headers request)) request in
    make_span request' = id ∧
    ∃ response,
      (apply_http_layers mo router request m w).1.1 = Some response ∧
      (apply_http_layers mo router request m w).1.2 = (track_http mo router request' m w0).1.2 ∧
      (apply_http_layers mo router request m w).2 = (track_http mo router request' m w0).2 ∧
      rs_status response = rs_status (track_http mo router request' m w0).1.1 ∧
      header_get REQUEST_ID_HEADER (rs_headers response) = Some id.
Proof.
  unfold apply_http_layers, request_id_middleware. rewrite hbind_run.
  set (c := match request_id_of (rq_headers request) with Some _ => _ | None => _ end).
  assert (Hc : ∃ id w0, c m w = ((id, m), w0) ∧ same_data w w0 ∧ sanitize id = Some id ∧
    ∀ given, request_id_of (rq_headers request) = Some given → id = given).
  { unfold c. destruct (request_id_of (rq_headers request)) as [given|] eqn:Hr.
    - exists given, w. split_and!; [done..| |by intros ? [= ->]].
      unfold request_id_of in Hr. apply bind_Some in Hr as (raw & _ & Hs).
      pose proof Hs as [-> _]%sanitize_Some. done.
    - rewrite hbind_run, hlift_run. eexists _, _. split_and!; [reflexivity|done| |done].
      apply uuid_sanitized. }
  destruct Hc as (id & w0 & -> & Hsd & Hs & Hgiven). cbn [fst snd].
  exists id, w0. pose proof Hs as (_ & Hlen & Hch)%sanitize_Some. split; [done|]. split; [done|]. split; [done|].
  destruct (sanitized_header id Hs) as [-> _]. cbn zeta. split.
  { unfold make_span. cbn [set_headers rq_headers]. by rewrite request_id_of_insert. }
  rewrite hbind_run.
  destruct (track_http mo router _ m w0) as [[r m'] w']. cbn [fst snd hret mret_].
  eexists. split; [reflexivity|]. split_and!; [done..|].
  cbn [set_resp_headers rs_headers header_insert header_get]. by rewrite decide_True.
Qed.
End RequestIds.

(** ** Refused requests *)

Section Refusals.
Context {R : RedisServer} {E : Env} {UC : UuidCodec} {L : Libm} {FF : FloatFmt} {G : Geohash}
  {HO : HashOrder} {P : PgMath} {S : TableScan} {W : Wire} {LC : LocRecordCodec}
  {MO : MapOrder string Z} {U : Unordered} {AP : AlertPublisher} {J : Jwt} {H : HttpLib}.
Context (st : AppState).

Lemma encode_location_500 loc e : encode_location loc = Err e → is_client_error e = false.
Proof. unfold encode_location. destruct (gh_encode _ _); [done|]. by intros [= <-]. Qed.

Lemma insert_500 device w e w' :
  DeviceRepository_insert device w = (Err e, w') → is_client_error e = false.
Proof.
  unfold DeviceRepository_insert, pg_stmt. rewrite mbind_ok_run.
  match goal with |- context [pg_call ?f ?w0] =>
    pose proof (pg_call_cases f w0) as Hc; destruct (pg_call f w0) as [[a|e'] w1] end;
    destruct Hc as (_ & _ & _ & _ & Hq); cbn [fst snd].
  - destruct a as [[]|why]; [done|]. by intros [= <- _].
  - destruct Hq as [[why ->] _]. by intros [= <- _].
Qed.

Lemma register_client_error la lo w e w' :
  DeviceService_register (st_parts st) la lo w = (Err e, w') → is_client_error e = true →
  w' = w.
Proof.
  intros Hr He. revert Hr. unfold DeviceService_register.
  destruct (Location_new la lo) as [loc|]; [|by intros [= _ <-]].
  rewrite !mbind_run. cbn [new_uuid utc_now fst snd].
  destruct (Device_register _ _ loc) as [device|e1] eqn:Hd.
  2:{ intros [= -> _]. unfold Device_register in Hd.
      destruct (encode_location loc) as [g|e2] eqn:Hg; [done|]. injection Hd as ->.
      apply encode_location_500 in Hg. congruence. }
  rewrite mbind_ok_run. destruct (DeviceRepository_insert device _) as [[[]|e1] w1] eqn:Hi; cbn [fst snd].
  2:{ intros [= -> _]. apply insert_500 in Hi. congruence. }
  rewrite mbind_run. unfold publish_location, DeviceLocationStore_set.
  match goal with |- context [redis_call ?f ?w0] =>
    pose proof (redis_call_cases f w0) as Hc; destruct (redis_call f w0) as [[a|e'] w2] end;
    destruct Hc as (_ & _ & _ & _ & Hq); cbn [fst snd].
  - rewrite mbind_run. cbn [utc_now fst snd]. unfold TokenSigner_issue.
    destruct (jwt_encode _ _ _); [done|]. intros [= <- _]. done.
  - rewrite mbind_run. destruct Hq as [[why ->] _]. by intros [= <- _].
Qed.

(** A request the client must fix changes nothing. When a registration or a
    dispatch ends in a client error (4xx), no row, key, message or metric has
    changed: validation, routing and every other check of the caller's input come
    before the first write. *)
Theorem client_errors_change_nothing :
  (∀ payload m w e m' w', h_register st payload m w = ((Err e, m'), w') →
     is_client_error e = true → m' = m ∧ same_data w w') ∧
  (∀ elapsed payload m w e m' w', h_dispatch_alert elapsed payload m w = ((Err e, m'), w') →
     is_client_error e = true → m' = m ∧ same_data w w').
Proof.
  split.
  - intros payload m w e m' w' Hr He. revert Hr. unfold h_register. rewrite hbind_ok_run.
    cbn [hret mret_ fst snd]. destruct (RegisterDeviceRequest_validate payload); [|by intros [= _ <- <-]].
    rewrite hbind_ok_run, hlift_run. cbn [fst snd].
    destruct (DeviceService_register _ _ _ w) as [[[device token]|e1] w1] eqn:Hreg; cbn [fst snd].
    + rewrite !hbind_run, hlift_run. done.
    + intros [= -> <- <-]. apply register_client_error in Hreg as ->; done.
  - intros elapsed payload m w e m' w' Hr He. revert Hr. unfold h_dispatch_alert. rewrite hbind_ok_run.
    cbn [hret mret_ fst snd]. destruct (DispatchAlertRequest_validate payload); [|by intros [= _ <- <-]].
    rewrite hbind_ok_run. 
    destruct (AlertDispatchService_dispatch _ _ _ _ _ _ _ _ w) as [[[res|e1] m1] w1] eqn:Hd;
      cbn [fst snd]; [done|].
    intros [= -> <- <-]. apply dispatch_refused in Hd as (-> & Hp & Hs & Hrd & [Hpg|[why ->]]); [|done].
    done.
Qed.
End Refusals.

(** ** Revoked tokens *)

Section Revoked.
Context {R : RedisServer} {view : Z → string → rdb → option entry} {RL : RedisLaws R view}.
Context {E : Env} {UC : UuidCodec} {UL : UuidCodecLaws UC} {J : Jwt} {SU : Startup} {PC : PoolConfig}
  {H : HttpLib}.
Context {key_pair : Algorithm → EncodingKey → DecodingKey → Prop} {JL : JwtLaws J key_pair}.

(** The two key files of an EdDSA configuration hold a key pair. *)
Definition keys_match (config : CoordinatorConfig) : Prop :=
  ∀ private public p q ek dk, cc_jwt config = JwtEdDsa private public →
    read_file private = Ok p → read_file public = Ok q →
    EncodingKey_from_ed_pem p = Ok ek → DecodingKey_from_ed_pem q = Ok dk → key_pair EdDSA ek dk.

Lemma load_jwt_pair config s v :
  load_jwt config = Ok (s, v) → keys_match config →
  ts_ttl_hours s = cc_token_ttl_hours config ∧
  ∃ dk, v = TokenVerifier_build (ts_algorithm s) dk ∧ key_pair (ts_algorithm s) (ts_key s) dk.
Proof.
  unfold load_jwt, keys_match, read_key, TokenSigner_eddsa_from_pem, TokenVerifier_eddsa_from_pem.
  destruct (cc_jwt config) as [secret|private public]; intros Hl Hk.
  - injection Hl as <- <-. split; [done|]. eexists. split; [reflexivity|]. apply key_pair_secret.
  - destruct (read_file private) as [p|] eqn:Hp; [|done]. cbn [map_err] in Hl.
    destruct (EncodingKey_from_ed_pem p) as [ek|] eqn:He; [|done]. cbn [map_err] in Hl.
    destruct (read_file public) as [q|] eqn:Hq; [|done]. cbn [map_err] in Hl.
    destruct (DecodingKey_from_ed_pem q) as [dk|] eqn:Hd; [|done]. cbn [map_err] in Hl.
    injection Hl as <- <-. split; [done|]. exists dk. split; [done|]. by eapply Hk.
Qed.

(** What the state takes from the configuration. *)
Lemma build_state_Ok config w st w' :
  coordinator_build_state config w = (Ok st, w') →
  load_jwt config = Ok (dp_signer (st_parts st), st_verifier st) ∧
  dp_location_ttl_secs (st_parts st) = location_ttl_of config ∧
  dp_revocation_ttl_secs (st_parts st) = revocation_ttl_of config ∧
  dp_ws_ticket_ttl_secs (st_parts st) = cc_ws_ticket_ttl_secs config ∧
  st_operator_keys st = cc_operator_keys config.
Proof.
  unfold coordinator_build_state.
  do 6 (rewrite mbind_ok_run; match goal with |- context [(?c ?w0).1] => destruct (c w0) as [[[]|?] ?] end;
    cbn [fst snd]; [|done]).
  rewrite mbind_ok_run. cbn [mret_ fst snd].
  destruct (load_jwt config) as [[s v]|] eqn:Hl; [|done]. by intros [= <- <-].
Qed.

(** C12: Revocation outlives the token. Take the state the coordinator builds from
    its configuration, a token its signer issued for a device, and a revocation
    of that device written at or after that moment with the state's time to live.
    Whatever other clients do on other keys, and at any later time, the token
    never authenticates a request again: the revocation record lasts a day longer
    than the token, so as long as the revocation list answers within 80000
    seconds, one of the two checks refuses. *)
Theorem revoked_token_stays_dead config w0 st w0' issued d token w w' headers w2 d' :
  coordinator_build_state config w0 = (Ok st, w0') → keys_match config →
  1 ≤ cc_token_ttl_hours config ≤ 10 ^ 12 → 0 ≤ issued →
  TokenSigner_issue (dp_signer (st_parts st)) issued d = Ok token →
  issued ≤ env_clock (w_tick w) →
  RevocationStore_revoke d (dp_revocation_ttl_secs (st_parts st)) w = (Ok (), w') →
  foreign (RevocationStore_key d) (env_clock (w_tick w)) (w_redis w')
    (env_clock (S (w_tick w2))) (w_redis w2) →
  env_clock (S (w_tick w2)) ≤ env_clock (w_tick w2) + seconds 80000 →
  bearer_token headers = Some token →
  (AuthDevice_from_request_parts st headers w2).1 ≠ Ok d'.
Proof.
  intros (Hl & _ & Hrt & _)%build_state_Ok Hk Httl Hi Hiss Hle Hrev Hfor Hquick Hb Hok.
  destruct (load_jwt_pair _ _ _ Hl Hk) as (Hh & dk & Hv & Hp).
  destruct (AuthDevice_cases st headers w2) as [_ Ha]. rewrite Hok in Ha.
  destruct Ha as (token' & Hb' & Hver & Hex). rewrite Hb in Hb'. injection Hb' as <-.
  rewrite Hv, (token_verify _ dk issued d token) in Hver by done.
  case_decide as Hd; [|done]. injection Hver as <-.
  assert (Hrt' : dp_revocation_ttl_secs (st_parts st) = cc_token_ttl_hours config * 3600 + 86400).
  { rewrite Hrt. unfold revocation_ttl_of. rewrite (u64_wrap_small (_ * 3600)) by (unfold u64_max; lia).
    apply u64_wrap_small. unfold u64_max. lia. }
  rewrite (revoke_foreign d (dp_revocation_ttl_secs (st_parts st)) w w') in Hex by (done || lia).
  apply Z.ltb_ge in Hex. rewrite Hrt' in Hex. rewrite Hh in Hd.
  unfold ttl_ns, seconds, timestamp, hours in *.
  pose proof (Z.div_mod (env_clock (w_tick w2)) (10 ^ 9) ltac:(lia)).
  pose proof (Z.mod_pos_bound (env_clock (w_tick w2)) (10 ^ 9) ltac:(lia)).
  assert (Hge : issued + cc_token_ttl_hours config * 3600 * 10 ^ 9 + 6400 * 10 ^ 9 ≤ env_clock (w_tick w2)) by lia.
  assert (Hdiv : (issued + cc_token_ttl_hours config * 3600 * 10 ^ 9) `div` 10 ^ 9 + 6400
                 ≤ env_clock (w_tick w2) `div` 10 ^ 9).
  { rewrite <- (Z.div_add _ 6400 (10 ^ 9)) by lia. apply Z.div_le_mono; lia. }
  pose proof (Z.div_pos (issued + cc_token_ttl_hours config * 3600 * 10 ^ 9) (10 ^ 9) ltac:(lia) ltac:(lia)).
  lia.
Qed.
End Revoked.

(** ** The dashboard's listing *)

Section Listing.
Context {R : RedisServer} {E : Env} {L : Libm} {FF : FloatFmt} {G : Geohash} {HO : HashOrder}
  {P : PgMath} {S : TableScan} {H : HttpLib}.

(** The devices of the shards inside the circle, by identifier. *)
Definition devices_matching (prefixes : list string) (p : CircleParams) (t : Pg) : list DeviceSummary :=
  (λ r, MkSummary (dr_id r) (dr_lat r) (dr_lon r) (dr_shard_prefix r)) <$>
    merge_sort by_id (filter (λ r, dr_shard_prefix r ∈ prefixes ∧ in_circle p (dr_lat r) (dr_lon r) = true)
                        (device_rows t)).

(** The dashboard never shows more than it may, and says when it cuts. A
    successful listing holds the first [limit] of the matching devices in the
    order of their identifiers, [limit] is between 1 and 500, [truncated] is set
    exactly when more devices match, and nothing is changed. *)
Theorem listing_bounded query m w resp m' w' :
  h_devices query m w = ((Ok resp, m'), w') →
  m' = m ∧ same_data w w' ∧ 1 ≤ dv_limit resp ≤ 500 ∧
  ∃ center prefixes p,
    Location_new (dq_lat query) (dq_lon query) = Ok center ∧
    shard_prefixes_for_radius center (dq_radius_meters query) = Ok prefixes ∧
    circle_or_panic center (dq_radius_meters query) = Ok p ∧
    let all := devices_matching prefixes p (w_pg w) in
    dv_devices resp = take (Z.to_nat (dv_limit resp)) all ∧
    (dv_truncated resp = true ↔ dv_limit resp < Z.of_nat (length all)).
Proof.
  unfold h_devices. rewrite hbind_ok_run. cbn [hret mret_ fst snd].
  destruct (DevicesQuery_validate query); [|done]. rewrite hbind_ok_run. cbn [hret mret_ fst snd].
  destruct (Location_new _ _) as [center|]; [|done]. rewrite hbind_ok_run. cbn [hret mret_ fst snd].
  destruct (shard_prefixes_for_radius _ _) as [prefixes|] eqn:Hps; [|done].
  rewrite hbind_ok_run, hlift_run. cbn [fst snd]. unfold DeviceRepository_list_in_circle, pg_read.
  destruct (circle_or_panic _ _) as [p|] eqn:Hcp; [|done].
  set (limit := clamp_device_limit (dq_limit query)).
  match goal with |- context [pg_call ?f w] =>
    pose proof (pg_call_cases f w) as Hc; destruct (pg_call f w) as [[found|e] w1] end; [|done].
  destruct Hc as (Hr & Hp & Hs & _ & Hf). cbn [fst snd]. injection Hf as Hf Hpg. intros [= <- <- <-].
  cbn [dv_limit dv_devices dv_truncated].
  assert (Hlim : 1 ≤ limit ≤ 500) by (apply clamp_bounds; unfold MAX_DASHBOARD_DEVICES; lia).
  split; [done|]. split; [done|]. split; [done|]. exists center, prefixes, p. do 3 (split; [done|]). split.
  - rewrite <- Hf. unfold devices_matching. rewrite <- !fmap_take, take_take. do 2 f_equal. lia.
  - rewrite <- Hf, Z.ltb_lt. unfold devices_matching. rewrite !length_fmap, length_take. lia.
Qed.
End Listing.

(** ** Concrete instances *)

(** The usual text of a UUID. *)
Definition uuid_text (n : N) : string :=
  hex_digits 8 (N.shiftr n 96) +:+ "-" +:+ hex_digits 4 (N.shiftr n 80) +:+ "-"
  +:+ hex_digits 4 (N.shiftr n 64) +:+ "-" +:+ hex_digits 4 (N.shiftr n 48) +:+ "-"
  +:+ hex_digits 12 n.

Definition text_uuids : UuidCodec := {|
  uuid_to_string := λ u, uuid_text (uuid_val u); uuid_parse_str := λ _, None;
|}.

Lemma text_uuids_shape : UuidShape text_uuids.
Proof.
  split. intros u. cbn [uuid_to_string text_uuids]. unfold uuid_text. split.
  - by rewrite !str_len_app, !hex_digits_len.
  - assert (Hh : ∀ k n, str_forallb uuid_char (hex_digits k n) = true).
    { intros k n. eapply str_forallb_mono; [|apply hex_digits_hex]. intros c Hc.
      pose proof (every_ascii (λ c, implb (is_ascii_hexdigit c) (uuid_char c)) eq_refl c) as Hi.
      cbv beta in Hi. by rewrite Hc in Hi. }
    by rewrite !str_forallb_app, !Hh.
Qed.

(** Headers as they are; every body and query is the same request. *)
Definition only_visible (s : string) : option string := if str_forallb visible s then Some s else None.

Definition plain_http : HttpLib := {|
  header_to_str := only_visible; header_from_str := only_visible;
  bearer_token := header_get "authorization";
  json_register := λ _, Ok (MkRegisterReq (f64_of_Z 100) (f64_of_Z 10));
  json_location := λ _, Ok (MkUpdateReq (f64_of_Z 10) (f64_of_Z 10));
  json_dispatch := λ _, Ok (MkDispatchReq (f64_of_Z 10) (f64_of_Z 10) (f64_of_Z 40000) Critical "t" "m");
  query_limit := λ _, Ok None;
  query_devices := λ _, Ok (MkDevicesQuery (f64_of_Z 10) (f64_of_Z 10) (f64_of_Z 40000) (Some 1));
  path_uuid := λ _, Ok (uuid_of_N 3);
  unrouted := λ _, MkResponse 404 [] BEmpty;
  validate_range := λ lo hi x, (f64_of_Z lo <=. x) && (x <=. f64_of_Z hi);
  validate_length := λ lo hi s, (lo <=? str_len s) && (str_len s <=? hi);
  validation_text := λ fields, foldr (λ f s, f +:+ " " +:+ s) "" fields;
  governor_refuses := λ _ _ _, None;
|}.

Lemma plain_http_laws : HttpLibLaws plain_http.
Proof. split. intros s Hs. simpl. unfold only_visible. by rewrite Hs. Qed.

Definition no_assets : Assets := {| INDEX_HTML := ""; APP_JS := ""; APP_CSS := "" |}.

Definition sample_state : @AppState plain_jwt :=
  @MkAppState plain_jwt sample_parts (RetentionService_new 90 365)
    (@TokenVerifier_build plain_jwt HS256 "k") ["key-1"].

Definition a_moment : Moment := MkMoment 7 9 true.
Definition some_limits : RateLimits :=
  MkRateLimits (MkLimit 5 10) (MkLimit 10 20) (MkLimit 2 5) false false.

Definition revoke_request (headers : Headers) : Request :=
  MkRequest POST ["admin"; "devices"; "3"; "revoke"] "" headers "".

Definition heartbeat_request (headers : Headers) : Request :=
  MkRequest POST ["devices"; "heartbeat"] "" headers "".

#[local] Existing Instances map_redis binary_uuids toy_libm trivial_fmt toy_geohash toy_order
  toy_pgmath toy_scan plain_wire plain_loc_codec stored_order last_first plain_jwt plain_http
  no_assets list_jetstream any_pool.

(** A device at the clock of [toy_clock], and the same with a working backend. *)
#[local] Instance calm : Env := calm_env toy_clock.
#[local] Instance jet : AlertPublisher := JetStreamPublisher.

Lemma operator_key_required_witness :
  ∃ response, serve sample_state a_moment some_limits
      (revoke_request [("x-api-key", "key-2")]) [] device_world = ((response, []), device_world) ∧
    rs_status response = 401.
Proof.
  destruct (operator_key_required sample_state a_moment some_limits
    (revoke_request [("x-api-key", "key-2")]) [] device_world) as (r & Hr & Hs);
    [reflexivity|apply (bool_decide_unpack (_ ∉ _)); vm_compute; exact I|].
  exists r. split; [exact Hr|].
  assert (H401 : rs_status (serve sample_state a_moment some_limits
    (revoke_request [("x-api-key", "key-2")]) [] device_world).1.1 = 401) by reflexivity.
  by rewrite Hr in H401.
Defined.

Lemma device_token_required_witness :
  ∃ response w', serve sample_state a_moment some_limits (heartbeat_request []) [] device_world
      = ((response, []), w') ∧ same_data device_world w'.
Proof.
  destruct (device_token_required sample_state a_moment some_limits (heartbeat_request []) []
    device_world) as [(d & token & Hb & _)|(r & w' & Hr & Hs & _)]; [reflexivity|discriminate Hb|].
  eauto.
Defined.

Definition http_metrics : MetricRegistry := default [] CoordinatorMetrics_new.

Definition revoke_run : (option Response * MetricRegistry) * World :=
  build_router sample_state a_moment some_limits (revoke_request [("x-api-key", "key-1")])
    http_metrics device_world.

Lemma revoke_run_status : rs_status <$> revoke_run.1.1 = Some 204.
Proof. vm_compute. reflexivity. Qed.

Lemma responses_counted_once_witness :
  vec_total "pulsegrid_http_requests_total" "2xx" revoke_run.1.2 = 1.
Proof.
  pose proof revoke_run_status as Hs.
  destruct revoke_run as [[[r|] m'] w'] eqn:Hr; [|discriminate Hs]. injection Hs as Hs.
  destruct (responses_counted_once sample_state a_moment some_limits
    (revoke_request [("x-api-key", "key-1")]) http_metrics device_world (MkCounterVec "status" ∅)
    r m' w' eq_refl Hr) as [H1 _].
  rewrite Hs in H1. exact H1.
Defined.

Lemma request_id_safe_witness :
  ∃ response, (@apply_http_layers map_redis calm text_uuids plain_http a_moment
      (λ _, hret (MkResponse 200 [] BEmpty)) (heartbeat_request [("x-request-id", "has space")]) []
      device_world).1.1 = Some response.
Proof.
  destruct (@request_id_safe map_redis calm text_uuids text_uuids_shape plain_http plain_http_laws
    a_moment (λ _, hret (MkResponse 200 [] BEmpty)) (heartbeat_request [("x-request-id", "has space")])
    [] device_world) as (id & w0 & _ & _ & _ & _ & r & Hr & _).
  exists r. exact Hr.
Defined.

(** Latitude 100 is the caller's mistake. *)
Definition bad_registration : RegisterDeviceRequest := MkRegisterReq (f64_of_Z 100) (f64_of_Z 10).

Lemma bad_registration_refused :
  is_client_error <$> result_err (h_register sample_state bad_registration [] device_world).1.1 = Some true.
Proof. vm_compute. reflexivity. Qed.

Lemma client_errors_change_nothing_witness :
  ∃ e, (h_register sample_state bad_registration [] device_world).1.1 = Err e ∧
    same_data device_world (h_register sample_state bad_registration [] device_world).2.
Proof.
  pose proof bad_registration_refused as He.
  destruct (h_register sample_state bad_registration [] device_world) as [[[r|e] m'] w'] eqn:Hr;
    [discriminate He|]. injection He as He. exists e. split; [reflexivity|].
  apply (proj1 (client_errors_change_nothing sample_state) bad_registration [] device_world e m' w' Hr He).
Defined.

(** One device of two is shown. *)
Definition crowded_world : World :=
  MkWorld 0 ∅
    (MkPg (<[uuid_of_N 7 := MkDeviceRow (uuid_of_N 7) (f64_of_Z 10) (f64_of_Z 10) "u4pr" "u4pr" 5 5]>
            {[uuid_of_N 8 := MkDeviceRow (uuid_of_N 8) (f64_of_Z 10) (f64_of_Z 10) "u4pr" "u4pr" 5 5]}) ∅ ∅)
    [] [].

Definition crowd_query : DevicesQuery :=
  MkDevicesQuery (f64_of_Z 10) (f64_of_Z 10) (f64_of_Z 40000) (Some 1).

Lemma crowd_listed : is_ok (h_devices crowd_query [] crowded_world).1.1 = true.
Proof. vm_compute. reflexivity. Qed.

Lemma listing_bounded_witness :
  ∃ resp, (h_devices crowd_query [] crowded_world).1.1 = Ok resp ∧ 1 ≤ dv_limit resp ≤ 500.
Proof.
  pose proof crowd_listed as Hl.
  destruct (h_devices crowd_query [] crowded_world) as [[[resp|e] m'] w'] eqn:Hr; [|discriminate Hl].
  exists resp. split; [reflexivity|]. apply (listing_bounded crowd_query [] crowded_world resp m' w' Hr).
Defined.

Example crowd_truncated :
  dv_truncated <$> result_ok (h_devices crowd_query [] crowded_world).1.1 = Some true.
Proof. vm_compute. reflexivity. Qed.

(** Without key files; any Redis URL will do. *)
#[local] Instance bare_startup : Startup := {| read_file := λ _, Err "no such file" |}.

Abbreviation started := (coordinator_build_state sample_coordinator_config device_world).
Abbreviation revoked_world := (RevocationStore_revoke dev3 2678400 device_world).2.

Lemma started_ok : is_ok started.1 = true.
Proof. vm_compute. reflexivity. Qed.

Lemma revoked_token_stays_dead_witness :
  ∃ st token, started.1 = Ok st ∧ TokenSigner_issue (dp_signer (st_parts st)) 0 dev3 = Ok token ∧
    (AuthDevice_from_request_parts st [("authorization", token)] revoked_world).1 ≠ Ok dev3.
Proof.
  pose proof started_ok as Hok.
  destruct started as [[st|e] w0'] eqn:Hst; [|discriminate Hok].
  exists st. destruct (build_state_Ok _ _ _ _ Hst) as (Hl & _ & Hrt & _).
  injection Hl as Hs Hv.
  destruct (TokenSigner_issue (dp_signer (st_parts st)) 0 dev3) as [token|] eqn:Ht;
    [|rewrite <- Hs in Ht; discriminate Ht].
  exists token. split; [reflexivity|]. split; [reflexivity|].
  apply (@revoked_token_stays_dead map_redis map_view map_redis_laws calm binary_uuids
    binary_uuids_laws plain_jwt bare_startup any_pool plain_http plain_pair plain_jwt_laws
    sample_coordinator_config device_world st w0' 0 dev3 token device_world revoked_world
    [("authorization", token)] revoked_world dev3 Hst).
  - intros private public p q ek dk [=].
  - by cbn.
  - done.
  - exact Ht.
  - done.
  - rewrite Hrt. reflexivity.
  - by apply foreign_wait.
  - by vm_compute.
  - reflexivity.
Defined.
