(* ===== verification/EndToEnd.v ===== *)
(** * From the operator's request to the device's socket

    The coordinator's handler, the dispatch service, the durable stream, the
    worker's subscriber, its connection registry, the replay task and the writer of
    the connection together. The worker reads the alert from the JSON the coordinator
    wrote, and it is this reading ([reread_alert]) that decides who is inside the
    circle; live connections are sent the coordinator's bytes, a replay those of the
    alert as read. *)

From S2P Require Import Prelude F64 Str Errors Metrics Geo Domain Auth Configs Registry Redis World.
From S2P Require Import Stores Lease Db Nats Routing Worker Replay Fanout Ws Session Delivery.
From S2P Require Import Retention DeviceService.
From S2P Require Import Dispatch Http HttpSpec.

Open Scope Z_scope.

Section EndToEnd.
Context {R : RedisServer} {E : Env} {UC : UuidCodec} {L : Libm} {FF : FloatFmt} {G : Geohash}
  {HO : HashOrder} {P : PgMath} {S : TableScan} {W : Wire} {WL : WireLaws W}
  {MO : MapOrder string Z} {RO : MapOrder Uuid nat} {U : Unordered} {JS : JetStream} {H : HttpLib}.

(** The alert a request describes. *)
Definition requested_alert (payload : DispatchAlertRequest) (id : Uuid) (now : DateTime) : Alert :=
  MkAlert id (MkLocation (da_lat payload) (da_lon payload)) (da_radius_meters payload)
    (da_severity payload) (da_title payload) (da_message payload) now.

Lemma dispatch_handler_Ok elapsed payload m w status res m' w' :
  h_dispatch_alert (AP := JetStreamPublisher) elapsed payload m w = ((Ok (status, res), m'), w') →
  AlertDispatchService_dispatch (AP := JetStreamPublisher) m elapsed (da_lat payload) (da_lon payload)
    (da_radius_meters payload) (da_severity payload) (da_title payload) (da_message payload) w
    = ((Ok res, m'), w') ∧
  status = if DispatchResult_is_partial res then 207 else 200.
Proof.
  unfold h_dispatch_alert. rewrite hbind_ok_run. cbn [hret mret_ fst snd].
  destruct (DispatchAlertRequest_validate payload); [|done]. rewrite hbind_ok_run.
  destruct (AlertDispatchService_dispatch _ _ _ _ _ _ _ _ w) as [[[r|e] m1] w1]; [|done].
  cbn [fst snd]. by intros [= <- <- <- <-].
Qed.

(** What a published shard finds on the stream. *)
Lemma dispatched_message elapsed payload m w status res m' w' sd :
  h_dispatch_alert (AP := JetStreamPublisher) elapsed payload m w = ((Ok (status, res), m'), w') →
  sd ∈ dr_per_shard res →
  let alert := requested_alert payload (env_uuid (w_tick w)) (env_clock (Datatypes.S (w_tick w))) in
  ∃ msg, msg ∈ w_stream w' ∧ sm_subject msg = alert_subject (sd_shard_prefix sd) ∧
    sm_payload msg = alert_json alert ∧ parse_alert (sm_payload msg) = reread_alert alert.
Proof.
  intros [Hd _]%dispatch_handler_Ok Hsd alert.
  apply dispatch_durable in Hd as (alert' & Hloc & Halert & _ & Hst).
  assert (alert' = alert) as -> by (subst alert'; done).
  destruct (Hst sd Hsd) as (msg & ? & ? & Hp). exists msg.
  split_and!; [done..|]. rewrite Hp. by apply parse_alert_json.
Qed.

(** What the worker does with the message for one of its connections. *)
Lemma alert_queued wk d c payload alert us w2 :
  coherent (wk_registry wk) → parse_alert payload = Some alert →
  sp_conns (abs (wk_registry wk)) !! d = Some c → accepts c = true →
  let wk' := (on_alert wk (c_shard c) payload us w2).1 in
  coherent (wk_registry wk') ∧
  (c_queue <$> sp_conns (abs (wk_registry wk')) !! d) =
    Some (c_queue c ++ if Alert_contains alert (c_location c) then [OAlert payload] else []).
Proof.
  intros Hc Hf Hconn Hacc wk'. unfold wk'. rewrite (on_alert_fst (E := E)).
  destruct (on_alert_broadcast wk (c_shard c) payload alert us Hc Hf) as (Hc' & Habs & _). split; [done|].
  rewrite Habs. cbn [spec_op fst sp_conns]. rewrite lookup_fmap, Hconn. cbn [fmap option_fmap option_map].
  unfold on_shard. rewrite bool_decide_eq_true_2 by done. unfold deliver.
  destruct (Alert_contains alert (c_location c)); [|by rewrite app_nil_r].
  unfold try_send. unfold accepts in Hacc. apply andb_prop in Hacc as [Ho Hq].
  apply negb_true_iff in Hq. rewrite Ho. cbn [negb].
  unfold CONNECTION_CHANNEL_CAPACITY. by rewrite Hq.
Qed.

(** An alert goes from the operator to the device's queue. When the coordinator
    answers a dispatch request, then for every shard the answer lists as published
    the stream holds a message on the shard's subject that carries the requested
    alert; and when the worker that holds a device's connection in that shard takes
    this message, the device's queue grows by exactly these bytes if its position
    is inside the circle the worker reads, and is left alone otherwise. *)
Theorem alert_end_to_end elapsed payload m w status res m' w' wk d c sd us w2 read :
  h_dispatch_alert (AP := JetStreamPublisher) elapsed payload m w = ((Ok (status, res), m'), w') →
  reread_alert (requested_alert payload (env_uuid (w_tick w)) (env_clock (Datatypes.S (w_tick w))))
    = Some read →
  sd ∈ dr_per_shard res → coherent (wk_registry wk) →
  sp_conns (abs (wk_registry wk)) !! d = Some c → c_shard c = sd_shard_prefix sd →
  accepts c = true →
  ∃ msg, msg ∈ w_stream w' ∧ sm_subject msg = alert_subject (c_shard c) ∧
    parse_alert (sm_payload msg) = Some read ∧
    let wk' := (on_alert wk (c_shard c) (sm_payload msg) us w2).1 in
    coherent (wk_registry wk') ∧
    (c_queue <$> sp_conns (abs (wk_registry wk')) !! d) =
      Some (c_queue c ++ if Alert_contains read (c_location c) then [OAlert (sm_payload msg)] else []).
Proof.
  intros Hd Hread Hsd Hc Hconn Hshard Hacc.
  destruct (dispatched_message _ _ _ _ _ _ _ _ _ Hd Hsd) as (msg & Hmsg & Hsub & _ & Hparse).
  rewrite Hread in Hparse. exists msg. cbv zeta. rewrite Hshard at 1.
  do 3 (split; [done|]). by apply alert_queued.
Qed.

Context {F : Rfc3339} {JL : JetStreamLaws JS}.

(** C1: An alert goes from the operator to the device's socket. Take an answered
    dispatch and a shard the answer lists as published; the stream holds a message
    on the shard's subject that carries the requested alert. Take a worker after
    any run of its connections in which registry operations do not overlap, and on
    it a connection of the shard that has room in its queue and whose position is
    inside the circle of the alert as the worker reads it from the message. When
    the worker takes the message, then after every further such run in which the
    connection's writer keeps running and has emptied the queue, exactly these
    bytes were sent to the device as a binary frame. *)
Theorem alert_reaches_the_socket elapsed payload m w status res m' w' sd evs1 wk0 w0 n i s d c us w2 read :
  h_dispatch_alert (AP := JetStreamPublisher) elapsed payload m w = ((Ok (status, res), m'), w') →
  let alert := requested_alert payload (env_uuid (w_tick w)) (env_clock (Datatypes.S (w_tick w))) in
  reread_alert alert = Some read → sd ∈ dr_per_shard res →
  run_node evs1 (idle_node wk0 w0) = Some n → nd_sessions n !! i = Some s → ss_phase s ≠ PhOpening →
  by_device (wk_registry (nd_worker n)) !! d = Some (ss_receiver s) →
  heap (wk_registry (nd_worker n)) !! ss_receiver s = Some c →
  c_shard c = sd_shard_prefix sd → accepts c = true → Alert_contains read (c_location c) = true →
  ∃ msg, msg ∈ w_stream w' ∧ sm_subject msg = alert_subject (c_shard c) ∧
    sm_payload msg = alert_json alert ∧ parse_alert (sm_payload msg) = Some read ∧
    let '(wk1, w1) := on_alert (nd_worker n) (c_shard c) (sm_payload msg) us w2 in
    ∀ evs2 n' s' c', Z.of_nat (length (evs1 ++ evs2)) < 2 ^ 64 →
      run_node evs2 (MkNode wk1 w1 (nd_sessions n)) = Some n' → nd_sessions n' !! i = Some s' →
      ss_writer s' = true → heap (wk_registry (nd_worker n')) !! ss_receiver s = Some c' →
      c_queue c' = [] → FBinary (sm_payload msg) ∈ sent_data s'.
Proof.
  intros Hd alert Hread Hsd Hrun1 Hi Hop Hby Hp Hshard Hacc Hin.
  destruct (dispatched_message _ _ _ _ _ _ _ _ _ Hd Hsd) as (msg & Hmsg & Hsub & Hpay & Hf).
  fold alert in Hf, Hpay. rewrite Hread in Hf. exists msg. rewrite Hshard.
  do 4 (split; [done|]). rewrite Hpay in Hf |- *. rewrite <- Hshard.
  destruct (on_alert _ _ _ us w2) as [wk1 w1] eqn:Ho. intros evs2 n' s' c' Hlen Hrun2 Hi' Hw Hp' Hempty.
  rewrite length_app in Hlen.
  destruct (run_node_bound evs1 (idle_node wk0 w0) n (idle_node_wf wk0 w0)) as [Hwf Hid]; [cbn; lia|done|].
  cbn [wk_registry nd_worker idle_node set_registry next_id ConnectionRegistry_new] in Hid.
  pose proof (nw_coherent _ Hwf) as Hc.
  destruct (dev_lookup _ _ _ Hc Hby) as (c0 & Hp0 & Hconn & _). rewrite Hp in Hp0. injection Hp0 as <-.
  destruct (alert_queued _ _ _ _ _ us w2 Hc Hf Hconn Hacc) as [Hc1 Hq]. rewrite Ho, Hin in Hq. cbn [fst] in Hq.
  assert (Hsh : shrinks (wk_registry (nd_worker n)) (wk_registry wk1)).
  { pose proof (on_alert_registry (nd_worker n) (c_shard c) (alert_json alert) us Hc) as Hs.
    by rewrite <- (on_alert_fst _ _ _ _ w2), Ho in Hs. }
  assert (Hq1 : ∃ c1, heap (wk_registry wk1) !! ss_receiver s = Some c1 ∧
    c_queue c1 = c_queue c ++ [OAlert (alert_json alert)]).
  { destruct Hsh as (Hcoh & _ & _ & Hsub1). unfold abs in Hq; cbn [sp_conns] in Hq; rewrite lookup_fmap in Hq.
    destruct (by_device (wk_registry wk1) !! d) as [p1|] eqn:Hby1; [|done].
    pose proof (Hsub1 _ _ Hby1) as He. rewrite Hby in He. injection He as <-.
    destruct (dev_lookup _ _ _ Hcoh Hby1) as (c1 & Hc1h & _). exists c1. split; [done|].
    cbn in Hq. rewrite lookup_total_alt, Hc1h in Hq. by injection Hq. }
  destruct Hq1 as (c1 & Hc1h & Hc1q).
  destruct n as [wkn wn ln]. cbn [nd_worker nd_sessions] in *.
  destruct (run_moves evs2 (MkNode wk1 w1 ln) n' i s s') with (c := c1)
    as (c2 & received & new & Hc2 & Hqueue & _ & Hsent); try done.
  - by eapply node_wf_shrink.
  - destruct Hsh as (_ & Hn & _). cbn [nd_worker]. rewrite Hn. lia.
  - rewrite Hp' in Hc2. injection Hc2 as <-. rewrite Hempty, app_nil_r in Hqueue.
    rewrite Hsent, elem_of_app. right. rewrite <- Hqueue, Hc1q.
    apply list_elem_of_omap. exists (OAlert (alert_json alert)). split; [set_solver|done].
Qed.

(** A published alert is missed by a device that has not acknowledged it. *)
Lemma published_is_missed elapsed payload m w status res m' w' sd stream now since read :
  h_dispatch_alert (AP := JetStreamPublisher) elapsed payload m w = ((Ok (status, res), m'), w') →
  reread_alert (requested_alert payload (env_uuid (w_tick w)) (env_clock (Datatypes.S (w_tick w))))
    = Some read →
  sd ∈ dr_per_shard res → w_stream w' ⊆ stream →
  (∀ msg, msg ∈ w_stream w' → parse_alert (sm_payload msg) = Some read →
     now - sm_stored_at msg ≤ js_max_age) →
  to_micros since < to_micros (al_created_at read) →
  read ∈ missed_alerts now stream (sd_shard_prefix sd) since.
Proof.
  intros Hd Hread Hsd Hsub Hage Hnew.
  destruct (dispatched_message _ _ _ _ _ _ _ _ _ Hd Hsd) as (msg & Hmsg & Hsubj & _ & Hparse).
  rewrite Hread in Hparse. apply list_elem_of_filter. split; [done|].
  apply list_elem_of_omap. exists msg. split; [|done]. apply list_elem_of_filter.
  split; [|by apply Hsub]. split; [done|]. apply js_kept_young. by apply Hage.
Qed.

(** A device that was offline gets the alert when it comes back. Take an
    answered dispatch, a shard it lists as published, and any later moment at
    which the stream still holds what it held then. When a device inside the
    circle connects to a worker of the shard, with a cursor older than the alert,
    and the calls work, the clocks disagree by at most a minute, the fetch ends with
    the whole batch, the connection takes what it is sent and what it missed is
    within the limit of a replay, then the alert is among the messages queued for
    it, and the last of them is the completion message with their number. *)
Theorem missed_alert_is_replayed elapsed payload m w status res m' w' sd wk d location connected_at
    accepts cursor w2 read :
  h_dispatch_alert (AP := JetStreamPublisher) elapsed payload m w = ((Ok (status, res), m'), w') →
  reread_alert (requested_alert payload (env_uuid (w_tick w)) (env_clock (Datatypes.S (w_tick w))))
    = Some read →
  sd ∈ dr_per_shard res →
  w_stream w' ⊆ w_stream w2 →
  (AckCursorStore_get d w2).1 = Ok cursor →
  (∀ i, (1 ≤ i < 4)%nat → env_fault (w_tick w2 + i) = Works) →
  (∀ msg a, msg ∈ w_stream w2 → parse_alert (sm_payload msg) = Some a →
     al_created_at a - seconds 60 ≤ sm_stored_at msg ∧ 0 ≤ sm_stored_at msg) →
  (∀ i, accepts i = true) →
  let now := env_clock (w_tick w2 + 3) in
  let since := replay_since cursor connected_at in
  let missed := filter (λ a, relevant location connected_at a = true)
                  (missed_alerts now (w_stream w2) (sd_shard_prefix sd) since) in
  (∀ msg, msg ∈ w_stream w' → parse_alert (sm_payload msg) = Some read →
     now - sm_stored_at msg ≤ js_max_age) →
  to_micros since < to_micros (al_created_at read) →
  relevant location connected_at read = true →
  whole_batch now (w_stream w2) (alert_subject (sd_shard_prefix sd)) (replay_start since) →
  1 ≤ wc_replay_max_alerts (wk_config wk) →
  Z.of_nat (length missed) ≤ wc_replay_max_alerts (wk_config wk) →
  ∃ queued, (run_replay wk d (sd_shard_prefix sd) location connected_at accepts w2).1.1 =
    queued ++ [OControl (server_message_json (ReplayComplete (Z.of_nat (length queued)))) false] ∧
    OAlert (alert_json read) ∈ queued.
Proof.
  intros Hd Hread Hsd Hsub Hcur Hworks Hskew Hacc now since missed
    Hage Hnew Hrel Hfew Hmax Hfit.
  assert (Hin : read ∈ missed).
  { apply list_elem_of_filter. split; [done|].
    by apply (published_is_missed elapsed payload m w status res m' w' sd (w_stream w2) now since). }
  exists (OAlert ∘ alert_json <$> missed). rewrite (run_replay_sent _ _ _ _ _ _ _ cursor) by done.
  fold now since missed. replace (length missed - _)%nat with 0%nat by lia.
  rewrite drop_0, length_fmap. split; [done|]. by apply (list_elem_of_fmap_2 (OAlert ∘ alert_json)).
Qed.

(** C2: A device that was offline gets the alert when it comes back, up to its
    socket. Take an answered dispatch, a shard it lists as published, and a worker
    after any run of its connections in which registry operations do not overlap,
    on which a device of the shard inside the circle is served and whose replay
    task has read a cursor older than the alert, while the stream still holds what
    the dispatch put there. Let the calls of the query work, the clocks disagree by
    at most a minute, the fetch end with the whole batch (at most five hundred
    messages after the start time, none cut off by the expiry) and what the device
    missed fit the limit of a replay. Then after the query and any further run of
    the worker that ends the task without a ten-second wait for room and in which
    the connection's writer keeps running and empties the queue, the alert, as the
    worker reads it from the stream, was sent to the device as a binary frame. *)
Theorem missed_alert_reaches_the_socket elapsed payload m w status res m' w' sd
    evs1 wk0 w0 n i s p since evs2 n' s' read :
  h_dispatch_alert (AP := JetStreamPublisher) elapsed payload m w = ((Ok (status, res), m'), w') →
  reread_alert (requested_alert payload (env_uuid (w_tick w)) (env_clock (Datatypes.S (w_tick w))))
    = Some read →
  sd ∈ dr_per_shard res →
  run_node evs1 (idle_node wk0 w0) = Some n → nd_sessions n !! i = Some s → ss_phase s = PhServing →
  ss_replay s = Some (p, RStream since) → au_shard_prefix (ss_auth s) = sd_shard_prefix sd →
  w_stream w' ⊆ w_stream (nd_world n) →
  (∀ k, (k < 3)%nat → env_fault (w_tick (nd_world n) + k) = Works) →
  (∀ msg a, msg ∈ w_stream (nd_world n) → parse_alert (sm_payload msg) = Some a →
     al_created_at a - seconds 60 ≤ sm_stored_at msg ∧ 0 ≤ sm_stored_at msg) →
  let now := env_clock (w_tick (nd_world n) + 2) in
  let place := au_location (ss_auth s) in
  let missed := filter (λ a, relevant place (ss_connected_at s) a = true)
                  (missed_alerts now (w_stream (nd_world n)) (sd_shard_prefix sd) since) in
  (∀ msg, msg ∈ w_stream w' → parse_alert (sm_payload msg) = Some read →
     now - sm_stored_at msg ≤ js_max_age) →
  to_micros since < to_micros (al_created_at read) →
  relevant place (ss_connected_at s) read = true →
  whole_batch now (w_stream (nd_world n)) (alert_subject (sd_shard_prefix sd)) (replay_start since) →
  Z.of_nat (length missed) ≤ wc_replay_max_alerts (wk_config (nd_worker n)) →
  Z.of_nat (length (evs1 ++ NSession i AReplay :: evs2)) < 2 ^ 64 →
  run_node (NSession i AReplay :: evs2) n = Some n' → NSession i AReplayTimeout ∉ evs2 →
  nd_sessions n' !! i = Some s' → ss_phase s' = PhServing → ss_writer s' = true → ss_replay s' = None →
  c_queue <$> heap (wk_registry (nd_worker n')) !! ss_receiver s' = Some [] →
  FBinary (alert_json read) ∈ sent_data s'.
Proof.
  intros Hd Hread Hsd Hrun1 Hi Hph Hr Hshard Hsub Hworks Hskew now place missed Hage Hnew Hrel Hfew Hfit
    Hlen Hrun2 Hev Hi' Hph' Hw Hr' Hq.
  assert (Hin : read ∈ missed).
  { apply list_elem_of_filter. split; [done|].
    by apply (published_is_missed elapsed payload m w status res m' w' sd _ now since). }
  rewrite <- Hshard in Hfew. pose proof (replay_fetches _ since _ Hworks Hskew Hfew) as Hans.
  cbn [run_node] in Hrun2. destruct (node_step (NSession i AReplay) n) as [n1|] eqn:Hs; [|done].
  cbn [mbind option_bind] in Hrun2. pose proof (replay_queried n n1 i s p since _ Hi Hr Hans Hs) as Hi1.
  eapply (replayed_payload_is_sent _ (evs1 ++ [NSession i AReplay]) evs2 wk0 w0 n1 n' i _ s'); try done.
  - by rewrite <- (assoc_L app).
  - rewrite run_node_app, Hrun1. cbn [mbind option_bind run_node]. by rewrite Hs.
  - rewrite plan_replay_eq by lia. rewrite Hshard. fold now place missed.
    replace (length missed - _)%nat with 0%nat by lia. rewrite drop_0. by apply list_elem_of_fmap_2.
Qed.
End EndToEnd.

(** ** A concrete run *)

Definition flood : DispatchAlertRequest :=
  MkDispatchReq (f64_of_Z 10) (f64_of_Z 10) (f64_of_Z 40000) Critical "flood" "move".

Abbreviation flood_run := (
  @h_dispatch_alert map_redis (calm_env toy_clock) binary_uuids toy_libm trivial_fmt toy_geohash
    toy_order toy_pgmath plain_wire last_first
    (@JetStreamPublisher map_redis (calm_env toy_clock) list_jetstream) plain_http 7 flood [] toy_world).

Abbreviation flood_alert := (
  requested_alert flood (@env_uuid (calm_env toy_clock) 0) (@env_clock (calm_env toy_clock) 1)).

(** The alert is published to both shards around the border. *)
Lemma flood_published :
  match flood_run.1.1 with
  | Ok (status, res) =>
    bool_decide (status = 200 ∧ (sd_shard_prefix <$> dr_per_shard res) = ["u4pr"; "u4px"])
  | Err _ => false
  end = true.
Proof. vm_compute. reflexivity. Qed.

(** The device of the run is connected in the first of them, with room in its queue. *)
Lemma flood_listener :
  match sp_conns (abs (wk_registry fanout_worker)) !! uuid_of_N 1 with
  | Some c => bool_decide (c_shard c = "u4pr") && accepts c
  | None => false
  end = true.
Proof. vm_compute. reflexivity. Qed.

Lemma alert_end_to_end_witness :
  ∃ c sd msg, sd_shard_prefix sd = "u4pr" ∧
    sp_conns (abs (wk_registry fanout_worker)) !! uuid_of_N 1 = Some c ∧
    msg ∈ w_stream flood_run.2 ∧ sm_subject msg = alert_subject "u4pr".
Proof.
  pose proof flood_published as Hp.
  destruct flood_run as [[[[status res]|e] m'] w'] eqn:Hr; [|discriminate Hp].
  cbn [fst snd] in Hp. apply bool_decide_eq_true_1 in Hp as [_ Hps].
  destruct (dr_per_shard res) as [|sd rest] eqn:Hres; [discriminate Hps|]. injection Hps as Hsd _.
  pose proof flood_listener as Hl.
  destruct (sp_conns (abs (wk_registry fanout_worker)) !! uuid_of_N 1) as [c|] eqn:Hc;
    [|discriminate Hl].
  apply andb_prop in Hl as [Hshard%bool_decide_eq_true_1 Hacc].
  destruct (@alert_end_to_end map_redis (calm_env toy_clock) binary_uuids toy_libm trivial_fmt
    toy_geohash toy_order toy_pgmath plain_wire plain_wire_laws toy_map_order last_first
    list_jetstream plain_http 7 flood [] toy_world status res m' w' fanout_worker (uuid_of_N 1) c sd
    1500 toy_world flood_alert Hr) as (msg & Hin & Hsub & _).
  - reflexivity.
  - rewrite Hres. apply elem_of_cons. by left.
  - exact toy_registry_coherent.
  - exact Hc.
  - congruence.
  - exact Hacc.
  - exists c, sd, msg. split_and!; [exact Hsd|reflexivity|exact Hin|]. by rewrite Hshard in Hsub.
Defined.

(** The same device was offline during the dispatch and connects afterwards. *)
Definition flood_place : Location := MkLocation (f64_of_Z 10) (f64_of_Z 10).

Abbreviation flood_now := (@env_clock (calm_env toy_clock) (w_tick flood_run.2 + 3)).
Abbreviation flood_since := (replay_since None (seconds 100)).

(** What holds of each message of the stream after the dispatch. *)
Definition message_in_time (now : DateTime) (msg : StreamMsg) : bool :=
  match @parse_alert plain_wire (sm_payload msg) with
  | Some a => (al_created_at a - seconds 60 <=? sm_stored_at msg) && (0 <=? sm_stored_at msg)
  | None => true
  end && (now - sm_stored_at msg <=? @js_max_age list_jetstream).

Lemma message_in_time_spec now msg a :
  message_in_time now msg = true → @parse_alert plain_wire (sm_payload msg) = Some a →
  al_created_at a - seconds 60 ≤ sm_stored_at msg ∧ 0 ≤ sm_stored_at msg.
Proof. unfold message_in_time. intros H Hp. rewrite Hp in H. lia. Qed.

(** The fetch for the shard ends with its whole batch. *)
Definition fetched_whole (now : DateTime) (stream : list StreamMsg) (since : DateTime) : bool :=
  bool_decide (@whole_batch list_jetstream now stream (alert_subject "u4pr") (replay_start since)).

Lemma flood_replay_ready :
  forallb (message_in_time flood_now) (w_stream flood_run.2) = true ∧
  match (@AckCursorStore_get map_redis (calm_env toy_clock) binary_uuids hex_rfc3339
           (uuid_of_N 1) flood_run.2).1 with Ok None => true | _ => false end = true ∧
  fetched_whole flood_now (w_stream flood_run.2) flood_since = true ∧
  (Z.of_nat (length (filter (λ a, @relevant toy_libm flood_place (seconds 100) a = true)
     (@missed_alerts plain_wire list_jetstream flood_now (w_stream flood_run.2) "u4pr"
        flood_since))) <=? wc_replay_max_alerts (wk_config sample_worker)) = true.
Proof. split_and!; vm_compute; reflexivity. Qed.

Lemma missed_alert_is_replayed_witness :
  ∃ queued, (@run_replay toy_libm plain_wire map_redis (calm_env toy_clock) binary_uuids hex_rfc3339
      list_jetstream sample_worker (uuid_of_N 1) "u4pr" flood_place (seconds 100) (λ _, true)
      flood_run.2).1.1 =
    queued ++ [OControl (@server_message_json plain_wire
                           (ReplayComplete (Z.of_nat (length queued)))) false] ∧
    OAlert (@alert_json plain_wire flood_alert) ∈ queued.
Proof.
  pose proof flood_replay_ready as (Hmsgs & Hcur & Hfew & Hfit).
  pose proof flood_published as Hp.
  destruct flood_run as [[[[status res]|e] m'] w'] eqn:Hr; [|discriminate Hp].
  cbn [fst snd] in *. apply bool_decide_eq_true_1 in Hp as [_ Hps].
  destruct (dr_per_shard res) as [|sd rest] eqn:Hres; [discriminate Hps|]. injection Hps as Hsd _.
  assert (Hin : ∀ msg, msg ∈ w_stream w' →
    message_in_time (@env_clock (calm_env toy_clock) (w_tick w' + 3)) msg = true)
    by (intros msg Hmsg; eapply forallb_forall; [exact Hmsgs|by apply list_elem_of_In]).
  rewrite <- Hsd in *.
  apply (@missed_alert_is_replayed map_redis (calm_env toy_clock) binary_uuids toy_libm trivial_fmt
    toy_geohash toy_order toy_pgmath plain_wire plain_wire_laws last_first list_jetstream plain_http
    hex_rfc3339 list_jetstream_laws 7 flood [] toy_world status res m' w' sd sample_worker
    (uuid_of_N 1) flood_place (seconds 100) (λ _, true) None w' flood_alert Hr).
  - reflexivity.
  - rewrite Hres. apply elem_of_cons. by left.
  - done.
  - by destruct (AckCursorStore_get _ _).1 as [[?|]|].
  - done.
  - intros msg a Hmsg. apply (message_in_time_spec _ _ _ (Hin msg Hmsg)).
  - done.
  - intros msg Hmsg _. specialize (Hin msg Hmsg). apply andb_prop in Hin as [_ Hage].
    by apply Z.leb_le.
  - vm_compute. reflexivity.
  - vm_compute. reflexivity.
  - rewrite Hsd. exact (bool_decide_eq_true_1 _ Hfew).
  - vm_compute. discriminate.
  - by apply Z.leb_le.
Defined.

(** ** The same device on a worker, up to its socket *)

Abbreviation node_run := (
  @run_node map_redis (calm_env toy_clock) binary_uuids hex_rfc3339 plain_wire toy_libm toy_map_order
    list_jetstream).
Abbreviation flood_warning := (
  requested_alert flood (@env_uuid (calm_env toy_clock) (w_tick toy_world))
    (@env_clock (calm_env toy_clock) (Datatypes.S (w_tick toy_world)))).
Abbreviation flood_bytes := (@alert_json plain_wire flood_warning).

Definition flood_history : list (@Event map_redis) :=
  [NOpen (uuid_of_N 1) (MkAuthorized "u4pr" flood_place); NSession 0 (AHandler true 0)].
Definition flood_start : @Node map_redis := idle_node sample_worker toy_world.

(** The worker takes the message, and the writer of the device has a turn. *)
Abbreviation flood_taken n := (
  @on_alert toy_libm toy_map_order plain_wire map_redis (calm_env toy_clock) binary_uuids
    (@nd_worker map_redis n) "u4pr" flood_bytes 1500 toy_world).
Definition flood_turn : list (@Event map_redis) := [NSession 0 (AWriter (WRecv (Some (OAlert flood_bytes))) true)].

(** The device is served in the shard, inside the circle and with room. *)
Definition flood_served (n : @Node map_redis) : bool :=
  match nd_sessions n !! 0%nat with
  | Some s => is_serving s &&
      bool_decide (by_device (wk_registry (nd_worker n)) !! uuid_of_N 1 = Some (ss_receiver s)) &&
      match heap (wk_registry (nd_worker n)) !! ss_receiver s with
      | Some c => bool_decide (c_shard c = "u4pr") && accepts c &&
          @Alert_contains toy_libm flood_warning (c_location c)
      | None => false
      end
  | None => false
  end.
(** After the turn the writer still runs and its queue is empty. *)
Definition flood_receiver (n : @Node map_redis) : nat :=
  match nd_sessions n !! 0%nat with Some s => ss_receiver s | None => 0%nat end.
Definition flood_caught_up (p : nat) (n : @Node map_redis) : bool :=
  match nd_sessions n !! 0%nat with
  | Some s => ss_writer s &&
      match heap (wk_registry (nd_worker n)) !! p with
      | Some c => bool_decide (c_queue c = [])
      | None => false
      end
  | None => false
  end.

Lemma flood_turns :
  match node_run flood_history flood_start with
  | Some n => flood_served n && 
      match node_run flood_turn (MkNode (flood_taken n).1 (flood_taken n).2 (nd_sessions n)) with
      | Some n' => flood_caught_up (flood_receiver n) n'
      | None => false
      end
  | None => false
  end = true.
Proof. vm_compute. reflexivity. Qed.

Lemma flood_served_true n : flood_served n = true →
  ∃ s c, nd_sessions n !! 0%nat = Some s ∧ ss_phase s = PhServing ∧
    by_device (wk_registry (nd_worker n)) !! uuid_of_N 1 = Some (ss_receiver s) ∧
    heap (wk_registry (nd_worker n)) !! ss_receiver s = Some c ∧
    c_shard c = "u4pr" ∧ accepts c = true ∧ @Alert_contains toy_libm flood_warning (c_location c) = true.
Proof.
  unfold flood_served. destruct (nd_sessions n !! 0%nat) as [s|]; [|done].
  intros [[Hs%is_serving_true Hb%bool_decide_eq_true_1]%andb_prop Hc]%andb_prop.
  destruct (heap _ !! _) as [c|] eqn:Hh; [|done].
  apply andb_prop in Hc as [[Hsh%bool_decide_eq_true_1 Ha]%andb_prop Hin].
  exists s, c. exact (conj eq_refl (conj Hs (conj Hb (conj Hh (conj Hsh (conj Ha Hin)))))).
Qed.

Lemma flood_caught_up_true p n : flood_caught_up p n = true →
  ∃ s c, nd_sessions n !! 0%nat = Some s ∧ ss_writer s = true ∧
    heap (wk_registry (nd_worker n)) !! p = Some c ∧ c_queue c = [].
Proof.
  unfold flood_caught_up. destruct (nd_sessions n !! 0%nat) as [s|]; [|done].
  intros [Hs Hc]%andb_prop. destruct (heap _ !! _) as [c|] eqn:Hh; [|done].
  apply bool_decide_eq_true_1 in Hc. exists s, c. exact (conj eq_refl (conj Hs (conj eq_refl Hc))).
Qed.

Lemma flood_runs : ∃ n n', node_run flood_history flood_start = Some n ∧ flood_served n = true ∧
  node_run flood_turn (MkNode (flood_taken n).1 (flood_taken n).2 (nd_sessions n)) = Some n' ∧
  flood_caught_up (flood_receiver n) n' = true.
Proof.
  destruct (run_result (node_run flood_history flood_start) (λ n, flood_served n &&
      match node_run flood_turn (MkNode (flood_taken n).1 (flood_taken n).2 (nd_sessions n)) with
      | Some n' => flood_caught_up (flood_receiver n) n'
      | None => false
      end)) as (n & H1 & [Hs H2]%andb_prop); [exact flood_turns|].
  apply run_result in H2 as (n' & H2 & Hc). exists n, n'. exact (conj H1 (conj Hs (conj H2 Hc))).
Qed.

Lemma alert_reaches_the_socket_witness :
  ∃ n n' s', node_run flood_history flood_start = Some n ∧
    node_run flood_turn (MkNode (flood_taken n).1 (flood_taken n).2 (nd_sessions n)) = Some n' ∧
    nd_sessions n' !! 0%nat = Some s' ∧ FBinary flood_bytes ∈ sent_data s'.
Proof.
  destruct flood_runs as (n & n' & H1 & Hs & H2 & Hc).
  apply flood_served_true in Hs as (s & c & Hi & Hph & Hby & Hh & Hsh & Ha & Hin).
  apply flood_caught_up_true in Hc as (s' & c' & Hi' & Hw & Hh' & Hq).
  unfold flood_receiver in Hh'. rewrite Hi in Hh'.
  pose proof flood_published as Hp.
  destruct flood_run as [[[[status res]|e] m'] w'] eqn:Hr; [|discriminate Hp].
  cbn [fst snd] in Hp. apply bool_decide_eq_true_1 in Hp as [_ Hps].
  destruct (dr_per_shard res) as [|sd rest] eqn:Hres; [discriminate Hps|]. injection Hps as Hsd _.
  destruct (@alert_reaches_the_socket map_redis (calm_env toy_clock) binary_uuids toy_libm trivial_fmt
    toy_geohash toy_order toy_pgmath plain_wire plain_wire_laws toy_map_order last_first
    list_jetstream plain_http hex_rfc3339 list_jetstream_laws 7 flood [] toy_world status res m' w' sd
    flood_history sample_worker toy_world n 0%nat s (uuid_of_N 1) c 1500 toy_world flood_warning Hr)
    as (msg & _ & _ & Hpay & _ & Hend).
  - reflexivity.
  - rewrite Hres. apply elem_of_cons. by left.
  - exact H1.
  - exact Hi.
  - rewrite Hph. discriminate.
  - exact Hby.
  - exact Hh.
  - congruence.
  - exact Ha.
  - exact Hin.
  - exists n, n', s'. split; [exact H1|]. split; [exact H2|]. split; [exact Hi'|].
    rewrite Hsh, Hpay in Hend.
    destruct (on_alert _ _ _ _ _) as [wk1 w1].
    exact (Hend flood_turn n' s' c' eq_refl H2 Hi' Hw Hh' Hq).
Defined.

(** ** The returning device on a worker, up to its socket *)

(** A worker after the dispatch: the device opens a connection, its handler starts
    the tasks and the replay task reads the cursor. *)
Definition return_history : list (@Event map_redis) := flood_history ++ [NSession 0 AReplay].
Abbreviation return_start := (idle_node sample_worker flood_run.2).
(** After the query the task queues the alert and the completion message, which
    the writer sends. *)
Definition return_turns : list (@Event map_redis) :=
  [NSession 0 AReplay; NSession 0 (AWriter (WRecv (Some (OAlert flood_bytes))) true);
   NSession 0 AReplay;
   NSession 0 (AWriter (WRecv (Some (OControl (@server_message_json plain_wire (ReplayComplete 1)) false))) true)].

Definition returned (stream : list StreamMsg) (n : @Node map_redis) : bool :=
  match nd_sessions n !! 0%nat with
  | Some s =>
    match ss_replay s with
    | Some (p, RStream since) =>
      let now := @env_clock (calm_env toy_clock) (w_tick (nd_world n) + 2) in
      let place := au_location (ss_auth s) in
      is_serving s && (au_shard_prefix (ss_auth s) =? "u4pr")%string &&
      forallb (message_in_time now) stream && bool_decide (w_stream (nd_world n) = stream) &&
      (to_micros since <? to_micros (al_created_at flood_warning)) &&
      @relevant toy_libm place (ss_connected_at s) flood_warning &&
      fetched_whole now stream since &&
      (Z.of_nat (length (filter (λ a, @relevant toy_libm place (ss_connected_at s) a = true)
        (@missed_alerts plain_wire list_jetstream now stream "u4pr" since))) <=? wc_replay_max_alerts (wk_config (nd_worker n)))
    | _ => false
    end
  | None => false
  end.

Definition caught_up (n : @Node map_redis) : bool :=
  match nd_sessions n !! 0%nat with
  | Some s => is_serving s && ss_writer s && bool_decide (fst <$> ss_replay s = None) &&
      bool_decide (c_queue <$> heap (wk_registry (nd_worker n)) !! ss_receiver s = Some [])
  | None => false
  end.

Lemma returned_true stream n : returned stream n = true →
  let now := @env_clock (calm_env toy_clock) (w_tick (nd_world n) + 2) in
  ∃ s p since, nd_sessions n !! 0%nat = Some s ∧ ss_replay s = Some (p, RStream since) ∧
    ss_phase s = PhServing ∧ au_shard_prefix (ss_auth s) = "u4pr" ∧
    (∀ msg, msg ∈ stream → message_in_time now msg = true) ∧ w_stream (nd_world n) = stream ∧
    to_micros since < to_micros (al_created_at flood_warning) ∧
    @relevant toy_libm (au_location (ss_auth s)) (ss_connected_at s) flood_warning = true ∧
    @whole_batch list_jetstream now stream (alert_subject "u4pr") (replay_start since) ∧
    Z.of_nat (length (filter (λ a, @relevant toy_libm (au_location (ss_auth s)) (ss_connected_at s) a = true)
        (@missed_alerts plain_wire list_jetstream now stream "u4pr" since)))
      ≤ wc_replay_max_alerts (wk_config (nd_worker n)).
Proof.
  unfold returned. destruct (nd_sessions n !! 0%nat) as [s|]; [|done].
  destruct (ss_replay s) as [[p [|since|]]|] eqn:Hr; try done. cbv zeta.
  intros [[[[[[[Hs%is_serving_true Hsh%String.eqb_eq]%andb_prop Hm]%andb_prop Hst%bool_decide_eq_true_1]%andb_prop
    Hn%Z.ltb_lt]%andb_prop Hrel]%andb_prop Hfew%bool_decide_eq_true_1]%andb_prop Hfit%Z.leb_le]%andb_prop.
  assert (Hin : ∀ msg, msg ∈ stream →
    message_in_time (@env_clock (calm_env toy_clock) (w_tick (nd_world n) + 2)) msg = true)
    by (intros msg Hmsg; eapply forallb_forall; [exact Hm|by apply list_elem_of_In]).
  exists s, p, since. exact (conj eq_refl (conj Hr (conj Hs (conj Hsh (conj Hin (conj Hst (conj Hn (conj Hrel
    (conj Hfew Hfit))))))))).
Qed.

Lemma caught_up_true n : caught_up n = true → ∃ s, nd_sessions n !! 0%nat = Some s ∧
  ss_phase s = PhServing ∧ ss_writer s = true ∧ ss_replay s = None ∧
  c_queue <$> heap (wk_registry (nd_worker n)) !! ss_receiver s = Some [].
Proof.
  unfold caught_up. destruct (nd_sessions n !! 0%nat) as [s|]; [|done].
  intros [[[Hs%is_serving_true Hw]%andb_prop Hr%bool_decide_eq_true_1]%andb_prop Hq%bool_decide_eq_true_1]%andb_prop.
  exists s. destruct (ss_replay s); [done|]. exact (conj eq_refl (conj Hs (conj Hw (conj eq_refl Hq)))).
Qed.

Lemma return_runs : ∃ n n', node_run return_history return_start = Some n ∧
  returned (w_stream flood_run.2) n = true ∧
  node_run (NSession 0 AReplay :: return_turns) n = Some n' ∧ caught_up n' = true.
Proof.
  destruct (run_result (node_run return_history return_start) (λ n, returned (w_stream flood_run.2) n &&
      match node_run (NSession 0 AReplay :: return_turns) n with
      | Some n' => caught_up n'
      | None => false
      end)) as (n & H1 & [Hs H2]%andb_prop); [vm_compute; reflexivity|].
  apply run_result in H2 as (n' & H2 & Hc). exists n, n'. exact (conj H1 (conj Hs (conj H2 Hc))).
Qed.

Lemma missed_alert_reaches_the_socket_witness :
  ∃ n n' s', node_run return_history return_start = Some n ∧
    node_run (NSession 0 AReplay :: return_turns) n = Some n' ∧
    nd_sessions n' !! 0%nat = Some s' ∧ FBinary flood_bytes ∈ sent_data s'.
Proof.
  destruct return_runs as (n & n' & H1 & Hs & H2 & Hc).
  apply returned_true in Hs as (s & p & since & Hi & Hrep & Hph & Hsh & Hm & Hst & Hn & Hrel & Hfew & Hfit).
  apply caught_up_true in Hc as (s' & Hi' & Hph' & Hw & Hrep' & Hq).
  exists n, n', s'. split; [exact H1|]. split; [exact H2|]. split; [exact Hi'|].
  pose proof flood_published as Hp.
  destruct flood_run as [[[[status res]|e] m'] w'] eqn:Hr; [|discriminate Hp].
  cbn [fst snd] in *. apply bool_decide_eq_true_1 in Hp as [_ Hps].
  destruct (dr_per_shard res) as [|sd rest] eqn:Hres; [discriminate Hps|]. injection Hps as Hsd _.
  rewrite <- Hsd in *. rewrite <- Hst in *.
  apply (@missed_alert_reaches_the_socket map_redis (calm_env toy_clock) binary_uuids toy_libm trivial_fmt
    toy_geohash toy_order toy_pgmath plain_wire plain_wire_laws toy_map_order last_first
    list_jetstream plain_http hex_rfc3339 list_jetstream_laws 7 flood [] toy_world status res m' w' sd
    return_history sample_worker w' n 0%nat s p since return_turns n' s' flood_warning Hr).
  - reflexivity.
  - rewrite Hres. apply elem_of_cons. by left.
  - exact H1.
  - exact Hi.
  - exact Hph.
  - exact Hrep.
  - exact Hsh.
  - rewrite Hst. reflexivity.
  - intros k _. reflexivity.
  - intros msg a Hmsg. exact (message_in_time_spec _ _ _ (Hm msg Hmsg)).
  - intros msg Hmsg _. rewrite <- Hst in Hmsg. specialize (Hm msg Hmsg). apply andb_prop in Hm as [_ Hage].
    by apply Z.leb_le.
  - exact Hn.
  - exact Hrel.
  - exact Hfew.
  - exact Hfit.
  - reflexivity.
  - exact H2.
  - unfold return_turns. rewrite !elem_of_cons. 
    intros [Hf|[Hf|[Hf|[Hf|Hf]]]]; [discriminate Hf..|by apply not_elem_of_nil in Hf].
  - exact Hi'.
  - exact Hph'.
  - exact Hw.
  - exact Hrep'.
  - exact Hq.
Defined.
