(* ===== verification/Loadgen.v ===== *)
(** * The load generator

    crates/loadgen/src/main.rs: it registers and connects devices, posts alerts,
    and reports how many deliveries were expected, arrived and arrived twice.

    The answers of the servers, the frames on the sockets and the clock readings
    are inputs; so is the order in which concurrent set-ups complete. Instants
    are nanoseconds. An error is the text [anyhow] prints for its chain. Of the
    two histograms the model keeps what was recorded; the quantiles are those of
    the hdrhistogram crate. Printing is not modelled. *)

From stdpp Require Import pretty.
From S2P Require Import Prelude F64 Str Geo Domain World Fanout.

Open Scope Z_scope.

(** ** Arguments *)

Record Args : Type := MkArgs {
  ag_coordinator : string; ag_operator_key : option string; ag_devices : Z; ag_alerts : Z;
  ag_warmup_alerts : Z; ag_interval_ms : Z; ag_lat : f64; ag_lon : f64; ag_spread_meters : f64;
  ag_radius_meters : f64; ag_setup_concurrency : Z; ag_drain_secs : Z; ag_replay_wait_secs : Z;
  ag_keep_devices : bool; ag_json : bool;
}.

(** The two checks at the start of [main]; the numbers in the second message are
    left out. *)
Definition check_args (args : Args) : result unit string :=
  if (ag_devices args =? 0) || (ag_alerts args =? 0)
  then Err "--devices and --alerts must be at least 1"
  else if ag_radius_meters args ×. f64_lit 9 10 <. ag_spread_meters args
  then Err "--spread-meters must be at most 90% of --radius-meters"
  else Ok ().

(** ** The operator key *)

Fixpoint trim_start_matches (c : Ascii.ascii) (s : string) : string :=
  match s with
  | String a rest => if Ascii.eqb a c then trim_start_matches c rest else s
  | EmptyString => s
  end.

Definition quote : Ascii.ascii := Ascii.ascii_of_N 34.
Definition trim_quotes (s : string) : string := trim_end_matches quote (trim_start_matches quote s).

Definition first_key (value : string) : option string :=
  k ← (λ k, trim_quotes (trim k)) <$> head (split_on "," value);
  if str_is_empty k then None else Some k.

(** [str::lines]: the empty piece after a final line break is no line. A carriage
    return at the end of a line is dropped by the [trim] that follows. *)
Definition str_lines (text : string) : list string :=
  let pieces := split_on (Ascii.ascii_of_N 10) text in
  if bool_decide (last pieces = Some "") then removelast pieces else pieces.

Definition key_of_line (line : string) : option string :=
  strip_prefix "OPERATOR_API_KEYS=" (trim line) ≫= first_key.

(** The argument, the environment variable and the text of ./.env. *)
Definition find_operator_key (arg env dotenv : option string) : result string string :=
  match arg with
  | Some key => Ok key
  | None =>
    match env ≫= first_key with
    | Some key => Ok key
    | None =>
      match head (omap key_of_line (str_lines (default "" dotenv))) with
      | Some key => Ok key
      | None => Err "no operator key: pass --operator-key or set OPERATOR_API_KEYS (env or ./.env)"
      end
    end
  end.

(** ** Positions *)

Definition f64_tau : f64 := f64_of_Z 2 ×. f64_pi.

(** [u] and [v] are the two random numbers in [0, 1). *)
Definition scatter {L : Libm} (u v lat lon spread_m : f64) : f64 * f64 :=
  let r := spread_m ×. f64_sqrt u in
  let theta := v ×. f64_tau in
  let dlat := r ×. f64_cos theta /. f64_of_Z 111320 in
  let dlon := r ×. f64_sin theta /. (f64_of_Z 111320 ×. f64_cos (to_radians lat)) in
  (lat +. dlat, lon +. dlon).

(** ** What the servers answer *)

(** A JSON object, as far as the code reads it: its string fields. *)
Definition Fields : Type := string → option string.

Record Reply : Type := MkReply {
  re_status : Z; re_text : option string; re_json : result Fields string;
}.

(** The body of a posted alert. *)
Record AlertBody : Type := MkBody {
  bo_lat : f64; bo_lon : f64; bo_radius_meters : f64; bo_severity : string; bo_title : string;
  bo_message : string;
}.

Definition alert_body (args : Args) (n : nat) : AlertBody :=
  MkBody (ag_lat args) (ag_lon args) (ag_radius_meters args) "warning"
    ("loadgen " +:+ pretty (n + 1)%nat) "load generator".

(** The client libraries: each request is answered or fails with a text;
    [status_error] and [uuid_error] are the texts of their errors. *)
Class Servers : Type := {
  sv_register : nat → f64 * f64 → result Reply string;
  sv_ticket : string → result Reply string;
  sv_ws_connect : string → result unit string;
  sv_alert : string → AlertBody → result Reply string;
  sv_delete : string → result Z string;
  status_error : Z → string;
  uuid_error : string → string;
  (** [serde_json::from_slice] and the string under a field *)
  json_str : string → string → option string;
}.

(** [.context(c)] on a result and on an option. *)
Definition context {A} (c : string) (r : result A string) : result A string :=
  map_err (λ e, c +:+ ": " +:+ e) r.
Definition or_context {A} (c : string) (o : option A) : result A string :=
  match o with Some a => Ok a | None => Err c end.

(** ** Connecting a device *)

(** The task is named by the number of its device. *)
Record Connected : Type := MkConnected { cn_token : string; cn_ws_url : string; cn_task : nat }.

Record Arrival : Type := MkArrival { ar_alert_id : Uuid; ar_device : nat; ar_at : Z }.
Record Sent : Type := MkSent { se_t0 : Z; se_measured : bool }.
Record Posted : Type := MkPosted { po_alert_id : Uuid; po_t0 : Z; po_took : Z }.

Inductive Frame : Type :=
| FBinary (bytes : string)
| FText (text : string)
| FClose
| FError
| FOther.

Section Devices.
Context {SV : Servers} {UC : UuidCodec}.

Definition error_for_status (r : Reply) : result Reply string :=
  if (400 <=? re_status r) && (re_status r <? 600) then Err (status_error (re_status r)) else Ok r.

Definition parse_uuid (s : string) : result Uuid string :=
  match uuid_parse_str s with Some u => Ok u | None => Err (uuid_error s) end.

Definition connect_device (idx : nat) (point : f64 * f64) : result Connected string :=
  let? r1 := context "POST /devices/register" (sv_register idx point) in
  let? r1 := context "register was refused" (error_for_status r1) in
  let? registered := context "register response" (re_json r1) in
  let? id := or_context "register response has no device_id" (registered "device_id") in
  let? device_id := context "device_id is not a uuid" (parse_uuid id) in
  let? token := or_context "register response has no token" (registered "token") in
  let? r2 := context "POST /devices/ws-ticket" (sv_ticket token) in
  let? r2 := context "ws-ticket was refused" (error_for_status r2) in
  let? ticket := context "ws-ticket response" (re_json r2) in
  let? url := or_context "no worker owns this device's shard" (ticket "ws_url") in
  let ws_url := trim_end_matches "/" url in
  let? ticket_value := or_context "ws-ticket response has no ticket" (ticket "ticket") in
  let? _ := context "websocket connect" (sv_ws_connect
    (ws_url +:+ "/connect/" +:+ uuid_to_string device_id +:+ "?ticket=" +:+ ticket_value)) in
  Ok (MkConnected token ws_url idx).

Definition alert_id_of (payload : string) : option Uuid := json_str payload "id" ≫= uuid_parse_str.

Definition is_replay_complete (text : string) : bool :=
  bool_decide (json_str text "type" = Some "replay_complete").

(** The task of a device: the arrivals it sends and its ready signals, up to the
    frame that ends the socket. A frame comes with the instant it is decoded. *)
Fixpoint read_frames (idx : nat) (frames : list (Z * Frame)) : list Arrival * nat :=
  match frames with
  | [] => ([], 0%nat)
  | (at_, frame) :: rest =>
    match frame with
    | FBinary bytes =>
      let '(arrivals, ready) := read_frames idx rest in
      (match alert_id_of bytes with
       | Some alert_id => MkArrival alert_id idx at_ :: arrivals
       | None => arrivals
       end, ready)
    | FText text =>
      let '(arrivals, ready) := read_frames idx rest in
      (arrivals, if is_replay_complete text then S ready else ready)
    | FClose | FError => ([], 0%nat)
    | FOther => read_frames idx rest
    end
  end.

(** A request sent at [t0] and answered at [t1]. *)
Definition post_alert (key : string) (body : AlertBody) (t0 t1 : Z) : result Posted string :=
  let? response := context "POST /alerts" (sv_alert key body) in
  if negb ((200 <=? re_status response) && (re_status response <? 300))
  then Err ("POST /alerts returned " +:+ status_error (re_status response) +:+ ": " +:+
            default "" (re_text response))
  else
    let? value := context "alert response" (re_json response) in
    let? id := or_context "alert response has no alert_id" (value "alert_id") in
    let? alert_id := context "alert_id is not a uuid" (parse_uuid id) in
    Ok (MkPosted alert_id t0 (t1 - t0)).

(** How many of the devices were deleted; a failed request counts as not. *)
Definition delete_devices (tokens : list string) : nat :=
  length (filter (λ token, match sv_delete token with
                           | Ok status => (200 <=? status) && (status <? 300)
                           | Err _ => false
                           end = true) tokens).
End Devices.

(** ** The phases of a run *)

(** The errors shown: the first three different ones. *)
Definition add_sample (message : string) (samples : list string) : list string :=
  if (length samples <? 3)%nat && negb (bool_decide (message ∈ samples))
  then samples ++ [message] else samples.

Record Setup : Type := MkSetup {
  su_connected : list Connected; su_failed_devices : nat; su_error_samples : list string;
}.

Definition triage_one (s : Setup) (r : result Connected string) : Setup :=
  match r with
  | Ok c => MkSetup (su_connected s ++ [c]) (su_failed_devices s) (su_error_samples s)
  | Err message => MkSetup (su_connected s) (S (su_failed_devices s))
                     (add_sample message (su_error_samples s))
  end.

Definition triage (results : list (result Connected string)) : Setup :=
  foldl triage_one (MkSetup [] 0 []) results.

(** The devices in the order their set-up completed. *)
Definition setup_devices {SV : Servers} {UC : UuidCodec} (point : nat → f64 * f64)
    (order : list nat) : list (result Connected string) :=
  (λ idx, connect_device idx (point idx)) <$> order.

Definition per_worker (connected : list Connected) : gmap string nat :=
  foldl (λ m c, <[cn_ws_url c := S (default 0%nat (m !! cn_ws_url c))]> m) ∅ connected.

(** What the [select!] of the waiting loop gets. *)
Inductive Wait : Type := WReady | WClosed | WDeadline.

Fixpoint wait_replay (connected_count replay_done : nat) (events : list Wait) : nat :=
  if (connected_count <=? replay_done)%nat then replay_done else
  match events with
  | WReady :: rest => wait_replay connected_count (S replay_done) rest
  | _ => replay_done
  end.

(** *** Sending *)

Record Sending : Type := MkSending {
  sg_sent : gmap Uuid Sent; sg_post_hist : list Z; sg_failed_alerts : nat; sg_alert_errors : list string;
}.

Definition HIGHEST_TRACKABLE : Z := 120000000.

(** [saturating_record] of a duration in microseconds, clipped to the bounds. *)
Definition record (d : Z) (hist : list Z) : list Z :=
  hist ++ [Z.min (as_micros d) HIGHEST_TRACKABLE].

Definition send_one (warmup : nat) (n : nat) (outcome : result Posted string) (s : Sending)
    : Sending :=
  let measured := (warmup <=? n)%nat in
  match outcome with
  | Ok posted =>
    MkSending (<[po_alert_id posted := MkSent (po_t0 posted) measured]> (sg_sent s))
      (if measured then record (po_took posted) (sg_post_hist s) else sg_post_hist s)
      (sg_failed_alerts s) (sg_alert_errors s)
  | Err message =>
    MkSending (sg_sent s) (sg_post_hist s) (S (sg_failed_alerts s))
      (add_sample message (sg_alert_errors s))
  end.

(** [for n in 0..total]. *)
Fixpoint send_alerts (warmup : nat) (post : nat → result Posted string) (n total : nat)
    (s : Sending) : Sending :=
  match total with
  | O => s
  | S total => send_alerts warmup post (S n) total (send_one warmup n (post n) s)
  end.

Definition sending_start : Sending := MkSending ∅ [] 0 [].

(** *** Counting *)

Record Tally : Type := MkTally {
  ta_latency : list Z; ta_seen : gset (Uuid * nat); ta_duplicates : nat; ta_last_arrival : option Z;
}.

Definition tally_one (sent : gmap Uuid Sent) (t : Tally) (a : Arrival) : Tally :=
  match sent !! ar_alert_id a with
  | None => t
  | Some alert =>
    if negb (se_measured alert) then t
    else if decide ((ar_alert_id a, ar_device a) ∈ ta_seen t)
    then MkTally (ta_latency t) (ta_seen t) (S (ta_duplicates t)) (ta_last_arrival t)
    else MkTally (record (saturating_sub (ar_at a) (se_t0 alert)) (ta_latency t))
           ({[(ar_alert_id a, ar_device a)]} ∪ ta_seen t) (ta_duplicates t)
           (Some (match ta_last_arrival t with Some l => Z.max l (ar_at a) | None => ar_at a end))
  end.

Definition tally (sent : gmap Uuid Sent) (arrivals : list Arrival) : Tally :=
  foldl (tally_one sent) (MkTally [] ∅ 0 None) arrivals.

Definition measured_sent (sent : gmap Uuid Sent) : nat :=
  size (filter (λ kv : Uuid * Sent, se_measured kv.2 = true) sent).

Definition expected (sent : gmap Uuid Sent) (connected_count : nat) : nat :=
  measured_sent sent * connected_count.

Definition unique (t : Tally) : nat := size (ta_seen t).

Definition ratio (unique expected : nat) : f64 :=
  if (0 <? expected)%nat then f64_of_Z (Z.of_nat unique) /. f64_of_Z (Z.of_nat expected) else f64_zero.

(** The earliest of the measured requests. *)
Definition first_t0 (sent : gmap Uuid Sent) : option Z :=
  map_fold (λ _ s o, if se_measured s
                     then Some (match o with Some t => Z.min t (se_t0 s) | None => se_t0 s end)
                     else o) None sent.

Definition window_secs (sent : gmap Uuid Sent) (t : Tally) : f64 :=
  match first_t0 sent, ta_last_arrival t with
  | Some first, Some last => as_secs_f64 (saturating_sub last first)
  | _, _ => f64_zero
  end.

Definition per_second (unique : nat) (window : f64) : f64 :=
  if f64_zero <. window then f64_of_Z (Z.of_nat unique) /. window else f64_zero.

(** *** The summary of a histogram *)

Class Quantiles : Type := {
  value_at_quantile : f64 → list Z → Z; hist_max : list Z → Z; hist_mean : list Z → f64;
}.

Record Summary : Type := MkSummary {
  sm_p50 : f64; sm_p90 : f64; sm_p99 : f64; sm_p99_9 : f64; sm_max : f64; sm_mean : f64;
  sm_samples : Z;
}.

Definition summarize_hist {Q : Quantiles} (hist : list Z) : Summary :=
  let ms := λ us, f64_of_Z us /. f64_of_Z 1000 in
  MkSummary (ms (value_at_quantile (f64_lit 50 100) hist)) (ms (value_at_quantile (f64_lit 90 100) hist))
    (ms (value_at_quantile (f64_lit 99 100) hist)) (ms (value_at_quantile (f64_lit 999 1000) hist))
    (ms (hist_max hist)) (hist_mean hist /. f64_of_Z 1000) (Z.of_nat (length hist)).

(** *** The report *)

Record Report : Type := MkReport {
  rt_devices_requested : Z; rt_devices_connected : nat; rt_devices_failed : nat;
  rt_devices_per_worker : gmap string nat; rt_alerts_measured : nat; rt_alerts_failed : nat;
  rt_warmup_alerts : Z; rt_interval_ms : Z; rt_expected : nat; rt_unique : nat;
  rt_duplicates : nat; rt_ratio : f64; rt_window_secs : f64; rt_per_second : f64;
  rt_delivery : Summary; rt_post : Summary;
}.

(** The end of [main]: the report is printed also when the run failed. *)
Definition report {Q : Quantiles} (args : Args) (su : Setup) (sg : Sending) (arrivals : list Arrival)
    : Report * result unit string :=
  let t := tally (sg_sent sg) arrivals in
  let connected_count := length (su_connected su) in
  let exp := expected (sg_sent sg) connected_count in
  let window := window_secs (sg_sent sg) t in
  (MkReport (ag_devices args) connected_count (su_failed_devices su) (per_worker (su_connected su))
     (measured_sent (sg_sent sg)) (sg_failed_alerts sg) (ag_warmup_alerts args) (ag_interval_ms args)
     exp (unique t) (ta_duplicates t) (ratio (unique t) exp) window (per_second (unique t) window)
     (summarize_hist (ta_latency t)) (summarize_hist (sg_post_hist sg)),
   if (unique t =? 0)%nat then Err "no measured delivery arrived" else Ok ()).

(** *** The whole run *)

(** Everything the run gets from outside besides the servers' answers: the
    environment, the positions, the completion order of the set-ups, the events
    of the waiting loop, the clock around each post, the frames on the sockets,
    and the order in which the arrivals come out of their channel. *)
Record Inputs : Type := MkInputs {
  in_env : option string; in_dotenv : option string; in_random : nat → f64 * f64;
  in_order : list nat; in_waits : list Wait; in_times : nat → Z * Z;
  in_frames : nat → list (Z * Frame); in_drain : list Arrival → list Arrival;
}.

Section Main.
Context {L : Libm} {SV : Servers} {UC : UuidCodec} {Q : Quantiles}.

Definition run_setup (args : Args) (inp : Inputs) : Setup :=
  triage (setup_devices (λ idx, let '(u, v) := in_random inp idx in
    scatter u v (ag_lat args) (ag_lon args) (ag_spread_meters args)) (in_order inp)).

Definition run_sending (args : Args) (inp : Inputs) (key : string) : Sending :=
  send_alerts (Z.to_nat (ag_warmup_alerts args))
    (λ n, let '(t0, t1) := in_times inp n in post_alert key (alert_body args n) t0 t1) 0
    (Z.to_nat (ag_warmup_alerts args + ag_alerts args)) sending_start.

(** What the reader tasks of the connected devices sent together. *)
Definition all_arrivals (frames : nat → list (Z * Frame)) (connected : list Connected) : list Arrival :=
  connected ≫= λ c, (read_frames (cn_task c) (frames (cn_task c))).1.

Record Printed : Type := MkPrinted {
  pr_report : Report; pr_replay_done : nat; pr_deleted : option nat;
}.

(** What was printed, and how the process ends. *)
Definition loadgen_main (args : Args) (inp : Inputs) : option Printed * result unit string :=
  match check_args args with
  | Err e => (None, Err e)
  | Ok _ =>
    match find_operator_key (ag_operator_key args) (in_env inp) (in_dotenv inp) with
    | Err e => (None, Err e)
    | Ok key =>
      let su := run_setup args inp in
      let connected_count := length (su_connected su) in
      if (connected_count =? 0)%nat
      then (None, Err "no device could connect; is RATE_LIMIT_DISABLED=true set, and is a worker running?")
      else
        let replay_done := wait_replay connected_count 0 (in_waits inp) in
        let sg := run_sending args inp key in
        let arrivals := in_drain inp (all_arrivals (in_frames inp) (su_connected su)) in
        let deleted := if ag_keep_devices args then None
                       else Some (delete_devices (cn_token <$> su_connected su)) in
        let '(r, outcome) := report args su sg arrivals in
        (Some (MkPrinted r replay_done deleted), outcome)
    end
  end.
End Main.

(** ** Theorems *)

(** The arrivals that count: those of measured alerts, with their device. *)
Definition is_measured (sent : gmap Uuid Sent) (a : Arrival) : bool :=
  match sent !! ar_alert_id a with Some s => se_measured s | None => false end.

Definition deliveries (sent : gmap Uuid Sent) (arrivals : list Arrival) : list (Uuid * nat) :=
  (λ a, (ar_alert_id a, ar_device a)) <$> filter (λ a, is_measured sent a = true) arrivals.

Lemma deliveries_app sent a b :
  deliveries sent (a ++ b) = deliveries sent a ++ deliveries sent b.
Proof. unfold deliveries. by rewrite filter_app, fmap_app. Qed.

Lemma tally_spec sent arrivals :
  let t := tally sent arrivals in
  ta_seen t = list_to_set (deliveries sent arrivals) ∧
  (unique t + ta_duplicates t)%nat = length (deliveries sent arrivals) ∧
  length (ta_latency t) = unique t.
Proof.
  cbv zeta. induction arrivals as [|a l IH] using rev_ind; [done|].
  unfold tally. rewrite foldl_app. cbn [foldl]. fold (tally sent l). rewrite deliveries_app.
  destruct IH as (Hseen & Hcount & Hlat). set (t := tally sent l) in *.
  rewrite list_to_set_app_L, length_app, <- Hseen, <- Hcount.
  unfold tally_one, deliveries, is_measured, unique in *. rewrite filter_cons, filter_nil.
  destruct (sent !! ar_alert_id a) as [s|]; [destruct (se_measured s)|].
  2-3: rewrite (decide_False (P := false = true)) by done; cbn; split_and!; [set_solver|lia|done].
  rewrite (decide_True (P := true = true)) by done. cbn [negb fmap list_fmap length list_to_set].
  destruct (decide _) as [Hin|Hin]; cbn; [split_and!; [set_solver|lia|done]|].
  unfold record. rewrite size_union, size_singleton, length_app by set_solver. cbn.
  split_and!; [set_solver|lia|lia].
Qed.

(** Sets of pairs are no larger than the product of the lists they come from. *)
Lemma size_le_product (s : gset (Uuid * nat)) (ids : list Uuid) (ds : list nat) :
  (∀ id d, (id, d) ∈ s → id ∈ ids ∧ d ∈ ds) → (size s ≤ length ids * length ds)%nat.
Proof.
  intros H. unfold size, set_size. rewrite <- List.length_prod. apply List.NoDup_incl_length.
  - apply NoDup_ListNoDup, NoDup_elements.
  - intros [id d] Hin%list_elem_of_In%elem_of_elements. destruct (H id d Hin) as [Hid Hd].
    by apply List.in_prod; apply list_elem_of_In.
Qed.

(** *** Setting up *)

Lemma triage_app l r :
  triage (l ++ [r]) = triage_one (triage l) r.
Proof. unfold triage. by rewrite foldl_app. Qed.

(** The connected devices are those whose set-up worked, in the same order. *)
Lemma triage_connected results :
  su_connected (triage results) = omap result_ok results ∧
  (length (su_connected (triage results)) + su_failed_devices (triage results))%nat = length results.
Proof.
  induction results as [|r l [Hc Hn]] using rev_ind; [done|].
  rewrite triage_app, omap_app, length_app. destruct r; cbn; rewrite ?length_app, ?Hc; cbn.
  - split; [done|]. rewrite <- Hn, Hc. lia.
  - rewrite app_nil_r. split; [done|]. rewrite <- Hn, Hc. lia.
Qed.

(** The first three different messages of a run of errors. *)
Definition samples_ok (messages samples : list string) : Prop :=
  (length samples ≤ 3)%nat ∧ NoDup samples ∧ (∀ m, m ∈ samples → m ∈ messages) ∧
  (samples = [] → messages = []).

Lemma add_sample_ok messages samples m :
  samples_ok messages samples → samples_ok (messages ++ [m]) (add_sample m samples).
Proof.
  intros (Hl & Hnd & Hin & Hnil). unfold add_sample.
  destruct (Nat.ltb_spec (length samples) 3) as [Hlt|Hge]; cbn [andb].
  - case_bool_decide as Hm; cbn [negb].
    + split_and!; [done|done|set_solver|]. intros ->. set_solver.
    + split_and!; [rewrite length_app; cbn; lia| |set_solver|by destruct samples].
      apply NoDup_app. split_and!; [done| |apply NoDup_singleton]. set_solver.
  - split_and!; [done|done|set_solver|]. intros ->. cbn in Hge. lia.
Qed.

Definition messages_of {A} (results : list (result A string)) : list string :=
  omap result_err results.

Lemma triage_samples results :
  samples_ok (messages_of results) (su_error_samples (triage results)).
Proof.
  unfold messages_of. induction results as [|r l IH] using rev_ind.
  { split_and!; [cbn; lia|constructor|done|done]. }
  rewrite triage_app, omap_app. destruct r; cbn; [by rewrite app_nil_r|by apply add_sample_ok].
Qed.

Section Run.
Context {SV : Servers} {UC : UuidCodec}.

Lemma read_frames_device idx frames a : a ∈ (read_frames idx frames).1 → ar_device a = idx.
Proof.
  induction frames as [|[at_ f] frames IH]; cbn; [set_solver|].
  destruct f as [bytes|text| | |]; cbn; [..|set_solver|set_solver|done];
    destruct (read_frames idx frames) as [arrivals ready]; cbn in *; [|done].
  destruct (alert_id_of bytes); [|done]. rewrite elem_of_cons. intros [->|]; auto.
Qed.

(** The counts of a report, for any set-up and any posted alerts. *)
Lemma report_adds_up {Q : Quantiles} args point order frames sg arrivals :
  let su := triage (setup_devices point order) in
  arrivals ≡ₚ all_arrivals frames (su_connected su) →
  let '(r, outcome) := report args su sg arrivals in
  (rt_devices_connected r + rt_devices_failed r = length order)%nat ∧
  (rt_unique r + rt_duplicates r = length (deliveries (sg_sent sg) arrivals))%nat ∧
  rt_unique r = size (list_to_set (deliveries (sg_sent sg) (all_arrivals frames (su_connected su)))
                        : gset (Uuid * nat)) ∧
  (rt_unique r ≤ rt_expected r)%nat ∧
  sm_samples (rt_delivery r) = Z.of_nat (rt_unique r) ∧
  (outcome = Ok () ↔ (0 < rt_unique r)%nat).
Proof.
  intros su Harr. unfold report. cbn.
  destruct (tally_spec (sg_sent sg) arrivals) as (Hseen & Hcount & Hlat).
  destruct (triage_connected (setup_devices point order)) as [Hconn Hlen]. fold su in Hconn, Hlen.
  assert (Hperm : deliveries (sg_sent sg) arrivals ≡ₚ
                  deliveries (sg_sent sg) (all_arrivals frames (su_connected su)))
    by (unfold deliveries; by rewrite Harr).
  split_and!; [|done| | |by rewrite Hlat|].
  - rewrite Hlen. unfold setup_devices. by rewrite length_fmap.
  - unfold unique. rewrite Hseen. f_equal. apply set_eq. intros x.
    by rewrite !elem_of_list_to_set, Hperm.
  - unfold unique, expected, measured_sent. rewrite <- (length_map_to_list (filter _ _)).
    rewrite <- (length_fmap fst), <- (length_fmap cn_task (su_connected su)).
    apply size_le_product. intros id d. rewrite Hseen, elem_of_list_to_set.
    unfold deliveries. rewrite list_elem_of_fmap. intros (a & [= -> ->] & [Hm Ha]%list_elem_of_filter).
    rewrite Harr in Ha. apply list_elem_of_bind in Ha as (c & Ha & Hc).
    apply read_frames_device in Ha as ->. split; [|by apply list_elem_of_fmap_2].
    unfold is_measured in Hm. destruct (sg_sent sg !! ar_alert_id a) as [s|] eqn:Hs; [|done].
    apply list_elem_of_fmap. exists (ar_alert_id a, s). split; [done|].
    by apply elem_of_map_to_list, map_lookup_filter_Some.
  - destruct (Nat.eqb_spec (unique (tally (sg_sent sg) arrivals)) 0); split; intros; try done; lia.
Qed.
End Run.

(** *** Sending *)

Lemma send_alerts_fold warmup post n total s :
  send_alerts warmup post n total s = foldl (λ s n, send_one warmup n (post n) s) s (seq n total).
Proof. revert n s. induction total as [|total IH]; intros n s; [done|]. cbn. by rewrite IH. Qed.

(** Every request is either remembered as sent, measured exactly from the end of
    the warm-up on, with one latency sample if measured, or counted as failed
    with its message sampled. *)
Theorem send_alerts_accounts warmup post total :
  let s := send_alerts warmup post 0 total sending_start in
  let ok := λ n, is_ok (post n) = true in
  (sg_failed_alerts s + length (filter ok (seq 0 total)))%nat = total ∧
  length (sg_post_hist s) = length (filter (λ n, (warmup ≤ n)%nat) (filter ok (seq 0 total))) ∧
  samples_ok (messages_of (post <$> seq 0 total)) (sg_alert_errors s) ∧
  ∀ id x, sg_sent s !! id = Some x → ∃ n p, (n < total)%nat ∧ post n = Ok p ∧
    po_alert_id p = id ∧ x = MkSent (po_t0 p) (warmup <=? n)%nat.
Proof.
  cbv zeta. rewrite send_alerts_fold. induction total as [|total (Hf & Hh & Hs & Hm)].
  { split_and!; [done..|split_and!; [cbn; lia|constructor|done|done]|done]. }
  rewrite seq_S, foldl_snoc, !filter_app, fmap_app, !length_app. unfold messages_of in *.
  rewrite omap_app. cbn [Nat.add]. rewrite filter_cons, filter_nil.
  set (s := foldl _ sending_start _) in *. unfold send_one.
  destruct (post total) as [p|e] eqn:Hp; cbn [is_ok sg_failed_alerts sg_post_hist sg_sent sg_alert_errors].
  - rewrite decide_True by done. split_and!; [cbn; lia| |cbn; by rewrite Hp, app_nil_r|].
    + rewrite filter_cons, filter_nil. destruct (Nat.leb_spec warmup total).
      * rewrite decide_True by done. unfold record. rewrite length_app, Hh. done.
      * rewrite decide_False by lia. cbn. lia.
    + intros id x [[<- <-]|[_ Hx]]%lookup_insert_Some; [exists total, p; by split_and!; [lia|..]|].
      destruct (Hm id x Hx) as (n & q & ? & ?). exists n, q. split; [lia|done].
  - rewrite decide_False by done. rewrite filter_nil, !Nat.add_0_r. split_and!; [lia|done| |].
    + cbn. rewrite Hp. by apply add_sample_ok.
    + intros id x Hx. destruct (Hm id x Hx) as (n & q & ? & ?). exists n, q. split; [lia|done].
Qed.

(** The key comes from the argument, else from the environment, else from the
    file; a key that was looked up is not empty. *)
Theorem operator_key_precedence arg env dotenv key :
  find_operator_key arg env dotenv = Ok key →
  arg = Some key ∨
  (arg = None ∧ str_is_empty key = false ∧
   (env ≫= first_key = Some key ∨
    (env ≫= first_key = None ∧ ∃ line, line ∈ str_lines (default "" dotenv) ∧ key_of_line line = Some key))).
Proof.
  assert (Hne : ∀ v k, first_key v = Some k → str_is_empty k = false).
  { intros v k. unfold first_key. destruct (head _) as [x|]; cbn; [|done].
    destruct (str_is_empty _) eqn:He; [done|]. by intros [= <-]. }
  unfold find_operator_key. destruct arg as [a|]; [intros [= ->]; by left|].
  intros Hf. right. split; [done|]. revert Hf. destruct (env ≫= first_key) as [k|] eqn:Henv.
  - intros [= ->]. destruct env as [v|]; [|done]. split; [by eapply Hne|by left].
  - destruct (omap key_of_line _) as [|k ks] eqn:Hks; [done|]. cbn. intros [= ->].
    assert (Hin : key ∈ omap key_of_line (str_lines (default "" dotenv))) by (rewrite Hks; by left).
    apply list_elem_of_omap in Hin as (line & Hl & Hk). split; [|right; eauto].
    unfold key_of_line in Hk. destruct (strip_prefix _ _); [|done]. by eapply Hne.
Qed.

(** No more measured alerts are remembered than were timed. *)
Lemma measured_sent_insert sent k x :
  (measured_sent (<[k := x]> sent) ≤
   measured_sent sent + (if se_measured x then 1 else 0))%nat.
Proof.
  unfold measured_sent. destruct (se_measured x) eqn:Hx.
  - rewrite map_filter_insert_True by done. rewrite map_size_insert. case_match; unfold id; lia.
  - rewrite map_filter_insert_False by (cbn; congruence).
    rewrite Nat.add_0_r. apply map_subseteq_size, map_filter_strong_subseteq_ext.
    intros i y. rewrite lookup_delete_Some. intuition.
Qed.

Lemma measured_sent_bound warmup post total :
  let s := send_alerts warmup post 0 total sending_start in
  (measured_sent (sg_sent s) ≤ total - warmup)%nat.
Proof.
  cbv zeta. rewrite send_alerts_fold. induction total as [|total IH]; [done|].
  rewrite seq_S, foldl_snoc. set (s := foldl _ sending_start _) in *. cbn [Nat.add].
  unfold send_one. destruct (post total) as [p|e]; cbn [sg_sent]; [|lia].
  etrans; [apply measured_sent_insert|]. cbn [se_measured].
  destruct (Nat.leb_spec warmup total); lia.
Qed.

(** C39: The numbers of a load test add up. For any set-up (whichever devices
    failed, in whatever order they completed), any posted alerts and any
    interleaving of what the devices received: connected and failed devices are
    all devices; no more alerts are measured than asked for; every arrival of a measured alert is counted once, as a delivery
    or as a duplicate; a delivery is a pair of a measured alert and a connected
    device that received it; there are never more deliveries than expected, so
    the delivery ratio cannot exceed one; and the latency histogram has one
    sample per delivery. *)
Theorem loadgen_numbers_add_up {L : Libm} {SV : Servers} {UC : UuidCodec} {Q : Quantiles}
    args inp key p outcome :
  in_order inp ≡ₚ seq 0 (Z.to_nat (ag_devices args)) →
  (∀ l, in_drain inp l ≡ₚ l) → 0 ≤ ag_warmup_alerts args → 0 ≤ ag_alerts args →
  find_operator_key (ag_operator_key args) (in_env inp) (in_dotenv inp) = Ok key →
  loadgen_main args inp = (Some p, outcome) →
  let r := pr_report p in
  let received := deliveries (sg_sent (run_sending args inp key))
                    (all_arrivals (in_frames inp) (su_connected (run_setup args inp))) in
  (rt_devices_connected r + rt_devices_failed r = Z.to_nat (ag_devices args))%nat ∧
  Z.of_nat (rt_alerts_measured r) ≤ ag_alerts args ∧
  (rt_unique r + rt_duplicates r = length received)%nat ∧
  rt_unique r = size (list_to_set received : gset (Uuid * nat)) ∧
  (rt_unique r ≤ rt_expected r)%nat ∧
  sm_samples (rt_delivery r) = Z.of_nat (rt_unique r) ∧
  (outcome = Ok () ↔ (0 < rt_unique r)%nat).
Proof.
  intros Hord Hdrain Hw Ha Hkey. unfold loadgen_main. rewrite Hkey.
  destruct (check_args args); [|done]. destruct (_ =? 0)%nat; [done|].
  set (sg := run_sending args inp key). set (arr := in_drain inp _).
  pose proof (report_adds_up args (λ idx, let '(u, v) := in_random inp idx in
    scatter u v (ag_lat args) (ag_lon args) (ag_spread_meters args)) (in_order inp)
    (in_frames inp) sg arr (Hdrain _)) as Hr. fold (run_setup args inp) in Hr.
  assert (Hm : rt_alerts_measured (report args (run_setup args inp) sg arr).1 =
    measured_sent (sg_sent sg)) by done.
  destruct (report args _ sg arr) as [r out]. intros [= <- <-]. cbn [pr_report fst] in *.
  destruct Hr as (Hdev & Hcount & Hset & Hle & Hsamp & Hout).
  rewrite Hord, length_seq in Hdev. split_and!; [done| | |done..].
  - rewrite Hm. assert (Hb : (measured_sent (sg_sent sg) ≤
      Z.to_nat (ag_warmup_alerts args + ag_alerts args) - Z.to_nat (ag_warmup_alerts args))%nat)
      by apply measured_sent_bound. lia.
  - rewrite Hcount. apply Permutation_length. unfold deliveries, arr. by rewrite Hdrain.
Qed.

(** ** A concrete run

    Three devices, of which one cannot connect; two alerts after one warm-up; one
    frame arrives twice. *)

Definition toy_alert_text (n : N) : string := @uuid_to_string binary_uuids (uuid_of_N n).

Definition toy_servers : Servers := {|
  sv_register := λ idx _, if (idx =? 2)%nat then Err "refused" else
    Ok (MkReply 200 None (Ok (λ f, if decide (f = "device_id")
      then Some (toy_alert_text (N.of_nat idx)) else Some "token")));
  sv_ticket := λ _, Ok (MkReply 200 None (Ok (λ _, Some "ws://worker/")));
  sv_ws_connect := λ _, Ok ();
  sv_alert := λ _ body, Ok (MkReply 200 None (Ok (λ _, Some (toy_alert_text
    (if decide (bo_title body = "loadgen 1") then 0 else
     if decide (bo_title body = "loadgen 2") then 1 else 2)%N))));
  sv_delete := λ _, Ok 204;
  status_error := λ _, "error"; uuid_error := λ _, "uuid";
  json_str := λ payload _, Some payload;
|}.

Definition toy_quantiles : Quantiles := {|
  value_at_quantile := λ _ l, default 0 (head l); hist_max := λ l, foldr Z.max 0 l;
  hist_mean := λ _, f64_zero;
|}.

Definition toy_args : Args :=
  MkArgs "http://c" (Some "key") 3 2 1 500 f64_zero f64_zero f64_zero (f64_of_Z 5000) 64 5 60
    false true.

Definition toy_frame (at_ : Z) (alert : N) : Z * Frame := (at_, FBinary (toy_alert_text alert)).

Definition toy_inputs : Inputs :=
  MkInputs None None (λ _, (f64_zero, f64_zero)) [1; 0; 2]%nat [WReady; WReady]
    (λ n, (Z.of_nat n * 3000, Z.of_nat n * 3000 + 1000))
    (λ idx, if (idx =? 0)%nat
            then [toy_frame 5000 0; toy_frame 9000 1; toy_frame 9500 1; toy_frame 12000 2]
            else [toy_frame 8000 1; (8500, FClose); toy_frame 9000 2])
    reverse.

Abbreviation toy_run := (@loadgen_main toy_libm toy_servers binary_uuids toy_quantiles toy_args toy_inputs).

Lemma toy_run_numbers :
  match toy_run.1 with
  | Some p => bool_decide ((rt_unique (pr_report p), rt_duplicates (pr_report p),
      rt_expected (pr_report p), rt_devices_failed (pr_report p)) = (3, 1, 4, 1)%nat)
  | None => false
  end = true.
Proof. vm_compute. reflexivity. Qed.

Lemma loadgen_numbers_add_up_witness :
  ∃ p outcome, toy_run = (Some p, outcome) ∧
    (rt_unique (pr_report p) ≤ rt_expected (pr_report p))%nat ∧
    (rt_unique (pr_report p), rt_duplicates (pr_report p), rt_expected (pr_report p),
     rt_devices_failed (pr_report p)) = (3, 1, 4, 1)%nat.
Proof.
  pose proof toy_run_numbers as Hn. destruct toy_run as [[p|] outcome] eqn:Hr; [|discriminate Hn].
  apply bool_decide_eq_true_1 in Hn. exists p, outcome. split; [reflexivity|]. split; [|exact Hn].
  apply (@loadgen_numbers_add_up toy_libm toy_servers binary_uuids toy_quantiles toy_args toy_inputs
    "key" p outcome).
  - apply (Permutation_swap 0%nat 1%nat [2%nat]).
  - intros l. apply reverse_Permutation.
  - vm_compute. discriminate.
  - vm_compute. discriminate.
  - reflexivity.
  - exact Hr.
Defined.
